(* ===== verification/_CoqProject ===== *)
-Q . S2P
Prelude.v
GoStrings.v
RuneFacts.v
Base64.v
Numerals.v
Network.v
Flags.v
Job.v
Operator.v
Enrollment.v
Protocol.v
Postgres.v
Schema.v
JobStore.v
JobSpec.v
JobReconcile.v
JobContracts.v
JobProgress.v
AccountStore.v
AccountContracts.v
System.v
Runs.v
UuidHex.v
Mime.v
Http.v
JsonText.v
JsonFacts.v
JsonCoder.v
JsonSound.v
Messages.v
Files.v
GoFloat.v
Syscalls.v
Pool.v
Backoff.v
GoTime.v
Handlers.v
Replies.v
Controller.v
ControllerOps.v
ControllerSpec.v
ControllerTheorems.v
Presence.v
Delivery.v
PresenceSpec.v
PresenceTheorems.v
Inventory.v
Telemetry.v
InventoryTheorems.v
TelemetryTheorems.v
Privilege.v
PrivilegeTheorems.v
PrivilegePing.v
PrivilegeServer.v
PeerCred.v
Capabilities.v
Identity.v
Transport.v
Enroll.v
StateDir.v
WireTheorems.v
EnrollTheorems.v
EnrollInput.v
AgentMain.v
EnrollDemo.v
Config.v
ConfigTheorems.v
Serving.v
HelperMain.v
ControllerMain.v
CommandTheorems.v
Demo.v
EndToEnd.v
JobTheorems.v
AccountTheorems.v
