(* ===== verification/Prelude.v ===== *)
(** * StackPilot: a verification library

    StackPilot manages servers: a controller keeps jobs for enrolled agents in
    PostgreSQL and serves operators and agents over HTTP; an agent on each
    server asks for work, runs it and reports; a helper with root's rights
    answers the agent over a Unix socket.  The library models the Go code under
    src/internal and src/cmd and proves what makes it correct.

    ** The program and the files of the library

    Shared ground.  Prelude.v (this file): Go errors and results, machine
    integers, identifiers, the notations for early returns ([check], [fail_if]),
    the tactic [bsplit] and generic lemmas.  GoStrings.v, Base64.v, GoFloat.v:
    the parts of the Go standard library the code computes with; RuneFacts.v:
    lemmas about them.  Numerals.v, Network.v, Flags.v: decimal numerals, the
    addresses of net and net/netip, the package flag.  Mime.v, GoTime.v: media
    types, calendar times and their text.  Http.v, Files.v:
    responses, bodies, file contents.  JsonText.v: encoding/json between texts
    and values; JsonFacts.v: what is printed is read; JsonCoder.v: structs by
    their json tags; JsonSound.v: what is decoded has the types of its struct.
    Syscalls.v: programs over calls to the operating system, with rules to
    reason about every answer.  UuidHex.v: an instance of the textual form of
    identifiers.

    The controller's domain.  Job.v (internal/job), Operator.v
    (internal/operator), Enrollment.v (internal/enrollment), Protocol.v
    (internal/protocol): data, validators, tokens, passwords, permissions.
    Messages.v: the messages of protocol.go as JSON; the other structs have
    their coders where they are declared.  Replies.v: the text of every reply.
    WireTheorems.v: all messages, between the two sides that exchange them.

    The store (internal/database).  Postgres.v: the transaction monad - an
    environment decides which statement fails, which commit or reply is lost,
    what the clocks and generated identifiers are, which rows are locked.
    Schema.v: the tables with the constraints of the migrations.  JobStore.v:
    every method of jobs.go; AccountStore.v: every method of database.go that
    touches tables; one definition per method, statement by statement.
    JobSpec.v: the abstract life cycle of a job and its history, the contract
    of the job store.  JobReconcile.v, JobContracts.v, AccountContracts.v:
    specifications of the methods branch by branch, and that they implement
    them.  JobProgress.v: what they do when nothing fails.  System.v, Runs.v:
    all methods as one call type, the tables reachable by any sequence of calls
    and failures, their invariant.  JobTheorems.v, AccountTheorems.v: the
    guarantees; Demo.v: a history they are instantiated at.

    The controller (internal/controller/controller.go).  Handlers.v: requests,
    replies, and handlers as programs whose effects are calls of the store, the
    clock, randomness and the login slots; other requests may run between any
    two effects.  Controller.v: the agents' endpoints; ControllerOps.v: the
    operators' endpoints and both routers.  ControllerSpec.v,
    ControllerTheorems.v: what a reply of success implies.  Delivery.v: a job
    from the store to the agent that is told of it.  Config.v,
    ConfigTheorems.v (config.go): the environment and what it is accepted for.
    Serving.v: listeners, servers and their shutdown.  Pool.v
    (internal/database/database.go, migrate.go): the pool, the migrations, the
    sanitizer of errors.

    The agent (internal/agent).  Backoff.v: retry delays.  Presence.v: the loop
    of presence.go with its requests (also those of inventory.go and
    telemetry.go), the certificate manager and executor.go, against any
    [AgentWorld].  PresenceSpec.v, PresenceTheorems.v: its invariants and its
    refinement of the abstract protocol of a daemon.  Inventory.v (inventory.go), Telemetry.v
    (telemetry_linux.go), InventoryTheorems.v, TelemetryTheorems.v: the
    collectors.  Capabilities.v (privilege_linux.go): the checks at the start.
    Identity.v (identity.go), Transport.v (transport.go, and the start of
    runPresenceWithConfig), Enroll.v (enroll.go): keys, metadata, trust roots,
    the client certificate and enrollment as programs over the calls they make.
    StateDir.v: a machine that answers those calls, with files, faults, short
    writes and crashes, and rules to reason about programs on it.
    EnrollTheorems.v: what any sequence of attempts leaves in the state
    directory; EnrollInput.v: the token and the CA file it accepts;
    EnrollDemo.v: instances of the interfaces and a history.
    EndToEnd.v: daemon, lossy network, controller, store and any other users
    together.

    The commands (src/cmd).  AgentMain.v (with agent.go), HelperMain.v,
    ControllerMain.v: the command lines, and each command as a program over the
    calls of the parts it runs.  CommandTheorems.v: what they print and store.

    The privilege boundary (internal/privilege).  Privilege.v: packets, file
    checks, server, connection handler, client, hardening.  PrivilegeServer.v:
    the accept loop and its goroutines as a transition system.
    PrivilegeTheorems.v: what holds whatever the operating system answers.
    PrivilegePing.v: client and helper at the two ends of one socket.
    PeerCred.v: the reader of the peer's credentials.

    ** How state and operations correspond

    A Go struct is a Record with its fields; (T, error) is [result T], a
    returned error alone [option error].  Integers are [Z], wrapped where the
    code wraps ([int64], [uint64]) and compared to the bounds it names.
    Strings are sequences of bytes.  The [*DB] methods live in the monad
    [M DB]; a handler is a [step_or_reply]; a block of the daemon is a [D W],
    an operating system function a [prog] or, with early returns, an
    [or_return].  Code that is repeated in the source (the checks of a JSON
    request, the two coders of packets, the two transport checks) is one
    definition with what differs as arguments.  Messages of errors keep the
    constant part of their format; log messages are left out.

    ** What the theorems show

    Jobs: the store refines the life cycle whatever fails; recorded events
    explain the stored state; a job is started at most once, runs at most
    once end to end, at most one is in flight per agent, settled jobs are
    frozen, reports are idempotent, creation is atomic, claims are first in
    first out and make progress, reading reconciles what is overdue.
    Accounts: a token enrolls one key, sessions are bounded, a password
    verifies exactly when it derives the stored key.  Messages: what one side
    writes the other reads, a report that is accepted fits the table it is
    stored in, every reply is one JSON document, and the agent is told exactly
    the job that was dispatched to it.  Endpoints: success means
    an authenticated, authorised and granted request; login slots are given
    back.  Controller: the configuration is accepted exactly as documented,
    servers run only on listeners opened for it and are collected at the end,
    a sanitized error does not depend on a password of the forms its two
    patterns cover; commands print only what is stored and store no secret.  Agent: it follows the protocol, executes only what was granted,
    reports before it starts anything else, stops only when its context has ended, no
    certificate could be made or a request failed for good,
    and waits within the documented delays.  Identity: a state directory
    stands for one key, its metadata is absent or whole, enrollment happens
    once, tokens and CA files are accepted exactly in their documented form; the
    loop is entered only by a process without privileges, over https.
    Collectors: sums are exact or
    refused, floating point loses nothing on the kernel's formats, quoting is
    inverted, a sample passes the controller's validation.  Helper: nothing is
    served or removed before the boundary is secured, only the allowed user is
    answered, only root is believed, handlers are bounded, shutdown ends.

    ** Bounds and fuel

    [runes_fuel] takes the length of its input: decoding consumes at least a
    byte ([runes_fuel_enough]).  [value_at] takes the length of the text, since
    a value is not empty ([value_fuel_enough]), the loop over the parameters of
    a media type likewise ([media_params_fuel]); values nest to the depth of
    encoding/json, [maxNestingDepth].  [run n] repeats the daemon's loop [n] times;
    its theorems are about every [n].  Bounded reads and scanner lines have the
    limits of the source ([MaxScanTokenSize], [MaxPacketSize], ...).  [ca_blocks] takes the length of the file: a block
    is not empty ([ca_blocks_fuel]).  [run_for n] cuts a program off after [n]
    calls, which is a crash; its theorems are about every [n].  All other
    recursion is structural; the loop of the accept goroutine is a step
    relation.

    ** Assumptions

    Code outside the repository is an interface: [UuidText] with [UuidTextLaws]
    (google/uuid), [Sha256], [Argon2] with [Argon2Laws], [UnicodeTables] (case
    mapping outside ASCII), [Location] (the offset of the local time zone),
    [NetURL] (net/url), [Ed25519] and [KeyCoding] with their laws (keys and
    their PKCS #8 and PEM forms), [X509], [PemConsumes] (a decoded block is
    consumed); in the loop of the daemon the certificates are part of
    [AgentWorld]. Each theorem that needs a law has it as a hypothesis and an
    instance where it holds. Methods of the store interleave as wholes: row
    locks and unique indexes make the transactions of jobs.go serial where they
    meet, and SKIP LOCKED is kept as an answer of the environment. Deadlines
    and cancellation are failures of the call that meets them.

    ** Not modelled

    Below the calls of the models: PostgreSQL and pgx, the tern library that
    runs the migrations, net/http with the cleaning of request paths by
    ServeMux, crypto/tls, the timers and signals behind a context.  Log
    messages.

    ** Plan

    SHA-256 as a definition; the parser of net/url for the addresses the code
    accepts; statements of two transactions interleaved instead of whole
    methods. *)

From stdpp Require Export base option list gmap strings sorting relations.
From Stdlib Require Export ZArith Lia Ascii.

#[global] Open Scope Z_scope.

(** ** Go errors

    [errorString] is a value made by [errors.New] or [fmt.Errorf] without [%w]
    at the point of failure; [sentinel] is a package-level error variable,
    identified by its qualified name; [wrapError] is [fmt.Errorf] with one
    [%w].  Messages keep the constant part of the format string: no code of
    the repository branches on the text of an error. *)
Inductive error : Type :=
| errorString (msg : string)
| sentinel (name : string)
| wrapError (msg : string) (inner : error).

(** [errors.Is(err, target)] for a sentinel target. *)
Fixpoint errors_Is (err target : error) : bool :=
  match err with
  | errorString _ => false
  | sentinel n =>
      match target with
      | sentinel m => String.eqb n m
      | _ => false
      end
  | wrapError _ inner => errors_Is inner target
  end.

(** An error that is none of the sentinels: what callers treat as internal. *)
Fixpoint opaque_error (err : error) : bool :=
  match err with
  | errorString _ => true
  | sentinel _ => false
  | wrapError _ inner => opaque_error inner
  end.

(** A Go function returning [(T, error)] returns [Ok v] or [Err e]; a function
    returning only [error] returns [option error], [None] being [nil]. *)
Inductive result (A : Type) : Type :=
| Ok (a : A)
| Err (e : error).
Arguments Ok {A} a.
Arguments Err {A} e.

#[global] Instance error_eq_dec : EqDecision error.
Proof. solve_decision. Defined.

#[global] Instance result_eq_dec `{EqDecision A} : EqDecision (result A).
Proof. solve_decision. Defined.

#[global] Instance result_ret : MRet result := fun A a => Ok a.

#[global] Instance result_bind : MBind result := fun A B k r =>
  match r with
  | Ok a => k a
  | Err e => Err e
  end.

Definition is_null {A} (o : option A) : bool := match o with None => true | Some _ => false end.

Definition is_Ok {A} (r : result A) : bool :=
  match r with
  | Ok _ => true
  | Err _ => false
  end.

(** [if c { return err }] in a function that returns only an error. *)
Declare Scope go_scope.
Delimit Scope go_scope with go.
#[global] Open Scope go_scope.

Notation "'fail_if' c 'with' e ; k" :=
  (if c then Some e else k)
  (at level 100, c at level 99, e at level 99, k at level 200, right associativity) : go_scope.

(** [if err := f(...); err != nil { return wrap(err) }]. *)
Notation "'check' m 'as' e 'with' w ; k" :=
  (match m with Some e => Some w | None => k end)
  (at level 100, m at level 99, e name, w at level 99, k at level 200, right associativity) : go_scope.

(** The same two forms in a function that returns a value and an error. *)
Notation "'fail_if' c 'with' e 'else' k" :=
  (if c then Err e else k)
  (at level 100, c at level 99, e at level 99, k at level 200, right associativity) : go_scope.

Notation "'check' m 'as' e 'with' w 'else' k" :=
  (match m with Some e => Err w | None => k end)
  (at level 100, m at level 99, e name, w at level 99, k at level 200, right associativity) : go_scope.

(** ** Machine integers

    Go's [int] and [int64] are 64-bit two's complement on the platforms the
    repository builds for, [uint64] wraps modulo 2^64. *)
Definition MaxInt64 : Z := 9223372036854775807.
Definition MaxUint64 : Z := 18446744073709551615.

Definition int64 (z : Z) : Z := (z + 2 ^ 63) mod 2 ^ 64 - 2 ^ 63.
Definition uint64 (z : Z) : Z := z mod 2 ^ 64.

Definition in_int64 (z : Z) : Prop := - 2 ^ 63 <= z <= MaxInt64.
Definition in_uint64 (z : Z) : Prop := 0 <= z <= MaxUint64.

Lemma int64_id z : in_int64 z -> int64 z = z.
Proof.
  unfold in_int64, int64, MaxInt64. intros H.
  rewrite Z.mod_small; lia.
Qed.

Lemma uint64_id z : in_uint64 z -> uint64 z = z.
Proof. unfold in_uint64, uint64, MaxUint64. intros H. apply Z.mod_small; lia. Qed.

Lemma int64_range z : in_int64 (int64 z).
Proof.
  unfold in_int64, int64, MaxInt64.
  pose proof (Z.mod_pos_bound (z + 2 ^ 63) (2 ^ 64) ltac:(lia)). lia.
Qed.

(** ** Time

    Instants and durations are integers.  [time.Duration] counts nanoseconds;
    PostgreSQL timestamps count microseconds. *)
Definition Nanosecond : Z := 1.
Definition Millisecond : Z := 1000000.
Definition Second : Z := 1000000000.
Definition Minute : Z := 60 * Second.
Definition Hour : Z := 60 * Minute.

(** [d.Seconds()] converted to [int], for a whole number of seconds. *)
Definition duration_seconds (d : Z) : Z := d / Second.

(** [$n * interval '1 second'] in microseconds. *)
Definition pg_interval_seconds (n : Z) : Z := n * 1000000.

(** ** Universally unique identifiers

    [uuid.UUID] is a 16-byte array; it is kept as the 128-bit number its bytes
    spell, so that PostgreSQL's byte-wise ordering is the order of numbers. *)
Definition UUID : Type := N.

(** The textual form belongs to the packages github.com/google/uuid and
    PostgreSQL: an interface with the law the repository relies on. *)
Class UuidText := {
  uuid_String : UUID -> string;
  uuid_Parse : string -> option UUID;
}.

Class UuidTextLaws `{UuidText} : Prop := {
  uuid_parse_string : forall u, uuid_Parse (uuid_String u) = Some u;
  uuid_string_ascii : forall u, Forall (fun b => (N_of_ascii b < 128)%N) (String.list_ascii_of_string (uuid_String u));
}.

(** ** Tactics shared by the development *)

(** Splits boolean conditions and conjunctions found in the context. *)
Ltac bsplit :=
  repeat match goal with
  | H : (_ && _)%bool = true |- _ => apply andb_prop in H; destruct H
  | H : (_ || _)%bool = false |- _ => apply orb_false_elim in H; destruct H
  | H : negb _ = true |- _ => apply negb_true_iff in H
  | H : negb _ = false |- _ => apply negb_false_iff in H
  | H : (_ <? _) = true |- _ => apply Z.ltb_lt in H
  | H : (_ <? _) = false |- _ => apply Z.ltb_ge in H
  | H : (_ <=? _) = true |- _ => apply Z.leb_le in H
  | H : (_ <=? _) = false |- _ => apply Z.leb_gt in H
  | H : (_ =? _) = true |- _ => apply Z.eqb_eq in H
  | H : (_ =? _) = false |- _ => apply Z.eqb_neq in H
  | H : String.eqb _ _ = true |- _ => apply String.eqb_eq in H
  | H : String.eqb _ _ = false |- _ => apply String.eqb_neq in H
  | H : _ /\ _ |- _ => destruct H
  end.

(** Case analysis on every conditional of the goal or the context, then
    boolean clean-up. *)
Ltac cases := repeat (case_match; simplify_eq/=; try done).

(** ** Lists *)

Lemma elem_of_take_inv {A} (x : A) n l : x ∈ take n l -> x ∈ l.
Proof.
  intros H. rewrite <- (take_drop n l). apply elem_of_app. by left.
Qed.

Lemma length_filter_app {A} (P : A -> Prop) `{!forall x, Decision (P x)} l1 l2 :
  length (filter P (l1 ++ l2)) = (length (filter P l1) + length (filter P l2))%nat.
Proof. by rewrite filter_app, length_app. Qed.
