(* ===== verification/GoStrings.v ===== *)
(** * Strings and bytes of the Go standard library

    What the repository uses of packages strings, unicode/utf8, unicode,
    strconv, bufio and encoding/base64, on strings kept as sequences of
    bytes.  A rune is an integer; decoding follows the table of well-formed
    UTF-8 sequences, and an ill-formed byte decodes to U+FFFD of width one. *)

From S2P Require Import Prelude.

Abbreviation bytes := (list ascii).

Definition byte_val (b : ascii) : Z := Z.of_N (N_of_ascii b).
Definition byte_of (z : Z) : ascii := ascii_of_N (Z.to_N z).

Definition bytes_of (s : string) : bytes := String.list_ascii_of_string s.
Definition string_of (l : bytes) : string := String.string_of_list_ascii l.

(** [len(s)] *)
Definition len (s : string) : Z := Z.of_nat (String.length s).

Definition is_lower (b : ascii) : bool := (97 <=? byte_val b) && (byte_val b <=? 122).
Definition is_upper (b : ascii) : bool := (65 <=? byte_val b) && (byte_val b <=? 90).
Definition is_digit (b : ascii) : bool := (48 <=? byte_val b) && (byte_val b <=? 57).
Definition is_byte (z : Z) (b : ascii) : bool := byte_val b =? z.

Definition all_bytes (p : ascii -> bool) (s : string) : bool := forallb p (bytes_of s).

(** ** Package strings *)

Fixpoint has_prefix (l p : bytes) : bool :=
  match p, l with
  | [], _ => true
  | x :: p', y :: l' => Ascii.eqb x y && has_prefix l' p'
  | _ :: _, [] => false
  end.

Definition strings_HasPrefix (s p : string) : bool := has_prefix (bytes_of s) (bytes_of p).

Definition strings_HasSuffix (s p : string) : bool :=
  has_prefix (rev (bytes_of s)) (rev (bytes_of p)).

Definition strings_TrimPrefix (s p : string) : string :=
  if strings_HasPrefix s p then string_of (drop (String.length p) (bytes_of s)) else s.

Definition strings_TrimSuffix (s p : string) : string :=
  if strings_HasSuffix s p
  then string_of (take (String.length s - String.length p) (bytes_of s)) else s.

(** Index of the first occurrence of a non-empty pattern. *)
Fixpoint index_of (l p : bytes) : option nat :=
  if has_prefix l p then Some 0%nat
  else match l with
       | [] => None
       | _ :: l' => S <$> index_of l' p
       end.

Definition strings_Contains (s p : string) : bool :=
  match index_of (bytes_of s) (bytes_of p) with Some _ => true | None => false end.

Definition strings_ContainsAny (s chars : string) : bool :=
  existsb (fun b => existsb (Ascii.eqb b) (bytes_of chars)) (bytes_of s).

Definition IndexByte (l : bytes) (b : ascii) : option nat :=
  index_of l [b].

(** [strings.Split(s, sep)] for a one-byte separator. *)
Fixpoint split_byte (sep : ascii) (acc l : bytes) : list bytes :=
  match l with
  | [] => [rev acc]
  | b :: l' => if Ascii.eqb b sep then rev acc :: split_byte sep [] l'
               else split_byte sep (b :: acc) l'
  end.

Definition strings_Split (s : string) (sep : ascii) : list string :=
  string_of <$> split_byte sep [] (bytes_of s).

(** [strings.SplitN(s, sep, 2)] and [strings.Cut] for a one-byte separator. *)
Definition cut_byte (l : bytes) (sep : ascii) : option (bytes * bytes) :=
  i ← IndexByte l sep; Some (take i l, drop (S i) l).

(** ** Package unicode/utf8 *)

Definition RuneError : Z := 65533.

Definition cont (lo hi : Z) (b : ascii) : bool := (lo <=? byte_val b) && (byte_val b <=? hi).

(** The first rune of a non-empty byte sequence and its width; the width of an
    ill-formed first byte is one and the flag is false. *)
Definition decode_rune (l : bytes) : Z * nat * bool :=
  match l with
  | [] => (RuneError, 0%nat, false)
  | b0 :: l1 =>
      let v0 := byte_val b0 in
      let bad := (RuneError, 1%nat, false) in
      if v0 <? 128 then (v0, 1%nat, true)
      else if v0 <? 194 then bad
      else if v0 <? 224 then
        match l1 with
        | b1 :: _ => if cont 128 191 b1
                     then ((v0 - 192) * 64 + (byte_val b1 - 128), 2%nat, true) else bad
        | _ => bad
        end
      else if v0 <? 240 then
        let lo := if v0 =? 224 then 160 else 128 in
        let hi := if v0 =? 237 then 159 else 191 in
        match l1 with
        | b1 :: b2 :: _ =>
            if cont lo hi b1 && cont 128 191 b2
            then ((v0 - 224) * 4096 + (byte_val b1 - 128) * 64 + (byte_val b2 - 128), 3%nat, true)
            else bad
        | _ => bad
        end
      else if v0 <? 245 then
        let lo := if v0 =? 240 then 144 else 128 in
        let hi := if v0 =? 244 then 143 else 191 in
        match l1 with
        | b1 :: b2 :: b3 :: _ =>
            if cont lo hi b1 && cont 128 191 b2 && cont 128 191 b3
            then ((v0 - 240) * 262144 + (byte_val b1 - 128) * 4096
                  + (byte_val b2 - 128) * 64 + (byte_val b3 - 128), 4%nat, true)
            else bad
        | _ => bad
        end
      else bad
  end.

(** The runes of a string with the bytes each one spans; [fuel] bounds the
    number of runes, and the length of the string is enough. *)
Fixpoint runes_fuel (fuel : nat) (l : bytes) : list (Z * bool * bytes) :=
  match fuel, l with
  | _, [] => []
  | O, _ => []
  | S fuel', _ =>
      let '(r, w, ok) := decode_rune l in
      (r, ok, take w l) :: runes_fuel fuel' (drop w l)
  end.

Definition runes (s : string) : list (Z * bool * bytes) :=
  runes_fuel (String.length s) (bytes_of s).

Definition utf8_ValidString (s : string) : bool := forallb (fun r => r.1.2) (runes s).
Definition utf8_RuneCountInString (s : string) : Z := Z.of_nat (length (runes s)).

(** [for _, r := range s] *)
Definition range_runes (s : string) : list Z := (fun r => r.1.1) <$> runes s.

(** [utf8.EncodeRune]; what is no Unicode scalar value is encoded as U+FFFD. *)
Definition utf8_EncodeRune (r : Z) : bytes :=
  let tail z := byte_of (128 + z mod 64) in
  if (r <? 0) || (1114111 <? r) || ((55296 <=? r) && (r <=? 57343)) then [byte_of 239; byte_of 191; byte_of 189]
  else if r <? 128 then [byte_of r]
  else if r <? 2048 then [byte_of (192 + r / 64); tail r]
  else if r <? 65536 then [byte_of (224 + r / 4096); tail (r / 64); tail r]
  else [byte_of (240 + r / 262144); tail (r / 4096); tail (r / 64); tail r].

(** ** Package unicode *)

Definition unicode_IsControl (r : Z) : bool :=
  ((0 <=? r) && (r <=? 31)) || ((127 <=? r) && (r <=? 159)).

Definition unicode_IsSpace (r : Z) : bool :=
  ((9 <=? r) && (r <=? 13)) || (r =? 32) || (r =? 133) || (r =? 160) || (r =? 5760)
  || ((8192 <=? r) && (r <=? 8202)) || (r =? 8232) || (r =? 8233) || (r =? 8239)
  || (r =? 8287) || (r =? 12288).

Fixpoint drop_space (l : list (Z * bool * bytes)) : list (Z * bool * bytes) :=
  match l with
  | r :: l' => if unicode_IsSpace r.1.1 then drop_space l' else l
  | [] => []
  end.

Definition unrunes (l : list (Z * bool * bytes)) : string := string_of (concat (snd <$> l)).

(** [strings.TrimSpace] *)
Definition strings_TrimSpace (s : string) : string :=
  unrunes (rev (drop_space (rev (drop_space (runes s))))).

(** [strings.Fields] *)
Fixpoint fields_of (acc : bytes) (l : list (Z * bool * bytes)) : list bytes :=
  match l with
  | [] => match acc with [] => [] | _ => [acc] end
  | r :: l' =>
      if unicode_IsSpace r.1.1
      then match acc with [] => fields_of [] l' | _ => acc :: fields_of [] l' end
      else fields_of (acc ++ r.2) l'
  end.

Definition strings_Fields (s : string) : list string := string_of <$> fields_of [] (runes s).

(** [strings.ToLower]: ASCII letters are folded here; the table of the other
    letters is the parameter [lower], applied rune by rune. *)
Definition lower_byte (b : ascii) : ascii :=
  if is_upper b then byte_of (byte_val b + 32) else b.

Class UnicodeTables := { lower_rune : Z -> Z }.

Definition strings_ToLower `{UnicodeTables} (s : string) : string :=
  if all_bytes (fun b => byte_val b <? 128) s
  then string_of (lower_byte <$> bytes_of s)
  else string_of (concat ((fun r => utf8_EncodeRune (lower_rune r)) <$> range_runes s)).

(** ** Package strconv *)

Definition digit_val (base : Z) (b : ascii) : option Z :=
  let d := if is_digit b then Some (byte_val b - 48)
           else if is_lower b then Some (byte_val b - 87)
           else if is_upper b then Some (byte_val b - 55)
           else None in
  match d with
  | Some v => if v <? base then Some v else None
  | None => None
  end.

Fixpoint digits_val (base acc : Z) (l : bytes) : option Z :=
  match l with
  | [] => Some acc
  | b :: l' => d ← digit_val base b; digits_val base (acc * base + d) l'
  end.

Inductive num_error := ErrSyntax | ErrRange.

(** [strconv.ParseUint(s, base, bits)] for base 10 or 16. *)
Definition strconv_ParseUint (s : string) (base bits : Z) : Z + num_error :=
  match bytes_of s with
  | [] => inr ErrSyntax
  | l => match digits_val base 0 l with
         | None => inr ErrSyntax
         | Some v => if v <? 2 ^ bits then inl v else inr ErrRange
         end
  end.

(** [strconv.ParseInt(s, 10, 64)], and [strconv.Atoi] on 64-bit platforms. *)
Definition strconv_ParseInt (s : string) : Z + num_error :=
  let '(neg, l) :=
    match bytes_of s with
    | b :: l' => if is_byte 45 b then (true, l') else if is_byte 43 b then (false, l')
                 else (false, b :: l')
    | [] => (false, [])
    end in
  match l with
  | [] => inr ErrSyntax
  | _ => match digits_val 10 0 l with
         | None => inr ErrSyntax
         | Some v => let z := if neg : bool then - v else v in
                     if (- 2 ^ 63 <=? z) && (z <=? MaxInt64) then inl z else inr ErrRange
         end
  end.

Definition strconv_Atoi := strconv_ParseInt.

(** ** Package bufio: [Scanner] with [ScanLines]

    The lines in order, and whether the scan ends with [ErrTooLong]: a line of
    65536 bytes or more before its newline does not fit the buffer. *)
Definition MaxScanTokenSize : nat := Z.to_nat 65536.

Definition drop_cr (l : bytes) : bytes :=
  match rev l with
  | b :: r => if is_byte 13 b then rev r else l
  | [] => []
  end.

Fixpoint scan_until_long (ls : list bytes) : list string * bool :=
  match ls with
  | [] => ([], true)
  | [l] => match l with
           | [] => ([], true)
           | _ => if (length l <? MaxScanTokenSize)%nat then ([string_of (drop_cr l)], true)
                  else ([], false)
           end
  | l :: ls' =>
      if (length l <? MaxScanTokenSize)%nat
      then let '(rest, ok) := scan_until_long ls' in (string_of (drop_cr l) :: rest, ok)
      else ([], false)
  end.

Definition scan_lines (s : string) : list string * bool :=
  scan_until_long (split_byte "010"%char [] (bytes_of s)).

(** ** Facts *)

Lemma byte_val_range b : 0 <= byte_val b < 256.
Proof.
  unfold byte_val. pose proof (N_ascii_bounded b). lia.
Qed.

Lemma byte_of_val b : byte_of (byte_val b) = b.
Proof. unfold byte_of, byte_val. by rewrite N2Z.id, ascii_N_embedding. Qed.

Lemma byte_val_of z : 0 <= z < 256 -> byte_val (byte_of z) = z.
Proof.
  intros H. unfold byte_of, byte_val. rewrite N_ascii_embedding; lia.
Qed.

Lemma bytes_of_string_of l : bytes_of (string_of l) = l.
Proof. apply String.list_ascii_of_string_of_list_ascii. Qed.

Lemma string_of_bytes_of s : string_of (bytes_of s) = s.
Proof. apply String.string_of_list_ascii_of_string. Qed.

Lemma string_length_of l : String.length (string_of l) = length l.
Proof. induction l; simpl; congruence. Qed.

Lemma length_bytes_of s : length (bytes_of s) = String.length s.
Proof. induction s; simpl; congruence. Qed.


Lemma bytes_of_app s1 s2 : bytes_of (s1 +:+ s2) = bytes_of s1 ++ bytes_of s2.
Proof. induction s1; simpl; [done|]. by f_equal. Qed.

Lemma len_nonneg s : 0 <= len s.
Proof. unfold len. lia. Qed.

Lemma len_app s1 s2 : len (s1 +:+ s2) = len s1 + len s2.
Proof.
  unfold len. rewrite <- !length_bytes_of, bytes_of_app, length_app. lia.
Qed.

Lemma bytes_of_inj s1 s2 : bytes_of s1 = bytes_of s2 -> s1 = s2.
Proof. intros H. by rewrite <- (string_of_bytes_of s1), H, string_of_bytes_of. Qed.

Lemma has_prefix_app p l : has_prefix (p ++ l) p = true.
Proof. induction p as [|x p IH]; [by destruct l|]. simpl. by rewrite Ascii.eqb_refl. Qed.

Lemma has_prefix_inv p l : has_prefix l p = true -> l = p ++ drop (length p) l.
Proof.
  revert l. induction p as [|x p IH]; intros l H; [done|].
  destruct l as [|y l]; simpl in *; [done|]. bsplit.
  apply Ascii.eqb_eq in H. subst. f_equal. by apply IH.
Qed.

Lemma index_of_byte_None l b : index_of l [b] = None <-> b ∉ l.
Proof.
  induction l as [|x l IH]; simpl.
  - split; [set_solver|done].
  - destruct (Ascii.eqb b x) eqn:E; simpl.
    + apply Ascii.eqb_eq in E. subst. split; [by destruct l|set_solver].
    + apply Ascii.eqb_neq in E. rewrite fmap_None, IH. set_solver.
Qed.

Lemma strings_Contains_byte s b :
  strings_Contains s (String b EmptyString) = false <-> b ∉ bytes_of s.
Proof.
  unfold strings_Contains. change (bytes_of (String b EmptyString)) with [b].
  rewrite <- index_of_byte_None. by destruct (index_of _ _).
Qed.

Lemma split_byte_none sep acc l : sep ∉ l -> split_byte sep acc l = [rev acc ++ l].
Proof.
  revert acc. induction l as [|x l IH]; intros acc H; simpl.
  - by rewrite app_nil_r.
  - destruct (Ascii.eqb x sep) eqn:E; [apply Ascii.eqb_eq in E; set_solver|].
    rewrite IH by set_solver. simpl. by rewrite <- app_assoc.
Qed.

Lemma split_byte_cons sep acc l1 l2 :
  sep ∉ l1 -> split_byte sep acc (l1 ++ sep :: l2) = (rev acc ++ l1) :: split_byte sep [] l2.
Proof.
  revert acc. induction l1 as [|x l IH]; intros acc H; simpl.
  - by rewrite Ascii.eqb_refl, app_nil_r.
  - destruct (Ascii.eqb x sep) eqn:E; [apply Ascii.eqb_eq in E; set_solver|].
    rewrite IH by set_solver. simpl. by rewrite <- app_assoc.
Qed.

Lemma all_bytes_spec p s : all_bytes p s = true <-> forall b, b ∈ bytes_of s -> p b = true.
Proof.
  unfold all_bytes. rewrite forallb_forall. by setoid_rewrite <- list_elem_of_In.
Qed.

(** An ASCII text has as many runes as bytes. *)
Lemma rune_count_ascii s :
  all_bytes (fun b => byte_val b <? 128) s = true -> utf8_RuneCountInString s = len s.
Proof.
  unfold all_bytes, utf8_RuneCountInString, runes, len. rewrite <- length_bytes_of.
  generalize (bytes_of s) as l. intros l Hl. f_equal.
  induction l as [|b l IH]; [done|]. cbn [length runes_fuel].
  cbn [forallb] in Hl. bsplit. unfold decode_rune at 1.
  rewrite (proj2 (Z.ltb_lt _ _)) by done. cbn [length drop take]. rewrite drop_0. f_equal. by apply IH.
Qed.

Lemma index_of_byte_app l1 l2 b : b ∉ l1 -> IndexByte (l1 ++ b :: l2) b = Some (length l1).
Proof.
  unfold IndexByte. induction l1 as [|x l1 IH]; intros H; simpl.
  - rewrite Ascii.eqb_refl. by destruct l2.
  - destruct (Ascii.eqb b x) eqn:E; [apply Ascii.eqb_eq in E; set_solver|].
    simpl. rewrite IH by set_solver. done.
Qed.
