(* ===== verification/RuneFacts.v ===== *)
(** * Facts about runes, trimming and fields

    A string decodes the same way from any rune boundary, and a prefix that
    ends at a boundary decodes to the prefix of the runes.  So the runes of a
    trimmed string are the trimmed runes. *)

From S2P Require Import Prelude GoStrings.

Abbreviation rune_list := (list (Z * bool * bytes)).

Definition head_rune (l : bytes) : Z * bool * bytes :=
  let '(r, w, ok) := decode_rune l in (r, ok, take w l).

Definition width (l : bytes) : nat := (decode_rune l).1.2.

Lemma width_bounds l : l <> [] -> (1 <= width l <= length l)%nat.
Proof.
  destruct l as [|b0 l]; [done|]. intros _. unfold width, decode_rune.
  repeat case_match; simplify_eq/=; lia.
Qed.

(** More bytes behind a decoded rune do not change it. *)
Lemma decode_prefix l1 l2 :
  l1 <> [] -> (width (l1 ++ l2) <= length l1)%nat -> decode_rune l1 = decode_rune (l1 ++ l2).
Proof.
  destruct l1 as [|b0 [|b1 [|b2 [|b3 l1]]]]; [done|..]; intros _; unfold width, decode_rune; cbn [app];
    repeat case_match; simplify_eq/=; try lia; try done.
Qed.

Definition byte_runes (l : bytes) : rune_list := runes_fuel (length l) l.

Lemma runes_bytes s : runes s = byte_runes (bytes_of s).
Proof. unfold runes, byte_runes. by rewrite length_bytes_of. Qed.

Lemma runes_fuel_enough n l : (length l <= n)%nat -> runes_fuel n l = byte_runes l.
Proof.
  unfold byte_runes. assert (forall n m l, (length l <= n)%nat -> (length l <= m)%nat ->
    runes_fuel n l = runes_fuel m l) as Hind; [|intros Hn; by apply Hind].
  clear n l. induction n as [|n IH]; intros m l Hn Hm; [destruct l; [by destruct m|simpl in *; lia]|].
  destruct l as [|b l]; [by destruct m|]. destruct m as [|m]; [simpl in *; lia|]. cbn [runes_fuel].
  pose proof (width_bounds (b :: l) ltac:(done)) as Hw. unfold width in Hw.
  destruct (decode_rune (b :: l)) as [[r w] ok]. simpl in Hw, Hn, Hm. f_equal.
  apply IH; rewrite length_drop; simpl; lia.
Qed.

Lemma byte_runes_cons l : l <> [] -> byte_runes l = head_rune l :: byte_runes (drop (width l) l).
Proof.
  destruct l as [|b l]; [done|]. intros _. unfold byte_runes at 1. cbn [length runes_fuel].
  pose proof (width_bounds (b :: l) ltac:(done)) as Hw. unfold head_rune, width in *.
  destruct (decode_rune (b :: l)) as [[r w] ok]. f_equal. apply runes_fuel_enough. rewrite length_drop. simpl in *. lia.
Qed.

(** Induction along the runes of a string. *)
Lemma rune_ind (P : bytes -> Prop) :
  P [] -> (forall l, l <> [] -> P (drop (width l) l) -> P l) -> forall l, P l.
Proof.
  intros H0 HS l. remember (length l) as n eqn:E. revert l E. induction n as [n IH] using lt_wf_ind. intros l ->.
  destruct l as [|b l]; [done|]. apply HS; [done|]. eapply IH; [|reflexivity].
  pose proof (width_bounds (b :: l) ltac:(done)). rewrite length_drop. simpl in *. lia.
Qed.

Lemma head_rune_bytes l : (head_rune l).2 = take (width l) l.
Proof. unfold head_rune, width. by destruct (decode_rune l) as [[r w] ok]. Qed.

(** The runes of a string spell it. *)
Lemma concat_byte_runes l : concat (snd <$> byte_runes l) = l.
Proof.
  induction l as [|l Hl IH] using rune_ind; [done|]. rewrite byte_runes_cons by done.
  rewrite fmap_cons. cbn [concat]. by rewrite IH, head_rune_bytes, take_drop.
Qed.

Lemma bytes_of_unrunes (l : rune_list) : bytes_of (unrunes l) = concat (snd <$> l).
Proof. apply bytes_of_string_of. Qed.

Lemma runes_drop n l : byte_runes (concat (snd <$> drop n (byte_runes l))) = drop n (byte_runes l).
Proof.
  revert n. induction l as [|l Hl IH] using rune_ind; intros n; [change (byte_runes []) with (@nil (Z * bool * bytes)); rewrite ?drop_nil, ?take_nil; reflexivity|].
  destruct n as [|n]; [by rewrite !drop_0, concat_byte_runes|].
  rewrite (byte_runes_cons l) by done. cbn [drop]. apply IH.
Qed.

Lemma runes_take n l : byte_runes (concat (snd <$> take n (byte_runes l))) = take n (byte_runes l).
Proof.
  revert n. induction l as [|l Hl IH] using rune_ind; intros n; [change (byte_runes []) with (@nil (Z * bool * bytes)); rewrite ?drop_nil, ?take_nil; reflexivity|].
  destruct n as [|n]; [done|]. rewrite (byte_runes_cons l) by done. cbn [take].
  rewrite fmap_cons. cbn [concat]. rewrite head_rune_bytes. set (tl := concat (snd <$> take n (byte_runes (drop (width l) l)))).
  pose proof (width_bounds l Hl) as Hw.
  assert (exists l2, take (width l) l ++ tl ++ l2 = l) as [l2 El].
  { exists (concat (snd <$> drop n (byte_runes (drop (width l) l)))). unfold tl.
    rewrite <- concat_app, <- fmap_app, take_drop, concat_byte_runes. apply take_drop. }
  assert (take (width l) l ++ tl <> []) as Hne by (destruct l; [done|]; destruct (width _); [lia|]; done).
  assert (decode_rune (take (width l) l ++ tl) = decode_rune l) as Hd.
  { rewrite <- El at 3. rewrite app_assoc. apply decode_prefix; [done|].
    rewrite <- app_assoc, El, length_app, length_take. lia. }
  assert (width (take (width l) l ++ tl) = width l) as Hwd by (unfold width at 1; by rewrite Hd).
  assert (head_rune (take (width l) l ++ tl) = head_rune l) as Hh.
  { unfold head_rune. rewrite Hd. unfold width. destruct (decode_rune l) as [[r w] ok] eqn:Ed. f_equal.
    unfold width in Hw. rewrite Ed in Hw. simpl in *. apply take_app_length'. rewrite length_take. lia. }
  rewrite byte_runes_cons by done. rewrite Hh, Hwd, drop_app_length' by (rewrite length_take; lia).
  f_equal. apply IH.
Qed.

(** ** TrimSpace *)

Lemma drop_space_drop (l : rune_list) : exists n, drop_space l = drop n l.
Proof.
  induction l as [|r l [n IH]]; [by exists 0%nat|]. simpl.
  destruct (unicode_IsSpace _); [by exists (S n)|by exists 0%nat].
Qed.

Definition trim_runes (l : rune_list) : rune_list := rev (drop_space (rev (drop_space l))).

Lemma trim_runes_range (l : rune_list) : exists n m, trim_runes l = take m (drop n l).
Proof.
  unfold trim_runes. destruct (drop_space_drop l) as [n ->]. destruct (drop_space_drop (rev (drop n l))) as [m ->].
  exists n, (length (drop n l) - m)%nat. rewrite !rev_alt, <- !rev_alt, skipn_rev, rev_involutive. done.
Qed.

Lemma runes_TrimSpace s : runes (strings_TrimSpace s) = trim_runes (runes s).
Proof.
  unfold strings_TrimSpace. fold (trim_runes (runes s)). rewrite runes_bytes, bytes_of_unrunes.
  destruct (trim_runes_range (runes s)) as (n & m & ->).
  rewrite runes_bytes, <- (runes_drop n (bytes_of s)). by rewrite runes_take.
Qed.

Lemma TrimSpace_eq s1 s2 : trim_runes (runes s1) = trim_runes (runes s2) -> strings_TrimSpace s1 = strings_TrimSpace s2.
Proof. unfold strings_TrimSpace. fold (trim_runes (runes s1)) (trim_runes (runes s2)). congruence. Qed.

(** An ASCII byte is a rune by itself, wherever it stands. *)
Lemma width_ascii l b : l <> [] -> byte_val b < 128 -> (width (l ++ [b]) <= length l)%nat.
Proof.
  intros Hl Hb. destruct l as [|b0 [|b1 [|b2 [|b3 l]]]]; [done|..];
    unfold width, decode_rune, cont; cbn [app length];
    repeat case_match; simplify_eq/=; bsplit; lia.
Qed.

Lemma byte_runes_snoc l b :
  byte_val b < 128 -> byte_runes (l ++ [b]) = byte_runes l ++ [(byte_val b, true, [b])].
Proof.
  intros Hb. induction l as [|l Hl IH] using rune_ind.
  - unfold byte_runes. simpl. unfold decode_rune. by rewrite (proj2 (Z.ltb_lt _ _)) by done.
  - pose proof (decode_prefix l [b] Hl (width_ascii l b Hl Hb)) as Hd. pose proof (width_bounds l Hl) as Hw.
    rewrite (byte_runes_cons (l ++ [b])) by (destruct l; done). rewrite (byte_runes_cons l) by done.
    unfold head_rune, width in *. rewrite <- Hd. destruct (decode_rune l) as [[r w] ok]. simpl in *.
    rewrite take_app_le, drop_app_le by lia. f_equal. apply IH.
Qed.

Lemma byte_runes_ascii_cons b l : byte_val b < 128 -> byte_runes (b :: l) = (byte_val b, true, [b]) :: byte_runes l.
Proof.
  intros Hb. rewrite byte_runes_cons by done. unfold head_rune, width, decode_rune.
  by rewrite (proj2 (Z.ltb_lt _ _)) by done.
Qed.

(** Text between two ASCII characters that are not spaces is not trimmed. *)
Lemma TrimSpace_between a l b :
  byte_val a < 128 -> byte_val b < 128 ->
  unicode_IsSpace (byte_val a) = false -> unicode_IsSpace (byte_val b) = false ->
  strings_TrimSpace (string_of (a :: l ++ [b])) = string_of (a :: l ++ [b]).
Proof.
  intros Ha Hb Hsa Hsb. unfold strings_TrimSpace. rewrite runes_bytes, bytes_of_string_of.
  rewrite byte_runes_ascii_cons, byte_runes_snoc by done. cbn [drop_space fst snd]. rewrite Hsa.
  rewrite app_comm_cons, rev_app_distr. cbn [rev app drop_space fst snd]. rewrite Hsb.
  cbn [rev]. rewrite rev_app_distr, rev_involutive. cbn [rev app].
  unfold unrunes. rewrite fmap_cons, fmap_app. cbn [concat]. rewrite concat_app, concat_byte_runes. done.
Qed.

(** ** Fields *)

Lemma drop_space_split (l : rune_list) :
  exists sp, l = sp ++ drop_space l /\ Forall (fun r => unicode_IsSpace r.1.1 = true) sp.
Proof.
  induction l as [|r l (sp & E & Hsp)]; [by exists []|]. simpl.
  destruct (unicode_IsSpace r.1.1) eqn:Es; [|by exists []].
  exists (r :: sp). split; [by rewrite E at 1|by constructor].
Qed.

Lemma trim_runes_split (l : rune_list) :
  exists sp1 sp2, l = sp1 ++ trim_runes l ++ sp2 /\ Forall (fun r => unicode_IsSpace r.1.1 = true) sp1
    /\ Forall (fun r => unicode_IsSpace r.1.1 = true) sp2.
Proof.
  unfold trim_runes. destruct (drop_space_split l) as (sp1 & E1 & H1).
  destruct (drop_space_split (rev (drop_space l))) as (sp2 & E2 & H2).
  exists sp1, (rev sp2). split_and!; [|done|by apply List.Forall_rev].
  rewrite <- rev_app_distr, <- E2, rev_involutive. done.
Qed.

Lemma fields_space_front sp (l : rune_list) :
  Forall (fun r => unicode_IsSpace r.1.1 = true) sp -> fields_of [] (sp ++ l) = fields_of [] l.
Proof. induction 1 as [|r sp Hr _ IH]; [done|]. simpl. by rewrite Hr. Qed.

Lemma fields_space_back sp acc (l : rune_list) :
  Forall (fun r => unicode_IsSpace r.1.1 = true) sp -> fields_of acc (l ++ sp) = fields_of acc l.
Proof.
  intros Hsp. revert acc. induction l as [|r l IH]; intros acc; simpl.
  - destruct Hsp as [|r sp Hr Hsp]; [done|]. simpl. rewrite Hr.
    pose proof (fields_space_front sp [] Hsp) as Hf. rewrite app_nil_r in Hf. rewrite Hf. by destruct acc.
  - rewrite !IH. done.
Qed.

Lemma Fields_TrimSpace s : strings_Fields (strings_TrimSpace s) = strings_Fields s.
Proof.
  unfold strings_Fields. rewrite runes_TrimSpace. f_equal.
  destruct (trim_runes_split (runes s)) as (sp1 & sp2 & E & H1 & H2). rewrite E at 2.
  by rewrite fields_space_front, fields_space_back.
Qed.

(** Trimming twice is trimming once. *)
Lemma drop_space_idem (l : rune_list) : drop_space (drop_space l) = drop_space l.
Proof. induction l as [|r l IH]; [done|]. simpl. destruct (unicode_IsSpace _) eqn:E; [done|]. simpl. by rewrite E. Qed.

Lemma trim_runes_idem (l : rune_list) : trim_runes (trim_runes l) = trim_runes l.
Proof.
  unfold trim_runes. set (x := drop_space l). set (y := drop_space (rev x)).
  assert (drop_space (rev y) = rev y) as ->; [|by rewrite rev_involutive; unfold y; rewrite drop_space_idem].
  destruct (drop_space_split (rev x)) as (sp & E & _). fold y in E.
  assert (x = rev y ++ rev sp) as Ex by (rewrite <- rev_app_distr, <- E, rev_involutive; done).
  destruct (rev y) as [|r ry] eqn:Ey; [done|]. simpl.
  assert (unicode_IsSpace r.1.1 = false) as Hr; [|by rewrite Hr].
  pose proof (drop_space_idem l) as Hi. fold x in Hi. rewrite Ex in Hi. simpl in Hi.
  destruct (unicode_IsSpace r.1.1) eqn:Es; [|done]. exfalso.
  destruct (drop_space_drop (ry ++ rev sp)) as [n Hn]. rewrite Hn in Hi.
  apply (f_equal length) in Hi. rewrite length_drop in Hi. simpl in Hi. lia.
Qed.

Lemma TrimSpace_idem s : strings_TrimSpace (strings_TrimSpace s) = strings_TrimSpace s.
Proof. apply TrimSpace_eq. rewrite runes_TrimSpace. apply trim_runes_idem. Qed.

(** ** Prefixes *)

Definition trim_end (l : rune_list) : rune_list := rev (drop_space (rev l)).

Lemma trim_end_app (l1 l2 : rune_list) r :
  unicode_IsSpace r.1.1 = false -> trim_end (l1 ++ [r] ++ l2) = l1 ++ [r] ++ trim_end l2.
Proof.
  intros Hr. unfold trim_end. rewrite !rev_app_distr. cbn [rev app].
  destruct (drop_space_split (rev l2)) as (sp & E & Hsp). set (y := drop_space (rev l2)) in *.
  assert (drop_space (rev l2 ++ r :: rev l1) = y ++ r :: rev l1) as Hd.
  { unfold y. clear -Hr. induction (rev l2) as [|q l IH]; simpl; [by rewrite Hr|].
    by destruct (unicode_IsSpace q.1.1). }
  rewrite <- app_assoc. cbn [app]. rewrite Hd, rev_app_distr. cbn [rev]. rewrite rev_involutive.
  by rewrite <- app_assoc.
Qed.

Definition ascii_runes (p : bytes) : rune_list := (fun b => (byte_val b, true, [b])) <$> p.

Lemma byte_runes_ascii_app p l :
  Forall (fun b => byte_val b < 128) p -> byte_runes (p ++ l) = ascii_runes p ++ byte_runes l.
Proof. induction 1 as [|b p Hb _ IH]; [done|]. cbn [app]. by rewrite byte_runes_ascii_cons, IH. Qed.

Lemma concat_ascii_runes p : concat (snd <$> ascii_runes p) = p.
Proof. induction p as [|b p IH]; [done|]. cbn. by f_equal. Qed.

(** A visible ASCII prefix survives trimming. *)
Lemma HasPrefix_TrimSpace s p :
  p <> [] -> Forall (fun b => byte_val b < 128 /\ unicode_IsSpace (byte_val b) = false) p ->
  has_prefix (bytes_of s) p = true -> has_prefix (bytes_of (strings_TrimSpace s)) p = true.
Proof.
  intros Hne Hp Hpre. apply has_prefix_inv in Hpre. set (l := drop (length p) (bytes_of s)) in *.
  clearbody l. unfold strings_TrimSpace. rewrite bytes_of_unrunes, runes_bytes, Hpre.
  assert (Forall (fun b => byte_val b < 128) p) as Hp1 by (eapply Forall_impl; [exact Hp|]; naive_solver).
  rewrite byte_runes_ascii_app by done.
  destruct p as [|b0 p0]; [done|]. pose proof (Forall_inv Hp) as [_ Hb0]. cbn [ascii_runes fmap list_fmap app].
  cbn [drop_space fst snd]. rewrite Hb0. clear Hb0 Hne.
  destruct (@exists_last _ (b0 :: p0) ltac:(done)) as (q & z & Eq). fold (ascii_runes p0).
  change ((byte_val b0, true, [b0]) :: ascii_runes p0 ++ byte_runes l)
    with (ascii_runes (b0 :: p0) ++ byte_runes l).
  rewrite Eq in *. apply Forall_app in Hp as [_ Hz]. apply Forall_inv in Hz as [_ Hz].
  assert (forall x : rune_list, rev (drop_space (rev x)) = trim_end x) as Ht by done. rewrite Ht.
  unfold ascii_runes. rewrite fmap_app, <- app_assoc. fold (ascii_runes q).
  change ((fun b => (byte_val b, true, [b])) <$> [z]) with [(byte_val z, true, [z])].
  rewrite trim_end_app by done. rewrite !fmap_app, !concat_app, concat_ascii_runes.
  change (concat (snd <$> [(byte_val z, true, [z])])) with [z]. rewrite app_assoc. apply has_prefix_app.
Qed.

(** ASCII text is valid UTF-8. *)
Lemma utf8_ascii l : Forall (fun b => byte_val b < 128) l -> utf8_ValidString (string_of l) = true.
Proof.
  intros Hl. unfold utf8_ValidString. rewrite runes_bytes, bytes_of_string_of.
  pose proof (byte_runes_ascii_app l [] Hl) as Hr. rewrite app_nil_r in Hr. rewrite Hr.
  change (byte_runes []) with (@nil (Z * bool * bytes)). rewrite app_nil_r.
  apply forallb_forall. intros r Hin. apply list_elem_of_In, list_elem_of_fmap in Hin as (b & -> & _). done.
Qed.

Lemma uuid_text `{UuidTextLaws} u : utf8_ValidString (uuid_String u) = true.
Proof.
  rewrite <- (string_of_bytes_of (uuid_String u)). apply utf8_ascii. eapply Forall_impl; [apply uuid_string_ascii|].
  unfold byte_val. intros b Hb. cbn in Hb. lia.
Qed.

(** ** Single bytes and suffixes *)

(** A byte below 128 is a rune of its own wherever it stands. *)
Lemma ascii_byte_rune b l : b ∈ l -> byte_val b < 128 -> byte_val b ∈ (fun r => r.1.1) <$> byte_runes l.
Proof.
  intros Hin Hb. induction l as [|l Hl IH] using rune_ind; [by apply elem_of_nil in Hin|].
  rewrite byte_runes_cons by done. rewrite <- (take_drop (width l) l) in Hin. rewrite fmap_cons.
  apply elem_of_cons. apply elem_of_app in Hin as [Hin|Hin]; [left|right; by apply IH].
  unfold head_rune, width, decode_rune, cont in *. destruct l as [|b0 l]; [done|].
  repeat (case_match; simplify_eq/=; bsplit);
    repeat (apply elem_of_cons in Hin as [-> | Hin]; [done || lia|]); by apply elem_of_nil in Hin.
Qed.

Lemma HasSuffix_app s p : strings_HasSuffix (s +:+ p) p = true.
Proof. unfold strings_HasSuffix. rewrite bytes_of_app, rev_app_distr. apply has_prefix_app. Qed.

Lemma HasSuffix_inv s p : strings_HasSuffix s p = true -> exists s', s = s' +:+ p.
Proof.
  unfold strings_HasSuffix. intros Hp%has_prefix_inv. apply (f_equal (@rev ascii)) in Hp. rewrite rev_involutive, rev_app_distr, rev_involutive in Hp.
  eexists (string_of _). apply bytes_of_inj. rewrite bytes_of_app, bytes_of_string_of. exact Hp.
Qed.

Lemma take_before (s p : string) : string_of (take (String.length (s +:+ p) - String.length p) (bytes_of (s +:+ p))) = s.
Proof.
  rewrite <- !length_bytes_of, bytes_of_app, length_app, Nat.add_sub, take_app_length. apply string_of_bytes_of.
Qed.

(** ** Encoding *)

Lemma byte_of_eq z b : z = byte_val b -> byte_of z = b.
Proof. intros ->. apply byte_of_val. Qed.

(** The well-formed sequences, and the rune each stands for. *)
Inductive utf8_char : Z -> bytes -> Prop :=
| utf8_one b0 : byte_val b0 < 128 -> utf8_char (byte_val b0) [b0]
| utf8_two b0 b1 : 194 <= byte_val b0 < 224 -> cont 128 191 b1 = true ->
    utf8_char ((byte_val b0 - 192) * 64 + (byte_val b1 - 128)) [b0; b1]
| utf8_three b0 b1 b2 : 224 <= byte_val b0 < 240 ->
    cont (if byte_val b0 =? 224 then 160 else 128) (if byte_val b0 =? 237 then 159 else 191) b1 = true ->
    cont 128 191 b2 = true ->
    utf8_char ((byte_val b0 - 224) * 4096 + (byte_val b1 - 128) * 64 + (byte_val b2 - 128)) [b0; b1; b2]
| utf8_four b0 b1 b2 b3 : 240 <= byte_val b0 < 245 ->
    cont (if byte_val b0 =? 240 then 144 else 128) (if byte_val b0 =? 244 then 143 else 191) b1 = true ->
    cont 128 191 b2 = true -> cont 128 191 b3 = true ->
    utf8_char ((byte_val b0 - 240) * 262144 + (byte_val b1 - 128) * 4096 + (byte_val b2 - 128) * 64 + (byte_val b3 - 128))
      [b0; b1; b2; b3].

Ltac decide_tests :=
  repeat match goal with
  | |- context [?x <? ?y] => first [ rewrite (proj2 (Z.ltb_lt x y)) by lia | rewrite (proj2 (Z.ltb_ge x y)) by lia ]
  | |- context [?x <=? ?y] => first [ rewrite (proj2 (Z.leb_le x y)) by lia | rewrite (proj2 (Z.leb_gt x y)) by lia ]
  end.

Lemma decode_char r bs x : utf8_char r bs -> decode_rune (bs ++ x) = (r, length bs, true).
Proof.
  intros H. destruct H; cbn [app decode_rune length]; decide_tests; cbn [orb andb].
  - done.
  - by rewrite H0.
  - by rewrite H0, H1.
  - by rewrite H0, H1, H2.
Qed.

Lemma char_decoded l : (decode_rune l).2 = true ->
  utf8_char (decode_rune l).1.1 (take (width l) l).
Proof.
  unfold width. destruct l as [|b0 l]; [done|]. cbn [decode_rune].
  destruct (byte_val b0 <? 128) eqn:E1; [bsplit; by constructor|].
  destruct (byte_val b0 <? 194) eqn:E2; [done|].
  destruct (byte_val b0 <? 224) eqn:E3.
  { destruct l as [|b1 l]; [done|]. destruct (cont 128 191 b1) eqn:Ec; [|done]. bsplit. constructor; [lia|done]. }
  destruct (byte_val b0 <? 240) eqn:E4.
  { destruct l as [|b1 [|b2 l]]; [done..|]. destruct (_ && _) eqn:Ec; [|done]. bsplit. constructor; [lia|done|done]. }
  destruct (byte_val b0 <? 245) eqn:E5; [|done].
  destruct l as [|b1 [|b2 [|b3 l]]]; [done..|]. destruct (_ && _) eqn:Ec; [|done]. bsplit. constructor; [lia|done|done|done].
Qed.

(** Encoding gives the sequence back. *)
Lemma encode_char r bs : utf8_char r bs -> utf8_EncodeRune r = bs.
Proof.
  assert (forall z b l l', z = byte_val b -> l = l' -> byte_of z :: l = b :: l') as Hcons
    by (intros z b l l' -> ->; by rewrite byte_of_val).
  intros H. assert (0 <= r <= 1114111 /\ ~ (55296 <= r <= 57343)) as [Hr Hs].
  { destruct H; unfold cont in *; bsplit; pose proof (byte_val_range b0);
      repeat match goal with H : context [if ?c then _ else _] |- _ => destruct c eqn:?; bsplit end; lia. }
  unfold utf8_EncodeRune. rewrite (proj2 (Z.ltb_ge r 0)), (proj2 (Z.ltb_ge 1114111 r)) by lia.
  assert (((55296 <=? r) && (r <=? 57343)) = false) as -> by (apply andb_false_iff; rewrite !Z.leb_gt; lia).
  clear Hr Hs. destruct H; unfold cont in *; bsplit; pose proof (byte_val_range b0);
    repeat match goal with H : context [if ?c then _ else _] |- _ => destruct c eqn:?; bsplit end;
    decide_tests; cbn [orb]; try lia; repeat (apply Hcons; [Z.to_euclidean_division_equations; lia|]); (done || lia).
Qed.

(** ** Text: valid UTF-8 *)

Definition text (l : bytes) : Prop := utf8_ValidString (string_of l) = true.

Lemma byte_runes_char z bs l : utf8_char z bs -> byte_runes (bs ++ l) = (z, true, bs) :: byte_runes l.
Proof.
  intros Hc. pose proof (decode_char z bs l Hc) as Hd. assert (bs ++ l <> []) as Hne by (by destruct Hc).
  rewrite byte_runes_cons by done. unfold head_rune, width. rewrite Hd. cbn. by rewrite take_app_length, drop_app_length.
Qed.

Lemma text_runes l : text l <-> forallb (fun r => r.1.2) (byte_runes l) = true.
Proof. unfold text, utf8_ValidString. by rewrite runes_bytes, bytes_of_string_of. Qed.

Lemma text_char_app z bs l : utf8_char z bs -> text l -> text (bs ++ l).
Proof. rewrite !text_runes. intros Hc Hl. rewrite (byte_runes_char z bs l Hc). simpl. done. Qed.

Lemma text_app a b : text a -> text b -> text (a ++ b).
Proof.
  intros Ha Hb. induction a as [|a Hne IH] using rune_ind; [done|]. rewrite text_runes, byte_runes_cons in Ha by done.
  cbn [forallb] in Ha. apply andb_prop in Ha as [Hh Ht]. rewrite <- (take_drop (width a) a), <- app_assoc.
  pose proof (char_decoded a) as Hc. unfold head_rune, width in *. destruct (decode_rune a) as [[r w] ok]. cbn [fst snd] in *.
  apply (text_char_app r); [by apply Hc|]. apply IH. by rewrite text_runes.
Qed.

Lemma text_ascii l : Forall (fun b => byte_val b < 128) l -> text l.
Proof. apply utf8_ascii. Qed.

(** Every rune is encoded as text. *)
Lemma encode_is_char r : exists z, utf8_char z (utf8_EncodeRune r).
Proof.
  unfold utf8_EncodeRune. destruct ((r <? 0) || _ || _) eqn:E.
  { exists RuneError. change RuneError with ((byte_val (byte_of 239) - 224) * 4096 + (byte_val (byte_of 191) - 128) * 64 + (byte_val (byte_of 189) - 128)).
    by constructor. }
  bsplit. assert (forall z, 0 <= z < 64 -> cont 128 191 (byte_of (128 + z)) = true) as Hcont.
  { intros z Hz. unfold cont. rewrite byte_val_of by lia. by rewrite (proj2 (Z.leb_le _ _)), (proj2 (Z.leb_le _ 191)) by lia. }
  assert (forall z, 0 <= z mod 64 < 64) as Hmod by (intros z; apply Z.mod_pos_bound; lia).
  destruct (r <? 128) eqn:E1; bsplit; [eexists; constructor; rewrite byte_val_of; lia|].
  destruct (r <? 2048) eqn:E2; bsplit.
  { eexists. apply utf8_two; [rewrite byte_val_of; Z.to_euclidean_division_equations; lia|by apply Hcont]. }
  destruct (r <? 65536) eqn:E3; bsplit.
  - assert (0 <= r / 4096 < 16) as Hq by (Z.to_euclidean_division_equations; lia).
    eexists. apply utf8_three; [rewrite byte_val_of; lia| |by apply Hcont].
    rewrite (byte_val_of (224 + _)) by lia. unfold cont. rewrite byte_val_of by (specialize (Hmod (r / 64)); lia).
    apply andb_true_intro. rewrite !Z.leb_le. clear Hcont.
    assert (((55296 <=? r) && (r <=? 57343)) = false) as Hs by done. apply andb_false_iff in Hs. rewrite !Z.leb_gt in Hs.
    destruct (_ =? 224) eqn:Ea; destruct (_ =? 237) eqn:Eb; bsplit; Z.to_euclidean_division_equations; lia.
  - assert (0 <= r / 262144 < 5) as Hq by (Z.to_euclidean_division_equations; lia).
    eexists. apply utf8_four; [rewrite byte_val_of; lia| |by apply Hcont..].
    rewrite (byte_val_of (240 + _)) by lia. unfold cont. rewrite byte_val_of by (specialize (Hmod (r / 4096)); lia).
    apply andb_true_intro. rewrite !Z.leb_le. clear Hcont.
    destruct (_ =? 240) eqn:Ea; destruct (_ =? 244) eqn:Eb; bsplit; Z.to_euclidean_division_equations; lia.
Qed.
