(* ===== verification/Base64.v ===== *)
(** * Package encoding/base64

    The unpadded encodings [RawURLEncoding] and [RawStdEncoding] of the
    standard library, lenient and [Strict()], with the theorem that decoding
    inverts encoding.  Decoding skips carriage returns and newlines, as Go's
    decoder does. *)

From S2P Require Import Prelude GoStrings.

Inductive alphabet := StdAlphabet | URLAlphabet.

Definition char62 (a : alphabet) : Z := match a with StdAlphabet => 43 | URLAlphabet => 45 end.
Definition char63 (a : alphabet) : Z := match a with StdAlphabet => 47 | URLAlphabet => 95 end.

Definition enc_char (a : alphabet) (v : Z) : ascii :=
  byte_of (if v <? 26 then 65 + v
           else if v <? 52 then 97 + (v - 26)
           else if v <? 62 then 48 + (v - 52)
           else if v =? 62 then char62 a else char63 a).

Definition dec_char (a : alphabet) (b : ascii) : option Z :=
  let v := byte_val b in
  if is_upper b then Some (v - 65)
  else if is_lower b then Some (v - 71)
  else if is_digit b then Some (v + 4)
  else if v =? char62 a then Some 62
  else if v =? char63 a then Some 63
  else None.

(** Three bytes to four digits; the last group may hold one or two bytes. *)
Fixpoint enc_digits (l : bytes) : list Z :=
  match l with
  | [] => []
  | [x] => let v := byte_val x * 65536 in [v / 262144; v / 4096 mod 64]
  | [x; y] => let v := byte_val x * 65536 + byte_val y * 256 in
              [v / 262144; v / 4096 mod 64; v / 64 mod 64]
  | x :: y :: z :: l' =>
      let v := byte_val x * 65536 + byte_val y * 256 + byte_val z in
      v / 262144 :: v / 4096 mod 64 :: v / 64 mod 64 :: v mod 64 :: enc_digits l'
  end.

(** Four digits to three bytes; [strict] refuses non-zero trailing bits. *)
Fixpoint dec_digits (strict : bool) (l : list Z) : option bytes :=
  match l with
  | [] => Some []
  | [_] => None
  | [a; b] =>
      let v := a * 262144 + b * 4096 in
      if strict && negb (v mod 65536 =? 0) then None else Some [byte_of (v / 65536)]
  | [a; b; c] =>
      let v := a * 262144 + b * 4096 + c * 64 in
      if strict && negb (v mod 256 =? 0) then None
      else Some [byte_of (v / 65536); byte_of (v / 256 mod 256)]
  | a :: b :: c :: d :: l' =>
      let v := a * 262144 + b * 4096 + c * 64 + d in
      rest ← dec_digits strict l';
      Some (byte_of (v / 65536) :: byte_of (v / 256 mod 256) :: byte_of (v mod 256) :: rest)
  end.

Definition EncodeToString (a : alphabet) (l : bytes) : string :=
  string_of (enc_char a <$> enc_digits l).

Definition is_newline (b : ascii) : bool := is_byte 10 b || is_byte 13 b.

Definition DecodeString (a : alphabet) (strict : bool) (s : string) : option bytes :=
  ds ← mapM (dec_char a) (List.filter (fun b => negb (is_newline b)) (bytes_of s));
  dec_digits strict ds.

(** A property of all 64 digits, checked by computation. *)
Lemma digit_cases (P : Z -> bool) :
  forallb P (Z.of_nat <$> seq 0 64) = true -> forall v, 0 <= v < 64 -> P v = true.
Proof.
  intros H v Hv. rewrite forallb_forall in H. apply H.
  apply list_elem_of_In, list_elem_of_fmap. exists (Z.to_nat v).
  split; [lia|]. apply elem_of_seq. lia.
Qed.

Lemma dec_enc_char a v : 0 <= v < 64 -> dec_char a (enc_char a v) = Some v.
Proof.
  intros Hv.
  assert (match dec_char a (enc_char a v) with Some w => w =? v | None => false end = true).
  { revert v Hv. apply digit_cases. destruct a; vm_compute; reflexivity. }
  destruct (dec_char a (enc_char a v)); [|done]. bsplit. congruence.
Qed.

Lemma enc_char_not_newline a v : 0 <= v < 64 -> is_newline (enc_char a v) = false.
Proof.
  intros Hv. apply negb_true_iff. revert v Hv.
  apply digit_cases. destruct a; vm_compute; reflexivity.
Qed.

(** Induction three bytes at a time. *)
Lemma bytes3_ind (P : bytes -> Prop) :
  P [] -> (forall x, P [x]) -> (forall x y, P [x; y]) ->
  (forall x y z l, P l -> P (x :: y :: z :: l)) -> forall l, P l.
Proof.
  intros H0 H1 H2 H3 l. remember (length l) as n eqn:Hn. revert l Hn.
  induction n as [n IH] using (well_founded_induction lt_wf). intros l ->.
  destruct l as [|x [|y [|z l]]]; auto. apply H3. apply (IH (length l)); [simpl; lia|done].
Qed.

Ltac zdiv := Z.to_euclidean_division_equations; lia.

Lemma enc_digits_range l : Forall (fun v => 0 <= v < 64) (enc_digits l).
Proof.
  induction l as [|x|x y|x y z l IH] using bytes3_ind; simpl; repeat constructor; try done;
    pose proof (byte_val_range x); try pose proof (byte_val_range y);
    try pose proof (byte_val_range z); zdiv.
Qed.

Lemma dec_enc_digits strict l : dec_digits strict (enc_digits l) = Some l.
Proof.
  induction l as [|x|x y|x y z l IH] using bytes3_ind; simpl; try done.
  - pose proof (byte_val_range x).
    set (v := _ + _ : Z). assert (v = byte_val x * 65536) as -> by (unfold v; zdiv).
    rewrite Z.mod_mul, Z.div_mul by lia. rewrite andb_false_r. by rewrite byte_of_val.
  - pose proof (byte_val_range x). pose proof (byte_val_range y).
    set (v := _ + _ : Z).
    assert (v = byte_val x * 65536 + byte_val y * 256) as -> by (unfold v; zdiv).
    replace ((_ + _) mod 256) with 0 by zdiv. rewrite andb_false_r.
    replace ((byte_val x * 65536 + byte_val y * 256) / 65536) with (byte_val x) by zdiv.
    replace ((byte_val x * 65536 + byte_val y * 256) / 256 mod 256) with (byte_val y) by zdiv.
    by rewrite !byte_of_val.
  - pose proof (byte_val_range x). pose proof (byte_val_range y). pose proof (byte_val_range z).
    rewrite IH. simpl.
    set (v := _ + _ : Z).
    assert (v = byte_val x * 65536 + byte_val y * 256 + byte_val z) as -> by (unfold v; zdiv).
    replace ((_ + _) / 65536) with (byte_val x) by zdiv.
    replace ((_ + _) / 256 mod 256) with (byte_val y) by zdiv.
    replace ((_ + _) mod 256) with (byte_val z) by zdiv.
    by rewrite !byte_of_val.
Qed.

Lemma filter_enc a ds :
  Forall (fun v => 0 <= v < 64) ds ->
  List.filter (fun b => negb (is_newline b)) (enc_char a <$> ds) = enc_char a <$> ds.
Proof.
  induction 1 as [|v ds Hv _ IH]; [done|]. csimpl.
  rewrite enc_char_not_newline by done. simpl. by rewrite IH.
Qed.

Lemma mapM_dec_enc a ds :
  Forall (fun v => 0 <= v < 64) ds -> mapM (dec_char a) (enc_char a <$> ds) = Some ds.
Proof.
  intros H. apply mapM_Some_2, Forall2_fmap_l.
  induction H; constructor; auto using dec_enc_char.
Qed.

Lemma decode_encode a strict l : DecodeString a strict (EncodeToString a l) = Some l.
Proof.
  unfold DecodeString, EncodeToString. rewrite bytes_of_string_of.
  rewrite filter_enc by apply enc_digits_range.
  rewrite mapM_dec_enc by apply enc_digits_range. simpl. apply dec_enc_digits.
Qed.

(** 32 bytes are spelled with 43 characters. *)
Lemma length_enc_digits_32 l : length l = 32%nat -> length (enc_digits l) = 43%nat.
Proof.
  intros H. repeat (destruct l as [|? l]; simpl in H; try discriminate). reflexivity.
Qed.

Lemma length_encode_32 a l : length l = 32%nat -> String.length (EncodeToString a l) = 43%nat.
Proof.
  intros H. unfold EncodeToString. rewrite string_length_of, length_fmap.
  by apply length_enc_digits_32.
Qed.

(** No alphabet character is ['='] or ['$']. *)
Lemma enc_char_not_special a v :
  0 <= v < 64 -> (byte_val (enc_char a v) =? 61) || (byte_val (enc_char a v) =? 36) = false.
Proof.
  intros Hv. apply negb_true_iff. revert v Hv.
  apply digit_cases. destruct a; vm_compute; reflexivity.
Qed.

(** ** Strict decoding is injective: the converse round trip *)

Lemma dec_char_range a b v : dec_char a b = Some v -> 0 <= v < 64 /\ enc_char a v = b.
Proof.
  assert (forall c, match dec_char a c with
                    | Some w => (0 <=? w) && (w <? 64) && Ascii.eqb (enc_char a w) c
                    | None => true end = true) as H.
  { intros [[] [] [] [] [] [] [] []]; destruct a; vm_compute; reflexivity. }
  intros Hd. specialize (H b). rewrite Hd in H. bsplit.
  by apply Ascii.eqb_eq in H0.
Qed.

Lemma mapM_dec_inv a l ds :
  mapM (dec_char a) l = Some ds ->
  Forall (fun v => 0 <= v < 64) ds /\ enc_char a <$> ds = l.
Proof.
  intros H%mapM_Some_1. induction H as [|b v l ds Hv _ [IHr IHe]]; [done|].
  apply dec_char_range in Hv as [Hr He].
  split; [by constructor|]. csimpl. by rewrite He, IHe.
Qed.

(** Induction four digits at a time. *)
Lemma digits4_ind (P : list Z -> Prop) :
  P [] -> (forall a, P [a]) -> (forall a b, P [a; b]) -> (forall a b c, P [a; b; c]) ->
  (forall a b c d l, P l -> P (a :: b :: c :: d :: l)) -> forall l, P l.
Proof.
  intros H0 H1 H2 H3 H4 l. remember (length l) as n eqn:Hn. revert l Hn.
  induction n as [n IH] using (well_founded_induction lt_wf). intros l ->.
  destruct l as [|a [|b [|c [|d l]]]]; auto. apply H4. apply (IH (length l)); [simpl; lia|done].
Qed.

Lemma enc_dec_digits ds l :
  Forall (fun v => 0 <= v < 64) ds -> dec_digits true ds = Some l -> enc_digits l = ds.
Proof.
  revert l. induction ds as [|a|a b|a b c|a b c d ds IH] using digits4_ind;
    intros l Hf Hd; cbn -[Z.mul Z.add Z.div Z.modulo] in Hd.
  - by simplify_eq.
  - done.
  - apply Forall_cons in Hf as [Ha [Hb _]%Forall_cons].
    case_match eqn:E; [done|]. simplify_eq. bsplit. simpl in E. bsplit.
    cbn -[Z.mul Z.add Z.div Z.modulo]. rewrite byte_val_of by zdiv. repeat f_equal; zdiv.
  - apply Forall_cons in Hf as [Ha [Hb [Hc _]%Forall_cons]%Forall_cons].
    case_match eqn:E; [done|]. simplify_eq. simpl in E. bsplit.
    cbn -[Z.mul Z.add Z.div Z.modulo]. rewrite !byte_val_of by zdiv. repeat f_equal; zdiv.
  - apply Forall_cons in Hf as [Ha [Hb [Hc [Hdd Hf]%Forall_cons]%Forall_cons]%Forall_cons].
    destruct (dec_digits true ds) as [l'|] eqn:E; simpl in Hd; [|done]. simplify_eq.
    cbn -[Z.mul Z.add Z.div Z.modulo]. rewrite !byte_val_of by zdiv.
    rewrite (IH l' Hf eq_refl). repeat f_equal; zdiv.
Qed.

Lemma encode_decode_strict a s l :
  (forall b, b ∈ bytes_of s -> is_newline b = false) ->
  DecodeString a true s = Some l -> EncodeToString a l = s.
Proof.
  intros Hn Hd. unfold DecodeString in Hd.
  assert (List.filter (fun b => negb (is_newline b)) (bytes_of s) = bytes_of s) as Hf.
  { clear Hd. induction (bytes_of s) as [|b bs IH]; [done|]. simpl.
    rewrite Hn by set_solver. simpl. f_equal. apply IH. set_solver. }
  rewrite Hf in Hd. destruct (mapM _ _) as [ds|] eqn:Hm; simpl in Hd; [|done].
  apply mapM_dec_inv in Hm as [Hr He].
  unfold EncodeToString. rewrite (enc_dec_digits ds l Hr Hd), He. apply string_of_bytes_of.
Qed.

Lemma encode_not_special a l b :
  b ∈ bytes_of (EncodeToString a l) ->
  byte_val b <> 61 /\ byte_val b <> 36 /\ is_newline b = false.
Proof.
  unfold EncodeToString. rewrite bytes_of_string_of. intros [v [-> Hv]]%list_elem_of_fmap.
  pose proof (enc_digits_range l) as Hr. rewrite Forall_forall in Hr. specialize (Hr v Hv).
  pose proof (enc_char_not_special a v Hr). pose proof (enc_char_not_newline a v Hr).
  bsplit. done.
Qed.

(** With 43 characters and 32 decoded bytes no character was skipped. *)
Lemma length_dec_digits strict ds l :
  dec_digits strict ds = Some l -> (4 * length l <= 3 * length ds)%nat.
Proof.
  revert l. induction ds as [|a|a b|a b c|a b c d ds IH] using digits4_ind;
    intros l Hd; cbn -[Z.mul Z.add Z.div Z.modulo] in Hd.
  - simplify_eq/=. lia.
  - done.
  - case_match; simplify_eq/=; lia.
  - case_match; simplify_eq/=; lia.
  - destruct (dec_digits strict ds) as [l'|]; simpl in Hd; [|done]. simplify_eq/=.
    specialize (IH _ eq_refl). lia.
Qed.

Lemma length_filter_strict {A} (f : A -> bool) (l : list A) x :
  x ∈ l -> f x = false -> (length (List.filter f l) < length l)%nat.
Proof.
  induction l as [|y l IH]; intros Hx Hf; [set_solver|]. simpl.
  pose proof (List.filter_length_le f l).
  apply elem_of_cons in Hx as [->|Hx].
  - rewrite Hf. simpl. lia.
  - specialize (IH Hx Hf). destruct (f y); simpl; lia.
Qed.

Lemma strict_no_newline a strict s l :
  DecodeString a strict s = Some l ->
  (3 * length (bytes_of s) < 4 * length l + 3)%nat ->
  forall b, b ∈ bytes_of s -> is_newline b = false.
Proof.
  unfold DecodeString. intros Hd Hlen b Hb.
  destruct (is_newline b) eqn:E; [exfalso|done].
  destruct (mapM _ _) as [ds|] eqn:Hm; simpl in Hd; [|done].
  apply length_dec_digits in Hd. apply length_mapM in Hm.
  assert (length (List.filter (fun b => negb (is_newline b)) (bytes_of s))
          < length (bytes_of s))%nat.
  { apply length_filter_strict with b; [done|]. by rewrite E. }
  lia.
Qed.
