(* ===== verification/Numerals.v ===== *)
(** * Decimal numerals

    Integers as the Go standard library prints and reads them in base ten:
    what [strconv.Itoa] and [json.Marshal] write is stdpp's [pretty]. *)

From stdpp Require Import pretty.
From S2P Require Import Prelude GoStrings.

Definition decimal (n : N) : bytes := bytes_of (pretty n).

Lemma pretty_char_digit n : (n < 10)%N ->
  is_digit (pretty_N_char n) = true /\ digit_val 10 (pretty_N_char n) = Some (Z.of_N n) /\ is_byte 48 (pretty_N_char n) = (n =? 0)%N.
Proof.
  intros Hn. assert (Forall (fun n => is_digit (pretty_N_char n) = true /\ digit_val 10 (pretty_N_char n) = Some (Z.of_N n)
      /\ is_byte 48 (pretty_N_char n) = (n =? 0)%N) [0; 1; 2; 3; 4; 5; 6; 7; 8; 9]%N) as H
    by (repeat constructor).
  rewrite Forall_forall in H. apply H. rewrite !elem_of_cons. lia.
Qed.

Lemma digits_val_snoc l b base acc v d :
  digits_val base acc l = Some v -> digit_val base b = Some d -> digits_val base acc (l ++ [b]) = Some (v * base + d).
Proof.
  revert acc. induction l as [|x l IH]; intros acc; simpl.
  - intros [= ->] ->. done.
  - destruct (digit_val base x) as [e|]; [|done]. simpl. apply IH.
Qed.

(** The digits of a positive number: no zero at the front. *)
Lemma pretty_go_digits n : (0 < n)%N -> exists b l,
  (forall s, bytes_of (pretty_N_go n s) = (b :: l) ++ bytes_of s)
  /\ is_byte 48 b = false /\ forallb is_digit (b :: l) = true /\ digits_val 10 0 (b :: l) = Some (Z.of_N n).
Proof.
  induction n as [n IH] using (well_founded_induction N.lt_wf_0). intros Hn.
  destruct (pretty_char_digit (n mod 10) ltac:(by apply N.mod_lt)) as (Hd & Hv & Hz).
  pose proof (N.div_mod n 10 ltac:(done)) as Hdiv.
  destruct (decide (n / 10 = 0)%N) as [E|E].
  - exists (pretty_N_char (n mod 10)), []. split.
    + intros s. by rewrite pretty_N_go_step, E, pretty_N_go_0 by done.
    + split; [rewrite Hz; apply N.eqb_neq; lia|]. split; [by simpl; rewrite Hd|].
      cbn [digits_val]. rewrite Hv. cbn. f_equal. lia.
  - destruct (IH (n / 10)%N ltac:(apply N.div_lt; lia) (proj1 (N.neq_0_lt_0 _) E)) as (b & l & Hs & Hb & Hall & Hval).
    exists b, (l ++ [pretty_N_char (n mod 10)]). split; [|split; [done|split]].
    + intros s. rewrite pretty_N_go_step, Hs by done. rewrite !app_comm_cons, <- app_assoc. done.
    + rewrite app_comm_cons, forallb_app, Hall. simpl. by rewrite Hd.
    + rewrite app_comm_cons, (digits_val_snoc _ _ _ _ _ _ Hval Hv). f_equal. lia.
Qed.

Lemma decimal_spec n : exists b l, decimal n = b :: l
  /\ forallb is_digit (b :: l) = true /\ digits_val 10 0 (b :: l) = Some (Z.of_N n) /\ (is_byte 48 b = true -> l = [] /\ n = 0%N).
Proof.
  unfold decimal, pretty, pretty_N. destruct (decide (n = 0)%N) as [->|Hn].
  - by exists "0"%char, [].
  - destruct (pretty_go_digits n ltac:(lia)) as (b & l & Hs & Hb & Hall & Hv). exists b, l.
    rewrite Hs, app_nil_r. split_and!; [done..|]. by rewrite Hb.
Qed.

Lemma decimal_digits n : forallb is_digit (decimal n) = true.
Proof. destruct (decimal_spec n) as (b & l & -> & H & _). done. Qed.

Lemma decimal_value n : digits_val 10 0 (decimal n) = Some (Z.of_N n).
Proof. destruct (decimal_spec n) as (b & l & -> & _ & H & _). done. Qed.

Lemma digit_not b x : is_digit b = true -> is_digit x = false -> b <> x.
Proof. congruence. Qed.

Lemma decimal_not x n : is_digit x = false -> x ∉ decimal n.
Proof.
  intros Hx Hin%list_elem_of_In. pose proof (decimal_digits n) as H. eapply forallb_forall in H; [|exact Hin]. congruence.
Qed.

Lemma Atoi_decimal n :
  strconv_Atoi (pretty n) = if Z.of_N n <=? MaxInt64 then inl (Z.of_N n) else inr ErrRange.
Proof.
  unfold strconv_Atoi, strconv_ParseInt. change (bytes_of (pretty n)) with (decimal n).
  destruct (decimal_spec n) as (b & l & -> & Hall & Hv & _).
  assert (is_digit b = true) as Hb by (by simpl in Hall; apply andb_prop in Hall as [? _]).
  unfold is_digit in Hb. bsplit. unfold is_byte.
  rewrite (proj2 (Z.eqb_neq _ 45)), (proj2 (Z.eqb_neq _ 43)) by lia. rewrite Hv.
  rewrite (proj2 (Z.leb_le (- 2 ^ 63) (Z.of_N n))) by lia. done.
Qed.

Lemma ParseUint_decimal n bits :
  strconv_ParseUint (pretty n) 10 bits = if Z.of_N n <? 2 ^ bits then inl (Z.of_N n) else inr ErrRange.
Proof.
  unfold strconv_ParseUint. change (bytes_of (pretty n)) with (decimal n). pose proof (decimal_value n) as Hv.
  destruct (decimal_spec n) as (b & l & E & _). rewrite E in Hv |- *. by rewrite Hv.
Qed.

(** ** Signed integers *)

Definition FormatInt (z : Z) : bytes :=
  if z <? 0 then byte_of 45 :: decimal (Z.to_N (- z)) else decimal (Z.to_N z).

Lemma ParseInt_format z : in_int64 z -> strconv_ParseInt (string_of (FormatInt z)) = inl z.
Proof.
  intros Hz. unfold in_int64 in Hz. unfold strconv_ParseInt. rewrite bytes_of_string_of. unfold FormatInt.
  destruct (Z.ltb_spec z 0) as [Hneg|Hpos].
  - change (is_byte 45 (byte_of 45)) with true. cbv iota beta.
    pose proof (decimal_value (Z.to_N (- z))) as Hv. destruct (decimal_spec (Z.to_N (- z))) as (b & l & E & _).
    rewrite E in Hv |- *. rewrite Hv. rewrite Z2N.id by lia. rewrite Z.opp_involutive.
    by rewrite (proj2 (Z.leb_le _ _)), (proj2 (Z.leb_le z MaxInt64)) by lia.
  - pose proof (decimal_value (Z.to_N z)) as Hv. destruct (decimal_spec (Z.to_N z)) as (b & l & E & Hall & _).
    rewrite E in Hv |- *. assert (is_digit b = true) as Hb by (by simpl in Hall; apply andb_prop in Hall as [? _]).
    unfold is_digit in Hb. bsplit. unfold is_byte. rewrite (proj2 (Z.eqb_neq _ 45)), (proj2 (Z.eqb_neq _ 43)) by lia.
    rewrite Hv, Z2N.id by lia. by rewrite (proj2 (Z.leb_le _ _)), (proj2 (Z.leb_le z MaxInt64)) by lia.
Qed.

Lemma ParseUint_format z : in_uint64 z -> strconv_ParseUint (string_of (FormatInt z)) 10 64 = inl z.
Proof.
  unfold in_uint64, MaxUint64. intros Hz. unfold FormatInt. rewrite (proj2 (Z.ltb_ge z 0)) by lia.
  unfold decimal. rewrite string_of_bytes_of, ParseUint_decimal, Z2N.id by lia.
  by rewrite (proj2 (Z.ltb_lt _ _)) by lia.
Qed.

(** ** The range of what is read *)

Lemma digit_val_range base b d : digit_val base b = Some d -> 0 <= d < base.
Proof.
  unfold digit_val, is_digit, is_lower, is_upper. pose proof (byte_val_range b).
  repeat case_match; intros; simplify_eq; bsplit; lia.
Qed.

Lemma digits_val_nonneg base acc l v : 0 <= base -> 0 <= acc -> digits_val base acc l = Some v -> 0 <= v.
Proof.
  intros Hb. revert acc. induction l as [|b l IH]; intros acc Ha; simpl; [by intros [= <-]|].
  destruct (digit_val base b) as [d|] eqn:Ed; [|done]. simpl. apply digit_val_range in Ed.
  apply IH. nia.
Qed.

Lemma ParseUint_range s v : strconv_ParseUint s 10 64 = inl v -> 0 <= v < 2 ^ 64.
Proof.
  unfold strconv_ParseUint. destruct (bytes_of s) as [|b l]; [done|].
  destruct (digits_val 10 0 (b :: l)) as [v0|] eqn:E; [|done]. destruct (v0 <? 2 ^ 64) eqn:E2; [|done].
  intros [= ->]. bsplit. split; [|lia]. by eapply digits_val_nonneg in E.
Qed.
