(* ===== verification/Network.v ===== *)
(** * Network addresses of the Go standard library

    What the repository uses of packages net, net/netip and net/url:
    [SplitHostPort], [ParseAddr] with the classes of addresses, and URLs.  An
    address is its value as an integer.  [url.Parse] is an interface. *)

From S2P Require Import Prelude GoStrings.

(** ** Package net *)

Definition last_index (l : bytes) (b : ascii) : option nat :=
  i ← IndexByte (rev l) b; Some (length l - S i)%nat.

(** Brackets are found by position: [end] is that of the first closing one,
    [i] that of the last colon. *)
Definition SplitHostPort (hostport : string) : result (string * string) :=
  let l := bytes_of hostport in
  let bad why := Err (errorString why) in
  match last_index l ":" with
  | None => bad "missing port in address"
  | Some i =>
      let port := string_of (drop (S i) l) in
      let split (host : bytes) (j k : nat) :=
        if bool_decide ("["%char ∈ drop j l) then bad "unexpected '[' in address"
        else if bool_decide ("]"%char ∈ drop k l) then bad "unexpected ']' in address"
        else Ok (string_of host, port) in
      if bool_decide (head l = Some "["%char) then
        match IndexByte l "]" with
        | None => bad "missing ']' in address"
        | Some e =>
            if (S e =? length l)%nat then bad "missing port in address"
            else if (S e =? i)%nat then split (take (e - 1) (drop 1 l)) 1%nat (S e)
            else if bool_decide (l !! S e = Some ":"%char) then bad "too many colons in address"
            else bad "missing port in address"
        end
      else
        let host := take i l in
        if bool_decide (":"%char ∈ host) then bad "too many colons in address" else split host 0%nat 0%nat
  end.

(** ** Package net/netip *)

Inductive Addr := IPv4 (v : Z) | IPv6 (v : Z) (zone : string).

#[export] Instance Addr_eq_dec : EqDecision Addr.
Proof. solve_decision. Defined.

(** One field of four: decimal, without a leading zero. *)
Definition octet (l : bytes) : option Z :=
  match l with
  | [] => None
  | b :: (_ :: _) as l' => if is_byte 48 b then None else v ← digits_val 10 0 l; if v <=? 255 then Some v else None
  | _ => v ← digits_val 10 0 l; if v <=? 255 then Some v else None
  end.

Definition parseIPv4 (l : bytes) : option Z :=
  fields ← mapM octet (split_byte "." [] l);
  match fields with
  | [a; b; c; d] => Some (((a * 256 + b) * 256 + c) * 256 + d)
  | _ => None
  end.

Definition is_hex (b : ascii) : bool := match digit_val 16 b with Some _ => true | None => false end.

Fixpoint hex_prefix (l : bytes) : bytes :=
  match l with
  | b :: l' => if is_hex b then b :: hex_prefix l' else []
  | [] => []
  end.

(** The groups of 16 bits, how many of them precede the ellipsis, and what is
    left; [room] is how many groups there is room for. *)
Fixpoint ipv6_groups (room : nat) (ip : list Z) (ellipsis : option nat) (s : bytes) :
    option (list Z * option nat * bytes) :=
  match room with
  | O => Some (ip, ellipsis, s)
  | S room' =>
      let digits := hex_prefix s in
      let off := length digits in
      if (off =? 0)%nat || (4 <? off)%nat then None else
      match drop off s with
      | "."%char :: _ =>
          if is_null ellipsis && negb (length ip =? 6)%nat then None
          else if (8 <? length ip + 2)%nat then None
          else v ← parseIPv4 s; Some (ip ++ [v / 65536; v mod 65536], ellipsis, [])
      | rest =>
          acc ← digits_val 16 0 digits;
          let ip := ip ++ [acc] in
          match rest with
          | [] => Some (ip, ellipsis, [])
          | ":"%char :: s1 =>
              match s1 with
              | [] => None
              | ":"%char :: s2 =>
                  if negb (is_null ellipsis) then None else
                  match s2 with
                  | [] => Some (ip, Some (length ip), [])
                  | _ => ipv6_groups room' ip (Some (length ip)) s2
                  end
              | _ => ipv6_groups room' ip ellipsis s1
              end
          | _ => None
          end
      end
  end.

Definition group_value (ip : list Z) : Z := foldl (fun v g => v * 65536 + g) 0 ip.

(** The ellipsis is expanded to the groups that are missing. *)
Definition expand (ip : list Z) (ellipsis : option nat) : option Z :=
  let n := (8 - length ip)%nat in
  match ellipsis with
  | None => if (n =? 0)%nat then Some (group_value ip) else None
  | Some e => if (n =? 0)%nat then None else Some (group_value (take e ip ++ replicate n 0 ++ drop e ip))
  end.

Definition parseIPv6 (l : bytes) : option Addr :=
  let '(s, zone) := match cut_byte l "%" with Some (s, z) => (s, Some z) | None => (l, None) end in
  if bool_decide (zone = Some []) then None else
  let zone := string_of (default [] zone) in
  let leading := has_prefix s [":"; ":"]%char in
  let s := if leading then drop 2 s else s in
  if leading && (length s =? 0)%nat then Some (IPv6 0 zone) else
  '(ip, ellipsis, s) ← ipv6_groups 8 [] (if leading then Some 0%nat else None) s;
  if negb (length s =? 0)%nat then None else
  v ← expand ip ellipsis; Some (IPv6 v zone).

(** The first of these bytes decides. *)
Fixpoint parse_addr_as (l : bytes) (input : bytes) : option Addr :=
  match l with
  | [] => None
  | "."%char :: _ => IPv4 <$> parseIPv4 input
  | ":"%char :: _ => parseIPv6 input
  | "%"%char :: _ => None
  | _ :: l' => parse_addr_as l' input
  end.

Definition netip_ParseAddr (s : string) : result Addr :=
  match parse_addr_as (bytes_of s) (bytes_of s) with
  | Some ip => Ok ip
  | None => Err (errorString "unable to parse IP")
  end.

(** An IPv4 address inside IPv6 counts as the former. *)
Definition Unmap (ip : Addr) : Addr :=
  match ip with
  | IPv6 v _ => if Z.shiftr v 32 =? 65535 then IPv4 (Z.land v (2 ^ 32 - 1)) else ip
  | IPv4 _ => ip
  end.

Definition IsLoopback (ip : Addr) : bool :=
  match Unmap ip with
  | IPv4 v => Z.shiftr v 24 =? 127
  | IPv6 v _ => v =? 1
  end.

Definition IsUnspecified (ip : Addr) : bool := bool_decide (ip = IPv4 0) || bool_decide (ip = IPv6 0 "").

(** ** Package net/url *)

(** A [url.URL] with the results of its methods [Hostname] and [Port]. *)
Record URL := mkURL {
  u_Scheme : string;
  u_User : bool;                (* u.User != nil *)
  u_Hostname : string;
  u_Port : string;
  u_Path : string;
  u_RawQuery : string;
  u_Fragment : string;
}.

(** [url_Resolve u p] is [u.ResolveReference(&url.URL{Path: p}).String()]. *)
Class NetURL := { url_Parse : string -> result URL; url_Resolve : URL -> string -> string }.

(** ** Examples *)

Example split_brackets :
  SplitHostPort "[::1]:7447" = Ok ("::1", "7447") /\ SplitHostPort "127.0.0.1:7447" = Ok ("127.0.0.1", "7447")
  /\ is_Ok (SplitHostPort "::1:7447") = false /\ is_Ok (SplitHostPort "[::1]") = false
  /\ is_Ok (SplitHostPort "[::1]x:1") = false /\ SplitHostPort ":80" = Ok ("", "80").
Proof. split_and!; vm_compute; reflexivity. Qed.

Example addresses :
  netip_ParseAddr "127.0.0.1" = Ok (IPv4 2130706433) /\ netip_ParseAddr "::1" = Ok (IPv6 1 "")
  /\ netip_ParseAddr "fe80::1%eth0" = Ok (IPv6 (65152 * 2 ^ 112 + 1) "eth0")
  /\ netip_ParseAddr "::ffff:127.0.0.1" = Ok (IPv6 (65535 * 2 ^ 32 + 2130706433) "")
  /\ IsLoopback (IPv6 (65535 * 2 ^ 32 + 2130706433) "") = true
  /\ netip_ParseAddr "1:2:3:4:5:6:7:8" = Ok (IPv6 (group_value [1; 2; 3; 4; 5; 6; 7; 8]) "")
  /\ netip_ParseAddr "1::" = Ok (IPv6 (2 ^ 112) "") /\ netip_ParseAddr "::" = Ok (IPv6 0 "")
  /\ Forall (fun s => is_Ok (netip_ParseAddr s) = false)
       ["localhost"; "127.0.0.01"; "127.0.0.256"; "1.2.3"; "1.2.3.4.5"; "1..2.3"; "1:2"; "1::2::3"; ":::1"; "::1%";
        "1:2:3:4:5:6:7:8:9"; "1:2:3:4:5:6:7::8"; "12345::"; "1:"; "::1.2.3"; "%eth0"; "127.1"].
Proof. split_and!; [vm_compute; reflexivity..|]. repeat constructor. Qed.
