(* ===== verification/Flags.v ===== *)
(** * Package flag of the Go standard library

    [FlagSet.Parse] for sets of string flags with [ContinueOnError]: the
    values given and the arguments that remain.  What it prints about its
    usage is left out. *)

From S2P Require Import Prelude GoStrings.

Definition flag_ErrHelp := sentinel "flag.ErrHelp".

Inductive flag_arg :=
| NotFlag
| Terminator
| BadFlag
| Flag (name : string) (value : option string).

(** [-name], [--name], [-name=value], [--name=value]. *)
Definition classify (s : string) : flag_arg :=
  match bytes_of s with
  | "-"%char :: l =>
      match l with
      | [] => NotFlag
      | ["-"%char] => Terminator
      | _ =>
          match match l with "-"%char :: l' => l' | _ => l end with
          | [] | "-"%char :: _ | "="%char :: _ => BadFlag
          | c :: name =>
              match cut_byte name "=" with
              | Some (n, v) => Flag (string_of (c :: n)) (Some (string_of v))
              | None => Flag (string_of (c :: name)) None
              end
          end
      end
  | _ => NotFlag
  end.

Section flags.
Context (formal : list string).

Fixpoint parse_flags (values : gmap string string) (args : list string) : result (gmap string string * list string) :=
  match args with
  | [] => Ok (values, [])
  | s :: rest =>
      match classify s with
      | NotFlag => Ok (values, args)
      | Terminator => Ok (values, rest)
      | BadFlag => Err (errorString "bad flag syntax")
      | Flag name value =>
          if negb (bool_decide (name ∈ formal)) then
            if String.eqb name "help" || String.eqb name "h" then Err flag_ErrHelp
            else Err (errorString "flag provided but not defined")
          else
            match value, rest with
            | Some v, _ => parse_flags (<[name := v]> values) rest
            | None, v :: rest' => parse_flags (<[name := v]> values) rest'
            | None, [] => Err (errorString "flag needs an argument")
            end
      end
  end.

Definition flag_Parse : list string -> result (gmap string string * list string) := parse_flags ∅.
End flags.

(** The value of a flag whose default is empty. *)
Definition flag_value (values : gmap string string) (name : string) : string := default "" (values !! name).

(** The flags of a command that takes nothing else; [positional] is its error. *)
Definition parse_args (formal args : list string) (positional : string) : result (gmap string string) :=
  '(values, rest) ← flag_Parse formal args;
  fail_if negb (length rest =? 0)%nat with errorString positional else Ok values.

(** A flag that must be there. *)
Definition required (values : gmap string string) (name : string) : result string :=
  let v := flag_value values name in
  fail_if String.eqb v "" with errorString ("missing required flag --" +:+ name) else Ok v.

Definition parsed_dir (args : list string) : option (string * list string) :=
  match flag_Parse ["state-dir"] args with Ok (values, rest) => Some (flag_value values "state-dir", rest) | Err _ => None end.

Example flags_parsed :
  parsed_dir ["-state-dir"; "/a"; "--state-dir=/b=c"; "x"; "-y"] = Some ("/b=c", ["x"; "-y"])
  /\ parsed_dir ["--state-dir"; "--"; "--"; "-z"] = Some ("--", ["-z"]) /\ parsed_dir ["-"] = Some ("", ["-"])
  /\ flag_Parse ["state-dir"] ["-h"] = Err flag_ErrHelp
  /\ parsed_dir ["---state-dir"] = None /\ parsed_dir ["--state-dir"] = None.
Proof. split_and!; vm_compute; reflexivity. Qed.
