(* ===== verification/Job.v ===== *)
(** * Package internal/job

    The typed action domain, the job life-cycle states with their transition
    table, the idempotency key check, the job and event entities, and the
    canonical identifier check (src/internal/job). *)

From S2P Require Import Prelude GoStrings.

(** ** action.go *)

Abbreviation Action := string (only parsing).

Definition ActionAgentPing : Action := "agent.ping".

Definition ErrInvalidAction := sentinel "job.ErrInvalidAction".

Definition ValidateAction (action : Action) : option error :=
  if String.eqb action ActionAgentPing then None else Some ErrInvalidAction.

(** ** idempotency.go *)

Definition ErrInvalidIdempotencyKey := sentinel "job.ErrInvalidIdempotencyKey".

Definition idempotency_key_byte (b : ascii) : bool :=
  is_upper b || is_lower b || is_digit b
  || (is_byte 46 b || is_byte 95 b || is_byte 58 b || is_byte 45 b).

Definition ValidateIdempotencyKey (key : string) : option error :=
  let n := len key in
  fail_if (n <? 16) || (128 <? n)
    with wrapError "length must be between 16 and 128 bytes" ErrInvalidIdempotencyKey;
  fail_if negb (all_bytes idempotency_key_byte key)
    with wrapError "contains invalid character byte" ErrInvalidIdempotencyKey;
  None.

(** Digests of package crypto/sha256 are 32-byte strings. *)
Class Sha256 := { sha256_Sum256 : string -> string }.

Definition HashIdempotencyKey `{Sha256} (key : string) : string := sha256_Sum256 key.

(** ** state.go *)

Abbreviation State := string (only parsing).

Definition StateQueued : State := "queued".
Definition StateDispatched : State := "dispatched".
Definition StateRunning : State := "running".
Definition StateSucceeded : State := "succeeded".
Definition StateFailed : State := "failed".
Definition StateUnknown : State := "unknown".

Definition State_IsTerminal (s : State) : bool :=
  String.eqb s StateSucceeded || String.eqb s StateFailed || String.eqb s StateUnknown.

Definition State_Valid (s : State) : bool :=
  String.eqb s StateQueued || String.eqb s StateDispatched || String.eqb s StateRunning
  || String.eqb s StateSucceeded || String.eqb s StateFailed || String.eqb s StateUnknown.

Abbreviation FailureCode := string (only parsing).

Definition FailureCodeExecutorError : FailureCode := "executor_error".
Definition FailureCodeDispatchExhausted : FailureCode := "dispatch_exhausted".
Definition FailureCodeExecutionTimeout : FailureCode := "execution_timeout".

Definition FailureCode_Valid (fc : FailureCode) : bool :=
  String.eqb fc FailureCodeExecutorError || String.eqb fc FailureCodeDispatchExhausted
  || String.eqb fc FailureCodeExecutionTimeout.

Definition ErrInvalidStateTransition := sentinel "job.ErrInvalidStateTransition".
Definition ErrInvalidFailureCode := sentinel "job.ErrInvalidFailureCode".

Definition ValidateTransition (from to : State) : option error :=
  let refused := Some (wrapError "cannot transition" ErrInvalidStateTransition) in
  if String.eqb from StateQueued then
    if String.eqb to StateDispatched then None else refused
  else if String.eqb from StateDispatched then
    if String.eqb to StateRunning || String.eqb to StateQueued || String.eqb to StateFailed
    then None else refused
  else if String.eqb from StateRunning then
    if String.eqb to StateSucceeded || String.eqb to StateFailed || String.eqb to StateUnknown
    then None else refused
  else refused.

Definition ValidateStateFailureCode (state : State) (fc : option FailureCode) : option error :=
  if String.eqb state StateSucceeded || String.eqb state StateQueued
     || String.eqb state StateDispatched || String.eqb state StateRunning then
    match fc with
    | Some c => if negb (String.eqb c "")
                then Some (wrapError "failure code must be empty" ErrInvalidFailureCode) else None
    | None => None
    end
  else if String.eqb state StateFailed then
    match fc with
    | Some c => if negb (String.eqb c FailureCodeExecutorError)
                   && negb (String.eqb c FailureCodeDispatchExhausted)
                then Some (wrapError "failed state requires a failure code" ErrInvalidFailureCode)
                else None
    | None => Some (wrapError "failed state requires a failure code" ErrInvalidFailureCode)
    end
  else if String.eqb state StateUnknown then
    match fc with
    | Some c => if negb (String.eqb c FailureCodeExecutionTimeout)
                then Some (wrapError "unknown state requires execution_timeout" ErrInvalidFailureCode)
                else None
    | None => Some (wrapError "unknown state requires execution_timeout" ErrInvalidFailureCode)
    end
  else Some (errorString "unknown state").

(** ** job.go *)

Definition DispatchLease : Z := 30 * Second.
Definition MaxDispatchAttempts : Z := 5.
Definition ExecutionResultDeadline : Z := 60 * Second.
Definition MaxActiveJobsPerAgent : Z := 64.

Definition EventJobCreated : string := "job.created".
Definition EventJobDispatched : string := "job.dispatched".
Definition EventJobRequeued : string := "job.requeued".
Definition EventJobStarted : string := "job.started".
Definition EventJobSucceeded : string := "job.succeeded".
Definition EventJobFailed : string := "job.failed".
Definition EventJobUnknown : string := "job.unknown".

Definition ActorTypeOperator : string := "operator".
Definition ActorTypeAgent : string := "agent".
Definition ActorTypeController : string := "controller".

Record Job := mkJob {
  ID : UUID;
  AgentID : UUID;
  CreatedByOperatorID : UUID;
  CreatedByUsername : string;
  IdempotencyKeyHash : string;
  ActionType : string;
  JobState : State;
  Attempt : Z;
  JobFailureCode : option string;
  CreatedAt : Z;
  UpdatedAt : Z;
  DispatchedAt : option Z;
  DispatchExpiresAt : option Z;
  StartedAt : option Z;
  ExecutionDeadlineAt : option Z;
  FinishedAt : option Z;
}.

Record JobEvent := mkJobEvent {
  EventID : UUID;
  EventJobID : UUID;
  EventType : string;
  EventAttempt : Z;
  ActorType : string;
  ActorIdentifier : string;
  EventFailureCode : option string;
  OccurredAt : Z;
}.

#[global] Instance Job_eq_dec : EqDecision Job.
Proof. solve_decision. Defined.
#[global] Instance JobEvent_eq_dec : EqDecision JobEvent.
Proof. solve_decision. Defined.

Definition ErrInvalidUUID := sentinel "job.ErrInvalidUUID".
Definition ErrJobNotFound := sentinel "job.ErrJobNotFound".
Definition ErrJobConflict := sentinel "job.ErrJobConflict".
Definition ErrJobIdempotencyConflict := sentinel "job.ErrJobIdempotencyConflict".
Definition ErrQueueFull := sentinel "job.ErrQueueFull".
Definition ErrAgentNotFound := sentinel "job.ErrAgentNotFound".
Definition ErrOperatorAuthRequired := sentinel "job.ErrOperatorAuthRequired".
Definition ErrPermissionDenied := sentinel "job.ErrPermissionDenied".

Definition ValidateCanonicalUUID `{UuidText} (s : string) : result UUID :=
  match uuid_Parse s with
  | None => Err (wrapError "invalid UUID" ErrInvalidUUID)
  | Some id =>
      if negb (String.eqb (uuid_String id) s)
      then Err (wrapError "non-canonical UUID representation" ErrInvalidUUID)
      else Ok id
  end.

(** ** Facts *)

Lemma terminal_no_exit from to :
  State_IsTerminal from = true -> ValidateTransition from to <> None.
Proof.
  unfold State_IsTerminal, ValidateTransition. intros H.
  apply orb_prop in H as [H|H]; [apply orb_prop in H as [H|H]|];
    apply String.eqb_eq in H; subst; vm_compute; discriminate.
Qed.

Lemma transition_sources_valid from to :
  ValidateTransition from to = None -> State_Valid from = true /\ State_Valid to = true.
Proof.
  unfold ValidateTransition, State_Valid. cases; intros; bsplit; subst; try done;
    repeat match goal with H : (_ || _)%bool = true |- _ => apply orb_prop in H as [H|H] end;
    bsplit; subst; done.
Qed.

Lemma ValidateCanonicalUUID_ok `{UuidText} s id :
  ValidateCanonicalUUID s = Ok id -> uuid_Parse s = Some id /\ uuid_String id = s.
Proof. unfold ValidateCanonicalUUID. cases. intros. bsplit. by simplify_eq. Qed.

(** C-transitions: the life cycle is the documented table, terminal states are
    absorbing, and only recognised states take part. *)
Theorem transition_table from to :
  ValidateTransition from to = None <->
  (from, to) ∈ [(StateQueued, StateDispatched); (StateDispatched, StateRunning);
                (StateDispatched, StateQueued); (StateDispatched, StateFailed);
                (StateRunning, StateSucceeded); (StateRunning, StateFailed);
                (StateRunning, StateUnknown)].
Proof.
  split.
  - unfold ValidateTransition. cases; intros _;
      repeat match goal with H : (_ || _)%bool = true |- _ => apply orb_prop in H as [H|H] end;
      bsplit; subst; set_solver.
  - intros H. repeat (apply elem_of_cons in H as [[= -> ->]|H]; [reflexivity|]).
    by apply elem_of_nil in H.
Qed.

(** C-key: a key is accepted exactly when it has 16 to 128 bytes, all of them
    letters, digits, dot, underscore, colon or hyphen. *)
Theorem idempotency_key_accepts key :
  ValidateIdempotencyKey key = None <->
  16 <= len key <= 128 /\ forall b, b ∈ bytes_of key -> idempotency_key_byte b = true.
Proof.
  unfold ValidateIdempotencyKey, all_bytes.
  destruct (_ || _) eqn:E1; [|destruct (negb _) eqn:E2].
  - split; [done|]. intros [? _]. apply orb_prop in E1 as []; bsplit; lia.
  - split; [done|]. intros [_ H]. bsplit.
    assert (forallb idempotency_key_byte (bytes_of key) = true) as Ht.
    { apply forallb_forall. intros x Hx%list_elem_of_In. by apply H. }
    congruence.
  - split; [|done]. intros _. bsplit. split; [lia|].
    intros b Hb. rewrite forallb_forall in E2. by apply E2, list_elem_of_In.
Qed.
