(* ===== verification/Operator.v ===== *)
(** * Package internal/operator

    Roles and the permission matrix, usernames, session tokens, password
    hashing in PHC format, and the login concurrency limiter
    (src/internal/operator). *)

From stdpp Require Import pretty.
From S2P Require Import Prelude GoStrings Base64 Job.

(** ** role.go *)

Abbreviation Role := string (only parsing).
Abbreviation Permission := string (only parsing).

Definition RoleViewer : Role := "viewer".
Definition RoleOperator : Role := "operator".
Definition RoleAdmin : Role := "admin".

Definition PermissionServersRead : Permission := "servers.read".
Definition PermissionJobsRead : Permission := "jobs.read".
Definition PermissionOperationsExecute : Permission := "operations.execute".
Definition PermissionOperatorsManage : Permission := "operators.manage".
Definition PermissionAuditRead : Permission := "audit.read".

Definition ParseRole (s : string) : result Role :=
  if String.eqb s RoleViewer then Ok RoleViewer
  else if String.eqb s RoleOperator then Ok RoleOperator
  else if String.eqb s RoleAdmin then Ok RoleAdmin
  else Err (errorString "unknown role").

Definition Role_Valid (r : Role) : bool :=
  String.eqb r RoleViewer || String.eqb r RoleOperator || String.eqb r RoleAdmin.

Definition HasPermission (r : Role) (p : Permission) : bool :=
  if String.eqb r RoleViewer then
    String.eqb p PermissionServersRead || String.eqb p PermissionJobsRead
  else if String.eqb r RoleOperator then
    String.eqb p PermissionServersRead || String.eqb p PermissionJobsRead
    || String.eqb p PermissionOperationsExecute
  else if String.eqb r RoleAdmin then
    String.eqb p PermissionServersRead || String.eqb p PermissionJobsRead
    || String.eqb p PermissionOperationsExecute || String.eqb p PermissionOperatorsManage
    || String.eqb p PermissionAuditRead
  else false.

(** ** operator.go *)

Definition ErrUsernameConflict := sentinel "operator.ErrUsernameConflict".
Definition ErrOperatorNotFound := sentinel "operator.ErrOperatorNotFound".
Definition ErrAuthenticationFailed := sentinel "operator.ErrAuthenticationFailed".
Definition ErrSessionNotFound := sentinel "operator.ErrSessionNotFound".

(** [^[a-z0-9][a-z0-9._-]{2,63}$] *)
Definition username_head (b : ascii) : bool := is_lower b || is_digit b.
Definition username_tail (b : ascii) : bool :=
  is_lower b || is_digit b || is_byte 46 b || is_byte 95 b || is_byte 45 b.

Definition canonicalUsernamePattern (u : string) : bool :=
  match bytes_of u with
  | b :: rest => username_head b && forallb username_tail rest
                 && (2 <=? Z.of_nat (length rest)) && (Z.of_nat (length rest) <=? 63)
  | [] => false
  end.

Definition NormalizeUsername `{UnicodeTables} (u : string) : string := strings_ToLower u.

Definition ValidateUsername (u : string) : option error :=
  fail_if (len u <? 3) || (64 <? len u)
    with errorString "username must be between 3 and 64 characters";
  fail_if negb (canonicalUsernamePattern u)
    with errorString "username must begin with a-z or 0-9";
  None.

Definition ActionOperatorCreated : string := "operator.created".
Definition ActionOperatorLogin : string := "operator.login".
Definition ActionOperatorLogout : string := "operator.logout".
Definition ActionOperatorAuditRead : string := "operator.audit.read".
Definition ActionJobCreated : string := "job.created".

Definition OutcomeSuccess : string := "success".
Definition OutcomeFailure : string := "failure".
Definition OutcomeDenied : string := "denied".

Record OperatorRecord := mkOperatorRecord {
  OpID : string;
  OpUsername : string;
  OpPasswordHash : string;
  OpRole : Role;
  OpDisabledAt : option Z;
  OpCreatedAt : Z;
  OpUpdatedAt : Z;
}.

Record SessionRecord := mkSessionRecord {
  SessID : string;
  SessOperatorID : string;
  SessCreatedAt : Z;
  SessExpiresAt : Z;
}.

Record AuditEventRecord := mkAuditEventRecord {
  AuditID : string;
  AuditOccurredAt : Z;
  AuditActorOperatorID : option string;
  AuditActorUsername : string;
  AuditActionName : string;
  AuditTargetOperatorID : option string;
  AuditTargetUsername : option string;
  AuditTargetJobID : option string;
  AuditOutcomeName : string;
}.

(** ** session.go *)

Definition SessionTokenPrefix : string := "sp_session_".
Definition SessionEntropyBytes : Z := 32.
Definition SessionTokenRandomLength : Z := 43.
Definition SessionTokenTotalLength : Z := len SessionTokenPrefix + SessionTokenRandomLength.
Definition SessionLifetime : Z := 12 * Hour.
Definition MaxActiveSessionsPerOperator : Z := 8.

Record Principal := mkPrincipal {
  PrOperatorID : string;
  PrUsername : string;
  PrRole : Role;
  PrSessionID : string;
  PrExpiresAt : Z;
}.

(** [entropy] is what reading 32 bytes from the random source gives. *)
Definition GenerateSessionToken (entropy : result bytes) : result string :=
  match entropy with
  | Err e => Err (wrapError "failed to generate session entropy" e)
  | Ok b => Ok (SessionTokenPrefix +:+ EncodeToString URLAlphabet b)
  end.

Definition ValidateSessionToken (token : string) : option error :=
  fail_if negb (strings_HasPrefix token SessionTokenPrefix)
    with errorString "invalid session token prefix";
  fail_if negb (len token =? SessionTokenTotalLength)
    with errorString "invalid session token length";
  fail_if strings_Contains token "="
    with errorString "session token must not have padding";
  let raw := string_of (drop (String.length SessionTokenPrefix) (bytes_of token)) in
  match DecodeString URLAlphabet true raw with
  | None => Some (errorString "invalid session token entropy encoding")
  | Some decoded =>
      fail_if negb (Z.of_nat (length decoded) =? SessionEntropyBytes)
        with errorString "invalid session token entropy encoding";
      None
  end.

Definition HashSessionToken `{Sha256} (token : string) : string := sha256_Sum256 token.

(** ** password.go *)

Definition Argon2MemoryKiB : Z := 32 * 1024.
Definition Argon2Iterations : Z := 3.
Definition Argon2Parallelism : Z := 1.
Definition Argon2SaltLength : Z := 16.
Definition Argon2KeyLength : Z := 32.
Definition Argon2Version : Z := 19.
Definition MinPasswordBytes : Z := 12.
Definition MaxPasswordBytes : Z := 128.

(** golang.org/x/crypto/argon2: key derivation, which returns as many bytes as
    it is asked for. *)
Class Argon2 := {
  argon2_IDKey : string -> bytes -> Z -> Z -> Z -> Z -> bytes;
}.

Class Argon2Laws `{Argon2} : Prop := {
  argon2_length : forall pw salt time memory threads keyLen, 0 <= keyLen ->
    Z.of_nat (length (argon2_IDKey pw salt time memory threads keyLen)) = keyLen;
}.

Definition ValidatePassword (pw : string) : option error :=
  fail_if len pw <? MinPasswordBytes
    with errorString "password must be at least 12 bytes";
  fail_if MaxPasswordBytes <? len pw
    with errorString "password must be at most 128 bytes";
  fail_if negb (utf8_ValidString pw)
    with errorString "password must be valid UTF-8";
  fail_if existsb unicode_IsControl (range_runes pw)
    with errorString "password must not contain control characters or NUL";
  None.

(** [fmt.Sprintf] with the PHC format. *)
Definition phc_format (salt key : bytes) : string :=
  "$argon2id$v=" +:+ pretty Argon2Version +:+ "$m=" +:+ pretty Argon2MemoryKiB
  +:+ ",t=" +:+ pretty Argon2Iterations +:+ ",p=" +:+ pretty Argon2Parallelism
  +:+ "$" +:+ EncodeToString StdAlphabet salt +:+ "$" +:+ EncodeToString StdAlphabet key.

Definition HashPassword `{Argon2} (saltSource : result bytes) (pw : string) : result string :=
  check ValidatePassword pw as err with err else
  match saltSource with
  | Err e => Err (wrapError "failed to generate random salt" e)
  | Ok salt =>
      let key := argon2_IDKey pw salt Argon2Iterations Argon2MemoryKiB Argon2Parallelism
                              Argon2KeyLength in
      Ok (phc_format salt key)
  end.

(** [subtle.ConstantTimeCompare(x, y) == 1] *)
Definition ConstantTimeEqual (x y : bytes) : bool := bool_decide (x = y).

Definition VerifyPassword `{Argon2} (encodedHash pw : string) : option error :=
  match strings_Split encodedHash "$"%char with
  | [p0; p1; p2; p3; p4; p5] =>
      fail_if negb (String.eqb p0 "") || negb (String.eqb p1 "argon2id")
        with errorString "invalid password hash format";
      fail_if negb (String.eqb p2 "v=19") with errorString "unsupported argon2 version";
      fail_if negb (String.eqb p3 "m=32768,t=3,p=1")
        with errorString "unsupported argon2 parameters";
      match DecodeString StdAlphabet true p4 with
      | None => Some (errorString "invalid salt in password hash")
      | Some salt =>
          fail_if negb (Z.of_nat (length salt) =? Argon2SaltLength)
            with errorString "invalid salt in password hash";
          match DecodeString StdAlphabet true p5 with
          | None => Some (errorString "invalid key in password hash")
          | Some expectedKey =>
              fail_if negb (Z.of_nat (length expectedKey) =? Argon2KeyLength)
                with errorString "invalid key in password hash";
              let derivedKey := argon2_IDKey pw salt Argon2Iterations Argon2MemoryKiB
                                             Argon2Parallelism Argon2KeyLength in
              fail_if negb (ConstantTimeEqual derivedKey expectedKey)
                with errorString "invalid password";
              None
          end
      end
  | _ => Some (errorString "invalid password hash format")
  end.

(** The limiter is a buffered channel: its capacity and how many slots are
    taken.  [release] receives one element and is the callback handed to a
    successful caller. *)
Record ConcurrencyLimiter := mkLimiter { sem_cap : Z; sem_len : Z }.

Definition NewConcurrencyLimiter (limit : Z) : ConcurrencyLimiter := mkLimiter limit 0.

Definition TryAcquire (c : ConcurrencyLimiter) : ConcurrencyLimiter * bool :=
  if sem_len c <? sem_cap c then (mkLimiter (sem_cap c) (sem_len c + 1), true)
  else (c, false).

Definition release (c : ConcurrencyLimiter) : ConcurrencyLimiter :=
  mkLimiter (sem_cap c) (sem_len c - 1).

(** ** Facts *)

Lemma ParseRole_valid s r : ParseRole s = Ok r <-> r = s /\ Role_Valid s = true.
Proof.
  unfold ParseRole, Role_Valid.
  repeat case_match; bsplit; subst; simpl; split; intros Hr; try (by simplify_eq);
    destruct Hr; bsplit; by subst.
Qed.

Lemma HasPermission_role_valid r p : HasPermission r p = true -> Role_Valid r = true.
Proof. unfold HasPermission, Role_Valid. repeat case_match; bsplit; by subst. Qed.

Definition permission_matrix : list (Role * Permission) :=
  [(RoleViewer, PermissionServersRead); (RoleViewer, PermissionJobsRead);
   (RoleOperator, PermissionServersRead); (RoleOperator, PermissionJobsRead);
   (RoleOperator, PermissionOperationsExecute);
   (RoleAdmin, PermissionServersRead); (RoleAdmin, PermissionJobsRead);
   (RoleAdmin, PermissionOperationsExecute); (RoleAdmin, PermissionOperatorsManage);
   (RoleAdmin, PermissionAuditRead)].

(** A role has a permission exactly when the pair is in the documented
    matrix; an unknown role or an unknown permission authorises nothing. *)
Theorem permission_matrix_exact r p :
  HasPermission r p = true <-> (r, p) ∈ permission_matrix.
Proof.
  split.
  - unfold HasPermission. repeat case_match; intros Hp; bsplit; subst; try done;
      repeat match goal with H : (_ || _)%bool = true |- _ => apply orb_prop in H as [H|H] end;
      bsplit; subst; set_solver.
  - intros H. repeat (apply elem_of_cons in H as [[= -> ->]|H]; [reflexivity|]).
    by apply elem_of_nil in H.
Qed.

(** The session tokens that pass validation are exactly the ones the
    generator produces from 32 bytes of entropy. *)
Theorem session_token_exact t :
  ValidateSessionToken t = None <->
  exists b, Z.of_nat (length b) = SessionEntropyBytes /\ GenerateSessionToken (Ok b) = Ok t.
Proof.
  unfold ValidateSessionToken, GenerateSessionToken. split.
  - destruct (negb (strings_HasPrefix _ _)) eqn:E1; [done|].
    destruct (negb (_ =? _)) eqn:E2; [done|].
    destruct (strings_Contains t "=") eqn:E3; [done|].
    destruct (DecodeString _ _ _) as [b|] eqn:E4; [|done].
    destruct (negb (_ =? SessionEntropyBytes)) eqn:E5; [done|]. intros _. bsplit.
    exists b. split; [done|]. f_equal. apply bytes_of_inj.
    rewrite bytes_of_app. unfold strings_HasPrefix in E1. apply has_prefix_inv in E1.
    rewrite length_bytes_of in E1.
    rewrite (encode_decode_strict URLAlphabet _ b) with (2 := E4).
    + by rewrite bytes_of_string_of, <- E1.
    + apply (strict_no_newline _ _ _ _ E4).
      rewrite length_bytes_of. unfold len, SessionTokenTotalLength in E2.
      rewrite string_length_of, length_drop, length_bytes_of.
      revert E2 E5. unfold len, SessionTokenRandomLength, SessionEntropyBytes. simpl. lia.
  - intros (b & Hb & [= <-]).
    assert (length b = 32%nat) as Hl by (unfold SessionEntropyBytes in Hb; lia).
    unfold strings_HasPrefix. rewrite bytes_of_app, has_prefix_app. cbn [negb].
    replace (len _ =? _) with true; cbn [negb].
    2:{ symmetry. apply Z.eqb_eq. rewrite len_app. unfold len at 2.
        by rewrite length_encode_32. }
    replace (strings_Contains _ "=") with false.
    2:{ symmetry. apply strings_Contains_byte. rewrite bytes_of_app.
        intros [H|H]%elem_of_app;
          [apply list_elem_of_In in H; vm_compute in H; intuition discriminate|].
        apply encode_not_special in H as [H _]. done. }
    rewrite drop_app_length', string_of_bytes_of, decode_encode by done.
    by rewrite Hb, Z.eqb_refl.
Qed.

Lemma dollar_not_encoded a l : "$"%char ∉ bytes_of (EncodeToString a l).
Proof. intros H%encode_not_special. by destruct H as (_ & H & _). Qed.

Lemma phc_split salt key :
  strings_Split (phc_format salt key) "$"%char =
  [""; "argon2id"; "v=19"; "m=32768,t=3,p=1"; EncodeToString StdAlphabet salt;
   EncodeToString StdAlphabet key].
Proof.
  unfold strings_Split, phc_format.
  replace (bytes_of _) with
    ([] ++ "$"%char :: bytes_of "argon2id" ++ "$"%char :: bytes_of "v=19"
     ++ "$"%char :: bytes_of "m=32768,t=3,p=1" ++ "$"%char
     :: bytes_of (EncodeToString StdAlphabet salt) ++ "$"%char
     :: bytes_of (EncodeToString StdAlphabet key)).
  2:{ rewrite !bytes_of_app. reflexivity. }
  rewrite !split_byte_cons
    by (try apply dollar_not_encoded;
        intros H%list_elem_of_In; vm_compute in H; intuition discriminate).
  rewrite split_byte_none by apply dollar_not_encoded.
  simpl. by rewrite !string_of_bytes_of.
Qed.

(** A password verifies against a stored hash exactly when it derives the
    same key under the stored salt; in particular every password verifies
    against the hash made from it. *)
Theorem password_round_trip `{Argon2, !Argon2Laws} salt pw h pw' :
  Z.of_nat (length salt) = Argon2SaltLength ->
  HashPassword (Ok salt) pw = Ok h ->
  (VerifyPassword h pw' = None <->
   argon2_IDKey pw' salt Argon2Iterations Argon2MemoryKiB Argon2Parallelism Argon2KeyLength =
   argon2_IDKey pw salt Argon2Iterations Argon2MemoryKiB Argon2Parallelism Argon2KeyLength).
Proof.
  intros Hs Hh. unfold HashPassword in Hh.
  destruct (ValidatePassword pw); [done|]. injection Hh as <-.
  unfold VerifyPassword. rewrite phc_split. cbn -[DecodeString EncodeToString Z.of_nat].
  rewrite !decode_encode, Hs, argon2_length by done.
  cbn -[Z.of_nat]. unfold ConstantTimeEqual.
  case_bool_decide as E; simpl; split; done.
Qed.

Definition argon2_demo : Argon2 :=
  {| argon2_IDKey pw salt t m p n := replicate (Z.to_nat n) (byte_of (len pw)) |}.

Lemma argon2_demo_laws : @Argon2Laws argon2_demo.
Proof.
  split. intros. unfold argon2_demo. cbn [argon2_IDKey]. rewrite length_replicate. lia.
Qed.

Lemma password_round_trip_witness :
  exists h, @HashPassword argon2_demo (Ok (replicate 16 "a"%char)) "correct horse" = Ok h /\
            @VerifyPassword argon2_demo h "correct horse" = None.
Proof.
  pose (h := phc_format (replicate 16 "a"%char) (replicate 32 (byte_of 13))).
  exists h. split; [vm_compute; reflexivity|].
  apply (@password_round_trip argon2_demo argon2_demo_laws (replicate 16 "a"%char)
           "correct horse" h "correct horse"); [reflexivity|vm_compute; reflexivity|reflexivity].
Defined.

(** One caller's use of the limiter: acquire attempts, and releases by callers
    that hold a slot. *)
Inductive limiter_op := OpAcquire | OpRelease.

Fixpoint limiter_run (c : ConcurrencyLimiter) (held : Z) (ops : list limiter_op) :
    ConcurrencyLimiter * Z :=
  match ops with
  | [] => (c, held)
  | OpAcquire :: ops' =>
      let '(c', ok) := TryAcquire c in
      limiter_run c' (if ok : bool then held + 1 else held) ops'
  | OpRelease :: ops' =>
      if 0 <? held then limiter_run (release c) (held - 1) ops' else limiter_run c held ops'
  end.

Lemma limiter_run_bound c held ops :
  sem_len c = held -> 0 <= held <= sem_cap c ->
  let '(c', held') := limiter_run c held ops in
  sem_len c' = held' /\ 0 <= held' <= sem_cap c' /\ sem_cap c' = sem_cap c.
Proof.
  revert c held. induction ops as [|[] ops IH]; intros c held Hl Hb; simpl.
  - done.
  - unfold TryAcquire. destruct (sem_len c <? sem_cap c) eqn:E; bsplit.
    + specialize (IH (mkLimiter (sem_cap c) (sem_len c + 1)) (held + 1)). apply IH; simpl; lia.
    + by apply IH.
  - destruct (0 <? held) eqn:E; bsplit.
    + specialize (IH (release c) (held - 1)). apply IH; simpl; lia.
    + by apply IH.
Qed.

(** However acquires and releases interleave, the number of password
    verifications in progress never exceeds the limit, and an attempt is
    refused only when all slots are taken. *)
Theorem limiter_bounded limit ops :
  let '(c, held) := limiter_run (NewConcurrencyLimiter (Z.max 0 limit)) 0 ops in
  0 <= held <= Z.max 0 limit /\ ((TryAcquire c).2 = false <-> held = Z.max 0 limit).
Proof.
  pose proof (limiter_run_bound (NewConcurrencyLimiter (Z.max 0 limit)) 0 ops eq_refl) as H.
  destruct (limiter_run _ _ _) as [c held]. simpl in H. specialize (H ltac:(lia)).
  destruct H as (Hl & Hb & Hc). split; [lia|].
  unfold TryAcquire. rewrite Hc, Hl. case_match eqn:E; simpl; bsplit; split; intros; lia || done.
Qed.
