(* ===== verification/Enrollment.v ===== *)
(** * Package internal/enrollment

    Enrollment tokens: format, generation, digest and issue
    (src/internal/enrollment/token.go). *)

From S2P Require Import Prelude GoStrings Base64 Job.

Definition TokenPrefix : string := "sp_enroll_".
Definition TokenEntropyBytes : Z := 32.
Definition TokenTotalLength : Z := len TokenPrefix + 43.
Definition TokenLifetime : Z := 15 * Minute.

Definition ErrEnrollmentRejected := sentinel "enrollment.ErrEnrollmentRejected".
Definition ErrIdentityConflict := sentinel "enrollment.ErrIdentityConflict".
Definition ErrEnrollmentInternal := sentinel "enrollment.ErrEnrollmentInternal".
Definition ErrEnrolledAgentNotFound := sentinel "enrollment.ErrAgentNotFound".

Record AgentRecord := mkAgentRecord {
  AgID : string;
  AgPublicKey : string;
  AgCreatedAt : Z;
  AgLastSeenAt : option Z;
  AgProtocolVersion : option Z;
}.

Record TokenRecord := mkTokenRecord {
  TokID : string;
  TokCreatedAt : Z;
  TokExpiresAt : Z;
}.

Definition ValidateToken (token : string) : option error :=
  fail_if negb (len token =? TokenTotalLength) with errorString "invalid enrollment token length";
  fail_if negb (strings_HasPrefix token TokenPrefix)
    with errorString "invalid enrollment token prefix";
  let randomPart := strings_TrimPrefix token TokenPrefix in
  fail_if strings_Contains randomPart "=" with errorString "invalid enrollment token padding";
  match DecodeString URLAlphabet false randomPart with
  | None => Some (errorString "invalid enrollment token encoding")
  | Some raw =>
      fail_if negb (Z.of_nat (length raw) =? TokenEntropyBytes)
        with errorString "invalid enrollment token entropy length";
      None
  end.

(** [r] is what reading 32 bytes from the random source gives. *)
Definition generatePlaintextToken (r : result bytes) : result string :=
  match r with
  | Err e => Err (wrapError "failed to read random entropy" e)
  | Ok b => Ok (TokenPrefix +:+ EncodeToString URLAlphabet b)
  end.

Definition HashToken `{Sha256} (plaintext : string) : string := sha256_Sum256 plaintext.

(** The persister is the database's [CreateEnrollmentToken], in whatever monad
    it runs. *)
Definition issueTokenWithReader `{Sha256} {M : Type -> Type} `{MRet M, MBind M}
    (CreateEnrollmentToken : string -> Z -> M (result TokenRecord))
    (r : result bytes) (now : Z) : M (result string) :=
  match generatePlaintextToken r with
  | Err e => mret (Err (wrapError "failed to generate enrollment token" e))
  | Ok plaintext =>
      let tokenHash := HashToken plaintext in
      let expiresAt := now + TokenLifetime in
      res ← CreateEnrollmentToken tokenHash expiresAt;
      match res with
      | Err _ => mret (Err (errorString "failed to persist enrollment token"))
      | Ok _ => mret (Ok plaintext)
      end
  end.

(** ** Facts *)

Lemma trim_prefix_app p s : strings_TrimPrefix (p +:+ s) p = s.
Proof.
  unfold strings_TrimPrefix, strings_HasPrefix. rewrite bytes_of_app, has_prefix_app.
  rewrite drop_app_length' by (symmetry; apply length_bytes_of). apply string_of_bytes_of.
Qed.

(** Every token the generator issues from 32 bytes of entropy passes
    validation, and it has the fixed prefix and length. *)
Theorem issued_token_valid b t :
  Z.of_nat (length b) = TokenEntropyBytes ->
  generatePlaintextToken (Ok b) = Ok t ->
  ValidateToken t = None /\ len t = 53 /\ strings_HasPrefix t TokenPrefix = true.
Proof.
  intros Hb [= <-].
  assert (length b = 32%nat) as Hl by (unfold TokenEntropyBytes in Hb; lia).
  assert (len (TokenPrefix +:+ EncodeToString URLAlphabet b) = 53) as Hlen.
  { rewrite len_app. unfold len at 2. by rewrite length_encode_32. }
  assert (strings_HasPrefix (TokenPrefix +:+ EncodeToString URLAlphabet b) TokenPrefix = true).
  { unfold strings_HasPrefix. by rewrite bytes_of_app, has_prefix_app. }
  split; [|done]. unfold ValidateToken. rewrite Hlen, H, trim_prefix_app.
  replace (strings_Contains _ "=") with false.
  2:{ symmetry. apply strings_Contains_byte. intros Hi%encode_not_special. by destruct Hi. }
  rewrite decode_encode. by rewrite Hb.
Qed.

Lemma issued_token_valid_witness :
  ValidateToken (TokenPrefix +:+ EncodeToString URLAlphabet (replicate 32 "k"%char)) = None.
Proof.
  apply (issued_token_valid (replicate 32 "k"%char)); reflexivity.
Defined.

(** Two spellings that differ in the two unused bits of the last character. *)
Definition canonical_spelling : string :=
  TokenPrefix +:+ "AAAAAAAAAAAAAAAAAAAAAAAAAAAAAAAAAAAAAAAAAAA".
Definition lenient_spelling : string :=
  TokenPrefix +:+ "AAAAAAAAAAAAAAAAAAAAAAAAAAAAAAAAAAAAAAAAAAB".

(** Enrollment validation is lenient where session validation is strict:
    it also accepts a spelling that the generator never produces, because the
    decoder ignores the unused trailing bits. *)
Theorem lenient_token_accepted :
  ValidateToken lenient_spelling = None /\
  forall b, generatePlaintextToken (Ok b) <> Ok lenient_spelling.
Proof.
  split; [vm_compute; reflexivity|]. intros b [= Hb].
  assert (bytes_of (TokenPrefix +:+ EncodeToString URLAlphabet b) = bytes_of lenient_spelling)
    as Hl by (by f_equal; f_equal).
  unfold lenient_spelling in Hl. rewrite !bytes_of_app in Hl. apply app_inv_head in Hl.
  apply bytes_of_inj in Hl.
  pose proof (decode_encode URLAlphabet true b) as Hd. rewrite Hl in Hd.
  vm_compute in Hd. discriminate.
Qed.
