(* ===== verification/Protocol.v ===== *)
(** * Package internal/protocol

    Wire messages between Agent and Controller and their validation
    (src/internal/protocol/protocol.go).  A nil request pointer is [None]. *)

From S2P Require Import Prelude GoStrings Job.

Definition CurrentVersion : Z := 2.

Definition HeartbeatEndpointPath : string := "/api/v1/agent/heartbeat".
Definition InventoryEndpointPath : string := "/api/v1/agent/inventory".
Definition TelemetryEndpointPath : string := "/api/v1/agent/telemetry".
Definition AgentJobStartEndpointPath : string := "/api/v1/agent/job/start".
Definition AgentJobCompleteEndpointPath : string := "/api/v1/agent/job/complete".

Record JobAssignment := mkJobAssignment {
  JA_JobID : string;
  JA_Attempt : Z;
  JA_Action : string;
}.

Record HeartbeatResponse := mkHeartbeatResponse {
  HB_ProtocolVersion : Z;
  HB_Job : option JobAssignment;
}.

Record JobStartRequest := mkJobStartRequest {
  JS_ProtocolVersion : Z;
  JS_JobID : string;
  JS_Attempt : Z;
}.

Record JobCompleteRequest := mkJobCompleteRequest {
  JC_ProtocolVersion : Z;
  JC_JobID : string;
  JC_Attempt : Z;
  JC_Outcome : string;
  JC_FailureCode : string;
}.

Record HeartbeatRequest := mkHeartbeatRequest { HR_ProtocolVersion : Z }.

Record InventoryRequest := mkInventoryRequest {
  Inv_ProtocolVersion : Z;
  Hostname : string;
  OSID : string;
  OSName : string;
  OSVersion : string;
  KernelRelease : string;
  Architecture : string;
  CPULogicalCores : Z;
  Inv_MemoryTotalBytes : Z;
}.

Record TelemetryRequest := mkTelemetryRequest {
  Tel_ProtocolVersion : Z;
  CPUUsageBasisPoints : Z;
  MemoryTotalBytes : Z;
  MemoryUsedBytes : Z;
  MemoryAvailableBytes : Z;
  Load1mMilli : Z;
  Load5mMilli : Z;
  Load15mMilli : Z;
  RootFilesystemTotalBytes : Z;
  RootFilesystemUsedBytes : Z;
  RootFilesystemAvailableBytes : Z;
  NetworkReceiveBytesTotal : Z;
  NetworkTransmitBytesTotal : Z;
  UptimeSeconds : Z;
  SampleWindowMS : Z;
}.

Definition ValidateInventoryString (s : string) (minLen maxLen : Z) : option error :=
  fail_if negb (utf8_ValidString s) with errorString "invalid UTF-8";
  let charCount := utf8_RuneCountInString s in
  fail_if (charCount <? minLen) || (maxLen <? charCount) with errorString "length out of range";
  fail_if negb (String.eqb s (strings_TrimSpace s))
    with errorString "leading or trailing whitespace not allowed";
  fail_if existsb (fun r => (r =? 0) || unicode_IsControl r) (range_runes s)
    with errorString "control characters not allowed";
  None.

Definition osid_byte (b : ascii) : bool :=
  is_lower b || is_digit b || (is_byte 46 b || is_byte 95 b || is_byte 45 b).

Definition ValidateOSID (s : string) : option error :=
  check ValidateInventoryString s 1 64 as err with err;
  fail_if negb (all_bytes osid_byte s)
    with errorString "must contain only lowercase ASCII letters, digits, dot, underscore, or hyphen";
  None.

Definition ValidateInventoryRequest (r : option InventoryRequest) : option error :=
  match r with
  | None => Some (errorString "inventory request is nil")
  | Some req =>
      fail_if Inv_ProtocolVersion req <=? 0 with errorString "invalid protocol version";
      check ValidateInventoryString (Hostname req) 1 255 as err
        with wrapError "invalid hostname" err;
      check ValidateOSID (OSID req) as err with wrapError "invalid os_id" err;
      check ValidateInventoryString (OSName req) 1 128 as err with wrapError "invalid os_name" err;
      check ValidateInventoryString (OSVersion req) 0 128 as err
        with wrapError "invalid os_version" err;
      check ValidateInventoryString (KernelRelease req) 1 128 as err
        with wrapError "invalid kernel_release" err;
      check ValidateInventoryString (Architecture req) 1 32 as err
        with wrapError "invalid architecture" err;
      fail_if (CPULogicalCores req <=? 0) || (1048576 <? CPULogicalCores req)
        with errorString "invalid cpu_logical_cores";
      fail_if Inv_MemoryTotalBytes req <=? 0 with errorString "invalid memory_total_bytes";
      None
  end.

(** The two subtractions are on [int64]. *)
Definition ValidateTelemetryRequest (r : option TelemetryRequest) : option error :=
  match r with
  | None => Some (errorString "telemetry request is nil")
  | Some req =>
      fail_if Tel_ProtocolVersion req <=? 0 with errorString "invalid protocol version";
      fail_if (CPUUsageBasisPoints req <? 0) || (10000 <? CPUUsageBasisPoints req)
        with errorString "invalid cpu_usage_basis_points";
      fail_if MemoryTotalBytes req <=? 0 with errorString "invalid memory_total_bytes";
      fail_if (MemoryAvailableBytes req <? 0) || (MemoryTotalBytes req <? MemoryAvailableBytes req)
        with errorString "invalid memory_available_bytes";
      fail_if (MemoryUsedBytes req <? 0)
              || negb (MemoryUsedBytes req =? int64 (MemoryTotalBytes req - MemoryAvailableBytes req))
        with errorString "invalid memory_used_bytes";
      fail_if (Load1mMilli req <? 0) || (Load5mMilli req <? 0) || (Load15mMilli req <? 0)
        with errorString "invalid load average";
      fail_if RootFilesystemTotalBytes req <=? 0 with errorString "invalid root_filesystem_total_bytes";
      fail_if (RootFilesystemUsedBytes req <? 0)
              || (RootFilesystemTotalBytes req <? RootFilesystemUsedBytes req)
        with errorString "invalid root_filesystem_used_bytes";
      fail_if (RootFilesystemAvailableBytes req <? 0)
              || (int64 (RootFilesystemTotalBytes req - RootFilesystemUsedBytes req)
                  <? RootFilesystemAvailableBytes req)
        with errorString "invalid root_filesystem_available_bytes";
      fail_if (NetworkReceiveBytesTotal req <? 0) || (NetworkTransmitBytesTotal req <? 0)
        with errorString "invalid network byte counters";
      fail_if UptimeSeconds req <? 0 with errorString "invalid uptime_seconds";
      fail_if (SampleWindowMS req <? 1) || (300000 <? SampleWindowMS req)
        with errorString "invalid sample_window_ms";
      None
  end.

Definition ValidateJobStartRequest `{UuidText} (r : option JobStartRequest) : option error :=
  match r with
  | None => Some (errorString "job start request is nil")
  | Some req =>
      fail_if JS_ProtocolVersion req <=? 0 with errorString "invalid protocol version";
      fail_if negb (JS_ProtocolVersion req =? CurrentVersion)
        with errorString "unsupported protocol version";
      match ValidateCanonicalUUID (JS_JobID req) with
      | Err err => Some (wrapError "invalid job_id" err)
      | Ok _ =>
          fail_if (JS_Attempt req <? 1) || (MaxDispatchAttempts <? JS_Attempt req)
            with errorString "attempt out of range";
          None
      end
  end.

Definition ValidateJobCompleteRequest `{UuidText} (r : option JobCompleteRequest) : option error :=
  match r with
  | None => Some (errorString "job complete request is nil")
  | Some req =>
      fail_if JC_ProtocolVersion req <=? 0 with errorString "invalid protocol version";
      fail_if negb (JC_ProtocolVersion req =? CurrentVersion)
        with errorString "unsupported protocol version";
      match ValidateCanonicalUUID (JC_JobID req) with
      | Err err => Some (wrapError "invalid job_id" err)
      | Ok _ =>
          fail_if (JC_Attempt req <? 1) || (MaxDispatchAttempts <? JC_Attempt req)
            with errorString "attempt out of range";
          if String.eqb (JC_Outcome req) "succeeded" then
            fail_if negb (String.eqb (JC_FailureCode req) "")
              with errorString "failure_code must be empty for succeeded outcome";
            None
          else if String.eqb (JC_Outcome req) "failed" then
            fail_if negb (String.eqb (JC_FailureCode req) FailureCodeExecutorError)
              with errorString "failed outcome requires failure_code";
            None
          else Some (errorString "invalid outcome")
      end
  end.

Definition ValidateJobAssignment `{UuidText} (a : option JobAssignment) : option error :=
  match a with
  | None => Some (errorString "job assignment is nil")
  | Some ja =>
      match ValidateCanonicalUUID (JA_JobID ja) with
      | Err err => Some (wrapError "invalid job_id" err)
      | Ok _ =>
          fail_if (JA_Attempt ja <? 1) || (MaxDispatchAttempts <? JA_Attempt ja)
            with errorString "attempt out of range";
          fail_if negb (String.eqb (JA_Action ja) ActionAgentPing) with errorString "invalid action";
          None
      end
  end.

(** ** Facts *)

Lemma ValidateInventoryString_ok s lo hi :
  ValidateInventoryString s lo hi = None ->
  utf8_ValidString s = true /\ lo <= utf8_RuneCountInString s <= hi.
Proof.
  unfold ValidateInventoryString. repeat case_match; try done. intros _. bsplit. split; [done|lia].
Qed.

Lemma ValidateJobAssignment_ok `{UuidText} a :
  ValidateJobAssignment (Some a) = None ->
  (exists u, uuid_Parse (JA_JobID a) = Some u /\ uuid_String u = JA_JobID a) /\
  1 <= JA_Attempt a <= MaxDispatchAttempts /\ JA_Action a = ActionAgentPing.
Proof.
  unfold ValidateJobAssignment. destruct (ValidateCanonicalUUID _) as [u|] eqn:E; [|done].
  apply ValidateCanonicalUUID_ok in E.
  repeat case_match; try done. intros _. bsplit. split; [by exists u|]. split; [lia|done].
Qed.
