(* ===== verification/Postgres.v ===== *)
(** * Transactions: the database as the Go code sees it

    A Go method on [*DB] runs statements on a connection pool.  [M DB A] is
    the monad of such methods: it reads an environment (what the server and
    the network do), threads a world (the committed database, the open
    transaction, a statement counter) and returns a Go result.

    The environment is arbitrary: any statement may fail before it takes
    effect, a commit or an auto-committed statement may take effect although
    its reply is lost, clocks and identifiers are whatever the server gives,
    and [env_locked] says which rows other transactions hold locked where a
    query says SKIP LOCKED.  Methods run one after the other: the row locks
    the code takes (FOR UPDATE on the operator, the agent or the job) are what
    serialises them in the server, and are not modelled further. *)

From S2P Require Import Prelude.

(** The error values of package pgx that the code tells apart. *)
Inductive dberr :=
| ErrNoRows
| PgError (code : string)
| ConnError.

Inductive fault := NoFault | FailBefore | ReplyLost.

Record Env := mkEnv {
  env_pool : bool;                       (* db.pool != nil *)
  env_fault : nat -> fault;              (* outcome of statement i *)
  env_now : nat -> Z;                    (* now() of a transaction begun by statement i *)
  env_clock : nat -> nat -> Z;           (* k-th clock_timestamp() of statement i *)
  env_row_clock : nat -> UUID -> Z;      (* clock_timestamp() on a row of statement i *)
  env_uuidv7 : nat -> UUID;              (* uuidv7() of statement i *)
  env_locked : nat -> UUID -> bool;      (* rows skipped by SKIP LOCKED *)
}.

(** What a statement can read besides the tables. *)
Record Ctx := mkCtx {
  cx_now : Z;
  cx_clock : nat -> Z;
  cx_row_clock : UUID -> Z;
  cx_uuidv7 : UUID;
  cx_locked : UUID -> bool;
}.

Definition stmt_ctx (e : Env) (i : nat) (t : Z) : Ctx :=
  mkCtx t (env_clock e i) (env_row_clock e i) (env_uuidv7 e i) (env_locked e i).

Inductive txstate (DB : Type) :=
| TxNone
| TxOpen (view : DB) (now : Z)
| TxAborted.
Arguments TxNone {DB}.
Arguments TxOpen {DB} view now.
Arguments TxAborted {DB}.

Record World (DB : Type) := mkWorld {
  committed : DB;
  tx : txstate DB;
  step : nat;
}.
Arguments mkWorld {DB} committed tx step.
Arguments committed {DB} w.
Arguments tx {DB} w.
Arguments step {DB} w.

(** A statement: from what it reads and the tables it sees to an error, or to
    its result and the tables it leaves. *)
Definition stmt (DB A : Type) : Type := Ctx -> DB -> dberr + (A * DB).

Definition M (DB A : Type) : Type := Env -> World DB -> result A * World DB.

#[global] Instance M_ret {DB} : MRet (M DB) := fun A a e w => (Ok a, w).

#[global] Instance M_bind {DB} : MBind (M DB) := fun A B k m e w =>
  match m e w with
  | (Ok a, w') => k a e w'
  | (Err er, w') => (Err er, w')
  end.

Definition throw {DB A} (er : error) : M DB A := fun e w => (Err er, w).

(** [f(...)] whose error the caller inspects instead of returning it. *)
Definition catch {DB A} (m : M DB A) : M DB (result A) := fun e w =>
  let '(r, w') := m e w in (Ok r, w').

(** [sanitizeError] (Pool.v) builds a new error from the text of its argument,
    which is not kept here: the result wraps nothing. *)
Definition sanitized (err : dberr) : error := errorString "sanitized database error".

Definition wrapDb (msg : string) (err : dberr) : error := wrapError msg (sanitized err).

Definition require_pool {DB} : M DB unit := fun e w =>
  if env_pool e then (Ok tt, w) else (Err (errorString "database pool is not initialized"), w).

Definition tick {DB} (w : World DB) : World DB := mkWorld (committed w) (tx w) (S (step w)).
Definition set_tx {DB} (t : txstate DB) (w : World DB) : World DB :=
  mkWorld (committed w) t (step w).

(** [tx, err := db.pool.Begin(ctx)] *)
Definition Begin {DB} (msg : string) : M DB unit := fun e w =>
  match env_fault e (step w) with
  | NoFault => (Ok tt, mkWorld (committed w) (TxOpen (committed w) (env_now e (step w))) (S (step w)))
  | _ => (Err (wrapDb msg ConnError), tick w)
  end.

(** A statement on the open transaction. *)
Definition tx_stmt {DB A} (f : stmt DB A) : M DB (dberr + A) := fun e w =>
  match tx w with
  | TxOpen v t =>
      match env_fault e (step w) with
      | NoFault =>
          match f (stmt_ctx e (step w) t) v with
          | inr (a, v') => (Ok (inr a), mkWorld (committed w) (TxOpen v' t) (S (step w)))
          | inl ErrNoRows => (Ok (inl ErrNoRows), tick w)
          | inl err => (Ok (inl err), set_tx TxAborted (tick w))
          end
      | _ => (Ok (inl ConnError), set_tx TxAborted (tick w))
      end
  | _ => (Ok (inl ConnError), tick w)
  end.

(** A statement on the pool: its own transaction. *)
Definition pool_stmt {DB A} (f : stmt DB A) : M DB (dberr + A) := fun e w =>
  match env_fault e (step w) with
  | FailBefore => (Ok (inl ConnError), tick w)
  | flt =>
      match f (stmt_ctx e (step w) (env_now e (step w))) (committed w) with
      | inr (a, v') =>
          (Ok (match flt with ReplyLost => inl ConnError | _ => inr a end),
           mkWorld v' (tx w) (S (step w)))
      | inl err => (Ok (inl err), tick w)
      end
  end.

(** [if err != nil { if errors.Is(err, pgx.ErrNoRows) { return nr }; return fmt.Errorf(msg...) }] *)
Definition or_fail {DB A} (nr : error) (msg : string) (m : M DB (dberr + A)) : M DB A :=
  r ← m;
  match r with
  | inr a => mret a
  | inl ErrNoRows => throw nr
  | inl err => throw (wrapDb msg err)
  end.

Definition QueryRow {DB A} (f : stmt DB A) (nr : error) (msg : string) : M DB A :=
  or_fail nr msg (tx_stmt f).

(** [tx.Exec], and a query whose every error is wrapped with the message. *)
Definition Exec {DB A} (f : stmt DB A) (msg : string) : M DB A :=
  or_fail (wrapDb msg ErrNoRows) msg (tx_stmt f).

Definition PoolQueryRow {DB A} (f : stmt DB A) (nr : error) (msg : string) : M DB A :=
  or_fail nr msg (pool_stmt f).

Definition PoolQuery {DB A} (f : stmt DB A) (msg : string) : M DB A :=
  or_fail (wrapDb msg ErrNoRows) msg (pool_stmt f).

(** [tx.Commit(ctx)] *)
Definition Commit {DB} (msg : string) : M DB unit := fun e w =>
  match tx w with
  | TxOpen v _ =>
      match env_fault e (step w) with
      | NoFault => (Ok tt, mkWorld v TxNone (S (step w)))
      | FailBefore => (Err (wrapDb msg ConnError), set_tx TxNone (tick w))
      | ReplyLost => (Err (wrapDb msg ConnError), mkWorld v TxNone (S (step w)))
      end
  | _ => (Err (wrapDb msg ConnError), set_tx TxNone (tick w))
  end.

(** [defer func() { _ = tx.Rollback(ctx) }()] around the rest of the function. *)
Definition deferring_Rollback {DB A} (m : M DB A) : M DB A := fun e w =>
  let '(r, w') := m e w in (r, set_tx TxNone w').

(** [if c { return er }] inside a method. *)
Definition refuse_if {DB} (c : bool) (er : error) : M DB unit :=
  if c then throw er else mret tt.

(** [for _, x := range l { f(x) }] *)
Fixpoint for_each {DB A} (f : A -> M DB unit) (l : list A) : M DB unit :=
  match l with
  | [] => mret tt
  | x :: l' => f x ;; for_each f l'
  end.

(** ** A program logic: weakest preconditions *)

Definition wp {DB A} (m : M DB A) (Q : result A -> World DB -> Prop) (e : Env) (w : World DB) : Prop :=
  let '(r, w') := m e w in Q r w'.

Section rules.
Context {DB : Type}.
Implicit Types w : World DB.
Implicit Types db v : DB.

Lemma wp_run {A} (m : M DB A) Q e w : wp m Q e w -> Q (m e w).1 (m e w).2.
Proof. unfold wp. by destruct (m e w). Qed.

Lemma wp_mono {A} (m : M DB A) (Q Q' : result A -> World DB -> Prop) e w :
  (forall r w', Q r w' -> Q' r w') -> wp m Q e w -> wp m Q' e w.
Proof. unfold wp. destruct (m e w). auto. Qed.

Lemma wp_ret {A} (a : A) Q e w : Q (Ok a) w -> wp (mret a) Q e w.
Proof. done. Qed.

Lemma wp_throw {A} er (Q : result A -> World DB -> Prop) e w : Q (Err er) w -> wp (throw er) Q e w.
Proof. done. Qed.

Lemma wp_bind {A B} (m : M DB A) (k : A -> M DB B) Q e w :
  wp m (fun r w' => match r with Ok a => wp (k a) Q e w' | Err er => Q (Err er) w' end) e w ->
  wp (m ≫= k) Q e w.
Proof. unfold wp, mbind, M_bind. by destruct (m e w) as [[]]. Qed.

Lemma wp_catch {A} (m : M DB A) Q e w :
  wp m (fun r w' => Q (Ok r) w') e w -> wp (catch m) Q e w.
Proof. unfold wp, catch. by destruct (m e w). Qed.

Lemma wp_refuse_if c er (Q : result unit -> World DB -> Prop) e w :
  (c = true -> Q (Err er) w) -> (c = false -> Q (Ok tt) w) ->
  wp (refuse_if c er) Q e w.
Proof. destruct c; intros Ht Hf; [by apply wp_throw, Ht|by apply wp_ret, Hf]. Qed.

Lemma wp_require_pool (Q : result unit -> World DB -> Prop) e w :
  (Q (Err (errorString "database pool is not initialized")) w) -> Q (Ok tt) w ->
  wp require_pool Q e w.
Proof. unfold wp, require_pool. by destruct (env_pool e). Qed.

Lemma wp_begin msg (Q : result unit -> World DB -> Prop) e db t n :
  Q (Err (wrapDb msg ConnError)) (mkWorld db t (S n)) ->
  Q (Ok tt) (mkWorld db (TxOpen db (env_now e n)) (S n)) ->
  wp (Begin msg) Q e (mkWorld db t n).
Proof. unfold wp, Begin, tick. simpl. by destruct (env_fault e n). Qed.

Lemma wp_deferring {A} (m : M DB A) Q e w :
  wp m (fun r w' => Q r (mkWorld (committed w') TxNone (step w'))) e w ->
  wp (deferring_Rollback m) Q e w.
Proof. unfold wp, deferring_Rollback, set_tx. by destruct (m e w). Qed.

Lemma wp_commit msg (Q : result unit -> World DB -> Prop) e db v t n :
  Q (Err (wrapDb msg ConnError)) (mkWorld db TxNone (S n)) ->
  Q (Err (wrapDb msg ConnError)) (mkWorld v TxNone (S n)) ->
  Q (Ok tt) (mkWorld v TxNone (S n)) ->
  wp (Commit msg) Q e (mkWorld db (TxOpen v t) n).
Proof. unfold wp, Commit, set_tx, tick. simpl. by destruct (env_fault e n). Qed.

Lemma wp_query_row {A} (f : stmt DB A) nr msg Q e db v t n :
  (forall err, Q (Err (wrapDb msg err)) (mkWorld db TxAborted (S n))) ->
  (f (stmt_ctx e n t) v = inl ErrNoRows -> Q (Err nr) (mkWorld db (TxOpen v t) (S n))) ->
  (forall a v', f (stmt_ctx e n t) v = inr (a, v') -> Q (Ok a) (mkWorld db (TxOpen v' t) (S n))) ->
  wp (QueryRow f nr msg) Q e (mkWorld db (TxOpen v t) n).
Proof.
  intros Hf Hn Hs. unfold wp, QueryRow, or_fail, mbind, M_bind, tx_stmt, tick, set_tx. simpl.
  destruct (env_fault e n); simpl; auto.
  destruct (f _ v) as [[]|[a v']] eqn:E; simpl; auto.
Qed.

Lemma wp_exec {A} (f : stmt DB A) msg Q e db v t n :
  (forall err, Q (Err (wrapDb msg err)) (mkWorld db TxAborted (S n))) ->
  (f (stmt_ctx e n t) v = inl ErrNoRows ->
   Q (Err (wrapDb msg ErrNoRows)) (mkWorld db (TxOpen v t) (S n))) ->
  (forall a v', f (stmt_ctx e n t) v = inr (a, v') -> Q (Ok a) (mkWorld db (TxOpen v' t) (S n))) ->
  wp (Exec f msg) Q e (mkWorld db (TxOpen v t) n).
Proof. apply wp_query_row. Qed.

Lemma wp_tx_stmt {A} (f : stmt DB A) Q e db v t n :
  (Q (Ok (inl ConnError)) (mkWorld db TxAborted (S n))) ->
  (f (stmt_ctx e n t) v = inl ErrNoRows -> Q (Ok (inl ErrNoRows)) (mkWorld db (TxOpen v t) (S n))) ->
  (forall err, err <> ErrNoRows -> f (stmt_ctx e n t) v = inl err ->
     Q (Ok (inl err)) (mkWorld db TxAborted (S n))) ->
  (forall a v', f (stmt_ctx e n t) v = inr (a, v') ->
     Q (Ok (inr a)) (mkWorld db (TxOpen v' t) (S n))) ->
  wp (tx_stmt f) Q e (mkWorld db (TxOpen v t) n).
Proof.
  intros Hc Hn Hf Hs. unfold wp, tx_stmt, tick, set_tx. simpl.
  destruct (env_fault e n); simpl; auto.
  destruct (f _ v) as [[]|[a v']] eqn:E; simpl; auto; apply Hf; done.
Qed.

Lemma wp_pool_query_row {A} (f : stmt DB A) nr msg Q e db t n :
  (forall err, Q (Err (wrapDb msg err)) (mkWorld db t (S n))) ->
  (f (stmt_ctx e n (env_now e n)) db = inl ErrNoRows -> Q (Err nr) (mkWorld db t (S n))) ->
  (forall a v', f (stmt_ctx e n (env_now e n)) db = inr (a, v') ->
     Q (Err (wrapDb msg ConnError)) (mkWorld v' t (S n)) /\ Q (Ok a) (mkWorld v' t (S n))) ->
  wp (PoolQueryRow f nr msg) Q e (mkWorld db t n).
Proof.
  intros Hf Hn Hs. unfold wp, PoolQueryRow, or_fail, mbind, M_bind, pool_stmt, tick. simpl.
  destruct (env_fault e n); simpl; auto;
    destruct (f _ db) as [[]|[a v']] eqn:E; simpl; auto; by destruct (Hs _ _ eq_refl).
Qed.

Lemma wp_pool_query {A} (f : stmt DB A) msg Q e db t n :
  (forall err, Q (Err (wrapDb msg err)) (mkWorld db t (S n))) ->
  (forall a v', f (stmt_ctx e n (env_now e n)) db = inr (a, v') ->
     Q (Err (wrapDb msg ConnError)) (mkWorld v' t (S n)) /\ Q (Ok a) (mkWorld v' t (S n))) ->
  wp (PoolQuery f msg) Q e (mkWorld db t n).
Proof. intros. apply wp_pool_query_row; auto. Qed.

(** The loop rule: an invariant over the rows still to visit. *)
Lemma wp_for_each {A} (f : A -> M DB unit) (I : list A -> World DB -> Prop)
    (Q : result unit -> World DB -> Prop) e l w :
  I l w ->
  (forall w', I [] w' -> Q (Ok tt) w') ->
  (forall x l' w', I (x :: l') w' ->
     wp (f x) (fun r w'' => match r with Ok _ => I l' w'' | Err er => Q (Err er) w'' end) e w') ->
  wp (for_each f l) Q e w.
Proof.
  intros HI Hnil Hcons. revert w HI. induction l as [|x l IH]; intros w HI; simpl.
  - by apply wp_ret, Hnil.
  - apply wp_bind. eapply wp_mono; [|by apply Hcons]. intros [] w'; auto.
Qed.
End rules.

(** The same rules when no statement fails: progress is proved with these. *)
Section reliable.
Context {DB : Type} (e : Env).

Definition reliable : Prop := env_pool e = true /\ forall i, env_fault e i = NoFault.

Context (He : reliable).

Lemma wp_require_pool_reliable (Q : result unit -> World DB -> Prop) w :
  Q (Ok tt) w -> wp require_pool Q e w.
Proof. unfold wp, require_pool. by rewrite (proj1 He). Qed.

Lemma wp_begin_reliable msg (Q : result unit -> World DB -> Prop) db t n :
  Q (Ok tt) (mkWorld db (TxOpen db (env_now e n)) (S n)) -> wp (Begin msg) Q e (mkWorld db t n).
Proof. unfold wp, Begin. simpl. by rewrite (proj2 He). Qed.

Lemma wp_commit_reliable msg (Q : result unit -> World DB -> Prop) db v t n :
  Q (Ok tt) (mkWorld v TxNone (S n)) -> wp (Commit msg) Q e (mkWorld db (TxOpen v t) n).
Proof. unfold wp, Commit. simpl. by rewrite (proj2 He). Qed.

Lemma wp_tx_stmt_reliable {A} (f : stmt DB A) Q db v t n :
  match f (stmt_ctx e n t) v with
  | inr (a, v') => Q (Ok (inr a)) (mkWorld db (TxOpen v' t) (S n))
  | inl ErrNoRows => Q (Ok (inl ErrNoRows)) (mkWorld db (TxOpen v t) (S n))
  | inl err => Q (Ok (inl err)) (mkWorld db TxAborted (S n))
  end ->
  wp (tx_stmt f) Q e (mkWorld db (TxOpen v t) n).
Proof.
  unfold wp, tx_stmt, set_tx, tick. simpl. rewrite (proj2 He).
  by destruct (f _ v) as [[]|[a v']].
Qed.

Lemma wp_query_row_reliable {A} (f : stmt DB A) nr msg Q db v t n :
  match f (stmt_ctx e n t) v with
  | inr (a, v') => Q (Ok a) (mkWorld db (TxOpen v' t) (S n))
  | inl ErrNoRows => Q (Err nr) (mkWorld db (TxOpen v t) (S n))
  | inl err => Q (Err (wrapDb msg err)) (mkWorld db TxAborted (S n))
  end ->
  wp (QueryRow f nr msg) Q e (mkWorld db (TxOpen v t) n).
Proof.
  intros HQ. unfold QueryRow, or_fail. apply wp_bind, wp_tx_stmt_reliable.
  by destruct (f _ v) as [[]|[a v']].
Qed.

Lemma wp_exec_reliable {A} (f : stmt DB A) msg Q db v t n a v' :
  f (stmt_ctx e n t) v = inr (a, v') ->
  Q (Ok a) (mkWorld db (TxOpen v' t) (S n)) ->
  wp (Exec f msg) Q e (mkWorld db (TxOpen v t) n).
Proof. intros Hf HQ. apply wp_query_row_reliable. by rewrite Hf. Qed.
End reliable.

(** [outcome db S] is the contract of a transactional method started on the
    tables [db]: it leaves no transaction open, and it either reports an
    internal error and changed nothing, or did what the specification [S]
    allows, or did so but reports an internal error because the reply to the
    commit was lost. *)
Definition internal {A} (r : result A) : Prop :=
  exists er, r = Err er /\ opaque_error er = true.

Definition outcome {DB A} (db : DB) (S : result A -> DB -> Prop)
    (r : result A) (w : World DB) : Prop :=
  tx w = TxNone /\
  ((committed w = db /\ internal r) \/
   S r (committed w) \/
   (exists r', S r' (committed w) /\ internal r)).

Lemma outcome_unchanged {DB A} (db : DB) (S : result A -> DB -> Prop) er n :
  opaque_error er = true -> outcome db S (Err er) (mkWorld db TxNone n).
Proof. intros H. split; [done|]. left. split; [done|]. by exists er. Qed.

Lemma outcome_done {DB A} (db : DB) (S : result A -> DB -> Prop) r db' n :
  S r db' -> outcome db S r (mkWorld db' TxNone n).
Proof. intros H. split; [done|]. by right; left. Qed.

Lemma outcome_lost {DB A} (db : DB) (S : result A -> DB -> Prop) r' er db' n :
  S r' db' -> opaque_error er = true -> outcome db S (Err er) (mkWorld db' TxNone n).
Proof. intros HS He. split; [done|]. right; right. exists r'. split; [done|]. by exists er. Qed.

(** What holds of the tables before and after every allowed outcome holds of
    the tables a method leaves. *)
Lemma outcome_rel {DB A} (R : DB -> DB -> Prop) (db : DB) (S : result A -> DB -> Prop) r w :
  R db db -> (forall r' db', S r' db' -> R db db') -> outcome db S r w -> R db (committed w).
Proof.
  intros Hr HS [_ [[-> _]|[H|(r' & H & _)]]]; eauto.
Qed.

Lemma outcome_inv {DB A} (P : DB -> Prop) (db : DB) (S : result A -> DB -> Prop) r w :
  P db -> (forall r' db', S r' db' -> P db') -> outcome db S r w -> P (committed w).
Proof. intros Hp HS. apply (outcome_rel (fun _ => P)); auto. Qed.

(** A transactional method that reports a sentinel error has reached an
    outcome its specification allows. *)
Lemma outcome_sentinel {DB A} (db : DB) (S : result A -> DB -> Prop) name w :
  outcome db S (Err (sentinel name)) w -> S (Err (sentinel name)) (committed w).
Proof.
  intros [_ [[_ (er & [= <-] & H)]|[H|(r' & _ & (er & [= <-] & H))]]]; done.
Qed.

Lemma outcome_ok {DB A} (db : DB) (S : result A -> DB -> Prop) a w :
  outcome db S (Ok a) w -> S (Ok a) (committed w).
Proof.
  intros [_ [[_ (er & [=] & H)]|[H|(r' & _ & (er & [=] & H))]]]; done.
Qed.

(** ** Invariants: what every statement of a method keeps

    [keeps P m]: if [P] holds of the committed tables and of the view of the
    open transaction, it still does after [m], whatever fails. *)
Section keeps.
Context {DB : Type} (P : DB -> Prop).

Definition world_ok (w : World DB) : Prop :=
  P (committed w) /\ match tx w with TxOpen v _ => P v | _ => True end.

Definition keeps {A} (m : M DB A) : Prop := forall e w, world_ok w -> world_ok (m e w).2.

Definition stmt_keeps {A} (f : stmt DB A) : Prop :=
  forall cx v a v', f cx v = inr (a, v') -> P v -> P v'.

Lemma keeps_ret {A} (a : A) : keeps (mret a : M DB A).
Proof. intros e w Hw. exact Hw. Qed.

Lemma keeps_throw {A} er : keeps (throw er : M DB A).
Proof. intros e w Hw. exact Hw. Qed.

Lemma keeps_bind {A B} (m : M DB A) (k : A -> M DB B) :
  keeps m -> (forall a, keeps (k a)) -> keeps (m ≫= k).
Proof.
  intros Hm Hk e w Hw. unfold mbind, M_bind. specialize (Hm e w Hw).
  destruct (m e w) as [[a|er] w']; [by apply Hk|done].
Qed.

Lemma keeps_catch {A} (m : M DB A) : keeps m -> keeps (catch m).
Proof. intros Hm e w Hw. specialize (Hm e w Hw). unfold catch. by destruct (m e w). Qed.

Lemma keeps_require_pool : keeps (require_pool : M DB unit).
Proof. intros e w Hw. unfold require_pool. by destruct (env_pool e). Qed.

Lemma keeps_refuse_if c er : keeps (refuse_if c er : M DB unit).
Proof. destruct c; intros e w Hw; exact Hw. Qed.

Lemma keeps_begin msg : keeps (Begin msg : M DB unit).
Proof. intros e w [Hc Ht]. unfold Begin. destruct (env_fault e (step w)); by split. Qed.

Lemma keeps_deferring {A} (m : M DB A) : keeps m -> keeps (deferring_Rollback m).
Proof.
  intros Hm e w Hw. specialize (Hm e w Hw). unfold deferring_Rollback.
  destruct (m e w) as [r w']. by destruct Hm.
Qed.

Lemma keeps_tx_stmt {A} (f : stmt DB A) : stmt_keeps f -> keeps (tx_stmt f).
Proof.
  intros Hf e w [Hc Ht]. unfold tx_stmt. destruct (tx w) as [|v t|] eqn:E.
  - split; [done|]. simpl. by rewrite E.
  - destruct (env_fault e (step w)); [|by split..].
    destruct (f _ v) as [[]|[a v']] eqn:Ef; simpl; try (by split).
    + split; [done|]. simpl. by rewrite E.
    + split; [done|]. by eapply Hf.
  - split; [done|]. simpl. by rewrite E.
Qed.

Lemma keeps_pool_stmt {A} (f : stmt DB A) : stmt_keeps f -> keeps (pool_stmt f).
Proof.
  intros Hf e w [Hc Ht]. unfold pool_stmt.
  destruct (env_fault e (step w)); [|by split|];
    (destruct (f _ (committed w)) as [|[a v']] eqn:Ef; [by split|]; split; [by eapply Hf|done]).
Qed.

Lemma keeps_or_fail {A} nr msg (m : M DB (dberr + A)) : keeps m -> keeps (or_fail nr msg m).
Proof. intros Hm. apply keeps_bind; [done|].
  intros [[]|a]; auto using keeps_ret, keeps_throw. Qed.

Lemma keeps_query_row {A} (f : stmt DB A) nr msg : stmt_keeps f -> keeps (QueryRow f nr msg).
Proof. intros. by apply keeps_or_fail, keeps_tx_stmt. Qed.

Lemma keeps_exec {A} (f : stmt DB A) msg : stmt_keeps f -> keeps (Exec f msg).
Proof. intros. by apply keeps_or_fail, keeps_tx_stmt. Qed.

Lemma keeps_pool_query_row {A} (f : stmt DB A) nr msg : stmt_keeps f -> keeps (PoolQueryRow f nr msg).
Proof. intros. by apply keeps_or_fail, keeps_pool_stmt. Qed.

Lemma keeps_pool_query {A} (f : stmt DB A) msg : stmt_keeps f -> keeps (PoolQuery f msg).
Proof. intros. by apply keeps_or_fail, keeps_pool_stmt. Qed.

Lemma keeps_commit msg : keeps (Commit msg : M DB unit).
Proof.
  intros e w [Hc Ht]. unfold Commit. destruct (tx w) as [|v t|]; [by split| |by split].
  destruct (env_fault e (step w)); by split.
Qed.
End keeps.

Create HintDb keeps.
#[export] Hint Resolve keeps_ret keeps_throw keeps_bind keeps_catch keeps_require_pool keeps_refuse_if
  keeps_begin keeps_deferring keeps_query_row keeps_exec keeps_pool_query_row keeps_pool_query
  keeps_commit keeps_tx_stmt keeps_pool_stmt : keeps.

Create HintDb pg.
#[export] Hint Resolve outcome_unchanged outcome_done outcome_lost : pg.
#[export] Hint Extern 1 (opaque_error _ = true) => reflexivity : pg.

(** One step of a method: the rule of the construct at its head; the goals of
    failed statements are closed by the [outcome] lemmas. *)
Ltac wp_step :=
  lazymatch goal with
  | |- wp (mbind _ _) _ _ _ => apply wp_bind
  | |- wp (mret _) _ _ _ => apply wp_ret
  | |- wp (throw _) _ _ _ => apply wp_throw
  | |- wp (deferring_Rollback _) _ _ _ => apply wp_deferring
  | |- wp require_pool _ _ _ => apply wp_require_pool
  | |- wp (Begin _) _ _ _ => apply wp_begin
  | |- wp (Commit _) _ _ _ => apply wp_commit
  | |- wp (QueryRow _ _ _) _ _ _ => apply wp_query_row
  | |- wp (Exec _ _) _ _ _ => apply wp_exec
  | |- wp (PoolQueryRow _ _ _) _ _ _ => apply wp_pool_query_row
  | |- wp (PoolQuery _ _) _ _ _ => apply wp_pool_query
  | |- wp (refuse_if _ _) _ _ _ => apply wp_refuse_if
  | |- wp (catch _) _ _ _ => apply wp_catch
  | |- wp (if ?c then _ else _) _ _ _ => destruct c eqn:?
  | |- wp (match ?x with _ => _ end) _ _ _ => destruct x eqn:?
  end; cbn [committed tx step].

Ltac wp_go := repeat (wp_step; intros; simplify_eq; try (solve [eauto 3 with pg])).
