(* ===== verification/Schema.v ===== *)
(** * The tables of schema stackpilot

    Rows, CHECK constraints, unique indexes and foreign keys as the embedded
    migrations declare them (src/internal/database/migrations), and the
    INSERT / UPDATE primitives that enforce them: a violated CHECK is SQLSTATE
    23514, a violated unique index 23505, a violated foreign key 23503. *)

From S2P Require Import Prelude GoStrings Job Operator Protocol Postgres.

(** ** Rows *)

Record TokenRow := mkTokenRow {
  tok_hash : string;
  tok_created_at : Z;
  tok_expires_at : Z;
  tok_consumed_at : option Z;
}.

Record AgentRow := mkAgentRow {
  ag_public_key : string;
  ag_enrollment_token_id : UUID;
  ag_created_at : Z;
  ag_last_seen_at : option Z;
  ag_protocol_version : option Z;
}.

Record InventoryRow := mkInventoryRow { inv_report : InventoryRequest; inv_reported_at : Z }.
Record TelemetryRow := mkTelemetryRow { tel_report : TelemetryRequest; tel_reported_at : Z }.

Record OperatorRow := mkOperatorRow {
  op_username : string;
  op_password_hash : string;
  op_role : string;
  op_disabled_at : option Z;
  op_created_at : Z;
  op_updated_at : Z;
}.

Record SessionRow := mkSessionRow {
  se_operator_id : UUID;
  se_token_hash : string;
  se_created_at : Z;
  se_expires_at : Z;
}.

Record AuditRow := mkAuditRow {
  au_id : UUID;
  au_actor_operator_id : option UUID;
  au_actor_username : string;
  au_action : string;
  au_target_operator_id : option UUID;
  au_target_username : option string;
  au_outcome : string;
  au_occurred_at : Z;
  au_target_job_id : option UUID;
}.

(** Rows of table jobs and of table job_events are the Go entities of package
    job, which have the same columns.  The two append-only tables are lists in
    order of insertion, the others finite maps from their primary key. *)
Record DB := mkDB {
  enrollment_tokens : gmap UUID TokenRow;
  agents : gmap UUID AgentRow;
  agent_inventory : gmap UUID InventoryRow;
  agent_telemetry : gmap UUID TelemetryRow;
  operators : gmap UUID OperatorRow;
  operator_sessions : gmap UUID SessionRow;
  operator_audit_events : list AuditRow;
  jobs : gmap UUID Job;
  job_events : list JobEvent;
}.

Definition empty_db : DB := mkDB ∅ ∅ ∅ ∅ ∅ ∅ [] ∅ [].

Definition with_tokens x db := mkDB x (agents db) (agent_inventory db) (agent_telemetry db)
  (operators db) (operator_sessions db) (operator_audit_events db) (jobs db) (job_events db).
Definition with_agents x db := mkDB (enrollment_tokens db) x (agent_inventory db) (agent_telemetry db)
  (operators db) (operator_sessions db) (operator_audit_events db) (jobs db) (job_events db).
Definition with_inventory x db := mkDB (enrollment_tokens db) (agents db) x (agent_telemetry db)
  (operators db) (operator_sessions db) (operator_audit_events db) (jobs db) (job_events db).
Definition with_telemetry x db := mkDB (enrollment_tokens db) (agents db) (agent_inventory db) x
  (operators db) (operator_sessions db) (operator_audit_events db) (jobs db) (job_events db).
Definition with_operators x db := mkDB (enrollment_tokens db) (agents db) (agent_inventory db)
  (agent_telemetry db) x (operator_sessions db) (operator_audit_events db) (jobs db) (job_events db).
Definition with_sessions x db := mkDB (enrollment_tokens db) (agents db) (agent_inventory db)
  (agent_telemetry db) (operators db) x (operator_audit_events db) (jobs db) (job_events db).
Definition with_audit x db := mkDB (enrollment_tokens db) (agents db) (agent_inventory db)
  (agent_telemetry db) (operators db) (operator_sessions db) x (jobs db) (job_events db).
Definition with_jobs x db := mkDB (enrollment_tokens db) (agents db) (agent_inventory db)
  (agent_telemetry db) (operators db) (operator_sessions db) (operator_audit_events db) x (job_events db).
Definition with_job_events x db := mkDB (enrollment_tokens db) (agents db) (agent_inventory db)
  (agent_telemetry db) (operators db) (operator_sessions db) (operator_audit_events db) (jobs db) x.

(** ** SET clauses of table jobs *)

Definition set_state x j := mkJob (ID j) (AgentID j) (CreatedByOperatorID j) (CreatedByUsername j)
  (IdempotencyKeyHash j) (ActionType j) x (Attempt j) (JobFailureCode j) (CreatedAt j) (UpdatedAt j)
  (DispatchedAt j) (DispatchExpiresAt j) (StartedAt j) (ExecutionDeadlineAt j) (FinishedAt j).
Definition set_attempt x j := mkJob (ID j) (AgentID j) (CreatedByOperatorID j) (CreatedByUsername j)
  (IdempotencyKeyHash j) (ActionType j) (JobState j) x (JobFailureCode j) (CreatedAt j) (UpdatedAt j)
  (DispatchedAt j) (DispatchExpiresAt j) (StartedAt j) (ExecutionDeadlineAt j) (FinishedAt j).
Definition set_failure_code x j := mkJob (ID j) (AgentID j) (CreatedByOperatorID j)
  (CreatedByUsername j) (IdempotencyKeyHash j) (ActionType j) (JobState j) (Attempt j) x (CreatedAt j)
  (UpdatedAt j) (DispatchedAt j) (DispatchExpiresAt j) (StartedAt j) (ExecutionDeadlineAt j)
  (FinishedAt j).
Definition set_updated_at x j := mkJob (ID j) (AgentID j) (CreatedByOperatorID j)
  (CreatedByUsername j) (IdempotencyKeyHash j) (ActionType j) (JobState j) (Attempt j)
  (JobFailureCode j) (CreatedAt j) x (DispatchedAt j) (DispatchExpiresAt j) (StartedAt j)
  (ExecutionDeadlineAt j) (FinishedAt j).
Definition set_dispatched_at x j := mkJob (ID j) (AgentID j) (CreatedByOperatorID j)
  (CreatedByUsername j) (IdempotencyKeyHash j) (ActionType j) (JobState j) (Attempt j)
  (JobFailureCode j) (CreatedAt j) (UpdatedAt j) x (DispatchExpiresAt j) (StartedAt j)
  (ExecutionDeadlineAt j) (FinishedAt j).
Definition set_dispatch_expires_at x j := mkJob (ID j) (AgentID j) (CreatedByOperatorID j)
  (CreatedByUsername j) (IdempotencyKeyHash j) (ActionType j) (JobState j) (Attempt j)
  (JobFailureCode j) (CreatedAt j) (UpdatedAt j) (DispatchedAt j) x (StartedAt j)
  (ExecutionDeadlineAt j) (FinishedAt j).
Definition set_started_at x j := mkJob (ID j) (AgentID j) (CreatedByOperatorID j)
  (CreatedByUsername j) (IdempotencyKeyHash j) (ActionType j) (JobState j) (Attempt j)
  (JobFailureCode j) (CreatedAt j) (UpdatedAt j) (DispatchedAt j) (DispatchExpiresAt j) x
  (ExecutionDeadlineAt j) (FinishedAt j).
Definition set_execution_deadline_at x j := mkJob (ID j) (AgentID j) (CreatedByOperatorID j)
  (CreatedByUsername j) (IdempotencyKeyHash j) (ActionType j) (JobState j) (Attempt j)
  (JobFailureCode j) (CreatedAt j) (UpdatedAt j) (DispatchedAt j) (DispatchExpiresAt j) (StartedAt j)
  x (FinishedAt j).
Definition set_finished_at x j := mkJob (ID j) (AgentID j) (CreatedByOperatorID j)
  (CreatedByUsername j) (IdempotencyKeyHash j) (ActionType j) (JobState j) (Attempt j)
  (JobFailureCode j) (CreatedAt j) (UpdatedAt j) (DispatchedAt j) (DispatchExpiresAt j) (StartedAt j)
  (ExecutionDeadlineAt j) x.

(** ** Table jobs: 010_create_jobs.sql *)

Definition one_of (s : string) (l : list string) : bool := existsb (String.eqb s) l.


Definition fc_in (fc : option string) (l : list string) : bool :=
  match fc with Some c => one_of c l | None => false end.

Definition active_states : list string := [StateQueued; StateDispatched; StateRunning].
Definition terminal_states : list string := [StateSucceeded; StateFailed; StateUnknown].

Definition is_active (j : Job) : bool := one_of (JobState j) active_states.
Definition is_inflight (j : Job) : bool := one_of (JobState j) [StateDispatched; StateRunning].

Definition job_checks (j : Job) : bool :=
  (3 <=? utf8_RuneCountInString (CreatedByUsername j))
  && (utf8_RuneCountInString (CreatedByUsername j) <=? 64)
  && canonicalUsernamePattern (CreatedByUsername j)
  && (len (IdempotencyKeyHash j) =? 32)
  && one_of (ActionType j) [ActionAgentPing]
  && one_of (JobState j) (active_states ++ terminal_states)
  && ((0 <=? Attempt j) && (Attempt j <=? 5))
  && (is_null (JobFailureCode j)
      || fc_in (JobFailureCode j)
           [FailureCodeExecutorError; FailureCodeDispatchExhausted; FailureCodeExecutionTimeout])
  && ((one_of (JobState j) active_states && is_null (JobFailureCode j))
      || (String.eqb (JobState j) StateSucceeded && is_null (JobFailureCode j))
      || (String.eqb (JobState j) StateFailed
          && fc_in (JobFailureCode j) [FailureCodeExecutorError; FailureCodeDispatchExhausted])
      || (String.eqb (JobState j) StateUnknown
          && fc_in (JobFailureCode j) [FailureCodeExecutionTimeout]))
  && ((one_of (JobState j) active_states && is_null (FinishedAt j))
      || (one_of (JobState j) terminal_states && negb (is_null (FinishedAt j)))).

(** Does row [j] under key [id] respect the partial unique index on the agent
    and the unique index on the operator's key, beside the other rows? *)
Definition jobs_agent_inflight_idx (m : gmap UUID Job) (id : UUID) (j : Job) : bool :=
  bool_decide (map_Forall (fun id' j' =>
    id' = id \/ AgentID j' <> AgentID j \/ is_inflight j' = false \/ is_inflight j = false) m).

Definition jobs_idempotency_idx (m : gmap UUID Job) (id : UUID) (j : Job) : bool :=
  bool_decide (map_Forall (fun id' j' =>
    id' = id \/ CreatedByOperatorID j' <> CreatedByOperatorID j
    \/ IdempotencyKeyHash j' <> IdempotencyKeyHash j) m).

Definition has_key {A} (m : gmap UUID A) (id : UUID) : bool :=
  match m !! id with Some _ => true | None => false end.

(** [INSERT INTO stackpilot.jobs] of a row whose key the server generated. *)
Definition insert_job (j : Job) (db : DB) : dberr + DB :=
  if negb (job_checks j) then inl (PgError "23514")
  else if has_key (jobs db) (ID j) || negb (jobs_agent_inflight_idx (jobs db) (ID j) j)
          || negb (jobs_idempotency_idx (jobs db) (ID j) j) then inl (PgError "23505")
  else if negb (has_key (agents db) (AgentID j)) || negb (has_key (operators db) (CreatedByOperatorID j))
       then inl (PgError "23503")
  else inr (with_jobs (<[ID j := j]> (jobs db)) db).

(** [UPDATE stackpilot.jobs SET ... WHERE id = $1 AND cond]: the number of rows
    updated and the tables after it. *)
Definition update_job_where (id : UUID) (cond : Job -> bool) (set : Job -> Job) (db : DB) :
    dberr + (Z * DB) :=
  match jobs db !! id with
  | None => inr (0, db)
  | Some j =>
      if negb (cond j) then inr (0, db)
      else
        let j' := set j in
        if negb (job_checks j') then inl (PgError "23514")
        else if negb (jobs_agent_inflight_idx (jobs db) id j')
                || negb (jobs_idempotency_idx (jobs db) id j') then inl (PgError "23505")
        else inr (1, with_jobs (<[id := j']> (jobs db)) db)
  end.

Definition update_job (id : UUID) (set : Job -> Job) (db : DB) : dberr + (Z * DB) :=
  update_job_where id (fun _ => true) set db.

(** ** Table job_events: 011_create_job_events.sql *)

(** [^[0-9a-f]{8}-[0-9a-f]{4}-[0-9a-f]{4}-[0-9a-f]{4}-[0-9a-f]{12}$] *)
Definition lower_hex (b : ascii) : bool :=
  is_digit b || ((97 <=? byte_val b) && (byte_val b <=? 102)).

Fixpoint uuid_shape (i : nat) (l : bytes) : bool :=
  match l with
  | [] => (i =? 36)%nat
  | b :: l' =>
      (if ((i =? 8) || (i =? 13) || (i =? 18) || (i =? 23))%nat then is_byte 45 b else lower_hex b)
      && uuid_shape (S i) l'
  end.

Definition canonical_uuid_text (s : string) : bool := uuid_shape 0 (bytes_of s).

Definition event_types : list string :=
  [EventJobCreated; EventJobDispatched; EventJobRequeued; EventJobStarted; EventJobSucceeded;
   EventJobFailed; EventJobUnknown].

Definition job_event_checks (ev : JobEvent) : bool :=
  one_of (EventType ev) event_types
  && one_of (ActorType ev) [ActorTypeOperator; ActorTypeAgent; ActorTypeController]
  && ((0 <=? EventAttempt ev) && (EventAttempt ev <=? 5))
  && (is_null (EventFailureCode ev)
      || fc_in (EventFailureCode ev)
           [FailureCodeExecutorError; FailureCodeDispatchExhausted; FailureCodeExecutionTimeout])
  && (1 <=? utf8_RuneCountInString (ActorIdentifier ev))
  && (utf8_RuneCountInString (ActorIdentifier ev) <=? 64)
  && ((String.eqb (ActorType ev) ActorTypeController && String.eqb (ActorIdentifier ev) "controller")
      || (String.eqb (ActorType ev) ActorTypeOperator
          && (3 <=? utf8_RuneCountInString (ActorIdentifier ev))
          && (utf8_RuneCountInString (ActorIdentifier ev) <=? 64)
          && canonicalUsernamePattern (ActorIdentifier ev))
      || (String.eqb (ActorType ev) ActorTypeAgent && canonical_uuid_text (ActorIdentifier ev))).

(** [INSERT INTO stackpilot.job_events]; id and occurred_at take their defaults. *)
Definition insert_job_event (job_id : UUID) (event_type : string) (attempt : Z)
    (actor_type actor_identifier : string) (failure_code : option string) : stmt DB unit :=
  fun cx db =>
    let ev := mkJobEvent (cx_uuidv7 cx) job_id event_type attempt actor_type actor_identifier
                         failure_code (cx_now cx) in
    if negb (job_event_checks ev) then inl (PgError "23514")
    else if existsb (fun ev' => N.eqb (EventID ev') (EventID ev)) (job_events db)
         then inl (PgError "23505")
    else if negb (has_key (jobs db) job_id) then inl (PgError "23503")
    else inr (tt, with_job_events (job_events db ++ [ev]) db).

(** ** Table operator_audit_events: 009 and 012 *)

Definition audit_action_byte (b : ascii) : bool :=
  is_lower b || is_digit b || is_byte 46 b || is_byte 95 b || is_byte 45 b.

Definition audit_checks (r : AuditRow) : bool :=
  ((1 <=? utf8_RuneCountInString (au_actor_username r))
   && (utf8_RuneCountInString (au_actor_username r) <=? 64))
  && ((1 <=? utf8_RuneCountInString (au_action r)) && (utf8_RuneCountInString (au_action r) <=? 64))
  && (negb (String.eqb (au_action r) "") && all_bytes audit_action_byte (au_action r))
  && match au_target_username r with
     | None => true
     | Some u => (1 <=? utf8_RuneCountInString u) && (utf8_RuneCountInString u <=? 64)
     end
  && one_of (au_outcome r) [OutcomeSuccess; OutcomeFailure; OutcomeDenied]
  && (is_null (au_target_operator_id r) || is_null (au_target_job_id r)).

Definition refers {A} (m : gmap UUID A) (o : option UUID) : bool :=
  match o with None => true | Some id => has_key m id end.

Definition insert_audit (actor : option UUID) (actor_username action : string)
    (target_operator : option UUID) (target_username : option string) (target_job : option UUID)
    (outcome : string) : stmt DB unit :=
  fun cx db =>
    let r := mkAuditRow (cx_uuidv7 cx) actor actor_username action target_operator target_username
                        outcome (cx_now cx) target_job in
    if negb (audit_checks r) then inl (PgError "23514")
    else if existsb (fun r' => N.eqb (au_id r') (au_id r)) (operator_audit_events db)
         then inl (PgError "23505")
    else if negb (refers (operators db) actor) || negb (refers (operators db) target_operator)
            || negb (refers (jobs db) target_job) then inl (PgError "23503")
    else inr (tt, with_audit (operator_audit_events db ++ [r]) db).

(** ** Tables enrollment_tokens and agents: 002, 003, 004 *)

Definition insert_token (id : UUID) (r : TokenRow) (db : DB) : dberr + DB :=
  if negb (len (tok_hash r) =? 32) then inl (PgError "23514")
  else if has_key (enrollment_tokens db) id
          || negb (bool_decide (map_Forall (fun _ r' => tok_hash r' <> tok_hash r)
                                           (enrollment_tokens db)))
       then inl (PgError "23505")
  else inr (with_tokens (<[id := r]> (enrollment_tokens db)) db).

Definition protocol_version_check (v : option Z) : bool :=
  match v with None => true | Some x => 0 <? x end.

Definition insert_agent (id : UUID) (r : AgentRow) (db : DB) : dberr + DB :=
  if negb (len (ag_public_key r) =? 32) || negb (protocol_version_check (ag_protocol_version r))
  then inl (PgError "23514")
  else if has_key (agents db) id
          || negb (bool_decide (map_Forall (fun _ r' =>
                     ag_public_key r' <> ag_public_key r
                     /\ ag_enrollment_token_id r' <> ag_enrollment_token_id r) (agents db)))
       then inl (PgError "23505")
  else if negb (has_key (enrollment_tokens db) (ag_enrollment_token_id r)) then inl (PgError "23503")
  else inr (with_agents (<[id := r]> (agents db)) db).

(** ** Tables agent_inventory and agent_telemetry: 005, 006 *)

Definition chars_between (lo hi : Z) (s : string) : bool :=
  (lo <=? utf8_RuneCountInString s) && (utf8_RuneCountInString s <=? hi).

Definition inventory_checks (r : InventoryRequest) : bool :=
  chars_between 1 255 (Hostname r)
  && chars_between 1 64 (OSID r)
  && chars_between 1 128 (OSName r)
  && (utf8_RuneCountInString (OSVersion r) <=? 128)
  && chars_between 1 128 (KernelRelease r)
  && chars_between 1 32 (Architecture r)
  && ((0 <? CPULogicalCores r) && (CPULogicalCores r <=? 1048576))
  && (0 <? Inv_MemoryTotalBytes r).

(** A subtraction of two bigint columns raises 22003 when it overflows; the
    CHECKs are evaluated on stored, hence 64-bit, values. *)
Definition telemetry_checks (r : TelemetryRequest) : bool :=
  ((0 <=? CPUUsageBasisPoints r) && (CPUUsageBasisPoints r <=? 10000))
  && (0 <? MemoryTotalBytes r)
  && ((0 <=? MemoryAvailableBytes r) && (MemoryAvailableBytes r <=? MemoryTotalBytes r))
  && ((0 <=? MemoryUsedBytes r)
      && (MemoryUsedBytes r =? MemoryTotalBytes r - MemoryAvailableBytes r))
  && (0 <=? Load1mMilli r) && (0 <=? Load5mMilli r) && (0 <=? Load15mMilli r)
  && (0 <? RootFilesystemTotalBytes r)
  && ((0 <=? RootFilesystemUsedBytes r) && (RootFilesystemUsedBytes r <=? RootFilesystemTotalBytes r))
  && ((0 <=? RootFilesystemAvailableBytes r)
      && (RootFilesystemAvailableBytes r <=? RootFilesystemTotalBytes r - RootFilesystemUsedBytes r))
  && (0 <=? NetworkReceiveBytesTotal r) && (0 <=? NetworkTransmitBytesTotal r)
  && (0 <=? UptimeSeconds r)
  && ((1 <=? SampleWindowMS r) && (SampleWindowMS r <=? 300000)).

(** ** Tables operators and operator_sessions: 007, 008 *)

Definition operator_checks (r : OperatorRow) : bool :=
  chars_between 3 64 (op_username r)
  && canonicalUsernamePattern (op_username r)
  && chars_between 50 256 (op_password_hash r)
  && one_of (op_role r) [RoleViewer; RoleOperator; RoleAdmin].

Definition insert_operator (id : UUID) (r : OperatorRow) (db : DB) : dberr + DB :=
  if negb (operator_checks r) then inl (PgError "23514")
  else if has_key (operators db) id
          || negb (bool_decide (map_Forall (fun _ r' => op_username r' <> op_username r)
                                           (operators db)))
       then inl (PgError "23505")
  else inr (with_operators (<[id := r]> (operators db)) db).

Definition session_checks (r : SessionRow) : bool :=
  (len (se_token_hash r) =? 32) && (se_created_at r <? se_expires_at r).

Definition insert_session (id : UUID) (r : SessionRow) (db : DB) : dberr + DB :=
  if negb (session_checks r) then inl (PgError "23514")
  else if has_key (operator_sessions db) id
          || negb (bool_decide (map_Forall (fun _ r' => se_token_hash r' <> se_token_hash r)
                                           (operator_sessions db)))
       then inl (PgError "23505")
  else if negb (has_key (operators db) (se_operator_id r)) then inl (PgError "23503")
  else inr (with_sessions (<[id := r]> (operator_sessions db)) db).

(** ** Wire validation implies the CHECK constraints *)

Lemma valid_telemetry_checks r :
  ValidateTelemetryRequest (Some r) = None ->
  in_int64 (MemoryTotalBytes r) -> in_int64 (RootFilesystemTotalBytes r) ->
  telemetry_checks r = true.
Proof.
  unfold ValidateTelemetryRequest, telemetry_checks, in_int64, MaxInt64.
  repeat (match goal with |- (if ?c then _ else _) = _ -> _ => destruct c eqn:? end; [done|]).
  intros _ Hm Hf. bsplit.
  rewrite int64_id in * by (unfold in_int64, MaxInt64; lia).
  repeat (apply andb_true_intro; split); first [apply Z.leb_le | apply Z.ltb_lt | apply Z.eqb_eq]; lia.
Qed.

(** A telemetry report that passes the wire validation, with fields in the
    range of their Go type, satisfies every CHECK constraint of the table it is
    stored in, and neither subtraction wraps. *)
Theorem telemetry_valid_fits_schema r :
  ValidateTelemetryRequest (Some r) = None ->
  in_int64 (MemoryTotalBytes r) -> in_int64 (RootFilesystemTotalBytes r) ->
  telemetry_checks r = true
  /\ int64 (MemoryTotalBytes r - MemoryAvailableBytes r) = MemoryTotalBytes r - MemoryAvailableBytes r
  /\ int64 (RootFilesystemTotalBytes r - RootFilesystemUsedBytes r)
     = RootFilesystemTotalBytes r - RootFilesystemUsedBytes r.
Proof.
  intros Hv Hm Hf. pose proof (valid_telemetry_checks r Hv Hm Hf) as Hc. split; [done|].
  unfold telemetry_checks in Hc. unfold in_int64, MaxInt64 in *. bsplit.
  split; apply int64_id; unfold in_int64, MaxInt64; lia.
Qed.

(** An inventory report that passes the wire validation satisfies every
    CHECK constraint of the table it is stored in: both count characters. *)
Theorem inventory_valid_fits_schema r :
  ValidateInventoryRequest (Some r) = None -> inventory_checks r = true.
Proof.
  unfold ValidateInventoryRequest, ValidateOSID, inventory_checks, chars_between.
  intros H. repeat (case_match; try done); bsplit;
    repeat match goal with
           | H : ValidateInventoryString _ _ _ = None |- _ => apply ValidateInventoryString_ok in H as [? ?]
           end;
    repeat (apply andb_true_intro; split); first [apply Z.leb_le | apply Z.ltb_lt]; lia.
Qed.

Definition telemetry_demo : TelemetryRequest :=
  mkTelemetryRequest 2 125 8192 4096 4096 10 20 30 1000 400 500 7 9 3600 30000.

Lemma telemetry_valid_fits_schema_witness :
  telemetry_checks telemetry_demo = true /\ int64 (8192 - 4096) = 8192 - 4096
  /\ int64 (1000 - 400) = 1000 - 400.
Proof.
  apply (telemetry_valid_fits_schema telemetry_demo);
    [vm_compute; reflexivity|unfold in_int64, MaxInt64; simpl; lia|unfold in_int64, MaxInt64; simpl; lia].
Defined.

Definition inventory_demo : InventoryRequest :=
  mkInventoryRequest 2 "web-1" "debian" "Debian GNU/Linux" "13" "6.12.0" "amd64" 4 8589934592.

Lemma inventory_valid_fits_schema_witness : inventory_checks inventory_demo = true.
Proof. apply (inventory_valid_fits_schema inventory_demo). vm_compute. reflexivity. Defined.
