(* ===== verification/JobStore.v ===== *)
(** * The job store: src/internal/database/jobs.go

    One definition per method of [*DB] and per helper, statement by statement.
    SELECT statements without ORDER BY return rows in the order of the finite
    map, which stands for an order the server does not promise; the theorems
    never depend on it. *)

From S2P Require Import Prelude GoStrings Job Operator Protocol Postgres Schema.

(** ** Queries on table jobs *)

Definition rows_where (p : Job -> bool) (db : DB) : list Job :=
  List.filter p (snd <$> map_to_list (jobs db)).

(** ORDER BY ts ASC, ORDER BY created_at ASC, id ASC, and its reverse. *)
Definition opt_Z (o : option Z) : Z := default 0 o.
Definition by_ts (ts : Job -> option Z) (a b : Job) : Prop := opt_Z (ts a) <= opt_Z (ts b).
Definition by_age (a b : Job) : Prop :=
  CreatedAt a < CreatedAt b \/ (CreatedAt a = CreatedAt b /\ (ID a <= ID b)%N).
Definition newest_first (a b : Job) : Prop := by_age b a.

#[export] Instance by_ts_dec ts a b : Decision (by_ts ts a b).
Proof. unfold by_ts. apply _. Defined.
#[export] Instance by_age_dec a b : Decision (by_age a b).
Proof. unfold by_age. apply _. Defined.
#[export] Instance newest_first_dec a b : Decision (newest_first a b).
Proof. unfold newest_first. apply _. Defined.

Definition limit_rows {A} (n : Z) (l : list A) : list A := take (Z.to_nat n) l.

(** What scanning a row into a [job.Job] gives: the key digest is not selected. *)
Definition zero_hash : string := string_of (replicate 32 (byte_of 0)).

Definition scan_job (j : Job) : Job :=
  mkJob (ID j) (AgentID j) (CreatedByOperatorID j) (CreatedByUsername j) zero_hash (ActionType j)
        (JobState j) (Attempt j) (JobFailureCode j) (CreatedAt j) (UpdatedAt j) (DispatchedAt j)
        (DispatchExpiresAt j) (StartedAt j) (ExecutionDeadlineAt j) (FinishedAt j).

Definition with_hash (h : string) (j : Job) : Job :=
  mkJob (ID j) (AgentID j) (CreatedByOperatorID j) (CreatedByUsername j) h (ActionType j)
        (JobState j) (Attempt j) (JobFailureCode j) (CreatedAt j) (UpdatedAt j) (DispatchedAt j)
        (DispatchExpiresAt j) (StartedAt j) (ExecutionDeadlineAt j) (FinishedAt j).

(** [$1 <= clock_timestamp()] on a nullable column: NULL is not selected. *)
Definition due (ts : option Z) (clock : Z) : bool :=
  match ts with Some x => x <=? clock | None => false end.

Definition row_or_none {A} (o : option A) (db : DB) : dberr + (A * DB) :=
  match o with Some a => inr (a, db) | None => inl ErrNoRows end.

Definition select_job {A} (id : UUID) (cols : Job -> A) : stmt DB A :=
  fun _ db => row_or_none (cols <$> jobs db !! id) db.

Definition select_clock : stmt DB Z := fun cx db => inr (cx_clock cx 0%nat, db).

Definition exec_update (id : UUID) (set : Ctx -> Job -> Job) : stmt DB Z :=
  fun cx db => update_job id (set cx) db.

(** ** validateJobRow *)

Definition validateJobRow (j : Job) : option error :=
  fail_if negb (State_Valid (JobState j)) with errorString "corrupt job state";
  fail_if negb (String.eqb (ActionType j) ActionAgentPing) with errorString "corrupt action type";
  fail_if (Attempt j <? 0) || (MaxDispatchAttempts <? Attempt j)
    with errorString "corrupt attempt count";
  check ValidateStateFailureCode (JobState j) (JobFailureCode j) as err
    with wrapError "corrupt job failure code consistency" err;
  None.

(** ** CreateJob *)

Definition queryOp (operatorID : UUID) : stmt DB (string * string * option Z) :=
  fun _ db =>
    row_or_none ((fun r => (op_username r, op_role r, op_disabled_at r)) <$> operators db !! operatorID) db.

Definition queryIdempotency (operatorID : UUID) (hash : string) : stmt DB Job :=
  fun _ db =>
    row_or_none (scan_job <$> head (rows_where (fun j =>
      N.eqb (CreatedByOperatorID j) operatorID && String.eqb (IdempotencyKeyHash j) hash) db)) db.

Definition queryAgent (agentID : UUID) : stmt DB UUID :=
  fun _ db => row_or_none ((fun _ => agentID) <$> agents db !! agentID) db.

Definition active_count (db : DB) (agentID : UUID) : Z :=
  Z.of_nat (length (rows_where (fun j => N.eqb (AgentID j) agentID && is_active j) db)).

Definition queryActiveCount (agentID : UUID) : stmt DB Z :=
  fun _ db => inr (active_count db agentID, db).

Definition new_job (id operatorID agentID : UUID) (username action hash : string) (now : Z) : Job :=
  mkJob id agentID operatorID username hash action StateQueued 0 None now now None None None None None.

Definition insertJob (operatorID agentID : UUID) (username action hash : string) : stmt DB Job :=
  fun cx db =>
    let j := new_job (cx_uuidv7 cx) operatorID agentID username action hash (cx_now cx) in
    match insert_job j db with
    | inl err => inl err
    | inr db' => inr (j, db')
    end.

(** The creator checks up to the role and permission test. *)
Definition authorize_creator (operatorID : UUID) : M DB string :=
  row ← QueryRow (queryOp operatorID) ErrOperatorAuthRequired "failed to query operator";
  let '(username, roleStr, disabledAt) := row in
  refuse_if (negb (is_null disabledAt)) ErrOperatorAuthRequired ;;
  match ParseRole roleStr with
  | Err _ => throw (wrapError "corrupt operator role in database" (errorString "unknown role"))
  | Ok r =>
      refuse_if (negb (HasPermission r PermissionOperationsExecute)) ErrPermissionDenied ;;
      mret username
  end.

(** The exact-replay branch for a key that already has a job. *)
Definition replay_existing (existing : Job) (agentID : UUID) (action hash : string) : M DB (Job * bool) :=
  let existing := with_hash hash existing in
  match validateJobRow existing with
  | Some err => throw (wrapError "corrupt existing job in database" err)
  | None =>
      if N.eqb (AgentID existing) agentID && String.eqb (ActionType existing) action then
        Commit "failed to commit idempotent replay" ;;
        mret (existing, false)
      else throw ErrJobIdempotencyConflict
  end.

(** The queue check, the inserts of the job, its event and its audit record. *)
Definition insert_new_job (operatorID agentID : UUID) (username action hash : string) :
    M DB (Job * bool) :=
  QueryRow (queryAgent agentID) ErrAgentNotFound "failed to lock agent row" ;;
  activeCount ← Exec (queryActiveCount agentID) "failed to count active jobs";
  refuse_if (MaxActiveJobsPerAgent <=? activeCount) ErrQueueFull ;;
  newJob ← Exec (insertJob operatorID agentID username action hash) "failed to insert job";
  Exec (insert_job_event (ID newJob) EventJobCreated 0 "operator" username None)
    "failed to insert job created event" ;;
  Exec (insert_audit (Some operatorID) username ActionJobCreated None None (Some (ID newJob))
          OutcomeSuccess) "failed to insert operator audit event" ;;
  Commit "failed to commit job creation" ;;
  mret (newJob, true).

Definition CreateJob (operatorID agentID : UUID) (action hash : string) : M DB (Job * bool) :=
  require_pool ;;
  Begin "failed to begin transaction" ;;
  deferring_Rollback (
    username ← authorize_creator operatorID;
    found ← tx_stmt (queryIdempotency operatorID hash);
    match found with
    | inr existing => replay_existing existing agentID action hash
    | inl ErrNoRows => insert_new_job operatorID agentID username action hash
    | inl err => throw (wrapDb "failed to check idempotency key" err)
    end).

(** ** reconcileExpiredJobsInTx *)

Definition expired (state : string) (ts : Job -> option Z) (clock : UUID -> Z) (j : Job) : bool :=
  String.eqb (JobState j) state && due (ts j) (clock (ID j)).

Definition expiredJob (j : Job) : UUID * Z := (ID j, Attempt j).

Definition query_expired (state : string) (ts : Job -> option Z) (agentID : option UUID) (limit : Z) :
    stmt DB (list (UUID * Z)) :=
  fun cx db =>
    match agentID with
    | Some a =>
        inr (expiredJob <$> rows_where (fun j => N.eqb (AgentID j) a
                                        && expired state ts (cx_row_clock cx) j) db, db)
    | None =>
        let sorted := merge_sort (by_ts ts) (rows_where (expired state ts (cx_row_clock cx)) db) in
        inr (expiredJob <$> limit_rows limit (List.filter (fun j => negb (cx_locked cx (ID j))) sorted), db)
    end.

Definition queryDispatched := query_expired StateDispatched DispatchExpiresAt.
Definition queryRunning := query_expired StateRunning ExecutionDeadlineAt.

Definition requeue_set (updated : Z) (j : Job) : Job :=
  set_updated_at updated (set_dispatch_expires_at None (set_dispatched_at None
    (set_state StateQueued j))).

Definition exhaust_set (finished updated : Z) (j : Job) : Job :=
  set_updated_at updated (set_finished_at (Some finished) (set_dispatch_expires_at None
    (set_failure_code (Some FailureCodeDispatchExhausted) (set_state StateFailed j)))).

Definition timeout_set (finished updated : Z) (j : Job) : Job :=
  set_updated_at updated (set_finished_at (Some finished) (set_execution_deadline_at None
    (set_failure_code (Some FailureCodeExecutionTimeout) (set_state StateUnknown j)))).

Definition requeueSQL (id : UUID) : stmt DB Z :=
  exec_update id (fun cx => requeue_set (cx_clock cx 0%nat)).
Definition failSQL (id : UUID) : stmt DB Z :=
  exec_update id (fun cx => exhaust_set (cx_clock cx 0%nat) (cx_clock cx 1%nat)).
Definition unknownSQL (id : UUID) : stmt DB Z :=
  exec_update id (fun cx => timeout_set (cx_clock cx 0%nat) (cx_clock cx 1%nat)).

Definition controller_event (id : UUID) (event : string) (attempt : Z) (fc : option string) : stmt DB unit :=
  insert_job_event id event attempt "controller" "controller" fc.

Definition reconcile_dispatched (ej : UUID * Z) : M DB unit :=
  let '(id, attempt) := ej in
  if attempt <? MaxDispatchAttempts then
    Exec (requeueSQL id) "failed to requeue job" ;;
    Exec (controller_event id EventJobRequeued attempt None) "failed to insert requeued event"
  else
    Exec (failSQL id) "failed to mark job dispatch_exhausted" ;;
    Exec (controller_event id EventJobFailed attempt (Some "dispatch_exhausted"))
      "failed to insert dispatch_exhausted event".

Definition reconcile_running (ej : UUID * Z) : M DB unit :=
  let '(id, attempt) := ej in
  Exec (unknownSQL id) "failed to mark running job unknown" ;;
  Exec (controller_event id EventJobUnknown attempt (Some "execution_timeout"))
    "failed to insert unknown event".

Definition reconcileExpiredJobsInTx (agentID : option UUID) (limit : Z) : M DB unit :=
  let limit := if (limit <=? 0) || (100 <? limit) then 100 else limit in
  expiredDispatched ← Exec (queryDispatched agentID limit) "failed to query expired dispatched jobs";
  for_each reconcile_dispatched expiredDispatched ;;
  let remainingLimit := limit - Z.of_nat (length expiredDispatched) in
  if (remainingLimit <=? 0) && is_null agentID then mret tt
  else
    expiredRunning ← Exec (queryRunning agentID remainingLimit) "failed to query expired running jobs";
    for_each reconcile_running expiredRunning.

(** ** reconcileSingleJobInTx *)

Definition reconcileSingleJobInTx (jobID : UUID) : M DB unit :=
  row ← QueryRow (select_job jobID (fun j =>
          (JobState j, Attempt j, DispatchExpiresAt j, ExecutionDeadlineAt j)))
          ErrJobNotFound "failed to query job for reconciliation";
  let '(st, att, dispExpires, execDeadline) := row in
  wallNow ← Exec select_clock "failed to evaluate reconciliation clock";
  let dispExpired := due dispExpires wallNow in
  let execExpired := due execDeadline wallNow in
  if String.eqb st StateDispatched && dispExpired then
    if att <? MaxDispatchAttempts then
      Exec (exec_update jobID (fun _ => requeue_set wallNow))
        "failed to requeue expired dispatched job" ;;
      Exec (controller_event jobID EventJobRequeued att None) "failed to insert requeued event"
    else
      Exec (exec_update jobID (fun _ => exhaust_set wallNow wallNow))
        "failed to fail expired dispatched job" ;;
      Exec (controller_event jobID EventJobFailed att (Some "dispatch_exhausted"))
        "failed to insert dispatch_exhausted event"
  else if String.eqb st StateRunning && execExpired then
    Exec (exec_update jobID (fun _ => timeout_set wallNow wallNow))
      "failed to transition expired running job to unknown" ;;
    Exec (controller_event jobID EventJobUnknown att (Some "execution_timeout"))
      "failed to insert unknown event"
  else mret tt.

(** ** GetJobByID *)

Definition GetJobByID (jobID : UUID) : M DB Job :=
  require_pool ;;
  Begin "failed to begin reconciliation transaction" ;;
  deferring_Rollback (
    reconciled ← catch (reconcileSingleJobInTx jobID);
    match reconciled with
    | Err err => if errors_Is err ErrJobNotFound then throw ErrJobNotFound else throw err
    | Ok _ =>
        Commit "failed to commit job reconciliation" ;;
        j ← PoolQueryRow (select_job jobID scan_job) ErrJobNotFound "failed to query job";
        match validateJobRow j with
        | Some err => throw (wrapError "corrupt job row in database" err)
        | None => mret j
        end
    end).

(** ** ListJobs and ListJobEvents *)

Definition list_query (limit : Z) (agentID : option UUID) (state : option string) : stmt DB (list Job) :=
  fun _ db =>
    let cond j := match agentID with Some a => N.eqb (AgentID j) a | None => true end
                  && match state with Some s => String.eqb (JobState j) s | None => true end in
    inr (scan_job <$> limit_rows limit (merge_sort newest_first (rows_where cond db)), db).

Fixpoint validate_rows (l : list Job) : result (list Job) :=
  match l with
  | [] => Ok []
  | j :: l' =>
      check validateJobRow j as err with wrapError "corrupt job row in database" err else
      match validate_rows l' with
      | Err err => Err err
      | Ok js => Ok (j :: js)
      end
  end.

Definition lift_result {A} (r : result A) : M DB A :=
  match r with Ok a => mret a | Err er => throw er end.

Definition page_limit (limit : Z) : Z := if (limit <=? 0) || (200 <? limit) then 100 else limit.

Definition ListJobs (limit : Z) (agentID : option UUID) (state : option string) : M DB (list Job) :=
  require_pool ;;
  let limit := page_limit limit in
  Begin "failed to begin list reconciliation transaction" ;;
  deferring_Rollback (
    reconciled ← catch (reconcileExpiredJobsInTx agentID 100);
    match reconciled with
    | Err err => throw (wrapError "failed to reconcile expired jobs" err)
    | Ok _ =>
        Commit "failed to commit list reconciliation" ;;
        rows ← PoolQuery (list_query limit agentID state) "failed to list jobs";
        lift_result (validate_rows rows)
    end).

Definition event_before (a b : JobEvent) : Prop :=
  OccurredAt a < OccurredAt b \/ (OccurredAt a = OccurredAt b /\ (EventID a <= EventID b)%N).

#[export] Instance event_before_dec a b : Decision (event_before a b).
Proof. unfold event_before. apply _. Defined.

Definition checkJob (jobID : UUID) : stmt DB Z := select_job jobID (fun _ => 1).

Definition query_events (jobID : UUID) (limit : Z) : stmt DB (list JobEvent) :=
  fun _ db =>
    inr (limit_rows limit (merge_sort event_before
           (List.filter (fun ev => N.eqb (EventJobID ev) jobID) (job_events db))), db).

Definition ListJobEvents (jobID : UUID) (limit : Z) : M DB (list JobEvent) :=
  require_pool ;;
  let limit := page_limit limit in
  PoolQueryRow (checkJob jobID) ErrJobNotFound "failed to check job" ;;
  PoolQuery (query_events jobID limit) "failed to list job events".

(** ** ClaimNextAgentJob *)

Definition queryInFlight (agentID : UUID) : stmt DB Z :=
  fun _ db => row_or_none ((fun _ => 1) <$>
    head (rows_where (fun j => N.eqb (AgentID j) agentID && is_inflight j) db)) db.

Definition claimable (agentID : UUID) (j : Job) : bool :=
  N.eqb (AgentID j) agentID && String.eqb (JobState j) StateQueued.

Definition claimQuery (agentID : UUID) : stmt DB (UUID * Z * string) :=
  fun _ db => row_or_none ((fun j => (ID j, Attempt j, ActionType j)) <$>
    head (merge_sort by_age (rows_where (claimable agentID) db))) db.

Definition dispatch_set (attempt ts : Z) (j : Job) : Job :=
  set_updated_at ts (set_dispatch_expires_at
    (Some (ts + pg_interval_seconds (duration_seconds DispatchLease)))
    (set_dispatched_at (Some ts) (set_attempt attempt (set_state StateDispatched j)))).

Definition updateDispatched (id : UUID) (newAttempt : Z) : stmt DB Z :=
  exec_update id (fun cx => dispatch_set newAttempt (cx_clock cx 0%nat)).

(** The part after the reconciliation: the one-in-flight check and the claim. *)
Definition claim_oldest `{UuidText} (agentID : UUID) : M DB (option JobAssignment) :=
  inFlight ← tx_stmt (queryInFlight agentID);
  match inFlight with
  | inr _ => Commit "failed to commit claim check" ;; mret None
  | inl ErrNoRows =>
      claimed ← tx_stmt (claimQuery agentID);
      match claimed with
      | inl ErrNoRows => Commit "failed to commit claim check" ;; mret None
      | inl err => throw (wrapDb "failed to claim job" err)
      | inr (claimedID, currAttempt, actionTypeStr) =>
          refuse_if (negb (String.eqb actionTypeStr ActionAgentPing))
            (errorString "corrupt action type in database") ;;
          refuse_if ((currAttempt <? 0) || (MaxDispatchAttempts <=? currAttempt))
            (errorString "corrupt queued job: attempt outside valid claim range") ;;
          let newAttempt := currAttempt + 1 in
          Exec (updateDispatched claimedID newAttempt) "failed to update job to dispatched" ;;
          Exec (controller_event claimedID EventJobDispatched newAttempt None)
            "failed to insert dispatched event" ;;
          Commit "failed to commit job claim" ;;
          mret (Some (mkJobAssignment (uuid_String claimedID) newAttempt actionTypeStr))
      end
  | inl err => throw (wrapDb "failed to check in-flight jobs" err)
  end.

Definition ClaimNextAgentJob `{UuidText} (agentID : UUID) : M DB (option JobAssignment) :=
  require_pool ;;
  Begin "failed to begin transaction" ;;
  deferring_Rollback (
    locked ← tx_stmt (queryAgent agentID);
    match locked with
    | inl ErrNoRows => mret None
    | inl err => throw (wrapDb "failed to lock agent row" err)
    | inr _ =>
        reconciled ← catch (reconcileExpiredJobsInTx (Some agentID) 64);
        match reconciled with
        | Err err => throw (wrapError "failed to reconcile expired jobs for agent" err)
        | Ok _ => claim_oldest agentID
        end
    end).

(** ** StartAgentJob *)

Definition start_set (ts : Z) (j : Job) : Job :=
  set_updated_at ts (set_dispatch_expires_at None (set_execution_deadline_at
    (Some (ts + pg_interval_seconds (duration_seconds ExecutionResultDeadline)))
    (set_started_at (Some ts) (set_state StateRunning j)))).

(** [dispatch_expires_at > transition_clock.ts] *)
Definition after (ts : option Z) (clock : Z) : bool :=
  match ts with Some x => clock <? x | None => false end.

(** UPDATE ... RETURNING transition_clock.ts: no row when the WHERE fails. *)
Definition updateRunning (jobID agentID : UUID) (attempt : Z) : stmt DB Z :=
  fun cx db =>
    let ts := cx_clock cx 0%nat in
    let cond j := N.eqb (AgentID j) agentID && String.eqb (JobState j) StateDispatched
                  && (Attempt j =? attempt) && after (DispatchExpiresAt j) ts in
    match update_job_where jobID cond (start_set ts) db with
    | inl err => inl err
    | inr (n, db') => if n =? 0 then inl ErrNoRows else inr (ts, db')
    end.

Definition StartAgentJob `{UuidText} (agentID jobID : UUID) (attempt : Z) : M DB unit :=
  require_pool ;;
  Begin "failed to begin transaction" ;;
  deferring_Rollback (
    row ← QueryRow (select_job jobID (fun j => (JobState j, Attempt j, AgentID j, DispatchExpiresAt j)))
            ErrJobConflict "failed to lock job for start";
    let '(currentState, currAttempt, targetAgent, dispExpires) := row in
    refuse_if (negb (String.eqb currentState StateDispatched) || negb (N.eqb targetAgent agentID)
               || negb (currAttempt =? attempt) || is_null dispExpires) ErrJobConflict ;;
    QueryRow (updateRunning jobID agentID attempt) ErrJobConflict "failed to transition job to running" ;;
    Exec (insert_job_event jobID EventJobStarted attempt "agent" (uuid_String agentID) None)
      "failed to insert job started event" ;;
    Commit "failed to commit start transition").

(** ** CompleteAgentJob *)

Definition succeed_set (ts : Z) (j : Job) : Job :=
  set_updated_at ts (set_finished_at (Some ts) (set_execution_deadline_at None
    (set_failure_code None (set_state StateSucceeded j)))).

Definition fail_set (ts : Z) (j : Job) : Job :=
  set_updated_at ts (set_finished_at (Some ts) (set_execution_deadline_at None
    (set_failure_code (Some FailureCodeExecutorError) (set_state StateFailed j)))).

(** The outcome and failure code pairs the method accepts. *)
Definition outcome_refused (outcome failureCode : string) : bool :=
  (String.eqb outcome "succeeded" && negb (String.eqb failureCode ""))
  || (String.eqb outcome "failed" && negb (String.eqb failureCode "executor_error"))
  || (negb (String.eqb outcome "succeeded") && negb (String.eqb outcome "failed")).

(** The branch of a job that is still running. *)
Definition complete_running `{UuidText} (agentID jobID : UUID) (attempt : Z) (outcome : string)
    (execDeadline : option Z) : M DB unit :=
  match execDeadline with
  | None => throw (errorString "corrupt running job: execution_deadline_at is NULL")
  | Some deadline =>
      wallNow ← Exec select_clock "failed to evaluate completion clock";
      let isDeadlinePassed := negb (wallNow <? deadline) in
      if isDeadlinePassed then
        Exec (exec_update jobID (fun _ => timeout_set wallNow wallNow))
          "failed to update late job to unknown" ;;
        Exec (controller_event jobID EventJobUnknown attempt (Some "execution_timeout"))
          "failed to insert unknown event" ;;
        Commit "failed to commit unknown transition" ;;
        throw ErrJobConflict
      else
        (if String.eqb outcome "succeeded" then
           Exec (exec_update jobID (fun _ => succeed_set wallNow)) "failed to update job to succeeded" ;;
           Exec (insert_job_event jobID EventJobSucceeded attempt "agent" (uuid_String agentID) None)
             "failed to insert succeeded event"
         else
           Exec (exec_update jobID (fun _ => fail_set wallNow)) "failed to update job to failed" ;;
           Exec (insert_job_event jobID EventJobFailed attempt "agent" (uuid_String agentID)
                   (Some "executor_error")) "failed to insert failed event") ;;
        Commit "failed to commit completion"
  end.

(** [fcMatch] of the replay branch. *)
Definition replay_matches (outcome failureCode : string) (currFC : option string) : bool :=
  (String.eqb outcome "succeeded"
   && match currFC with None => true | Some c => String.eqb c "" end
   && String.eqb failureCode "")
  || (String.eqb outcome "failed"
      && match currFC with None => false | Some c => String.eqb c "executor_error" end
      && String.eqb failureCode "executor_error").

Definition CompleteAgentJob `{UuidText} (agentID jobID : UUID) (attempt : Z)
    (outcome failureCode : string) : M DB unit :=
  require_pool ;;
  refuse_if (outcome_refused outcome failureCode) ErrJobConflict ;;
  Begin "failed to begin transaction" ;;
  deferring_Rollback (
    row ← QueryRow (select_job jobID (fun j =>
            (JobState j, Attempt j, JobFailureCode j, ExecutionDeadlineAt j, AgentID j)))
            ErrJobConflict "failed to query job for completion";
    let '(currentState, currAttempt, currFC, execDeadline, targetAgent) := row in
    refuse_if (negb (N.eqb targetAgent agentID) || negb (currAttempt =? attempt)) ErrJobConflict ;;
    if String.eqb currentState StateRunning then
      complete_running agentID jobID attempt outcome execDeadline
    else if String.eqb currentState outcome && replay_matches outcome failureCode currFC then
      Commit "failed to commit idempotent replay"
    else throw ErrJobConflict).
