(* ===== verification/JobSpec.v ===== *)
(** * The job life cycle: what the job store promises

    An abstract specification of src/internal/database/jobs.go together with
    the table in src/internal/job/state.go: a job is created once, then moves
    along the life cycle, and every move appends exactly one event to the
    history.  [lifecycle_step] is that specification, [wf_jobs] the invariant
    of its reachable states, [replay] the reading of a history. *)

From S2P Require Import Prelude GoStrings Job Operator Protocol Postgres Schema JobStore.

(** ** Moves *)

Definition put_job (id : UUID) (j : Job) (ev : JobEvent) (db : DB) : DB :=
  with_job_events (job_events db ++ [ev]) (with_jobs (<[id := j]> (jobs db)) db).

Definition by_controller (eid id : UUID) (etype : string) (att : Z) (fc : option string) (t : Z) : JobEvent :=
  mkJobEvent eid id etype att "controller" "controller" fc t.

Inductive job_move `{UuidText} (id : UUID) (j : Job) : Job -> JobEvent -> Prop :=
| move_dispatch ts eid t :
    JobState j = StateQueued -> 0 <= Attempt j < MaxDispatchAttempts ->
    job_move id j (dispatch_set (Attempt j + 1) ts j)
      (by_controller eid id EventJobDispatched (Attempt j + 1) None t)
| move_requeue clock ts eid t :
    JobState j = StateDispatched -> due (DispatchExpiresAt j) clock = true ->
    Attempt j < MaxDispatchAttempts ->
    job_move id j (requeue_set ts j) (by_controller eid id EventJobRequeued (Attempt j) None t)
| move_exhaust clock fin ts eid t :
    JobState j = StateDispatched -> due (DispatchExpiresAt j) clock = true ->
    MaxDispatchAttempts <= Attempt j ->
    job_move id j (exhaust_set fin ts j)
      (by_controller eid id EventJobFailed (Attempt j) (Some FailureCodeDispatchExhausted) t)
| move_start ts eid t :
    JobState j = StateDispatched -> after (DispatchExpiresAt j) ts = true ->
    job_move id j (start_set ts j)
      (mkJobEvent eid id EventJobStarted (Attempt j) "agent" (uuid_String (AgentID j)) None t)
| move_succeed d ts eid t :
    JobState j = StateRunning -> ExecutionDeadlineAt j = Some d -> ts < d ->
    job_move id j (succeed_set ts j)
      (mkJobEvent eid id EventJobSucceeded (Attempt j) "agent" (uuid_String (AgentID j)) None t)
| move_fail d ts eid t :
    JobState j = StateRunning -> ExecutionDeadlineAt j = Some d -> ts < d ->
    job_move id j (fail_set ts j)
      (mkJobEvent eid id EventJobFailed (Attempt j) "agent" (uuid_String (AgentID j))
         (Some FailureCodeExecutorError) t)
| move_timeout clock fin ts eid t :
    JobState j = StateRunning -> due (ExecutionDeadlineAt j) clock = true ->
    job_move id j (timeout_set fin ts j)
      (by_controller eid id EventJobUnknown (Attempt j) (Some FailureCodeExecutionTimeout) t).

Definition created_event (eid id : UUID) (username : string) (t : Z) : JobEvent :=
  mkJobEvent eid id EventJobCreated 0 "operator" username None t.

Definition created_audit (aid operatorID id : UUID) (username : string) (t : Z) : AuditRow :=
  mkAuditRow aid (Some operatorID) username ActionJobCreated None None OutcomeSuccess t (Some id).

(** The creation of one job: the row, its event and its audit record. *)
Definition create_tables (j : Job) (ev : JobEvent) (au : AuditRow) (db : DB) : DB :=
  with_audit (operator_audit_events db ++ [au]) (put_job (ID j) j ev db).

Inductive lifecycle_step `{UuidText} (db : DB) : DB -> Prop :=
| step_create id operatorID agentID username action hash now eid aid t t' :
    jobs db !! id = None ->
    active_count db agentID < MaxActiveJobsPerAgent ->
    job_checks (new_job id operatorID agentID username action hash now) = true ->
    jobs_idempotency_idx (jobs db) id (new_job id operatorID agentID username action hash now) = true ->
    lifecycle_step db
      (create_tables (new_job id operatorID agentID username action hash now)
         (created_event eid id username t) (created_audit aid operatorID id username t') db)
| step_move id j j' ev :
    jobs db !! id = Some j ->
    job_move id j j' ev ->
    job_checks j' = true ->
    jobs_agent_inflight_idx (jobs db) id j' = true ->
    lifecycle_step db (put_job id j' ev db).

(** ** Reading a history *)

Definition summary : Type := State * Z * option string.

Definition summary_of (j : Job) : summary := (JobState j, Attempt j, JobFailureCode j).

Definition replay_event (s : option summary) (ev : JobEvent) : option summary :=
  match s with
  | None => None
  | Some (st, a, _) =>
      let matches etype from att fc :=
        String.eqb (EventType ev) etype && String.eqb st from && (EventAttempt ev =? att)
        && bool_decide (EventFailureCode ev = fc) in
      if matches EventJobDispatched StateQueued (a + 1) None && (a <? MaxDispatchAttempts)
      then Some (StateDispatched, a + 1, None)
      else if matches EventJobRequeued StateDispatched a None && (a <? MaxDispatchAttempts)
      then Some (StateQueued, a, None)
      else if matches EventJobStarted StateDispatched a None then Some (StateRunning, a, None)
      else if matches EventJobFailed StateDispatched a (Some FailureCodeDispatchExhausted)
              && (MaxDispatchAttempts <=? a)
      then Some (StateFailed, a, Some FailureCodeDispatchExhausted)
      else if matches EventJobSucceeded StateRunning a None then Some (StateSucceeded, a, None)
      else if matches EventJobFailed StateRunning a (Some FailureCodeExecutorError)
      then Some (StateFailed, a, Some FailureCodeExecutorError)
      else if matches EventJobUnknown StateRunning a (Some FailureCodeExecutionTimeout)
      then Some (StateUnknown, a, Some FailureCodeExecutionTimeout)
      else None
  end.

Definition replay_first (ev : JobEvent) : option summary :=
  if String.eqb (EventType ev) EventJobCreated && (EventAttempt ev =? 0)
     && is_null (EventFailureCode ev)
  then Some (StateQueued, 0, None) else None.

Definition replay (evs : list JobEvent) : option summary :=
  match evs with
  | [] => None
  | ev :: evs' => foldl replay_event (replay_first ev) evs'
  end.

Definition events_of (id : UUID) (evs : list JobEvent) : list JobEvent :=
  List.filter (fun ev => N.eqb (EventJobID ev) id) evs.

Definition events_typed (etype : string) (evs : list JobEvent) : list JobEvent :=
  List.filter (fun ev => String.eqb (EventType ev) etype) evs.

(** ** The invariant *)

Record wf_jobs (db : DB) : Prop := {
  wf_key : forall id j, jobs db !! id = Some j -> ID j = id;
  wf_checks : forall id j, jobs db !! id = Some j -> job_checks j = true;
  wf_lease : forall id j, jobs db !! id = Some j ->
    (JobState j = StateDispatched -> DispatchExpiresAt j <> None)
    /\ (JobState j = StateRunning -> ExecutionDeadlineAt j <> None);
  wf_inflight : forall id1 id2 j1 j2, jobs db !! id1 = Some j1 -> jobs db !! id2 = Some j2 ->
    AgentID j1 = AgentID j2 -> is_inflight j1 = true -> is_inflight j2 = true -> id1 = id2;
  wf_idempotency : forall id1 id2 j1 j2, jobs db !! id1 = Some j1 -> jobs db !! id2 = Some j2 ->
    CreatedByOperatorID j1 = CreatedByOperatorID j2 ->
    IdempotencyKeyHash j1 = IdempotencyKeyHash j2 -> id1 = id2;
  wf_queue : forall a, active_count db a <= MaxActiveJobsPerAgent;
  wf_history : forall id j, jobs db !! id = Some j ->
    replay (events_of id (job_events db)) = Some (summary_of j);
  wf_orphans : forall id, jobs db !! id = None -> events_of id (job_events db) = [];
}.

Definition jobs_equal (db db' : DB) : Prop :=
  jobs db' = jobs db /\ job_events db' = job_events db.

(** ** Facts about counts and histories *)

Definition count_rows (p : Job -> bool) (m : gmap UUID Job) : nat :=
  length (List.filter p (snd <$> map_to_list m)).

Definition bit (b : bool) : nat := if b then 1%nat else 0%nat.

Lemma length_filter_perm {A} (p : A -> bool) l l' :
  l ≡ₚ l' -> length (List.filter p l) = length (List.filter p l').
Proof. induction 1; simpl; repeat case_match; simpl in *; lia. Qed.

Lemma count_rows_insert p m id j :
  m !! id = None -> count_rows p (<[id := j]> m) = (bit (p j) + count_rows p m)%nat.
Proof.
  intros Hn. unfold count_rows.
  rewrite (length_filter_perm p _ (snd <$> (id, j) :: map_to_list m)).
  - simpl. unfold bit. by destruct (p j).
  - apply fmap_Permutation. by apply map_to_list_insert.
Qed.

Lemma count_rows_update p m id j j' :
  m !! id = Some j ->
  (count_rows p (<[id := j']> m) + bit (p j) = count_rows p m + bit (p j'))%nat.
Proof.
  intros Hj. rewrite <- (insert_delete_id m id j Hj) at 2.
  rewrite <- (insert_delete_eq m id j').
  rewrite !count_rows_insert by apply lookup_delete_eq. lia.
Qed.

Lemma active_count_rows db a :
  active_count db a
  = Z.of_nat (count_rows (fun j => N.eqb (AgentID j) a && is_active j) (jobs db)).
Proof. done. Qed.

Lemma filter_snoc {A} (p : A -> bool) l x :
  List.filter p (l ++ [x]) = List.filter p l ++ (if p x then [x] else []).
Proof. induction l as [|y l IH]; simpl; [by destruct (p x)|]. rewrite IH. by destruct (p y). Qed.

Lemma events_of_snoc id evs ev :
  events_of id (evs ++ [ev])
  = events_of id evs ++ (if N.eqb (EventJobID ev) id then [ev] else []).
Proof. unfold events_of. by rewrite filter_snoc. Qed.

Lemma replay_snoc evs ev :
  evs <> [] -> replay (evs ++ [ev]) = replay_event (replay evs) ev.
Proof. destruct evs as [|x evs]; [done|]. intros _. simpl. by rewrite foldl_app. Qed.

Lemma replay_app_some evs s : replay evs = Some s -> evs <> [].
Proof. by destruct evs. Qed.

(** ** Every move keeps the identity of a job and explains its event *)

Section moves.
Context `{UuidText}.

Lemma move_identity id j j' ev :
  job_move id j j' ev ->
  ID j' = ID j /\ AgentID j' = AgentID j /\ CreatedByOperatorID j' = CreatedByOperatorID j
  /\ IdempotencyKeyHash j' = IdempotencyKeyHash j /\ ActionType j' = ActionType j
  /\ CreatedByUsername j' = CreatedByUsername j /\ CreatedAt j' = CreatedAt j
  /\ EventJobID ev = id.
Proof. by destruct 1. Qed.

Lemma move_was_active id j j' ev : job_move id j j' ev -> is_active j = true.
Proof. unfold is_active, one_of. by destruct 1 as [???->|????->|?????->|???->|????->|????->|?????->]. Qed.

Lemma move_transition id j j' ev :
  job_move id j j' ev -> ValidateTransition (JobState j) (JobState j') = None.
Proof. by destruct 1 as [???->|????->|?????->|???->|????->|????->|?????->]. Qed.

Lemma move_lease id j j' ev :
  job_move id j j' ev ->
  (JobState j' = StateDispatched -> DispatchExpiresAt j' <> None)
  /\ (JobState j' = StateRunning -> ExecutionDeadlineAt j' <> None).
Proof. by destruct 1. Qed.

Lemma move_replay id j j' ev :
  job_move id j j' ev -> JobFailureCode j = None ->
  replay_event (Some (summary_of j)) ev = Some (summary_of j').
Proof.
  intros Hm Hf. unfold replay_event, summary_of, MaxDispatchAttempts in *.
  destruct Hm as [??? Hs ?|???? Hs ??|????? Hs ??|??? Hs ?|???? Hs ??|???? Hs ??|????? Hs ?];
    unfold MaxDispatchAttempts in *; rewrite Hs, ?Hf; simpl; rewrite ?Hf, ?Z.eqb_refl; simpl; try done.
  - by rewrite (proj2 (Z.ltb_lt _ _)) by lia.
  - by rewrite (proj2 (Z.ltb_lt _ _)) by lia.
  - by rewrite (proj2 (Z.leb_le _ _)) by lia.
Qed.
End moves.

(** ** Invariance *)

Lemma one_of_elem s l : one_of s l = true -> s ∈ l.
Proof.
  unfold one_of. rewrite existsb_exists. intros (x & Hx & E). apply String.eqb_eq in E as ->.
  by apply list_elem_of_In.
Qed.

Lemma code_matches_state st fc :
  st ∈ active_states ++ terminal_states ->
  ((one_of st active_states && is_null fc)
   || (String.eqb st StateSucceeded && is_null fc)
   || (String.eqb st StateFailed && fc_in fc [FailureCodeExecutorError; FailureCodeDispatchExhausted])
   || (String.eqb st StateUnknown && fc_in fc [FailureCodeExecutionTimeout]))%bool = true ->
  State_Valid st = true /\ (one_of st active_states = true -> fc = None)
  /\ ValidateStateFailureCode st fc = None.
Proof.
  intros Hst.
  assert (State_Valid st = true) as Hv.
  { repeat (apply elem_of_cons in Hst as [->|Hst]; [done|]). by apply elem_of_nil in Hst. }
  unfold ValidateStateFailureCode.
  destruct fc as [fc|]; simpl; rewrite ?andb_false_r, ?andb_true_r; simpl;
    repeat (apply elem_of_cons in Hst as [->|Hst]; [|]); simpl; try done;
    try (by apply elem_of_nil in Hst); rewrite ?orb_false_r; intros Hc.
  all: try (apply orb_prop in Hc as [Hc|Hc]); apply String.eqb_eq in Hc as ->; done.
Qed.

Lemma job_checks_states j :
  job_checks j = true ->
  State_Valid (JobState j) = true /\ 0 <= Attempt j <= MaxDispatchAttempts
  /\ ActionType j = ActionAgentPing
  /\ (is_active j = true -> JobFailureCode j = None)
  /\ ValidateStateFailureCode (JobState j) (JobFailureCode j) = None.
Proof.
  unfold job_checks, MaxDispatchAttempts. intros H. bsplit.
  destruct (code_matches_state (JobState j) (JobFailureCode j)) as (? & ? & ?);
    [by apply one_of_elem|done|].
  repeat split; try done; try lia.
  apply String.eqb_eq. match goal with H : one_of (ActionType j) _ = true |- _ => revert H end.
  unfold one_of. simpl. by rewrite orb_false_r.
Qed.

Lemma events_of_put_same id j ev db :
  EventJobID ev = id -> events_of id (job_events (put_job id j ev db))
  = events_of id (job_events db) ++ [ev].
Proof. intros He. simpl. rewrite events_of_snoc, (proj2 (N.eqb_eq _ _) He). done. Qed.

Lemma events_of_put_other id id' j ev db :
  EventJobID ev = id -> id' <> id ->
  events_of id' (job_events (put_job id j ev db)) = events_of id' (job_events db).
Proof.
  intros He Hn. simpl. rewrite events_of_snoc.
  rewrite (proj2 (N.eqb_neq _ _)) by congruence. by rewrite app_nil_r.
Qed.

(** What [put_job] must respect for the invariant to survive. *)
Lemma wf_put_job db id j ev :
  wf_jobs db -> ID j = id -> EventJobID ev = id -> job_checks j = true ->
  (JobState j = StateDispatched -> DispatchExpiresAt j <> None) ->
  (JobState j = StateRunning -> ExecutionDeadlineAt j <> None) ->
  jobs_agent_inflight_idx (jobs db) id j = true ->
  jobs_idempotency_idx (jobs db) id j = true ->
  (forall a, active_count (put_job id j ev db) a <= MaxActiveJobsPerAgent) ->
  replay (events_of id (job_events db) ++ [ev]) = Some (summary_of j) ->
  wf_jobs (put_job id j ev db).
Proof.
  intros Hwf Hid Hev Hchk Hd Hr Hif Hik Hq Hh.
  unfold jobs_agent_inflight_idx, jobs_idempotency_idx in Hif, Hik.
  apply bool_decide_eq_true in Hif, Hik.
  assert (forall id' j', jobs (put_job id j ev db) !! id' = Some j' ->
            (id' = id /\ j' = j) \/ (id' <> id /\ jobs db !! id' = Some j')) as Hl.
  { simpl. intros id' j' [[<- <-]|[? ?]]%lookup_insert_Some; auto. }
  split; intros *.
  - intros [[-> ->]|[_ H]]%Hl; [done|by apply (wf_key _ Hwf)].
  - intros [[-> ->]|[_ H]]%Hl; [done|by apply (wf_checks _ Hwf id0)].
  - intros [[-> ->]|[_ H]]%Hl; [done|by apply (wf_lease _ Hwf id0)].
  - intros [[-> ->]|[Hn1 H1]]%Hl [[-> ->]|[Hn2 H2]]%Hl Ha Hi1 Hi2; [done| | |].
    + destruct (Hif _ _ H2) as [?|[?|[?|?]]]; congruence.
    + destruct (Hif _ _ H1) as [?|[?|[?|?]]]; congruence.
    + by apply (wf_inflight _ Hwf id1 id2 j1 j2).
  - intros [[-> ->]|[Hn1 H1]]%Hl [[-> ->]|[Hn2 H2]]%Hl Ha Hi; [done| | |].
    + destruct (Hik _ _ H2) as [?|[?|?]]; congruence.
    + destruct (Hik _ _ H1) as [?|[?|?]]; congruence.
    + by apply (wf_idempotency _ Hwf id1 id2 j1 j2).
  - apply Hq.
  - intros [[-> ->]|[Hn H]]%Hl.
    + by rewrite events_of_put_same.
    + rewrite events_of_put_other by done. by apply (wf_history _ Hwf).
  - simpl. intros [H Hn]%lookup_insert_None.
    rewrite events_of_snoc, (proj2 (N.eqb_neq _ _)) by congruence.
    rewrite app_nil_r. by apply (wf_orphans _ Hwf).
Qed.

Lemma wf_jobs_equal db db' : jobs_equal db db' -> wf_jobs db -> wf_jobs db'.
Proof.
  intros [Hj He] []. split; rewrite ?Hj, ?He; auto.
  intros a. unfold active_count, rows_where. rewrite Hj. apply wf_queue0.
Qed.

Lemma wf_empty : wf_jobs empty_db.
Proof. split; try done. Qed.

Lemma new_job_inflight id op a u act h now m :
  jobs_agent_inflight_idx m id (new_job id op a u act h now) = true.
Proof. apply bool_decide_eq_true. intros id' j' _. right. right. by right. Qed.

Section invariance.
Context `{UuidText}.

Lemma step_wf db db' : wf_jobs db -> lifecycle_step db db' -> wf_jobs db'.
Proof.
  intros Hwf [id op a u act h now eid aid t t' Hn Hq Hc Hi|id j j' ev Hj Hm Hc Hi].
  - set (j := new_job id op a u act h now) in *.
    apply (wf_jobs_equal (put_job id j (created_event eid id u t) db)); [done|].
    apply wf_put_job; try done; [apply new_job_inflight| |].
    + intros a'. rewrite active_count_rows. simpl. rewrite count_rows_insert by done.
      pose proof (wf_queue _ Hwf a') as Hb. rewrite active_count_rows in Hq, Hb.
      simpl. unfold MaxActiveJobsPerAgent in *.
      destruct (N.eqb a a') eqn:E; simpl; [apply N.eqb_eq in E; subst|]; lia.
    + by rewrite (wf_orphans _ Hwf id Hn).
  - destruct (move_identity _ _ _ _ Hm) as (Hid & Ha & Ho & Hk & _ & _ & _ & He).
    destruct (job_checks_states _ (wf_checks _ Hwf _ _ Hj)) as (_ & _ & _ & Hf & _).
    pose proof (move_was_active _ _ _ _ Hm) as Hact.
    apply wf_put_job; try done; try (by eapply move_lease).
    + rewrite Hid. by apply (wf_key _ Hwf).
    + apply bool_decide_eq_true. intros id' j1 H1.
      destruct (decide (id' = id)); [by left|right].
      destruct (decide (CreatedByOperatorID j1 = CreatedByOperatorID j')); [right|by left].
      intros Hk'. apply n, (wf_idempotency _ Hwf id' id j1 j); congruence.
    + intros a'. pose proof (wf_queue _ Hwf a') as Hb.
      rewrite active_count_rows in *. simpl.
      pose proof (count_rows_update (fun j => N.eqb (AgentID j) a' && is_active j) _ _ _ j' Hj) as Hu.
      unfold bit in Hu. simpl in Hu. rewrite Ha, Hact in Hu.
      destruct (N.eqb (AgentID j) a'); simpl in Hu; [destruct (is_active j')|]; lia.
    + rewrite replay_snoc by (eapply replay_app_some, wf_history; eauto).
      rewrite (wf_history _ Hwf _ _ Hj). by apply (move_replay id), Hf.
Qed.

Lemma steps_wf db db' : wf_jobs db -> rtc lifecycle_step db db' -> wf_jobs db'.
Proof. intros Hwf Hr. induction Hr; [done|]. eauto using step_wf. Qed.
End invariance.

(** ** What a history tells *)

(** Has a job in this state been started? *)
Definition was_started (s : summary) : bool :=
  let '(st, _, fc) := s in
  one_of st [StateRunning; StateSucceeded; StateUnknown]
  || (String.eqb st StateFailed && bool_decide (fc = Some FailureCodeExecutorError)).

Lemma replay_event_inv s ev s' :
  replay_event (Some s) ev = Some s' ->
  s'.1.2 = (s.1.2 + (if String.eqb (EventType ev) EventJobDispatched then 1 else 0))
  /\ (s'.1.2 <= Z.max s.1.2 MaxDispatchAttempts)
  /\ bit (was_started s') =
     (bit (was_started s) + (if String.eqb (EventType ev) EventJobStarted then 1 else 0))%nat.
Proof.
  destruct s as [[st a] fc]. unfold replay_event, MaxDispatchAttempts.
  repeat match goal with
         | |- (if ?c then _ else _) = _ -> _ => destruct c eqn:?
         end; intros [= <-]; bsplit; simpl;
    repeat match goal with
           | H : bool_decide _ = true |- _ => apply bool_decide_eq_true in H
           | H : EventType ev = _ |- _ => rewrite H in *; clear H
           end; subst; simpl; (split; [lia|split; [lia|done]]).
Qed.

Lemma replay_counts evs s :
  replay evs = Some s ->
  Z.of_nat (length (events_typed EventJobDispatched evs)) = s.1.2
  /\ s.1.2 <= MaxDispatchAttempts
  /\ length (events_typed EventJobStarted evs) = bit (was_started s).
Proof.
  revert s. induction evs as [|ev evs IH] using rev_ind; [done|]. intros s Hs.
  destruct evs as [|ev0 evs'].
  - simpl in Hs. unfold replay_first in Hs. destruct (_ && _)%bool eqn:E in Hs; [|done].
    simplify_eq. bsplit. unfold events_typed. simpl.
    match goal with H : EventType ev = _ |- _ => rewrite H end. done.
  - rewrite replay_snoc in Hs by done.
    destruct (replay (ev0 :: evs')) as [s0|] eqn:E0; [|done].
    destruct (IH _ eq_refl) as (Hd & Hle & Hst). apply replay_event_inv in Hs as (Ha & Hm & Hw).
    unfold events_typed in *. rewrite !filter_snoc, !length_app, Hw, Hst, Ha.
    destruct (String.eqb (EventType ev) EventJobDispatched), (String.eqb (EventType ev) EventJobStarted);
      cbn [length]; lia.
Qed.

(** A queued job still has an attempt left. *)
Lemma replay_queued evs a fc :
  replay evs = Some (StateQueued, a, fc) -> 0 <= a < MaxDispatchAttempts.
Proof.
  assert (forall evs s, replay evs = Some s -> 0 <= s.1.2 /\ (s.1.1 = StateQueued -> s.1.2 < MaxDispatchAttempts))
    as Hall; [|by intros [? Hq]%Hall; split; [|apply Hq]].
  clear. induction evs as [|ev evs IH] using rev_ind; [done|]. intros s Hs.
  destruct evs as [|ev0 evs'].
  - simpl in Hs. unfold replay_first in Hs. destruct (_ && _)%bool in Hs; by simplify_eq.
  - rewrite replay_snoc in Hs by done.
    destruct (replay (ev0 :: evs')) as [[[st a] fc]|] eqn:E0; [|done].
    destruct (IH _ eq_refl) as [Ha Hq]. simpl in Ha. revert Hs. unfold replay_event.
    repeat match goal with |- (if ?c then _ else _) = _ -> _ => destruct c eqn:? end;
      intros [= <-]; bsplit; simpl; split; try lia; try done.
Qed.

Section steps.
Context `{UuidText}.

Lemma step_lookup db db' id j :
  lifecycle_step db db' -> jobs db !! id = Some j ->
  jobs db' !! id = Some j \/ exists j' ev, job_move id j j' ev /\ jobs db' !! id = Some j'.
Proof.
  intros [nid op a u act h now eid aid t t' Hn Hq Hc Hi|id' j0 j' ev Hj0 Hm Hc Hi] Hj; simpl.
  - left. rewrite lookup_insert_ne by congruence. done.
  - destruct (decide (id' = id)) as [->|Hne].
    + right. exists j', ev. simplify_eq. by rewrite lookup_insert_eq.
    + left. by rewrite lookup_insert_ne.
Qed.

(** Along any number of steps a job stays, with the same identity. *)
Definition same_identity (j j' : Job) : Prop :=
  ID j' = ID j /\ AgentID j' = AgentID j /\ CreatedByOperatorID j' = CreatedByOperatorID j
  /\ IdempotencyKeyHash j' = IdempotencyKeyHash j /\ ActionType j' = ActionType j
  /\ CreatedByUsername j' = CreatedByUsername j /\ CreatedAt j' = CreatedAt j.

Lemma steps_lookup db db' id j :
  rtc lifecycle_step db db' -> jobs db !! id = Some j ->
  exists j', jobs db' !! id = Some j' /\ same_identity j j'
             /\ (is_active j = false -> j' = j).
Proof.
  intros Hr. revert j. induction Hr as [db|db db1 db2 Hs Hr IH]; intros j Hj.
  - exists j. by repeat split.
  - destruct (step_lookup _ _ _ _ Hs Hj) as [H1|(j' & ev & Hm & H1)];
      destruct (IH _ H1) as (j2 & H2 & Hsame & Hterm).
    + exists j2. by repeat split; try apply Hsame.
    + exists j2. split; [done|]. unfold same_identity in *.
      pose proof (move_identity _ _ _ _ Hm). pose proof (move_was_active _ _ _ _ Hm).
      split; [intuition congruence|congruence].
Qed.

(** The history only grows. *)
Lemma steps_history db db' :
  rtc lifecycle_step db db' -> exists evs, job_events db' = job_events db ++ evs.
Proof.
  induction 1 as [db|db db1 db2 Hs Hr [evs IH]]; [exists []; by rewrite app_nil_r|].
  destruct Hs; simpl in IH; rewrite IH; simpl; eexists; by rewrite <- app_assoc.
Qed.
End steps.
