(* ===== verification/JobReconcile.v ===== *)
(** * Reconciliation of expired jobs

    The transaction-level contract of [reconcileExpiredJobsInTx] and
    [reconcileSingleJobInTx] (src/internal/database/jobs.go): which rows they
    move, to what, and that each move is a step of the life cycle. *)

From S2P Require Import Prelude GoStrings Job Operator Protocol Postgres Schema JobStore JobSpec.

(** ** Inside a transaction *)

(** The statements run so far left the view [v'] related to the result by
    [R]; after an error nothing was committed and the error is internal. *)
Definition tx_post {A} (db : DB) (t : Z) (R : A -> DB -> Prop) (r : result A) (w : World DB) : Prop :=
  match r with
  | Ok a => exists v n, w = mkWorld db (TxOpen v t) n /\ R a v
  | Err er => committed w = db /\ opaque_error er = true
  end.

Lemma tx_post_err {A} db t (R : A -> DB -> Prop) er (s : txstate DB) n :
  opaque_error er = true -> tx_post db t R (Err er) (mkWorld db s n).
Proof. done. Qed.

Lemma tx_post_ok {A} db t (R : A -> DB -> Prop) a v n :
  R a v -> tx_post db t R (Ok a) (mkWorld db (TxOpen v t) n).
Proof. intros. by exists v, n. Qed.

#[export] Hint Resolve tx_post_err : pg.

Lemma tx_post_mono {A} db t (R R' : A -> DB -> Prop) r w :
  (forall a v, R a v -> R' a v) -> tx_post db t R r w -> tx_post db t R' r w.
Proof. intros HR. destruct r; simpl; [|done]. intros (v & n & -> & H). exists v, n. eauto. Qed.

Lemma exec_update_inv id set cx v a v' j :
  exec_update id set cx v = inr (a, v') -> jobs v !! id = Some j ->
  v' = with_jobs (<[id := set cx j]> (jobs v)) v
  /\ job_checks (set cx j) = true /\ jobs_agent_inflight_idx (jobs v) id (set cx j) = true.
Proof.
  unfold exec_update, update_job, update_job_where. intros H Hj. rewrite Hj in H. simpl in H.
  destruct (job_checks (set cx j)) eqn:Ec; simpl in H; [|done].
  destruct (jobs_agent_inflight_idx _ _ _) eqn:Ei; simpl in H; [|done].
  destruct (jobs_idempotency_idx _ _ _); simpl in H; [|done].
  by simplify_eq.
Qed.

Lemma insert_event_inv id etype att aty aid fc cx v u v' :
  insert_job_event id etype att aty aid fc cx v = inr (u, v') ->
  v' = with_job_events (job_events v
         ++ [mkJobEvent (cx_uuidv7 cx) id etype att aty aid fc (cx_now cx)]) v.
Proof. unfold insert_job_event. repeat case_match; intros; by simplify_eq. Qed.

(** ** Selections *)

Lemma elem_of_rows_where p db j :
  j ∈ rows_where p db <-> exists id, jobs db !! id = Some j /\ p j = true.
Proof.
  unfold rows_where. rewrite list_elem_of_In, filter_In, <- list_elem_of_In, list_elem_of_fmap.
  split.
  - intros [([id j'] & -> & H%elem_of_map_to_list) Hp]. by exists id.
  - intros (id & H & Hp). split; [|done]. exists (id, j). by rewrite elem_of_map_to_list.
Qed.

Lemma sublist_list_filter {A} (p : A -> bool) l : sublist (List.filter p l) l.
Proof. induction l as [|x l IH]; simpl; [constructor|]. destruct (p x); by constructor. Qed.

Lemma rows_where_NoDup p db : wf_jobs db -> NoDup (ID <$> rows_where p db).
Proof.
  intros Hwf. unfold rows_where.
  apply (sublist_NoDup _ (ID <$> (snd <$> map_to_list (jobs db))));
    [|apply fmap_sublist, sublist_list_filter].
  rewrite <- list_fmap_compose.
  rewrite (list_fmap_ext _ fst); [apply NoDup_fst_map_to_list|].
  intros i [id j] H%list_elem_of_lookup_2%elem_of_map_to_list. simpl. by apply (wf_key _ Hwf).
Qed.

Definition expires_in (state : string) (ts : Job -> option Z) (scope : Job -> bool)
    (clock : UUID -> Z) (j : Job) : bool :=
  scope j && expired state ts clock j.

Definition in_scope (agentID : option UUID) (j : Job) : bool :=
  match agentID with Some a => N.eqb (AgentID j) a | None => true end.

(** What both branches of a selection guarantee: distinct ids of rows that are
    in scope and expired, all of them for an agent, at most [limit] globally. *)
Record selection (state : string) (ts : Job -> option Z) (agentID : option UUID) (limit : Z)
    (clock : UUID -> Z) (v : DB) (l : list (UUID * Z)) : Prop := {
  sel_NoDup : NoDup l.*1;
  sel_sound : forall id att, (id, att) ∈ l -> exists j,
    jobs v !! id = Some j /\ Attempt j = att
    /\ expires_in state ts (in_scope agentID) clock j = true;
  sel_complete : agentID <> None -> forall id j,
    jobs v !! id = Some j -> expires_in state ts (in_scope agentID) clock j = true -> id ∈ l.*1;
  sel_bound : agentID = None -> Z.of_nat (length l) <= Z.max 0 limit;
}.

Lemma expiredJob_fst l : (expiredJob <$> l).*1 = ID <$> l.
Proof. by rewrite <- list_fmap_compose. Qed.

Lemma query_expired_selects state ts agentID limit cx v l v' :
  wf_jobs v -> query_expired state ts agentID limit cx v = inr (l, v') ->
  v' = v /\ selection state ts agentID limit (cx_row_clock cx) v l.
Proof.
  intros Hwf. unfold query_expired. destruct agentID as [a|]; intros [= <- <-]; (split; [done|]).
  - split; try done.
    + rewrite expiredJob_fst. by apply rows_where_NoDup.
    + intros id att H. apply list_elem_of_fmap in H as (j & [= -> ->] & (id & Hj & Hp)%elem_of_rows_where).
      exists j. rewrite (wf_key _ Hwf _ _ Hj). by split.
    + intros _ id j Hj Hp. rewrite expiredJob_fst. apply list_elem_of_fmap. exists j.
      split; [symmetry; by apply (wf_key _ Hwf)|]. apply elem_of_rows_where. by exists id.
  - set (keep := fun j => negb (cx_locked cx (ID j))).
    set (all := rows_where (expired state ts (cx_row_clock cx)) v).
    assert (sublist (limit_rows limit (List.filter keep (merge_sort (by_ts ts) all)))
                    (merge_sort (by_ts ts) all)) as Hsub.
    { etrans; [apply sublist_take|apply sublist_list_filter]. }
    assert (merge_sort (by_ts ts) all ≡ₚ all) as Hperm by apply merge_sort_Permutation.
    split; try done.
    + rewrite expiredJob_fst. eapply sublist_NoDup; [|apply fmap_sublist, Hsub].
      rewrite Hperm. by apply rows_where_NoDup.
    + intros id att H. apply list_elem_of_fmap in H as (j & [= -> ->] & H).
      eapply elem_of_sublist in H; [|exact Hsub]. rewrite Hperm in H.
      apply elem_of_rows_where in H as (id & Hj & Hp).
      exists j. by rewrite (wf_key _ Hwf _ _ Hj).
    + intros _. rewrite length_fmap. unfold limit_rows. rewrite length_take. lia.
Qed.

(** ** Expiry of the selected rows *)

(** The row an expired row becomes. *)
Definition expire_job (fin ts : Z) (j : Job) : Job :=
  if String.eqb (JobState j) StateDispatched then
    if Attempt j <? MaxDispatchAttempts then requeue_set ts j else exhaust_set fin ts j
  else timeout_set fin ts j.

Section reconcile.
Context `{UuidText}.

(** The tables after the rows [ids] expired one after the other. *)
Inductive expire_all : list UUID -> DB -> DB -> Prop :=
| expire_nil v : expire_all [] v v
| expire_cons id ids v v' j fin ts ev :
    jobs v !! id = Some j ->
    job_move id j (expire_job fin ts j) ev ->
    lifecycle_step v (put_job id (expire_job fin ts j) ev v) ->
    expire_all ids (put_job id (expire_job fin ts j) ev v) v' ->
    expire_all (id :: ids) v v'.

Lemma expire_all_steps ids v v' :
  expire_all ids v v' -> nsteps lifecycle_step (length ids) v v'.
Proof. induction 1; simpl; econstructor; eauto. Qed.

Lemma expire_all_rtc ids v v' : expire_all ids v v' -> rtc lifecycle_step v v'.
Proof. intros Hx. eapply rtc_nsteps_2, expire_all_steps, Hx. Qed.

Lemma expire_all_other ids v v' id :
  expire_all ids v v' -> id ∉ ids -> jobs v' !! id = jobs v !! id.
Proof.
  induction 1 as [|id' ids v v' j fin ts ev Hj Hm Hs Hr IH]; [done|].
  intros [Hne Hn]%not_elem_of_cons. rewrite IH by done. simpl. by rewrite lookup_insert_ne.
Qed.

Lemma expire_all_here ids v v' id j :
  expire_all ids v v' -> NoDup ids -> id ∈ ids -> jobs v !! id = Some j ->
  exists fin ts, jobs v' !! id = Some (expire_job fin ts j).
Proof.
  induction 1 as [|id' ids v v' j' fin ts ev Hj' Hm Hs Hr IH]; intros Hnd Hin Hj.
  - by apply elem_of_nil in Hin.
  - apply NoDup_cons in Hnd as [Hni Hnd]. apply elem_of_cons in Hin as [->|Hin].
    + simplify_eq. exists fin, ts. rewrite (expire_all_other _ _ _ _ Hr) by done. simpl.
      by rewrite lookup_insert_eq.
    + apply IH; try done. simpl. rewrite lookup_insert_ne; [done|]. by intros ->.
Qed.

(** An update followed by its event is one step. *)
Lemma wp_move_event setf id etype att aty aid fc msg1 msg2 (Q : result unit -> World DB -> Prop)
    e db v t n j :
  jobs v !! id = Some j ->
  (forall er s n', opaque_error er = true -> Q (Err er) (mkWorld db s n')) ->
  (forall cx eid te n', job_checks (setf cx j) = true ->
     jobs_agent_inflight_idx (jobs v) id (setf cx j) = true ->
     Q (Ok tt) (mkWorld db (TxOpen (put_job id (setf cx j)
                             (mkJobEvent eid id etype att aty aid fc te) v) t) n')) ->
  wp (Exec (exec_update id setf) msg1 ;; Exec (insert_job_event id etype att aty aid fc) msg2)
    Q e (mkWorld db (TxOpen v t) n).
Proof.
  intros Hj He Hok. apply wp_bind, wp_exec; try (intros; by apply He).
  intros a v1 Hu. destruct (exec_update_inv _ _ _ _ _ _ _ Hu Hj) as (-> & Hc & Hi).
  apply wp_exec; try (intros; by apply He).
  intros [] v2 ->%insert_event_inv. by apply Hok.
Qed.

Definition expired_entry (state : string) (v : DB) (ea : UUID * Z) : Prop :=
  exists j c, jobs v !! ea.1 = Some j /\ Attempt j = ea.2 /\ JobState j = state
    /\ (state = StateDispatched -> due (DispatchExpiresAt j) c = true)
    /\ (state = StateRunning -> due (ExecutionDeadlineAt j) c = true).

Lemma expired_entry_put state v ea id j ev :
  ea.1 <> id -> expired_entry state v ea -> expired_entry state (put_job id j ev v) ea.
Proof. intros Hn (j0 & c & Hj & ?). exists j0, c. simpl. by rewrite lookup_insert_ne. Qed.

Lemma reconcile_dispatched_ok ea e db v t n :
  expired_entry StateDispatched v ea ->
  wp (reconcile_dispatched ea)
    (tx_post db t (fun _ v' => exists j fin ts ev, jobs v !! ea.1 = Some j
       /\ v' = put_job ea.1 (expire_job fin ts j) ev v
       /\ job_move ea.1 j (expire_job fin ts j) ev
       /\ lifecycle_step v v')) e (mkWorld db (TxOpen v t) n).
Proof.
  destruct ea as [id att]. intros (j & c & Hj & Ha & Hs & Hd & _). simpl in *. subst att.
  unfold reconcile_dispatched. destruct (Attempt j <? MaxDispatchAttempts) eqn:E.
  - eapply wp_move_event; [exact Hj|auto with pg|].
    intros cx eid te n' Hc Hi. apply tx_post_ok.
    assert (expire_job 0 (cx_clock cx 0%nat) j = requeue_set (cx_clock cx 0%nat) j) as Heq.
    { unfold expire_job. by rewrite Hs, E. }
    exists j, 0, (cx_clock cx 0%nat), (by_controller eid id EventJobRequeued (Attempt j) None te).
    rewrite Heq. bsplit.
    assert (job_move id j (requeue_set (cx_clock cx 0%nat) j)
              (by_controller eid id EventJobRequeued (Attempt j) None te)) by eauto using move_requeue.
    repeat split; try done. by apply step_move with j.
  - eapply wp_move_event; [exact Hj|auto with pg|].
    intros cx eid te n' Hc Hi. apply tx_post_ok.
    set (f := cx_clock cx 0%nat) in *. set (u := cx_clock cx 1%nat) in *.
    assert (expire_job f u j = exhaust_set f u j) as Heq.
    { unfold expire_job. by rewrite Hs, E. }
    exists j, f, u, (by_controller eid id EventJobFailed (Attempt j) (Some FailureCodeDispatchExhausted) te).
    rewrite Heq. bsplit.
    assert (job_move id j (exhaust_set f u j)
              (by_controller eid id EventJobFailed (Attempt j) (Some FailureCodeDispatchExhausted) te))
      by eauto using move_exhaust.
    repeat split; try done. by apply step_move with j.
Qed.

Lemma reconcile_running_ok ea e db v t n :
  expired_entry StateRunning v ea ->
  wp (reconcile_running ea)
    (tx_post db t (fun _ v' => exists j fin ts ev, jobs v !! ea.1 = Some j
       /\ v' = put_job ea.1 (expire_job fin ts j) ev v
       /\ job_move ea.1 j (expire_job fin ts j) ev
       /\ lifecycle_step v v')) e (mkWorld db (TxOpen v t) n).
Proof.
  destruct ea as [id att]. intros (j & c & Hj & Ha & Hs & _ & Hd). simpl in *. subst att.
  unfold reconcile_running.
  eapply wp_move_event; [exact Hj|auto with pg|].
  intros cx eid te n' Hc Hi. apply tx_post_ok.
  set (f := cx_clock cx 0%nat) in *. set (u := cx_clock cx 1%nat) in *.
  assert (expire_job f u j = timeout_set f u j) as Heq.
  { unfold expire_job. by rewrite Hs. }
  exists j, f, u, (by_controller eid id EventJobUnknown (Attempt j) (Some FailureCodeExecutionTimeout) te).
  rewrite Heq.
  assert (job_move id j (timeout_set f u j)
            (by_controller eid id EventJobUnknown (Attempt j) (Some FailureCodeExecutionTimeout) te))
    by eauto using move_timeout.
  repeat split; try done. by apply step_move with j.
Qed.

(** The loop over the selected rows, for either body. *)
Lemma wp_expire_loop (f : UUID * Z -> M DB unit) state e db t :
  (forall ea v n, expired_entry state v ea ->
     wp (f ea) (tx_post db t (fun _ v' => exists j fin ts ev, jobs v !! ea.1 = Some j
       /\ v' = put_job ea.1 (expire_job fin ts j) ev v
       /\ job_move ea.1 j (expire_job fin ts j) ev
       /\ lifecycle_step v v')) e (mkWorld db (TxOpen v t) n)) ->
  forall l v n, NoDup l.*1 -> Forall (expired_entry state v) l ->
  wp (for_each f l) (tx_post db t (fun _ v' => expire_all l.*1 v v')) e (mkWorld db (TxOpen v t) n).
Proof.
  intros Hf l. induction l as [|ea l IH]; intros v n Hnd Hall; simpl.
  - apply wp_ret, tx_post_ok. constructor.
  - apply NoDup_cons in Hnd as [Hni Hnd]. apply Forall_cons in Hall as [Hea Hall].
    apply wp_bind. eapply wp_mono; [|by apply Hf].
    intros [[]|er] w; simpl; [|done].
    intros (v1 & n1 & -> & j & fin & ts & ev & Hj & -> & Hm & Hs).
    eapply wp_mono; [|apply IH; [done|]].
    + intros r w'. apply tx_post_mono. intros [] v' Hx. by eapply expire_cons.
    + rewrite Forall_forall in Hall |- *. intros ea' Hin. apply expired_entry_put; [|by apply Hall].
      intros Heq. apply Hni. rewrite <- Heq. by apply list_elem_of_fmap_2.
Qed.

Lemma selected_entries state ts agentID limit clock v l :
  selection state ts agentID limit clock v l ->
  (state = StateDispatched -> ts = DispatchExpiresAt) ->
  (state = StateRunning -> ts = ExecutionDeadlineAt) ->
  Forall (expired_entry state v) l.
Proof.
  intros Hs Hd Hr. apply Forall_forall. intros [id att] Hin.
  destruct (sel_sound _ _ _ _ _ _ _ Hs _ _ Hin) as (j & Hj & Ha & Hx).
  unfold expires_in, expired in Hx. bsplit.
  exists j, (clock (ID j)). repeat split; try done; intros ->; naive_solver.
Qed.

Definition effective_limit (limit : Z) : Z := if (limit <=? 0) || (100 <? limit) then 100 else limit.

(** The contract of [reconcileExpiredJobsInTx] on the view [v]: one batch of
    expired dispatched rows, then one batch of expired running rows. *)
Definition reconciled (agentID : option UUID) (limit : Z) (v v' : DB) : Prop :=
  exists (l1 l2 : list (UUID * Z)) c1 c2 v1,
    selection StateDispatched DispatchExpiresAt agentID (effective_limit limit) c1 v l1
    /\ expire_all l1.*1 v v1
    /\ (selection StateRunning ExecutionDeadlineAt agentID
          (effective_limit limit - Z.of_nat (length l1)) c2 v1 l2
        \/ (l2 = [] /\ agentID = None))
    /\ expire_all l2.*1 v1 v'.

Lemma reconcileExpiredJobsInTx_ok agentID limit e db v t n :
  wf_jobs v ->
  wp (reconcileExpiredJobsInTx agentID limit)
    (tx_post db t (fun _ v' => reconciled agentID limit v v')) e (mkWorld db (TxOpen v t) n).
Proof.
  intros Hwf. unfold reconcileExpiredJobsInTx. fold (effective_limit limit).
  apply wp_bind, wp_exec; try (intros; by apply tx_post_err).
  intros l1 v0 [-> Hsel1]%query_expired_selects; [|done]. set (c1 := cx_row_clock _) in Hsel1.
  apply wp_bind. eapply wp_mono; [|eapply (wp_expire_loop _ StateDispatched)].
  - intros [[]|er] w; [|done]. intros (v1 & n1 & -> & Hx1).
    destruct ((_ <=? 0) && _) eqn:E.
    + apply wp_ret, tx_post_ok. exists l1, [], c1, c1, v1. bsplit.
      split; [done|]. split; [done|]. split; [right|constructor].
      by destruct agentID.
    + apply wp_bind, wp_exec; try (intros; by apply tx_post_err).
      intros l2 v0 [-> Hsel2]%query_expired_selects;
        [|eapply steps_wf, expire_all_rtc; eauto].
      set (c2 := cx_row_clock _) in Hsel2.
      eapply wp_mono; [|eapply (wp_expire_loop _ StateRunning)].
      * intros r w. apply tx_post_mono. intros [] v' Hx2.
        exists l1, l2, c1, c2, v1. auto.
      * intros. by apply reconcile_running_ok.
      * apply Hsel2.
      * by eapply selected_entries.
  - intros. by apply reconcile_dispatched_ok.
  - apply Hsel1.
  - by eapply selected_entries.
Qed.

Lemma reconciled_rtc agentID limit v v' : reconciled agentID limit v v' -> rtc lifecycle_step v v'.
Proof.
  intros (l1 & l2 & c1 & c2 & v1 & _ & H1 & _ & H2).
  etrans; eapply expire_all_rtc; eauto.
Qed.

(** Globally at most 100 rows move. *)
Lemma reconciled_bound limit v v' :
  reconciled None limit v v' -> exists k, nsteps lifecycle_step k v v' /\ (k <= 100)%nat.
Proof.
  intros (l1 & l2 & c1 & c2 & v1 & Hs1 & H1 & Hs2 & H2).
  exists (length l1.*1 + length l2.*1)%nat. split.
  - eapply nsteps_trans; by apply expire_all_steps.
  - rewrite !length_fmap.
    assert (1 <= effective_limit limit <= 100) as Hl.
    { unfold effective_limit. destruct (_ || _) eqn:E; bsplit; lia. }
    pose proof (sel_bound _ _ _ _ _ _ _ Hs1 eq_refl).
    destruct Hs2 as [Hs2|[-> _]]; [|simpl; lia].
    pose proof (sel_bound _ _ _ _ _ _ _ Hs2 eq_refl). lia.
Qed.

(** For an agent, a row of the agent that was expired has moved and every
    other row is as it was. *)
Lemma expire_all_case ids v v' id j :
  expire_all ids v v' -> NoDup ids -> jobs v !! id = Some j ->
  (id ∈ ids /\ exists fin ts, jobs v' !! id = Some (expire_job fin ts j))
  \/ (id ∉ ids /\ jobs v' !! id = Some j).
Proof.
  intros Hx Hnd Hj. destruct (decide (id ∈ ids)).
  - left. eauto using expire_all_here.
  - right. by rewrite (expire_all_other _ _ _ _ Hx).
Qed.
End reconcile.
