(* ===== verification/JobContracts.v ===== *)
(** * Contracts of the job methods

    For every method of src/internal/database/jobs.go: the specification of
    its result and of the tables it leaves, branch by branch, and the proof
    that the method implements it whatever the server and the network do. *)

From S2P Require Import Prelude GoStrings Job Operator Protocol Postgres Schema JobStore JobSpec JobReconcile.

Lemma tx_post_outcome {A B} (db v : DB) (t : Z) (R : A -> DB -> Prop) (S : result B -> DB -> Prop)
    (r : result A) (w : World DB) (er : error) :
  tx_post db t R r w -> r = Err er -> outcome db S (Err er) (mkWorld (committed w) TxNone (step w)).
Proof. intros Hp ->. destruct Hp as [Hc Ho]. rewrite Hc. by apply outcome_unchanged. Qed.

Lemma head_rows_where p db j :
  head (rows_where p db) = Some j -> exists id, jobs db !! id = Some j /\ p j = true.
Proof.
  intros Hh. apply elem_of_rows_where.
  destruct (rows_where p db); [done|]. simplify_eq/=. by apply list_elem_of_here.
Qed.

Lemma head_none_rows_where p db :
  head (rows_where p db) = None -> forall id j, jobs db !! id = Some j -> p j = false.
Proof.
  intros Hh id j Hj. destruct (p j) eqn:E; [|done]. exfalso.
  assert (j ∈ rows_where p db) as Hin by (apply elem_of_rows_where; eauto).
  destruct (rows_where p db); [by apply elem_of_nil in Hin|done].
Qed.

Lemma with_hash_scan j : with_hash (IdempotencyKeyHash j) (scan_job j) = j.
Proof. by destruct j. Qed.

(** No stored row of a well-formed table is reported as corrupt. *)
Lemma checked_row_valid j : job_checks j = true -> validateJobRow j = None.
Proof.
  intros (Hv & Ha & Ht & _ & Hc)%job_checks_states. unfold validateJobRow.
  rewrite Hv, Ht, Hc. simpl. unfold MaxDispatchAttempts in *.
  by rewrite (proj2 (Z.ltb_ge _ _)), (proj2 (Z.ltb_ge 5 _)) by lia.
Qed.

Lemma validate_scan j : validateJobRow (scan_job j) = validateJobRow j.
Proof. done. Qed.

Lemma row_valid db id j : wf_jobs db -> jobs db !! id = Some j -> validateJobRow j = None.
Proof. intros Hwf Hj. by eapply checked_row_valid, wf_checks. Qed.

Lemma select_job_inv {A} id (cols : Job -> A) cx db a v' :
  select_job id cols cx db = inr (a, v') ->
  v' = db /\ exists j, jobs db !! id = Some j /\ a = cols j.
Proof.
  unfold select_job, row_or_none. destruct (jobs db !! id) as [j|]; simpl; [|done].
  intros [= <- <-]. eauto.
Qed.

Lemma select_job_none {A} id (cols : Job -> A) cx db :
  select_job id cols cx db = inl ErrNoRows -> jobs db !! id = None.
Proof. unfold select_job, row_or_none. by destruct (jobs db !! id). Qed.

Section contracts.
Context `{UuidText}.

(** ** CreateJob *)

Definition may_create (db : DB) (operatorID : UUID) (username : string) : Prop :=
  exists r role, operators db !! operatorID = Some r /\ op_disabled_at r = None
    /\ ParseRole (op_role r) = Ok role /\ HasPermission role PermissionOperationsExecute = true
    /\ op_username r = username.

Definition same_key (operatorID : UUID) (hash : string) (j : Job) : bool :=
  N.eqb (CreatedByOperatorID j) operatorID && String.eqb (IdempotencyKeyHash j) hash.

Definition key_unused (db : DB) (operatorID : UUID) (hash : string) : Prop :=
  forall id j, jobs db !! id = Some j -> same_key operatorID hash j = false.

Inductive create_spec (operatorID agentID : UUID) (action hash : string) (db : DB) :
    result (Job * bool) -> DB -> Prop :=
| create_unauthenticated :
    (forall r, operators db !! operatorID = Some r -> op_disabled_at r <> None) ->
    create_spec operatorID agentID action hash db (Err ErrOperatorAuthRequired) db
| create_denied r role :
    operators db !! operatorID = Some r -> ParseRole (op_role r) = Ok role ->
    HasPermission role PermissionOperationsExecute = false ->
    create_spec operatorID agentID action hash db (Err ErrPermissionDenied) db
| create_replay u j :
    may_create db operatorID u -> jobs db !! ID j = Some j ->
    same_key operatorID hash j = true -> AgentID j = agentID -> ActionType j = action ->
    create_spec operatorID agentID action hash db (Ok (j, false)) db
| create_key_conflict u j :
    may_create db operatorID u -> jobs db !! ID j = Some j ->
    same_key operatorID hash j = true -> (AgentID j <> agentID \/ ActionType j <> action) ->
    create_spec operatorID agentID action hash db (Err ErrJobIdempotencyConflict) db
| create_no_agent u :
    may_create db operatorID u -> key_unused db operatorID hash -> agents db !! agentID = None ->
    create_spec operatorID agentID action hash db (Err ErrAgentNotFound) db
| create_queue_full u :
    may_create db operatorID u -> key_unused db operatorID hash ->
    MaxActiveJobsPerAgent <= active_count db agentID ->
    create_spec operatorID agentID action hash db (Err ErrQueueFull) db
| create_new u id now eid aid te ta :
    may_create db operatorID u -> key_unused db operatorID hash ->
    has_key (agents db) agentID = true ->
    let j := new_job id operatorID agentID u action hash now in
    let db' := create_tables j (created_event eid id u te) (created_audit aid operatorID id u ta) db in
    jobs db !! id = None -> lifecycle_step db db' ->
    create_spec operatorID agentID action hash db (Ok (j, true)) db'.

Lemma authorize_creator_ok operatorID (S : result (Job * bool) -> DB -> Prop)
    (k : string -> M DB (Job * bool)) e db t n :
  (forall n', (forall r, operators db !! operatorID = Some r -> op_disabled_at r <> None) ->
     outcome db S (Err ErrOperatorAuthRequired) (mkWorld db TxNone n')) ->
  (forall n' r role, operators db !! operatorID = Some r -> ParseRole (op_role r) = Ok role ->
     HasPermission role PermissionOperationsExecute = false ->
     outcome db S (Err ErrPermissionDenied) (mkWorld db TxNone n')) ->
  (forall u n', may_create db operatorID u ->
     wp (k u) (fun r w => outcome db S r (mkWorld (committed w) TxNone (step w))) e
       (mkWorld db (TxOpen db t) n')) ->
  wp (u ← authorize_creator operatorID; k u)
    (fun r w => outcome db S r (mkWorld (committed w) TxNone (step w))) e (mkWorld db (TxOpen db t) n).
Proof.
  intros Hauth Hden Hk. unfold authorize_creator, queryOp.
  do 2 apply wp_bind. apply wp_query_row; simpl; [by auto with pg| |].
  - unfold row_or_none. destruct (operators db !! operatorID) eqn:E; [done|].
    intros _. apply Hauth. by intros.
  - unfold row_or_none. destruct (operators db !! operatorID) as [r|] eqn:E; [|done]. simpl.
    intros a v' [= <- <-]. apply wp_bind, wp_refuse_if.
    { intros Hd. apply Hauth. intros r' ?. simplify_eq. by destruct (op_disabled_at r'). }
    intros Hd. destruct (ParseRole (op_role r)) as [role|er] eqn:Er; [|by apply wp_throw; auto with pg].
    apply wp_bind, wp_refuse_if; intros Hp; bsplit; simpl; [by eapply Hden|].
    apply wp_ret, Hk. exists r, role. repeat split; try done. by destruct (op_disabled_at r).
Qed.

Lemma replay_existing_ok operatorID agentID action hash u j e db t n :
  wf_jobs db -> may_create db operatorID u ->
  (exists id, jobs db !! id = Some j) -> same_key operatorID hash j = true ->
  wp (replay_existing (scan_job j) agentID action hash)
    (fun r w => outcome db (create_spec operatorID agentID action hash db) r
                  (mkWorld (committed w) TxNone (step w))) e (mkWorld db (TxOpen db t) n).
Proof.
  intros Hwf Hu (id & Hj) Hk.
  assert (jobs db !! ID j = Some j) as Hid by (by rewrite (wf_key _ Hwf _ _ Hj)).
  assert (hash = IdempotencyKeyHash j) as Hh by (unfold same_key in Hk; by bsplit).
  unfold replay_existing. rewrite Hh, with_hash_scan, (row_valid _ _ _ Hwf Hj), <- Hh.
  destruct (_ && _)%bool eqn:E.
  - bsplit. apply wp_bind, wp_commit; simpl; [by auto with pg| |];
      [eapply outcome_lost; [|done]|apply wp_ret, outcome_done];
      by eapply create_replay; eauto; apply N.eqb_eq.
  - apply wp_throw, outcome_done. eapply create_key_conflict; eauto.
    apply andb_false_iff in E as [E|E]; [left; by apply N.eqb_neq|right; by apply String.eqb_neq].
Qed.

Lemma insert_job_inv j db db' :
  insert_job j db = inr db' ->
  db' = with_jobs (<[ID j := j]> (jobs db)) db /\ job_checks j = true
  /\ jobs db !! ID j = None /\ jobs_idempotency_idx (jobs db) (ID j) j = true
  /\ has_key (agents db) (AgentID j) = true.
Proof.
  unfold insert_job, has_key. destruct (job_checks j); simpl; [|done].
  destruct (jobs db !! ID j) eqn:E; simpl; [done|].
  destruct (jobs_agent_inflight_idx _ _ _); simpl; [|done].
  destruct (jobs_idempotency_idx _ _ _); simpl; [|done].
  destruct (agents db !! AgentID j); simpl; [|done].
  destruct (operators db !! _); simpl; [|done]. by intros [= <-].
Qed.

Lemma insert_audit_inv actor u act top tu tj out cx v x v' :
  insert_audit actor u act top tu tj out cx v = inr (x, v') ->
  v' = with_audit (operator_audit_events v
         ++ [mkAuditRow (cx_uuidv7 cx) actor u act top tu out (cx_now cx) tj]) v.
Proof. unfold insert_audit. repeat case_match; intros; by simplify_eq. Qed.

Lemma insert_new_job_ok operatorID agentID action hash u e db t n :
  may_create db operatorID u -> key_unused db operatorID hash ->
  wp (insert_new_job operatorID agentID u action hash)
    (fun r w => outcome db (create_spec operatorID agentID action hash db) r
                  (mkWorld (committed w) TxNone (step w))) e (mkWorld db (TxOpen db t) n).
Proof.
  intros Hu Hk. unfold insert_new_job.
  apply wp_bind, wp_query_row; simpl; [by auto with pg| |].
  { unfold queryAgent, row_or_none. destruct (agents db !! agentID) eqn:Ea; [done|].
    intros _. apply outcome_done. by eapply create_no_agent. }
  unfold queryAgent, row_or_none. destruct (agents db !! agentID) eqn:Ea; [|done]. simpl.
  intros ? v' [= <- <-]. apply wp_bind, wp_exec; simpl; [by auto with pg..|].
  intros c v' [= <- <-]. apply wp_bind, wp_refuse_if; intros Hq; simpl; bsplit.
  { apply outcome_done. by eapply create_queue_full. }
  apply wp_bind, wp_exec; simpl; [by auto with pg..|].
  intros j v' Hins. unfold insertJob in Hins. simpl in Hins. set (id := env_uuidv7 e _) in Hins.
  destruct (insert_job _ db) as [|v1] eqn:Hi; [done|]. simplify_eq.
  apply insert_job_inv in Hi as (-> & Hc & Hn & Hx & Ha). simpl in *.
  apply wp_bind, wp_exec; simpl; [by auto with pg..|].
  intros x v1 ->%insert_event_inv.
  apply wp_bind, wp_exec; simpl; [by auto with pg..|].
  intros y v1 ->%insert_audit_inv. simpl.
  assert (forall eid aid te ta,
    create_spec operatorID agentID action hash db
      (Ok (new_job id operatorID agentID u action hash t, true))
      (create_tables (new_job id operatorID agentID u action hash t)
         (created_event eid id u te) (created_audit aid operatorID id u ta) db)) as HS.
  { intros. apply create_new; try done. by apply step_create. }
  apply wp_bind, wp_commit; simpl; [by auto with pg| |];
    [eapply outcome_lost; [apply HS|done]|apply wp_ret, outcome_done, HS].
Qed.

Lemma CreateJob_ok operatorID agentID action hash e db n :
  wf_jobs db ->
  wp (CreateJob operatorID agentID action hash)
    (outcome db (create_spec operatorID agentID action hash db)) e (mkWorld db TxNone n).
Proof.
  intros Hwf. unfold CreateJob.
  apply wp_bind, wp_require_pool; [by auto with pg|].
  apply wp_bind, wp_begin; [by auto with pg|]. apply wp_deferring.
  apply authorize_creator_ok.
  - intros n' Hno. by apply outcome_done, create_unauthenticated.
  - intros n' r role Hr Hp Hn. apply outcome_done. by eapply create_denied.
  - intros u n' Hu. apply wp_bind, wp_tx_stmt.
    + by apply wp_throw, outcome_unchanged.
    + unfold queryIdempotency, row_or_none. intros Hnone.
      apply insert_new_job_ok; [done|].
      destruct (head _) eqn:Hh; [done|]. intros id j Hj.
      by eapply (head_none_rows_where _ _ Hh).
    + intros [] ? ?; try done; by apply wp_throw, outcome_unchanged.
    + unfold queryIdempotency, row_or_none. intros a v'.
      destruct (head _) as [j|] eqn:Hh; simpl; [|done]. intros [= <- <-].
      apply head_rows_where in Hh as (id & Hj & Hk).
      eapply replay_existing_ok; eauto.
Qed.

(** ** StartAgentJob *)

Definition startable (agentID : UUID) (attempt ts : Z) (j : Job) : bool :=
  String.eqb (JobState j) StateDispatched && N.eqb (AgentID j) agentID && (Attempt j =? attempt)
  && after (DispatchExpiresAt j) ts.

Definition agent_event (eid id : UUID) (etype : string) (att : Z) (agentID : UUID)
    (fc : option string) (t : Z) : JobEvent :=
  mkJobEvent eid id etype att "agent" (uuid_String agentID) fc t.

Inductive start_spec (agentID jobID : UUID) (attempt : Z) (db : DB) : result unit -> DB -> Prop :=
| start_done j ts eid t :
    jobs db !! jobID = Some j -> startable agentID attempt ts j = true ->
    let db' := put_job jobID (start_set ts j)
                 (agent_event eid jobID EventJobStarted attempt agentID None t) db in
    lifecycle_step db db' ->
    start_spec agentID jobID attempt db (Ok tt) db'
| start_conflict ts :
    (forall j, jobs db !! jobID = Some j -> startable agentID attempt ts j = false) ->
    start_spec agentID jobID attempt db (Err ErrJobConflict) db.

Lemma update_running_inv jobID agentID attempt cx v r j :
  updateRunning jobID agentID attempt cx v = r -> jobs v !! jobID = Some j ->
  if startable agentID attempt (cx_clock cx 0%nat) j then
    r = inl (PgError "23514") \/ r = inl (PgError "23505")
    \/ (let j' := start_set (cx_clock cx 0%nat) j in
        r = inr (cx_clock cx 0%nat, with_jobs (<[jobID := j']> (jobs v)) v)
        /\ job_checks j' = true /\ jobs_agent_inflight_idx (jobs v) jobID j' = true)
  else r = inl ErrNoRows.
Proof.
  intros <- Hj. unfold updateRunning, update_job_where, startable. rewrite Hj.
  rewrite (andb_comm (JobState j =? StateDispatched)%string).
  destruct (N.eqb _ _ && _ && _ && _)%bool; simpl; [|done].
  destruct (job_checks _) eqn:?; simpl; [|by left].
  destruct (jobs_agent_inflight_idx _ _ _) eqn:?; simpl; [|by right; left].
  destruct (jobs_idempotency_idx _ _ _); simpl; [|by right; left]. by right; right.
Qed.

Lemma StartAgentJob_ok agentID jobID attempt e db n :
  wp (StartAgentJob agentID jobID attempt)
    (outcome db (start_spec agentID jobID attempt db)) e (mkWorld db TxNone n).
Proof.
  unfold StartAgentJob.
  apply wp_bind, wp_require_pool; [by auto with pg|].
  apply wp_bind, wp_begin; [by auto with pg|]. apply wp_deferring.
  apply wp_bind, wp_query_row; simpl; [by auto with pg| |].
  { intros Hn%select_job_none. apply outcome_done, (start_conflict _ _ _ _ 0). intros j Hj. congruence. }
  intros row v' (-> & j & Hj & ->)%select_job_inv. simpl.
  apply wp_bind, wp_refuse_if; intros Hr; simpl.
  { apply outcome_done, (start_conflict _ _ _ _ 0). intros j' ?. simplify_eq. unfold startable.
    destruct (DispatchExpiresAt j); simpl in *; [|by rewrite andb_false_r].
    destruct (String.eqb _ _), (N.eqb _ _), (Attempt j =? attempt); simpl in *; done. }
  apply wp_bind, wp_query_row; simpl; [by auto with pg| |].
  - intros Hu. eapply update_running_inv in Hu; [|exact Hj].
    destruct (startable _ _ _ j) eqn:E; [by destruct Hu as [?|[?|[? _]]]|].
    apply outcome_done. eapply start_conflict. intros j' ?. simplify_eq. exact E.
  - intros ts v' Hu. eapply update_running_inv in Hu; [|exact Hj]. simpl in Hu.
    set (ts' := env_clock e _ _) in *.
    destruct (startable _ _ _ j) eqn:E; [|done].
    destruct Hu as [?|[?|([= -> ->] & Hc & Hi)]]; [done..|].
    apply wp_bind, wp_exec; simpl; [by auto with pg..|].
    intros x v1 ->%insert_event_inv. simpl.
    assert (forall eid te, start_spec agentID jobID attempt db (Ok tt)
              (put_job jobID (start_set ts' j)
                 (agent_event eid jobID EventJobStarted attempt agentID None te) db)) as HS.
    { intros. apply start_done with (ts := ts'); try done. apply step_move with j; try done.
      unfold startable in E. bsplit. subst attempt.
      match goal with H : (AgentID j =? _)%N = true |- _ => apply N.eqb_eq in H; subst agentID end.
      by apply move_start. }
    apply wp_commit; simpl; [by auto with pg|eapply outcome_lost; [apply HS|done]|apply outcome_done, HS].
Qed.

(** ** CompleteAgentJob *)

Definition addressed (agentID : UUID) (attempt : Z) (j : Job) : bool :=
  N.eqb (AgentID j) agentID && (Attempt j =? attempt).

(** The terminal row and event of an outcome reported in time. *)
Definition finish_set (outcome : string) (ts : Z) (j : Job) : Job :=
  if String.eqb outcome "succeeded" then succeed_set ts j else fail_set ts j.
Definition finish_event (eid id : UUID) (outcome : string) (att : Z) (agentID : UUID) (t : Z) : JobEvent :=
  if String.eqb outcome "succeeded" then agent_event eid id EventJobSucceeded att agentID None t
  else agent_event eid id EventJobFailed att agentID (Some FailureCodeExecutorError) t.

Inductive complete_spec (agentID jobID : UUID) (attempt : Z) (outcome failureCode : string) (db : DB) :
    result unit -> DB -> Prop :=
| complete_refused :
    outcome_refused outcome failureCode = true ->
    complete_spec agentID jobID attempt outcome failureCode db (Err ErrJobConflict) db
| complete_in_time j d ts eid t :
    outcome_refused outcome failureCode = false ->
    jobs db !! jobID = Some j -> addressed agentID attempt j = true ->
    JobState j = StateRunning -> ExecutionDeadlineAt j = Some d -> ts < d ->
    let db' := put_job jobID (finish_set outcome ts j)
                 (finish_event eid jobID outcome attempt agentID t) db in
    lifecycle_step db db' ->
    complete_spec agentID jobID attempt outcome failureCode db (Ok tt) db'
| complete_late j d ts eid t :
    jobs db !! jobID = Some j -> addressed agentID attempt j = true ->
    JobState j = StateRunning -> ExecutionDeadlineAt j = Some d -> d <= ts ->
    let db' := put_job jobID (timeout_set ts ts j)
                 (by_controller eid jobID EventJobUnknown attempt (Some FailureCodeExecutionTimeout) t) db in
    lifecycle_step db db' ->
    complete_spec agentID jobID attempt outcome failureCode db (Err ErrJobConflict) db'
| complete_replayed j :
    outcome_refused outcome failureCode = false ->
    jobs db !! jobID = Some j -> addressed agentID attempt j = true -> JobState j = outcome ->
    replay_matches outcome failureCode (JobFailureCode j) = true ->
    complete_spec agentID jobID attempt outcome failureCode db (Ok tt) db
| complete_conflict :
    (forall j, jobs db !! jobID = Some j -> addressed agentID attempt j = true ->
       JobState j <> StateRunning
       /\ (JobState j <> outcome \/ replay_matches outcome failureCode (JobFailureCode j) = false)) ->
    complete_spec agentID jobID attempt outcome failureCode db (Err ErrJobConflict) db.

(** [wp_move_event] with a continuation. *)
Lemma wp_move_event_then {B} setf id etype att aty aid fc msg1 msg2 (k : M DB B)
    (Q : result B -> World DB -> Prop) e db v t n j :
  jobs v !! id = Some j ->
  (forall er s n', opaque_error er = true -> Q (Err er) (mkWorld db s n')) ->
  (forall cx eid te n', job_checks (setf cx j) = true ->
     jobs_agent_inflight_idx (jobs v) id (setf cx j) = true ->
     wp k Q e (mkWorld db (TxOpen (put_job id (setf cx j)
                             (mkJobEvent eid id etype att aty aid fc te) v) t) n')) ->
  wp (Exec (exec_update id setf) msg1 ;; Exec (insert_job_event id etype att aty aid fc) msg2 ;; k)
    Q e (mkWorld db (TxOpen v t) n).
Proof.
  intros Hj He Hk. apply wp_bind, wp_exec; try (intros; by apply He).
  intros a v1 Hu. destruct (exec_update_inv _ _ _ _ _ _ _ Hu Hj) as (-> & Hc & Hi).
  apply wp_bind, wp_exec; try (intros; by apply He).
  intros [] v2 ->%insert_event_inv. by apply Hk.
Qed.

Lemma complete_running_ok agentID jobID attempt outcome failureCode j e db t n :
  jobs db !! jobID = Some j -> JobState j = StateRunning -> addressed agentID attempt j = true ->
  outcome_refused outcome failureCode = false ->
  wp (complete_running agentID jobID attempt outcome (ExecutionDeadlineAt j))
    (fun r w => Postgres.outcome db (complete_spec agentID jobID attempt outcome failureCode db) r
                  (mkWorld (committed w) TxNone (step w))) e (mkWorld db (TxOpen db t) n).
Proof.
  intros Hj Hs Ha Hr. unfold complete_running.
  destruct (ExecutionDeadlineAt j) as [d|] eqn:Hd; [|by apply wp_throw, outcome_unchanged].
  assert (attempt = Attempt j /\ agentID = AgentID j) as [-> ->].
  { unfold addressed in Ha. bsplit. split; [done|]. symmetry. by apply N.eqb_eq. }
  apply wp_bind, wp_exec; simpl; [by auto with pg..|].
  intros now v' [= <- <-]. set (ts := env_clock e _ _).
  destruct (negb (ts <? d)) eqn:Hlate; bsplit.
  - eapply wp_move_event_then; [exact Hj|by intros; apply outcome_unchanged|].
    intros cx eid te n' Hc Hi.
    assert (complete_spec (AgentID j) jobID (Attempt j) outcome failureCode db (Err ErrJobConflict)
      (put_job jobID (timeout_set ts ts j) (by_controller eid jobID EventJobUnknown (Attempt j)
         (Some FailureCodeExecutionTimeout) te) db)) as HS.
    { apply complete_late with d; try done. apply step_move with j; try done.
      apply move_timeout with ts; [done|]. rewrite Hd. by apply Z.leb_le. }
    apply wp_bind, wp_commit; simpl; [by auto with pg|eapply outcome_lost; [apply HS|done]|].
    by apply wp_throw, outcome_done.
  - assert (forall eid te, job_checks (finish_set outcome ts j) = true ->
      jobs_agent_inflight_idx (jobs db) jobID (finish_set outcome ts j) = true ->
      complete_spec (AgentID j) jobID (Attempt j) outcome failureCode db (Ok tt)
        (put_job jobID (finish_set outcome ts j)
           (finish_event eid jobID outcome (Attempt j) (AgentID j) te) db)) as HS.
    { intros eid te Hc Hi. apply complete_in_time with d; try done. apply step_move with j; try done.
      unfold finish_set, finish_event. destruct (String.eqb outcome "succeeded");
        [by apply move_succeed with d|by apply move_fail with d]. }
    unfold finish_set, finish_event in HS.
    apply wp_bind. destruct (String.eqb outcome "succeeded") eqn:Eo;
      (eapply wp_move_event; [exact Hj|by intros; apply outcome_unchanged|];
       intros cx eid te n' Hc Hi;
       apply wp_commit; simpl; [by auto with pg|eapply outcome_lost; [by apply HS|done]|];
       by apply outcome_done, HS).
Qed.

Lemma CompleteAgentJob_ok agentID jobID attempt outcome failureCode e db n :
  wp (CompleteAgentJob agentID jobID attempt outcome failureCode)
    (Postgres.outcome db (complete_spec agentID jobID attempt outcome failureCode db)) e
    (mkWorld db TxNone n).
Proof.
  unfold CompleteAgentJob.
  apply wp_bind, wp_require_pool; [by auto with pg|].
  apply wp_bind, wp_refuse_if; intros Hr; [by apply outcome_done, complete_refused|].
  apply wp_bind, wp_begin; [by auto with pg|]. apply wp_deferring.
  apply wp_bind, wp_query_row; simpl; [by auto with pg| |].
  { intros Hn%select_job_none. apply outcome_done, complete_conflict. intros j Hj. congruence. }
  intros row v' (-> & j & Hj & ->)%select_job_inv. simpl.
  apply wp_bind, wp_refuse_if; intros Ha; simpl.
  { apply outcome_done, complete_conflict. intros j' ? Ha'. simplify_eq. exfalso. revert Ha Ha'.
    unfold addressed. by destruct (N.eqb _ _), (_ =? _). }
  assert (addressed agentID attempt j = true) as Had.
  { revert Ha. unfold addressed. by destruct (N.eqb _ _), (_ =? _). }
  destruct (String.eqb (JobState j) StateRunning) eqn:Es.
  - apply String.eqb_eq in Es. by apply complete_running_ok.
  - destruct (_ && _)%bool eqn:Ep.
    + bsplit.
      assert (complete_spec agentID jobID attempt outcome failureCode db (Ok tt) db) as HS
        by by eapply complete_replayed.
      apply wp_commit; simpl; [by auto with pg|eapply outcome_lost; [apply HS|done]|by apply outcome_done].
    + apply wp_throw, outcome_done, complete_conflict. intros j' Hj' _.
      simpl in Hj'. simplify_eq. apply String.eqb_neq in Es. split; [done|].
      apply andb_false_iff in Ep as [Ep|Ep]; [left; by apply String.eqb_neq|by right].
Qed.

(** ** ClaimNextAgentJob *)

Definition oldest_queued (agentID : UUID) (db : DB) (j : Job) : Prop :=
  jobs db !! ID j = Some j /\ claimable agentID j = true
  /\ forall id j', jobs db !! id = Some j' -> claimable agentID j' = true -> by_age j j'.

Definition busy (agentID : UUID) (db : DB) : Prop :=
  exists id j, jobs db !! id = Some j /\ AgentID j = agentID /\ is_inflight j = true.

Definition assignment (j : Job) : JobAssignment :=
  mkJobAssignment (uuid_String (ID j)) (Attempt j + 1) (ActionType j).

Inductive claim_spec (agentID : UUID) (db : DB) : result (option JobAssignment) -> DB -> Prop :=
| claim_no_agent :
    agents db !! agentID = None -> claim_spec agentID db (Ok None) db
| claim_busy db' :
    reconciled (Some agentID) 64 db db' -> busy agentID db' ->
    claim_spec agentID db (Ok None) db'
| claim_idle db' :
    reconciled (Some agentID) 64 db db' -> ~ busy agentID db' ->
    (forall id j, jobs db' !! id = Some j -> claimable agentID j = false) ->
    claim_spec agentID db (Ok None) db'
| claim_done db1 j ts eid t :
    reconciled (Some agentID) 64 db db1 -> ~ busy agentID db1 -> oldest_queued agentID db1 j ->
    Attempt j < MaxDispatchAttempts ->
    let db' := put_job (ID j) (dispatch_set (Attempt j + 1) ts j)
                 (by_controller eid (ID j) EventJobDispatched (Attempt j + 1) None t) db1 in
    lifecycle_step db1 db' ->
    claim_spec agentID db (Ok (Some (assignment j))) db'.

Lemma by_age_total a b : by_age a b \/ by_age b a.
Proof. unfold by_age. lia. Qed.

#[local] Instance by_age_transitive : Transitive by_age.
Proof. intros a b c. unfold by_age. lia. Qed.

#[local] Instance by_age_total_inst : Total by_age.
Proof. intros a b. apply by_age_total. Qed.

(** The head of a sorted result is a least element of the rows. *)
Lemma head_merge_sort_min {A} (R : A -> A -> Prop) `{!forall x y, Decision (R x y)} `{!Total R}
    `{!Transitive R} (l : list A) x :
  head (merge_sort R l) = Some x -> x ∈ l /\ forall y, y ∈ l -> R x y.
Proof.
  intros Hh. pose proof (merge_sort_Permutation R l) as Hp.
  pose proof (StronglySorted_merge_sort R l) as Hs.
  destruct (merge_sort R l) as [|x' l'] eqn:E; [done|]. simplify_eq/=.
  apply StronglySorted_inv in Hs as [_ Hall]. rewrite Forall_forall in Hall.
  split; [rewrite <- Hp; by apply list_elem_of_here|].
  intros y Hy. rewrite <- Hp in Hy. apply elem_of_cons in Hy as [->|Hy]; [|by apply Hall].
  destruct (total R x x); done.
Qed.

Lemma claim_query_min agentID db j :
  head (merge_sort by_age (rows_where (claimable agentID) db)) = Some j ->
  wf_jobs db -> oldest_queued agentID db j.
Proof.
  intros Hh Hwf. destruct (head_merge_sort_min by_age _ _ Hh) as [Hin Hmin].
  apply elem_of_rows_where in Hin as (id & Hj & Hc).
  split; [by rewrite (wf_key _ Hwf _ _ Hj)|]. split; [done|].
  intros id' j' Hj' Hc'. apply Hmin, elem_of_rows_where. eauto.
Qed.

Lemma head_merge_sort_none p db :
  head (merge_sort by_age (rows_where p db)) = None ->
  forall id j, jobs db !! id = Some j -> p j = false.
Proof.
  intros Hh. apply head_none_rows_where.
  pose proof (merge_sort_Permutation by_age (rows_where p db)) as Hp.
  destruct (merge_sort _ _); [|done]. by apply Permutation_nil_l in Hp as <-.
Qed.

Lemma claim_oldest_ok agentID e db v t n :
  wf_jobs v -> reconciled (Some agentID) 64 db v ->
  wp (claim_oldest agentID)
    (fun r w => Postgres.outcome db (claim_spec agentID db) r
                  (mkWorld (committed w) TxNone (step w))) e (mkWorld db (TxOpen v t) n).
Proof.
  intros Hwf Hrec. unfold claim_oldest.
  apply wp_bind, wp_tx_stmt; simpl; [by apply wp_throw, outcome_unchanged| | |].
  2: { intros [] Hne _; [done|by apply wp_throw, outcome_unchanged..]. }
  - unfold queryInFlight, row_or_none. destruct (head _) eqn:Hif; [done|]. intros _.
    assert (~ busy agentID v) as Hnb.
    { intros (id & j & Hj & Ha & Hi). apply (head_none_rows_where _ _ Hif) in Hj.
      rewrite Hi, (proj2 (N.eqb_eq _ _) Ha) in Hj. done. }
    clear Hif.
    apply wp_bind, wp_tx_stmt; simpl; [by apply wp_throw, outcome_unchanged| | |].
    2: { intros [] Hne _; [done|by apply wp_throw, outcome_unchanged..]. }
    + unfold claimQuery, row_or_none. destruct (head _) eqn:Hq; [done|]. intros _.
      assert (claim_spec agentID db (Ok None) v) as HS
        by (apply claim_idle; [done..|exact (head_merge_sort_none _ _ Hq)]).
      apply wp_bind, wp_commit; simpl; [by auto with pg|eapply outcome_lost; [apply HS|done]|].
      by apply wp_ret, outcome_done.
    + unfold claimQuery, row_or_none. destruct (head _) as [j|] eqn:Hq; [|done]. simpl.
      intros a v' [= <- <-]. apply (claim_query_min _ _ _ Hq) in Hwf as Hold. clear Hq.
      pose proof Hold as (Hj & Hc & _).
      apply wp_bind, wp_refuse_if; intros Hact; [by apply outcome_unchanged|].
      apply wp_bind, wp_refuse_if; intros Hatt; [by apply outcome_unchanged|]. bsplit.
      unfold controller_event.
      eapply wp_move_event_then; [exact Hj|by intros; apply outcome_unchanged|].
      intros cx eid te n' Hck Hi. unfold claimable in Hc. bsplit.
      assert (claim_spec agentID db (Ok (Some (assignment j)))
        (put_job (ID j) (dispatch_set (Attempt j + 1) (cx_clock cx 0%nat) j)
           (by_controller eid (ID j) EventJobDispatched (Attempt j + 1) None te) v)) as HS.
      { apply claim_done; try done. apply step_move with j; try done. by apply move_dispatch. }
      apply wp_bind, wp_commit; simpl; [by auto with pg|eapply outcome_lost; [apply HS|done]|].
      by apply wp_ret, outcome_done.
  - unfold queryInFlight, row_or_none. destruct (head _) as [j|] eqn:Hif; [|done]. simpl.
    intros a v' [= <- <-]. apply head_rows_where in Hif as (id & Hj & Hb). bsplit.
    assert (claim_spec agentID db (Ok None) v) as HS.
    { apply claim_busy; [done|]. exists id, j. repeat split; try done. by apply N.eqb_eq. }
    apply wp_bind, wp_commit; simpl; [by auto with pg|eapply outcome_lost; [apply HS|done]|].
    by apply wp_ret, outcome_done.
Qed.

Lemma reconciled_wf agentID limit v v' : wf_jobs v -> reconciled agentID limit v v' -> wf_jobs v'.
Proof. intros Hwf Hr. eapply steps_wf; [done|]. by eapply reconciled_rtc. Qed.

Lemma ClaimNextAgentJob_ok agentID e db n :
  wf_jobs db ->
  wp (ClaimNextAgentJob agentID) (Postgres.outcome db (claim_spec agentID db)) e (mkWorld db TxNone n).
Proof.
  intros Hwf. unfold ClaimNextAgentJob.
  apply wp_bind, wp_require_pool; [by auto with pg|].
  apply wp_bind, wp_begin; [by auto with pg|]. apply wp_deferring.
  apply wp_bind, wp_tx_stmt; simpl; [by apply wp_throw, outcome_unchanged| | |].
  2: { intros [] Hne _; [done|by apply wp_throw, outcome_unchanged..]. }
  - unfold queryAgent, row_or_none. destruct (agents db !! agentID) eqn:E; [done|]. intros _.
    by apply wp_ret, outcome_done, claim_no_agent.
  - unfold queryAgent, row_or_none. destruct (agents db !! agentID) eqn:E; [|done]. simpl.
    intros ? v' [= <- <-]. apply wp_bind, wp_catch.
    eapply wp_mono; [|by apply reconcileExpiredJobsInTx_ok].
    intros [[]|er] w; simpl.
    + intros (v & n' & -> & Hr). apply claim_oldest_ok; [by eapply reconciled_wf|done].
    + intros [Hc Ho]. apply wp_throw. rewrite Hc. by apply outcome_unchanged.
Qed.

(** ** GetJobByID *)

Definition overdue (clock : Z) (j : Job) : bool :=
  expired StateDispatched DispatchExpiresAt (fun _ => clock) j
  || expired StateRunning ExecutionDeadlineAt (fun _ => clock) j.

(** The job [jobID] read at time [c]: expired first if it is overdue. *)
Inductive single_spec (jobID : UUID) (v : DB) (j : Job) (c : Z) : DB -> Prop :=
| single_kept : overdue c j = false -> single_spec jobID v j c v
| single_expired ev :
    overdue c j = true ->
    lifecycle_step v (put_job jobID (expire_job c c j) ev v) ->
    single_spec jobID v j c (put_job jobID (expire_job c c j) ev v).

Definition refreshed (c : Z) (j : Job) : Job := if overdue c j then expire_job c c j else j.

Lemma single_spec_row jobID v j c v' :
  single_spec jobID v j c v' -> jobs v !! jobID = Some j ->
  jobs v' !! jobID = Some (refreshed c j).
Proof.
  unfold refreshed. intros [->|ev -> _] Hj; [done|]. simpl. by rewrite lookup_insert_eq.
Qed.

Lemma single_spec_rtc jobID v j c v' : single_spec jobID v j c v' -> rtc lifecycle_step v v'.
Proof. intros [_|ev _ Hs]; [done|by apply rtc_once]. Qed.

Lemma reconcileSingleJobInTx_ok jobID e db v t n :
  wp (reconcileSingleJobInTx jobID)
    (fun r w => (r = Err ErrJobNotFound /\ committed w = db /\ jobs v !! jobID = None)
       \/ tx_post db t (fun _ v' => exists j c, jobs v !! jobID = Some j
                                   /\ single_spec jobID v j c v') r w)
    e (mkWorld db (TxOpen v t) n).
Proof.
  unfold reconcileSingleJobInTx.
  apply wp_bind, wp_query_row; [by intros; right| |].
  { intros Hn%select_job_none. by left. }
  intros row v' (-> & j & Hj & ->)%select_job_inv. cbn [fst snd].
  apply wp_bind, wp_exec; [by intros; right..|].
  intros c v' [= <- <-]. set (c := env_clock e _ _).
  assert (forall j' ev, j' = expire_job c c j -> overdue c j = true -> job_move jobID j j' ev ->
    job_checks j' = true -> jobs_agent_inflight_idx (jobs v) jobID j' = true ->
    single_spec jobID v j c (put_job jobID j' ev v)) as HS.
  { intros j' ev -> Ho Hm Hc Hi. apply single_expired; [done|]. by apply step_move with j. }
  unfold controller_event.
  destruct (String.eqb (JobState j) StateDispatched && due (DispatchExpiresAt j) c)%bool eqn:Ed.
  - assert (overdue c j = true) as Ho by (unfold overdue, expired; by rewrite Ed).
    apply andb_prop in Ed as [Es Edue].
    destruct (Attempt j <? MaxDispatchAttempts) eqn:Ea;
      (eapply wp_move_event; [exact Hj|by intros; right|]; intros cx eid te n' Hc Hi;
       right; apply tx_post_ok; exists j, c; split; [done|];
       apply HS; [unfold expire_job; by rewrite Es, Ea|done| |done..]); bsplit;
      [by apply move_requeue with c|by apply move_exhaust with c].
  - destruct (String.eqb (JobState j) StateRunning && due (ExecutionDeadlineAt j) c)%bool eqn:Er.
    + assert (overdue c j = true) as Ho by (unfold overdue, expired; by rewrite Ed, Er).
      bsplit.
      eapply wp_move_event; [exact Hj|by intros; right|]; intros cx eid te n' Hc Hi.
      right; apply tx_post_ok; exists j, c; split; [done|]; apply HS; try done.
      * unfold expire_job. by match goal with Es : JobState j = _ |- _ => rewrite Es end.
      * by apply move_timeout with c.
    + apply wp_ret. right. apply tx_post_ok. exists j, c. split; [done|]. apply single_kept.
      unfold overdue, expired. by rewrite Ed, Er.
Qed.

Inductive get_spec (jobID : UUID) (db : DB) : result Job -> DB -> Prop :=
| get_missing : jobs db !! jobID = None -> get_spec jobID db (Err ErrJobNotFound) db
| get_found j c db' :
    jobs db !! jobID = Some j -> single_spec jobID db j c db' ->
    get_spec jobID db (Ok (scan_job (refreshed c j))) db'.

Lemma GetJobByID_ok jobID e db n :
  wf_jobs db ->
  wp (GetJobByID jobID) (Postgres.outcome db (get_spec jobID db)) e (mkWorld db TxNone n).
Proof.
  intros Hwf. unfold GetJobByID.
  apply wp_bind, wp_require_pool; [by auto with pg|].
  apply wp_bind, wp_begin; [by auto with pg|]. apply wp_deferring, wp_bind, wp_catch.
  eapply wp_mono; [|apply reconcileSingleJobInTx_ok].
  intros r w [(-> & Hc & Hn)|Hp].
  - simpl. apply wp_throw. rewrite Hc. by apply outcome_done, get_missing.
  - destruct r as [[]|er]; simpl in Hp.
    + destruct Hp as (v & n' & -> & j & c & Hj & Hs). simpl.
      assert (get_spec jobID db (Ok (scan_job (refreshed c j))) v) as HS by by eapply get_found.
      apply wp_bind, wp_commit; simpl; [by auto with pg|by eapply outcome_lost|].
      pose proof (single_spec_row _ _ _ _ _ Hs Hj) as Hrow.
      apply wp_bind, wp_pool_query_row; simpl; [by intros; eapply outcome_lost| |].
      * intros Hnone%select_job_none. congruence.
      * intros a v' (-> & j' & Hj' & ->)%select_job_inv. simplify_eq.
        split; [by eapply outcome_lost|]. rewrite validate_scan.
        assert (wf_jobs v) as Hwf' by (eapply steps_wf, single_spec_rtc; eauto).
        rewrite (row_valid _ _ _ Hwf' Hrow). by apply wp_ret, outcome_done.
    + destruct Hp as [Hc Ho].
      assert (errors_Is er ErrJobNotFound = false) as ->.
      { clear -Ho. induction er; simpl in *; auto; done. }
      apply wp_throw. rewrite Hc. by apply outcome_unchanged.
Qed.

(** ** ListJobs *)

Definition list_cond (agentID : option UUID) (state : option string) (j : Job) : bool :=
  match agentID with Some a => N.eqb (AgentID j) a | None => true end
  && match state with Some s => String.eqb (JobState j) s | None => true end.

(** A page: the newest [limit] of the rows that match, newest first. *)
Definition page (limit : Z) (agentID : option UUID) (state : option string) (db : DB)
    (rows : list Job) : Prop :=
  exists sorted, Sorted newest_first sorted
    /\ NoDup (ID <$> sorted)
    /\ (forall j, j ∈ sorted <-> jobs db !! ID j = Some j /\ list_cond agentID state j = true)
    /\ rows = scan_job <$> limit_rows limit sorted.

Inductive list_spec (limit : Z) (agentID : option UUID) (state : option string) (db : DB) :
    result (list Job) -> DB -> Prop :=
| list_page rows db' :
    reconciled agentID 100 db db' -> page (page_limit limit) agentID state db' rows ->
    list_spec limit agentID state db (Ok rows) db'.

#[local] Instance newest_first_total : Total newest_first.
Proof. intros a b. unfold newest_first. destruct (by_age_total a b); auto. Qed.

Lemma list_query_page limit agentID state cx db rows v' :
  wf_jobs db -> list_query limit agentID state cx db = inr (rows, v') ->
  v' = db /\ page limit agentID state db rows /\ Forall (fun j => validateJobRow j = None) rows.
Proof.
  intros Hwf. unfold list_query. fold (list_cond agentID state). intros [= <- <-].
  split; [done|]. set (l := rows_where (list_cond agentID state) db).
  pose proof (merge_sort_Permutation newest_first l) as Hp. split.
  - exists (merge_sort newest_first l). split; [apply Sorted_merge_sort, _|].
    split; [rewrite Hp; by apply rows_where_NoDup|]. split; [|done].
    intros j. rewrite Hp. unfold l. rewrite elem_of_rows_where. split.
    + intros (id & Hj & Hc). by rewrite (wf_key _ Hwf _ _ Hj).
    + intros [Hj Hc]. eauto.
  - apply Forall_fmap, Forall_forall. intros j Hj%elem_of_take_inv. rewrite Hp in Hj.
    apply elem_of_rows_where in Hj as (id & Hj & _). simpl. rewrite validate_scan.
    by eapply row_valid.
Qed.

Lemma validate_rows_ok l : Forall (fun j => validateJobRow j = None) l -> validate_rows l = Ok l.
Proof. induction 1 as [|j l Hj Hl IH]; simpl; [done|]. by rewrite Hj, IH. Qed.

Lemma ListJobs_ok limit agentID state e db n :
  wf_jobs db ->
  wp (ListJobs limit agentID state) (Postgres.outcome db (list_spec limit agentID state db))
    e (mkWorld db TxNone n).
Proof.
  intros Hwf. unfold ListJobs.
  apply wp_bind, wp_require_pool; [by auto with pg|].
  apply wp_bind, wp_begin; [by auto with pg|]. apply wp_deferring, wp_bind, wp_catch.
  eapply wp_mono; [|by apply reconcileExpiredJobsInTx_ok].
  intros [[]|er] w; simpl.
  - intros (v & n' & -> & Hr).
    assert (wf_jobs v) as Hwf' by by eapply reconciled_wf.
    destruct (list_query (page_limit limit) agentID state (mkCtx 0 (fun _ => 0) (fun _ => 0) 0%N
                (fun _ => false)) v) as [|[rows0 v0]] eqn:E0; [done|].
    destruct (list_query_page _ _ _ _ _ _ _ Hwf' E0) as (_ & Hp0 & _).
    assert (list_spec limit agentID state db (Ok rows0) v) as HS0 by by eapply list_page.
    apply wp_bind, wp_commit; simpl; [by auto with pg|by eapply outcome_lost|].
    apply wp_bind, wp_pool_query; simpl; [by intros; eapply outcome_lost|].
    intros rows v' (-> & Hp & Hv)%list_query_page; [|done].
    split; [by eapply outcome_lost|]. unfold lift_result. rewrite validate_rows_ok by done.
    apply wp_ret, outcome_done. by eapply list_page.
  - intros [Hc Ho]. apply wp_throw. rewrite Hc. by apply outcome_unchanged.
Qed.

(** ** ListJobEvents *)

Definition event_page (jobID : UUID) (limit : Z) (db : DB) (evs : list JobEvent) : Prop :=
  exists sorted, Sorted event_before sorted /\ sorted ≡ₚ events_of jobID (job_events db)
    /\ evs = limit_rows limit sorted.

Inductive events_spec (jobID : UUID) (limit : Z) (db : DB) : result (list JobEvent) -> DB -> Prop :=
| events_missing : jobs db !! jobID = None -> events_spec jobID limit db (Err ErrJobNotFound) db
| events_found j evs :
    jobs db !! jobID = Some j -> event_page jobID (page_limit limit) db evs ->
    events_spec jobID limit db (Ok evs) db.

#[local] Instance event_before_total : Total event_before.
Proof. intros a b. unfold event_before. lia. Qed.

Lemma ListJobEvents_ok jobID limit e db n :
  wp (ListJobEvents jobID limit) (Postgres.outcome db (events_spec jobID limit db)) e (mkWorld db TxNone n).
Proof.
  unfold ListJobEvents.
  apply wp_bind, wp_require_pool; [by auto with pg|].
  apply wp_bind, wp_pool_query_row; [by auto with pg| |].
  { unfold checkJob. intros Hn%select_job_none. by apply outcome_done, events_missing. }
  unfold checkJob. intros a v' (-> & j & Hj & ->)%select_job_inv. split; [by auto with pg|].
  apply wp_pool_query; [by auto with pg|].
  intros evs v' [= <- <-]. split; [by auto with pg|]. apply outcome_done.
  eapply events_found; [done|]. eexists. split; [apply Sorted_merge_sort, _|].
  split; [apply merge_sort_Permutation|done].
Qed.
End contracts.
