(* ===== verification/JobProgress.v ===== *)
(** * Progress of the job store

    Every move of the life cycle passes the CHECK constraints and the unique
    indexes of the schema, so when no statement fails the methods of
    src/internal/database/jobs.go do what is asked of them: their results are
    determined by the tables and the clock. *)

From S2P Require Import Prelude GoStrings Job Operator Enrollment Protocol Postgres Schema JobStore JobSpec JobReconcile JobContracts.

(** ** The schema accepts every move *)

Lemma job_checks_split j :
  job_checks j = true <->
  (3 <= utf8_RuneCountInString (CreatedByUsername j) <= 64
   /\ canonicalUsernamePattern (CreatedByUsername j) = true
   /\ len (IdempotencyKeyHash j) = 32 /\ ActionType j = ActionAgentPing)
  /\ 0 <= Attempt j <= 5
  /\ ((JobState j ∈ active_states /\ JobFailureCode j = None /\ FinishedAt j = None)
      \/ (JobState j = StateSucceeded /\ JobFailureCode j = None /\ FinishedAt j <> None)
      \/ (JobState j = StateFailed /\ FinishedAt j <> None
          /\ (JobFailureCode j = Some FailureCodeExecutorError
              \/ JobFailureCode j = Some FailureCodeDispatchExhausted))
      \/ (JobState j = StateUnknown /\ FinishedAt j <> None
          /\ JobFailureCode j = Some FailureCodeExecutionTimeout)).
Proof.
  destruct j as [id a o u h act st att fc c up d de s x f].
  unfold job_checks; cbn [CreatedByUsername IdempotencyKeyHash ActionType JobState Attempt
    JobFailureCode FinishedAt].
  split.
  - intros Hc. bsplit.
    match goal with H : one_of act _ = true |- _ => apply one_of_elem in H end.
    match goal with H : one_of st _ = true |- _ => apply one_of_elem in H; rename H into Hst end.
    repeat split; try lia; try done; [set_solver|].
    repeat (apply elem_of_cons in Hst as [->|Hst]); try (by apply elem_of_nil in Hst);
      destruct fc as [fc|], f as [f|]; simpl in *; try done;
      rewrite ?orb_false_r in *; try (left; split; [set_solver|done]); try (right; left; done);
      repeat match goal with H : (_ || _)%bool = true |- _ => apply orb_prop in H as [H|H] end;
      bsplit; subst; naive_solver.
  - intros ((Hu & Hp & Hh & ->) & Ha & Hs).
    rewrite Hp, Hh. simpl.
    replace (3 <=? utf8_RuneCountInString u) with true by (symmetry; apply Z.leb_le; lia).
    replace (utf8_RuneCountInString u <=? 64) with true by (symmetry; apply Z.leb_le; lia).
    replace (0 <=? att) with true by (symmetry; apply Z.leb_le; lia).
    replace (att <=? 5) with true by (symmetry; apply Z.leb_le; lia). simpl.
    destruct Hs as [(Hst & -> & ->)|[(-> & -> & Hf)|[(-> & Hf & [-> | ->])|(-> & Hf & ->)]]];
      [|destruct f; done..].
    repeat (apply elem_of_cons in Hst as [->|Hst]; [done|]). by apply elem_of_nil in Hst.
Qed.

Lemma active_checks_finished j :
  job_checks j = true -> is_active j = true -> JobFailureCode j = None /\ FinishedAt j = None.
Proof.
  intros (_ & _ & Hs)%job_checks_split Ha. unfold is_active in Ha.
  destruct Hs as [(_ & ? & ?)|[(E & _)|[(E & _)|(E & _)]]]; [done|rewrite E in Ha; done..].
Qed.

(** The text of a canonical identifier has 36 characters. *)
Lemma uuid_shape_ascii i l :
  uuid_shape i l = true ->
  (i + length l)%nat = 36%nat /\ forallb (fun b => byte_val b <? 128) l = true.
Proof.
  revert i. induction l as [|b l IH]; intros i Hs; cbn [uuid_shape] in Hs.
  - apply Nat.eqb_eq in Hs. simpl. split; [lia|done].
  - apply andb_prop in Hs as [Hb Hl]. apply IH in Hl as [Hn Hl]. cbn [length forallb]. split; [lia|].
    rewrite Hl, andb_true_r. apply Z.ltb_lt.
    destruct (_ || _ || _ || _); unfold is_byte, lower_hex, is_digit in Hb.
    + apply Z.eqb_eq in Hb. lia.
    + apply orb_prop in Hb as [Hb|Hb]; bsplit; lia.
Qed.

Lemma canonical_text_length s : canonical_uuid_text s = true -> utf8_RuneCountInString s = 36.
Proof.
  intros [Hn Hl]%uuid_shape_ascii. rewrite rune_count_ascii by done.
  unfold len. rewrite <- length_bytes_of. lia.
Qed.

Section progress.
Context `{UuidTextLaws}.

Lemma move_checks id j j' ev : job_move id j j' ev -> job_checks j = true -> job_checks j' = true.
Proof.
  intros Hm Hc. destruct (active_checks_finished _ Hc (move_was_active _ _ _ _ Hm)) as [Hf Hx].
  apply job_checks_split in Hc as (Hr & Ha & _). apply job_checks_split.
  unfold MaxDispatchAttempts in *.
  destruct Hm as [??? Hs ?|???? Hs ??|????? Hs ??|??? Hs ?|???? Hs ??|???? Hs ??|????? Hs ?];
    (split; [exact Hr|]); cbn; (split; [unfold MaxDispatchAttempts in *; lia|]); rewrite ?Hf, ?Hx.
  - left. split; [set_solver|done].
  - left. split; [set_solver|done].
  - right; right; left. split; [done|]. split; [done|]. by right.
  - left. split; [set_solver|done].
  - right; left. done.
  - right; right; left. split; [done|]. split; [done|]. by left.
  - right; right; right. done.
Qed.

(** The agent's one in-flight slot is free for the move. *)
Lemma move_index id j j' ev v :
  wf_jobs v -> jobs v !! id = Some j -> job_move id j j' ev ->
  (JobState j = StateQueued -> ~ busy (AgentID j) v) ->
  jobs_agent_inflight_idx (jobs v) id j' = true.
Proof.
  intros Hwf Hj Hm Hb. destruct (move_identity _ _ _ _ Hm) as (_ & Ha & _).
  apply bool_decide_eq_true. intros id1 j1 H1.
  destruct (decide (id1 = id)) as [->|Hne]; [by left|right].
  destruct (decide (AgentID j1 = AgentID j')) as [E|]; [right|by left].
  destruct (is_inflight j1) eqn:E1; [right|by left].
  destruct (String.eqb (JobState j) StateQueued) eqn:Eq.
  - apply String.eqb_eq in Eq. exfalso. apply (Hb Eq). exists id1, j1. split; [done|]. split; congruence.
  - destruct (is_inflight j') eqn:E2; [|done]. exfalso. apply Hne.
    eapply (wf_inflight _ Hwf id1 id j1 j); try done; [congruence|].
    unfold is_inflight, one_of.
    destruct Hm as [??? Hs ?|???? Hs ??|????? Hs ??|??? Hs ?|???? Hs ??|???? Hs ??|????? Hs ?];
      rewrite Hs in *; done.
Qed.

Lemma same_key_index v id j j' :
  wf_jobs v -> jobs v !! id = Some j -> CreatedByOperatorID j' = CreatedByOperatorID j ->
  IdempotencyKeyHash j' = IdempotencyKeyHash j -> jobs_idempotency_idx (jobs v) id j' = true.
Proof.
  intros Hwf Hj Ho Hk. apply bool_decide_eq_true. intros id1 j1 H1.
  destruct (decide (id1 = id)); [by left|right].
  destruct (decide (CreatedByOperatorID j1 = CreatedByOperatorID j')); [right|by left].
  intros E. apply n, (wf_idempotency _ Hwf id1 id j1 j); congruence.
Qed.

(** A conditional update that is a move succeeds. *)
Lemma update_move id cond set v j ev :
  wf_jobs v -> jobs v !! id = Some j -> cond j = true -> job_move id j (set j) ev ->
  (JobState j = StateQueued -> ~ busy (AgentID j) v) ->
  update_job_where id cond set v = inr (1, with_jobs (<[id := set j]> (jobs v)) v).
Proof.
  intros Hwf Hj Hc Hm Hb. unfold update_job_where. rewrite Hj, Hc. simpl.
  rewrite (move_checks _ _ _ _ Hm) by (by eapply wf_checks).
  rewrite (move_index _ _ _ _ _ Hwf Hj Hm Hb).
  destruct (move_identity _ _ _ _ Hm) as (_ & _ & Ho & Hk & _).
  by rewrite (same_key_index v id j (set j) Hwf Hj Ho Hk).
Qed.

Lemma move_event_checks id j j' ev :
  job_move id j j' ev -> job_checks j = true ->
  (ActorType ev = ActorTypeAgent -> canonical_uuid_text (uuid_String (AgentID j)) = true) ->
  job_event_checks ev = true.
Proof.
  intros Hm (_ & Ha & _)%job_checks_split Ht. unfold job_event_checks.
  unfold MaxDispatchAttempts in *.
  assert (0 <= EventAttempt ev <= 5) as Hatt
    by (destruct Hm; cbn; unfold MaxDispatchAttempts in *; lia).
  rewrite (proj2 (Z.leb_le 0 _)), (proj2 (Z.leb_le _ 5)) by lia.
  destruct Hm; cbn [EventType ActorType EventFailureCode ActorIdentifier by_controller] in *;
    try reflexivity; specialize (Ht eq_refl); rewrite (canonical_text_length _ Ht), Ht; reflexivity.
Qed.

(** ** Reliable runs *)

(** The identifiers the server will generate are new to the history. *)
Definition fresh_events (e : Env) (db : DB) : Prop :=
  forall i, existsb (fun ev => N.eqb (EventID ev) (env_uuidv7 e i)) (job_events db) = false.

Lemma insert_move_event id etype att aty aid fc cx v j j' :
  job_move id j j' (mkJobEvent (cx_uuidv7 cx) id etype att aty aid fc (cx_now cx)) ->
  job_checks j = true ->
  (aty = ActorTypeAgent -> canonical_uuid_text (uuid_String (AgentID j)) = true) ->
  existsb (fun ev => N.eqb (EventID ev) (cx_uuidv7 cx)) (job_events v) = false ->
  has_key (jobs v) id = true ->
  insert_job_event id etype att aty aid fc cx v
  = inr (tt, with_job_events (job_events v
               ++ [mkJobEvent (cx_uuidv7 cx) id etype att aty aid fc (cx_now cx)]) v).
Proof.
  intros Hm Hc Ht Hf Hk. unfold insert_job_event. cbn [EventID].
  by rewrite (move_event_checks _ _ _ _ Hm Hc Ht), Hf, Hk.
Qed.

(** An update and its event, when nothing fails. *)
Lemma wp_move_reliable {B} setf id etype att aty aid fc msg1 msg2 (k : M DB B)
    (Q : result B -> World DB -> Prop) e db v t n j :
  reliable e -> wf_jobs v -> jobs v !! id = Some j -> fresh_events e v ->
  (aty = ActorTypeAgent -> canonical_uuid_text (uuid_String (AgentID j)) = true) ->
  (JobState j = StateQueued -> ~ busy (AgentID j) v) ->
  let ev := mkJobEvent (env_uuidv7 e (S n)) id etype att aty aid fc t in
  let j' := setf (stmt_ctx e n t) j in
  job_move id j j' ev ->
  wp k Q e (mkWorld db (TxOpen (put_job id j' ev v) t) (S (S n))) ->
  wp (Exec (exec_update id setf) msg1 ;; Exec (insert_job_event id etype att aty aid fc) msg2 ;; k)
    Q e (mkWorld db (TxOpen v t) n).
Proof.
  intros He Hwf Hj Hf Ht Hb ev j' Hm Hk.
  apply wp_bind. eapply wp_exec_reliable; [done|by eapply update_move|].
  apply wp_bind. eapply wp_exec_reliable; [done| |exact Hk].
  eapply insert_move_event; [exact Hm|by eapply wf_checks|done|apply Hf|].
  unfold has_key. simpl. by rewrite lookup_insert_eq.
Qed.

(** [m] run outside a transaction returns [r] and leaves [db']. *)
Definition runs {A} (m : M DB A) (e : Env) (db : DB) (r : result A) (db' : DB) : Prop :=
  wp m (fun r' w => r' = r /\ committed w = db') e (mkWorld db TxNone 0).

Lemma startable_move agentID attempt ts jobID j eid t :
  startable agentID attempt ts j = true ->
  job_move jobID j (start_set ts j)
    (agent_event eid jobID EventJobStarted attempt agentID None t).
Proof.
  unfold startable. intros Hs. bsplit. subst attempt.
  match goal with E : (AgentID j =? _)%N = true |- _ => apply N.eqb_eq in E; subst agentID end.
  by apply move_start.
Qed.

Lemma startable_not_refused agentID attempt ts j :
  startable agentID attempt ts j = true ->
  negb (JobState j =? StateDispatched)%string || negb (AgentID j =? agentID)%N
  || negb (Attempt j =? attempt) || is_null (DispatchExpiresAt j) = false.
Proof.
  unfold startable. intros Hs.
  destruct (String.eqb _ _), (N.eqb _ _), (Attempt j =? attempt); try done.
  by destruct (DispatchExpiresAt j).
Qed.

Lemma update_running_move jobID agentID attempt cx v j ev :
  wf_jobs v -> jobs v !! jobID = Some j ->
  startable agentID attempt (cx_clock cx 0%nat) j = true ->
  job_move jobID j (start_set (cx_clock cx 0%nat) j) ev ->
  updateRunning jobID agentID attempt cx v
  = inr (cx_clock cx 0%nat, with_jobs (<[jobID := start_set (cx_clock cx 0%nat) j]> (jobs v)) v).
Proof.
  intros Hwf Hj Hs Hm. unfold updateRunning.
  erewrite update_move; [done|done|done| |exact Hm|].
  - unfold startable in Hs. by rewrite (andb_comm (AgentID j =? agentID)%N).
  - intros Hq. unfold startable in Hs. by rewrite Hq in Hs.
Qed.

Lemma start_reliable agentID jobID attempt e db :
  reliable e -> wf_jobs db -> fresh_events e db ->
  canonical_uuid_text (uuid_String agentID) = true ->
  let ts := env_clock e 2 0%nat in
  match jobs db !! jobID with
  | Some j =>
      if startable agentID attempt ts j
      then exists eid t, runs (StartAgentJob agentID jobID attempt) e db (Ok tt)
             (put_job jobID (start_set ts j)
                (agent_event eid jobID EventJobStarted attempt agentID None t) db)
      else runs (StartAgentJob agentID jobID attempt) e db (Err ErrJobConflict) db
  | None => runs (StartAgentJob agentID jobID attempt) e db (Err ErrJobConflict) db
  end.
Proof.
  intros He Hwf Hf Ht ts. unfold runs, StartAgentJob.
  destruct (jobs db !! jobID) as [j|] eqn:Hj; [destruct (startable agentID attempt ts j) eqn:Hs|].
  - assert (job_move jobID j (start_set ts j) (agent_event (env_uuidv7 e 3) jobID EventJobStarted attempt
              agentID None (env_now e 0))) as Hm by by apply startable_move.
    exists (env_uuidv7 e 3), (env_now e 0).
    apply wp_bind, wp_require_pool_reliable; [done|].
    apply wp_bind, wp_begin_reliable; [done|]. apply wp_deferring.
    apply wp_bind, wp_query_row_reliable; [done|]. unfold select_job. rewrite Hj. simpl.
    rewrite (startable_not_refused _ _ _ _ Hs). apply wp_bind, wp_ret.
    apply wp_bind, wp_query_row_reliable; [done|].
    rewrite (update_running_move _ _ _ (stmt_ctx e 2 (env_now e 0)) _ _ _ Hwf Hj Hs Hm).
    apply wp_bind. eapply wp_exec_reliable; [done| |by apply wp_commit_reliable].
    eapply insert_move_event; [exact Hm|by eapply wf_checks| |apply Hf|].
    + unfold startable in Hs. bsplit.
      by match goal with E : (AgentID j =? _)%N = true |- _ => apply N.eqb_eq in E; rewrite E end.
    + unfold has_key. simpl. by rewrite lookup_insert_eq.
  - apply wp_bind, wp_require_pool_reliable; [done|].
    apply wp_bind, wp_begin_reliable; [done|]. apply wp_deferring.
    apply wp_bind, wp_query_row_reliable; [done|]. unfold select_job. rewrite Hj. simpl.
    apply wp_bind, wp_refuse_if; intros Hr; [done|]. apply wp_bind, wp_query_row_reliable; [done|].
    destruct (updateRunning _ _ _ _ _) as [err|[x v]] eqn:Hu;
      eapply update_running_inv in Hu; try exact Hj; simpl in Hu; fold ts in Hu; rewrite Hs in Hu; [|done].
    by simplify_eq.
  - apply wp_bind, wp_require_pool_reliable; [done|].
    apply wp_bind, wp_begin_reliable; [done|]. apply wp_deferring.
    apply wp_bind, wp_query_row_reliable; [done|]. unfold select_job. by rewrite Hj.
Qed.

Lemma running_not_queued j v a : JobState j = StateRunning -> JobState j = StateQueued -> ~ busy a v.
Proof. intros -> [=]. Qed.

(** A completion of a running job reaches [complete_running]. *)
Lemma complete_to_running jobID outcome failureCode e db j d :
  reliable e -> outcome_refused outcome failureCode = false ->
  jobs db !! jobID = Some j -> JobState j = StateRunning -> ExecutionDeadlineAt j = Some d ->
  forall Q,
    wp (complete_running (AgentID j) jobID (Attempt j) outcome (Some d)) Q e
      (mkWorld db (TxOpen db (env_now e 0)) 2) ->
    wp (CompleteAgentJob (AgentID j) jobID (Attempt j) outcome failureCode)
      (fun r w => exists w0, committed w0 = committed w /\ Q r w0) e (mkWorld db TxNone 0).
Proof.
  intros He Hr Hj Hs Hd Q HQ. unfold CompleteAgentJob.
  apply wp_bind, wp_require_pool_reliable; [done|]. rewrite Hr. apply wp_bind, wp_ret.
  apply wp_bind, wp_begin_reliable; [done|]. apply wp_deferring.
  apply wp_bind, wp_query_row_reliable; [done|]. unfold select_job. rewrite Hj. simpl.
  rewrite N.eqb_refl, Z.eqb_refl. apply wp_bind, wp_ret. rewrite Hs, Hd. simpl.
  eapply wp_mono; [|exact HQ]. intros r w Hw. exists w. by split.
Qed.

Lemma complete_reliable agentID jobID attempt outcome failureCode e db j d :
  reliable e -> wf_jobs db -> fresh_events e db ->
  canonical_uuid_text (uuid_String agentID) = true ->
  outcome_refused outcome failureCode = false ->
  jobs db !! jobID = Some j -> addressed agentID attempt j = true ->
  JobState j = StateRunning -> ExecutionDeadlineAt j = Some d ->
  let ts := env_clock e 2 0%nat in
  exists eid t,
    if ts <? d
    then runs (CompleteAgentJob agentID jobID attempt outcome failureCode) e db (Ok tt)
           (put_job jobID (finish_set outcome ts j) (finish_event eid jobID outcome attempt agentID t) db)
    else runs (CompleteAgentJob agentID jobID attempt outcome failureCode) e db (Err ErrJobConflict)
           (put_job jobID (timeout_set ts ts j)
              (by_controller eid jobID EventJobUnknown attempt (Some FailureCodeExecutionTimeout) t) db).
Proof.
  intros He Hwf Hf Ht Hr Hj Ha Hs Hd ts. exists (env_uuidv7 e 4), (env_now e 0).
  assert (agentID = AgentID j /\ attempt = Attempt j) as [-> ->].
  { unfold addressed in Ha. bsplit. split; [symmetry; by apply N.eqb_eq|done]. }
  pose proof (complete_to_running jobID outcome failureCode e db j d He Hr Hj Hs Hd) as Hrun.
  destruct (ts <? d) eqn:E; unfold runs.
  - eapply wp_mono; [|apply (Hrun (fun r w => r = Ok tt /\ committed w = put_job jobID (finish_set outcome ts j)
      (finish_event (env_uuidv7 e 4) jobID outcome (Attempt j) (AgentID j) (env_now e 0)) db))];
      [intros r w (w0 & <- & -> & ->); by split|].
    unfold complete_running, finish_set, finish_event.
    apply wp_bind. eapply wp_exec_reliable; [done|reflexivity|]. cbn [cx_clock stmt_ctx]. fold ts.
    rewrite E. cbn [negb]. bsplit.
    apply wp_bind. destruct (String.eqb outcome "succeeded").
    + apply wp_bind. eapply wp_exec_reliable; [done|eapply update_move; try done;
        [by eapply (move_succeed jobID j d ts 0%N 0)|by apply running_not_queued]|].
      eapply wp_exec_reliable; [done| |by apply wp_commit_reliable].
      eapply insert_move_event; [by eapply (move_succeed jobID j d ts)|by eapply wf_checks|done|apply Hf|].
      unfold has_key. simpl. by rewrite lookup_insert_eq.
    + apply wp_bind. eapply wp_exec_reliable; [done|eapply update_move; try done;
        [by eapply (move_fail jobID j d ts 0%N 0)|by apply running_not_queued]|].
      eapply wp_exec_reliable; [done| |by apply wp_commit_reliable].
      eapply insert_move_event; [by eapply (move_fail jobID j d ts)|by eapply wf_checks|done|apply Hf|].
      unfold has_key. simpl. by rewrite lookup_insert_eq.
  - eapply wp_mono; [|apply (Hrun (fun r w => r = Err ErrJobConflict /\ committed w =
      put_job jobID (timeout_set ts ts j) (by_controller (env_uuidv7 e 4) jobID EventJobUnknown (Attempt j)
        (Some FailureCodeExecutionTimeout) (env_now e 0)) db))];
      [intros r w (w0 & <- & -> & ->); by split|].
    unfold complete_running.
    apply wp_bind. eapply wp_exec_reliable; [done|reflexivity|]. cbn [cx_clock stmt_ctx]. fold ts.
    rewrite E. cbn [negb]. bsplit. unfold controller_event.
    eapply wp_move_reliable; try done; [by apply running_not_queued| |].
    + apply move_timeout with ts; [done|]. rewrite Hd. by apply Z.leb_le.
    + by apply wp_bind, wp_commit_reliable, wp_throw.
Qed.

(** ** Claims *)

Lemma rows_where_none p db :
  (forall id j, jobs db !! id = Some j -> p j = false) -> rows_where p db = [].
Proof.
  intros Hp. destruct (rows_where p db) as [|j l] eqn:E; [done|].
  assert (j ∈ rows_where p db) as (id & Hj & Hpj)%elem_of_rows_where
    by (rewrite E; apply list_elem_of_here).
  by rewrite (Hp _ _ Hj) in Hpj.
Qed.

Lemma not_busy_idle agentID v id j :
  ~ busy agentID v -> jobs v !! id = Some j -> AgentID j = agentID -> is_inflight j = false.
Proof.
  intros Hb Hj Ha. destruct (is_inflight j) eqn:E; [|done]. destruct Hb. by exists id, j.
Qed.

(** With nothing in flight there is nothing to reconcile. *)
Lemma wp_reconcile_idle agentID limit e db v t n (Q : result unit -> World DB -> Prop) :
  reliable e -> ~ busy agentID v ->
  Q (Ok tt) (mkWorld db (TxOpen v t) (S (S n))) ->
  wp (reconcileExpiredJobsInTx (Some agentID) limit) Q e (mkWorld db (TxOpen v t) n).
Proof.
  intros He Hb HQ. unfold reconcileExpiredJobsInTx, queryDispatched, queryRunning.
  assert (forall state ts cx, state = StateDispatched \/ state = StateRunning ->
    forall limit, query_expired state ts (Some agentID) limit cx v = inr ([], v)) as Hq.
  { intros state ts cx Hst lim. unfold query_expired. rewrite rows_where_none; [done|].
    intros id j Hj. destruct (N.eqb (AgentID j) agentID) eqn:Ea; [|done]. apply N.eqb_eq in Ea.
    pose proof (not_busy_idle _ _ _ _ Hb Hj Ea) as Hi. unfold is_inflight, one_of in Hi.
    simpl in Hi. bsplit. unfold expired. simpl. apply andb_false_iff. left.
    destruct Hst as [-> | ->]; by apply String.eqb_neq. }
  apply wp_bind. eapply wp_exec_reliable; [done|apply Hq; by left|]. simpl.
  apply wp_bind, wp_ret. rewrite andb_false_r.
  apply wp_bind. eapply wp_exec_reliable; [done|apply Hq; by right|]. by apply wp_ret.
Qed.

Lemma claim_reliable agentID e db id0 j0 :
  reliable e -> wf_jobs db -> fresh_events e db ->
  agents db !! agentID <> None -> ~ busy agentID db ->
  jobs db !! id0 = Some j0 -> claimable agentID j0 = true ->
  exists j ts eid t, oldest_queued agentID db j
    /\ runs (ClaimNextAgentJob agentID) e db (Ok (Some (assignment j)))
         (put_job (ID j) (dispatch_set (Attempt j + 1) ts j)
            (by_controller eid (ID j) EventJobDispatched (Attempt j + 1) None t) db).
Proof.
  intros He Hwf Hf Hag Hb Hj0 Hc0.
  destruct (head (merge_sort by_age (rows_where (claimable agentID) db))) as [j|] eqn:Hq.
  2: { by rewrite (head_merge_sort_none _ _ Hq _ _ Hj0) in Hc0. }
  pose proof (claim_query_min _ _ _ Hq Hwf) as Hold. pose proof Hold as (Hj & Hc & _).
  unfold claimable in Hc. bsplit.
  assert (JobState j = StateQueued) as Hst by done.
  assert (0 <= Attempt j < MaxDispatchAttempts) as Hatt.
  { pose proof (wf_history _ Hwf _ _ Hj) as Hh. unfold summary_of in Hh. rewrite Hst in Hh.
    by apply replay_queued in Hh. }
  pose proof (job_checks_states _ (wf_checks _ Hwf _ _ Hj)) as (_ & _ & Hact & _).
  exists j, (env_clock e 6 0%nat), (env_uuidv7 e 7), (env_now e 0). split; [done|]. unfold runs.
  unfold ClaimNextAgentJob.
  apply wp_bind, wp_require_pool_reliable; [done|].
  apply wp_bind, wp_begin_reliable; [done|]. apply wp_deferring.
  apply wp_bind, wp_tx_stmt_reliable; [done|]. unfold queryAgent, row_or_none.
  destruct (agents db !! agentID); [|done]. simpl.
  apply wp_bind, wp_catch, wp_reconcile_idle; [done|done|]. unfold claim_oldest.
  apply wp_bind, wp_tx_stmt_reliable; [done|]. unfold queryInFlight, row_or_none.
  rewrite (rows_where_none _ db).
  2: { intros id j' Hj'. destruct (N.eqb (AgentID j') agentID) eqn:Ea; [|done].
       apply N.eqb_eq in Ea. by eapply not_busy_idle. }
  apply wp_bind, wp_tx_stmt_reliable; [done|]. unfold claimQuery, row_or_none. rewrite Hq. cbn [fmap option_fmap option_map fst snd].
  rewrite Hact. cbn [String.eqb negb]. apply wp_bind, wp_refuse_if; [done|intros _].
  apply wp_bind, wp_refuse_if; intros Ho.
  { apply orb_prop in Ho as [Ho|Ho]; bsplit; lia. }
  unfold controller_event. eapply wp_move_reliable; try done.
  - intros _. match goal with E : (AgentID j =? _)%N = true |- _ => apply N.eqb_eq in E; by rewrite E end.
  - apply move_dispatch; [done|lia].
  - apply wp_bind, wp_commit_reliable; [done|]. apply wp_ret. unfold assignment. by rewrite Hact.
Qed.
End progress.
