(* ===== verification/AccountStore.v ===== *)
(** * The account store: src/internal/database/database.go

    Enrollment tokens, agents with their inventory and telemetry snapshots,
    operators, sessions and the audit trail.  Identifiers that the Go code
    passes as text are parsed by the server: a malformed one is SQLSTATE
    22P02.  Timestamps in the tables count microseconds; a Go time in
    nanoseconds is truncated when it is sent. *)

From S2P Require Import Prelude GoStrings Job Operator Enrollment Protocol Postgres Schema JobStore.

(** ** Statements *)

Definition find_row {A} (p : UUID -> A -> bool) (m : gmap UUID A) : option (UUID * A) :=
  head (List.filter (fun '(id, r) => p id r) (map_to_list m)).

Definition uuid_param `{UuidText} (s : string) : dberr + UUID :=
  match uuid_Parse s with Some id => inr id | None => inl (PgError "22P02") end.

(** A statement with a textual uuid parameter. *)
Definition with_uuid `{UuidText} {A} (s : string) (f : UUID -> stmt DB A) : stmt DB A :=
  fun cx db => match uuid_param s with inl err => inl err | inr id => f id cx db end.

Definition returning {A B} (r : dberr + B) (f : B -> A * DB) : dberr + (A * DB) :=
  match r with inl err => inl err | inr b => inr (f b) end.

(** Go [int] sent for an [integer] column. *)
Definition int4_param (z : Z) : bool := (- 2 ^ 31 <=? z) && (z <? 2 ^ 31).

Definition micros (ns : Z) : Z := ns / 1000.

(** [errors.As(err, &pgErr) && pgErr.Code == "23505"] *)
Definition unique_violation (err : dberr) : bool :=
  match err with PgError code => String.eqb code "23505" | _ => false end.

Section store.
Context `{UuidText}.

(** ** CreateEnrollmentToken *)

Definition insert_token_stmt (tokenHash : string) (expiresAt : Z) : stmt DB TokenRecord :=
  fun cx db =>
    let id := cx_uuidv7 cx in
    let r := mkTokenRow tokenHash (cx_now cx) (micros expiresAt) None in
    returning (insert_token id r db)
      (fun db' => (mkTokenRecord (uuid_String id) (tok_created_at r) (tok_expires_at r), db')).

Definition CreateEnrollmentToken (tokenHash : string) (expiresAt : Z) : M DB TokenRecord :=
  require_pool ;;
  PoolQuery (insert_token_stmt tokenHash expiresAt) "failed to create enrollment token".

(** ** RegisterAgent *)

Definition queryToken (tokenHash : string) : stmt DB (string * bool * option Z) :=
  fun cx db =>
    row_or_none ((fun '(id, r) => (uuid_String id, tok_expires_at r <=? cx_now cx, tok_consumed_at r))
                 <$> find_row (fun _ r => String.eqb (tok_hash r) tokenHash) (enrollment_tokens db)) db.

Definition queryExistingAgent (tokenID : string) : stmt DB (string * string * Z) :=
  with_uuid tokenID (fun tok _ db =>
    row_or_none ((fun '(id, r) => (uuid_String id, ag_public_key r, ag_created_at r))
                 <$> find_row (fun _ r => N.eqb (ag_enrollment_token_id r) tok) (agents db)) db).

Definition insertAgent (publicKey tokenID : string) : stmt DB (string * Z) :=
  with_uuid tokenID (fun tok cx db =>
    let id := cx_uuidv7 cx in
    returning (insert_agent id (mkAgentRow publicKey tok (cx_now cx) None None) db)
      (fun db' => ((uuid_String id, cx_now cx), db'))).

Definition consume_set (now : Z) (r : TokenRow) : TokenRow :=
  mkTokenRow (tok_hash r) (tok_created_at r) (tok_expires_at r) (Some now).

Definition consumeToken (tokenID : string) : stmt DB Z :=
  with_uuid tokenID (fun tok cx db =>
    match enrollment_tokens db !! tok with
    | None => inr (0, db)
    | Some r => inr (1, with_tokens (<[tok := consume_set (cx_now cx) r]> (enrollment_tokens db)) db)
    end).

(** The branch of a token that was consumed before: a retry of the same key. *)
Definition register_retry (tokenID publicKey : string) : M DB (AgentRecord * bool) :=
  existing ← Exec (queryExistingAgent tokenID) "failed to query existing agent";
  let '(existingID, existingPubKey, existingCreatedAt) := existing in
  refuse_if (negb (String.eqb existingPubKey publicKey)) ErrEnrollmentRejected ;;
  Commit "failed to commit transaction" ;;
  mret (mkAgentRecord existingID publicKey existingCreatedAt None None, false).

Definition register_new (tokenID publicKey : string) : M DB (AgentRecord * bool) :=
  inserted ← tx_stmt (insertAgent publicKey tokenID);
  match inserted with
  | inl err =>
      if unique_violation err then throw ErrIdentityConflict
      else throw (wrapDb "failed to insert agent" err)
  | inr (agentID, agentCreatedAt) =>
      tag ← Exec (consumeToken tokenID) "failed to update enrollment token";
      refuse_if (negb (tag =? 1))
        (errorString "unexpected rows affected marking token consumed") ;;
      Commit "failed to commit transaction" ;;
      mret (mkAgentRecord agentID publicKey agentCreatedAt None None, true)
  end.

Definition RegisterAgent (tokenHash publicKey : string) : M DB (AgentRecord * bool) :=
  require_pool ;;
  Begin "failed to begin transaction" ;;
  deferring_Rollback (
    row ← QueryRow (queryToken tokenHash) ErrEnrollmentRejected "failed to query enrollment token";
    let '(tokenID, isExpired, consumedAt) := row in
    match consumedAt with
    | Some _ => register_retry tokenID publicKey
    | None =>
        refuse_if isExpired ErrEnrollmentRejected ;;
        register_new tokenID publicKey
    end).

(** ** Agents: lookup, heartbeat, inventory, telemetry *)

Definition find_agent (publicKey : string) (db : DB) : option (UUID * AgentRow) :=
  find_row (fun _ r => String.eqb (ag_public_key r) publicKey) (agents db).

Definition agent_record (id : UUID) (r : AgentRow) : AgentRecord :=
  mkAgentRecord (uuid_String id) (ag_public_key r) (ag_created_at r) (ag_last_seen_at r)
                (ag_protocol_version r).

Definition query_agent_key (publicKey : string) : stmt DB (string * AgentRow) :=
  fun _ db => row_or_none ((fun '(id, r) => (uuid_String id, r)) <$> find_agent publicKey db) db.

Definition FindAgentByPublicKey (publicKey : string) : M DB AgentRecord :=
  require_pool ;;
  row ← PoolQueryRow (query_agent_key publicKey) ErrEnrolledAgentNotFound "failed to query agent";
  let '(id, r) := row in
  refuse_if (negb (len (ag_public_key r) =? 32))
    (errorString "unexpected public key length in database") ;;
  mret (mkAgentRecord id (ag_public_key r) (ag_created_at r) (ag_last_seen_at r)
          (ag_protocol_version r)).

Definition seen_set (now version : Z) (r : AgentRow) : AgentRow :=
  mkAgentRow (ag_public_key r) (ag_enrollment_token_id r) (ag_created_at r) (Some now) (Some version).

Definition has_active_jobs (agentID : UUID) (db : DB) : bool := negb (active_count db agentID =? 0).

Definition heartbeat_stmt (publicKey : string) (version : Z) : stmt DB (AgentRecord * bool) :=
  fun cx db =>
    if negb (int4_param version) then inl (PgError "22003") else
    match find_agent publicKey db with
    | None => inl ErrNoRows
    | Some (id, r) =>
        if negb (protocol_version_check (Some version)) then inl (PgError "23514") else
        let r' := seen_set (cx_now cx) version r in
        inr ((agent_record id r', has_active_jobs id db), with_agents (<[id := r']> (agents db)) db)
    end.

Definition RecordAgentHeartbeat (publicKey : string) (protocolVersion : Z) : M DB (AgentRecord * bool) :=
  require_pool ;;
  PoolQueryRow (heartbeat_stmt publicKey protocolVersion) ErrEnrolledAgentNotFound
    "failed to record agent heartbeat".

Definition upsert_inventory (publicKey : string) (r : InventoryRequest) : stmt DB string :=
  fun cx db =>
    match find_agent publicKey db with
    | None => inl ErrNoRows
    | Some (id, _) =>
        if negb (inventory_checks r) then inl (PgError "23514") else
        inr (uuid_String id,
             with_inventory (<[id := mkInventoryRow r (cx_now cx)]> (agent_inventory db)) db)
    end.

Definition RecordAgentInventory (publicKey : string) (req : option InventoryRequest) : M DB unit :=
  require_pool ;;
  match req with
  | None => throw (errorString "inventory request is nil")
  | Some r =>
      PoolQueryRow (upsert_inventory publicKey r) ErrEnrolledAgentNotFound
        "failed to record agent inventory" ;;
      mret tt
  end.

Definition upsert_telemetry (publicKey : string) (r : TelemetryRequest) : stmt DB string :=
  fun cx db =>
    match find_agent publicKey db with
    | None => inl ErrNoRows
    | Some (id, _) =>
        if negb (telemetry_checks r) then inl (PgError "23514") else
        inr (uuid_String id,
             with_telemetry (<[id := mkTelemetryRow r (cx_now cx)]> (agent_telemetry db)) db)
    end.

Definition RecordAgentTelemetry (publicKey : string) (req : option TelemetryRequest) : M DB unit :=
  require_pool ;;
  match req with
  | None => throw (errorString "telemetry request is nil")
  | Some r =>
      PoolQueryRow (upsert_telemetry publicKey r) ErrEnrolledAgentNotFound
        "failed to record agent telemetry" ;;
      mret tt
  end.

(** ** CreateOperator and GetOperatorByUsername *)

Definition operator_record (id : UUID) (r : OperatorRow) : OperatorRecord :=
  mkOperatorRecord (uuid_String id) (op_username r) (op_password_hash r) (op_role r)
                   (op_disabled_at r) (op_created_at r) (op_updated_at r).

Definition insert_operator_stmt (username passwordHash role : string) : stmt DB OperatorRecord :=
  fun cx db =>
    let id := cx_uuidv7 cx in
    let r := mkOperatorRow username passwordHash role None (cx_now cx) (cx_now cx) in
    returning (insert_operator id r db) (fun db' => (operator_record id r, db')).

(** The audit INSERT statements of the file: both identifiers are text. *)
Definition audit_stmt (actor : option string) (actor_username action : string)
    (target : option string) (target_username : option string) (outcome : string) : stmt DB unit :=
  fun cx db =>
    let param o := match o with
                   | None => inr None
                   | Some s => match uuid_param s with inl err => inl err | inr id => inr (Some id) end
                   end in
    match param actor, param target with
    | inl err, _ | _, inl err => inl err
    | inr a, inr t => insert_audit a actor_username action t target_username None outcome cx db
    end.

Definition CreateOperator `{UnicodeTables} (username passwordHash role : string) : M DB OperatorRecord :=
  require_pool ;;
  let username := NormalizeUsername username in
  match ValidateUsername username with
  | Some err => throw err
  | None =>
      refuse_if (negb (Role_Valid role)) (errorString "invalid operator role") ;;
      Begin "failed to begin transaction" ;;
      deferring_Rollback (
        inserted ← tx_stmt (insert_operator_stmt username passwordHash role);
        match inserted with
        | inl err =>
            if unique_violation err then throw ErrUsernameConflict
            else throw (wrapDb "failed to insert operator" err)
        | inr record =>
            Exec (audit_stmt None "system" ActionOperatorCreated (Some (OpID record))
                    (Some (OpUsername record)) OutcomeSuccess)
              "failed to record operator creation audit event" ;;
            Commit "failed to commit operator creation" ;;
            mret record
        end)
  end.

Definition find_operator (username : string) (db : DB) : option (UUID * OperatorRow) :=
  find_row (fun _ r => String.eqb (op_username r) username) (operators db).

Definition query_operator (username : string) : stmt DB OperatorRecord :=
  fun _ db => row_or_none ((fun '(id, r) => operator_record id r) <$> find_operator username db) db.

Definition GetOperatorByUsername `{UnicodeTables} (username : string) : M DB OperatorRecord :=
  require_pool ;;
  let username := NormalizeUsername username in
  record ← PoolQueryRow (query_operator username) ErrOperatorNotFound "failed to query operator";
  match ParseRole (OpRole record) with
  | Err err => throw (wrapError "corrupt operator role" (errorString "unknown role"))
  | Ok role => mret record
  end.

(** ** CreateOperatorSession *)

Definition lock_enabled_operator (operatorID : string) : stmt DB (string * string) :=
  with_uuid operatorID (fun id _ db =>
    row_or_none (match operators db !! id with
                 | Some r => if is_null (op_disabled_at r) then Some (uuid_String id, op_username r) else None
                 | None => None
                 end) db).

Definition delete_sessions (p : UUID -> SessionRow -> bool) (db : DB) : DB :=
  with_sessions (filter (fun '(id, r) => p id r = false) (operator_sessions db)) db.

Definition prune_expired (operatorID : string) : stmt DB unit :=
  with_uuid operatorID (fun op cx db =>
    inr (tt, delete_sessions (fun _ r => N.eqb (se_operator_id r) op
                                         && (se_expires_at r <=? cx_now cx)) db)).

(** ORDER BY created_at DESC, id DESC *)
Definition session_newer (a b : UUID * SessionRow) : Prop :=
  se_created_at b.2 < se_created_at a.2 \/ (se_created_at a.2 = se_created_at b.2 /\ (b.1 <= a.1)%N).

#[export] Instance session_newer_dec a b : Decision (session_newer a b).
Proof. unfold session_newer. apply _. Defined.

Definition sessions_of (op : UUID) (db : DB) : list (UUID * SessionRow) :=
  List.filter (fun '(_, r) => N.eqb (se_operator_id r) op) (map_to_list (operator_sessions db)).

Definition retained (op : UUID) (n : Z) (db : DB) : list UUID :=
  fst <$> limit_rows n (merge_sort session_newer (sessions_of op db)).

Definition pruneExcessQuery (operatorID : string) (retainCount : Z) : stmt DB unit :=
  with_uuid operatorID (fun op _ db =>
    let keep := retained op retainCount db in
    inr (tt, delete_sessions (fun id r => N.eqb (se_operator_id r) op
                                          && negb (bool_decide (id ∈ keep))) db)).

Definition insertSessionQuery (operatorID tokenHash : string) (lifetimeSeconds : Z) :
    stmt DB SessionRecord :=
  with_uuid operatorID (fun op cx db =>
    let id := cx_uuidv7 cx in
    let r := mkSessionRow op tokenHash (cx_now cx) (cx_now cx + pg_interval_seconds lifetimeSeconds) in
    returning (insert_session id r db)
      (fun db' => (mkSessionRecord (uuid_String id) (uuid_String op) (se_created_at r) (se_expires_at r),
                   db'))).

Definition CreateOperatorSession (operatorID tokenHash : string) : M DB SessionRecord :=
  require_pool ;;
  Begin "failed to begin session transaction" ;;
  deferring_Rollback (
    row ← QueryRow (lock_enabled_operator operatorID) ErrAuthenticationFailed
            "failed to lock operator record";
    let '(lockedID, canonicalUsername) := row in
    Exec (prune_expired operatorID) "failed to prune expired sessions" ;;
    let retainCount := MaxActiveSessionsPerOperator - 1 in
    Exec (pruneExcessQuery operatorID retainCount) "failed to prune excess sessions" ;;
    let lifetimeSeconds := duration_seconds SessionLifetime in
    sessionRec ← Exec (insertSessionQuery operatorID tokenHash lifetimeSeconds) "failed to insert session";
    Exec (audit_stmt (Some operatorID) canonicalUsername ActionOperatorLogin (Some operatorID)
            (Some canonicalUsername) OutcomeSuccess) "failed to record login audit event" ;;
    Commit "failed to commit session transaction" ;;
    mret sessionRec).

(** ** FindOperatorSessionByTokenHash *)

(** The join: a live session of an enabled operator. *)
Definition session_match (tokenHash : string) (now : Z) (db : DB) :
    option (UUID * SessionRow * OperatorRow) :=
  match find_row (fun _ s => String.eqb (se_token_hash s) tokenHash && (now <? se_expires_at s)
                             && match operators db !! se_operator_id s with
                                | Some o => is_null (op_disabled_at o)
                                | None => false
                                end) (operator_sessions db) with
  | Some (id, s) => (fun o => (id, s, o)) <$> operators db !! se_operator_id s
  | None => None
  end.

Definition query_session (tokenHash : string) : stmt DB Principal :=
  fun cx db =>
    row_or_none ((fun '(id, s, o) =>
      mkPrincipal (uuid_String (se_operator_id s)) (op_username o) (op_role o) (uuid_String id)
                  (se_expires_at s)) <$> session_match tokenHash (cx_now cx) db) db.

Definition FindOperatorSessionByTokenHash (tokenHash : string) : M DB Principal :=
  require_pool ;;
  p ← PoolQueryRow (query_session tokenHash) ErrAuthenticationFailed "failed to query session";
  match ParseRole (PrRole p) with
  | Err _ => throw ErrAuthenticationFailed
  | Ok role => mret p
  end.

(** ** RevokeOperatorSession *)

Definition delete_session (sessionID operatorID : string) : stmt DB string :=
  with_uuid sessionID (fun sid => with_uuid operatorID (fun op _ db =>
    match operator_sessions db !! sid with
    | Some r =>
        if N.eqb (se_operator_id r) op
        then inr (uuid_String sid, with_sessions (delete sid (operator_sessions db)) db)
        else inl ErrNoRows
    | None => inl ErrNoRows
    end)).

Definition RevokeOperatorSession (sessionID operatorID username : string) : M DB unit :=
  require_pool ;;
  Begin "failed to begin logout transaction" ;;
  deferring_Rollback (
    QueryRow (delete_session sessionID operatorID) ErrSessionNotFound "failed to delete session" ;;
    Exec (audit_stmt (Some operatorID) username ActionOperatorLogout None None OutcomeSuccess)
      "failed to record logout audit event" ;;
    Commit "failed to commit logout transaction").

(** ** RecordAndListAuditEvents *)

(** ORDER BY occurred_at DESC, id DESC *)
Definition audit_newer (a b : AuditRow) : Prop :=
  au_occurred_at b < au_occurred_at a \/ (au_occurred_at a = au_occurred_at b /\ (au_id b <= au_id a)%N).

#[export] Instance audit_newer_dec a b : Decision (audit_newer a b).
Proof. unfold audit_newer. apply _. Defined.

Definition audit_record (r : AuditRow) : AuditEventRecord :=
  mkAuditEventRecord (uuid_String (au_id r)) (au_occurred_at r) (uuid_String <$> au_actor_operator_id r)
    (au_actor_username r) (au_action r) (uuid_String <$> au_target_operator_id r)
    (au_target_username r) (uuid_String <$> au_target_job_id r) (au_outcome r).

Definition listAuditQuery (limit : Z) : stmt DB (list AuditEventRecord) :=
  fun _ db =>
    inr (audit_record <$> limit_rows limit (merge_sort audit_newer (operator_audit_events db)), db).

Definition RecordAndListAuditEvents (actorOperatorID actorUsername : string) (limit : Z) :
    M DB (list AuditEventRecord) :=
  require_pool ;;
  refuse_if ((limit <=? 0) || (200 <? limit)) (errorString "invalid audit limit") ;;
  Begin "failed to begin audit read transaction" ;;
  deferring_Rollback (
    Exec (audit_stmt (Some actorOperatorID) actorUsername ActionOperatorAuditRead None None
            OutcomeSuccess) "failed to record audit read event" ;;
    events ← Exec (listAuditQuery limit) "failed to query audit events";
    Commit "failed to commit audit read transaction" ;;
    mret events).
End store.
