(* ===== verification/AccountContracts.v ===== *)
(** * Contracts of the account methods

    Enrollment (src/internal/database/database.go, RegisterAgent), sessions
    (CreateOperatorSession, FindOperatorSessionByTokenHash,
    RevokeOperatorSession) and the frame of every other method: specifications
    by branch and the proofs that the methods implement them. *)

From S2P Require Import Prelude GoStrings Job Operator Enrollment Protocol Postgres Schema JobStore JobSpec JobReconcile JobContracts AccountStore.

(** ** Lookups *)

Lemma find_row_some {A} p (m : gmap UUID A) id r :
  find_row p m = Some (id, r) -> m !! id = Some r /\ p id r = true.
Proof.
  unfold find_row. intros H.
  assert ((id, r) ∈ List.filter (fun '(id, r) => p id r) (map_to_list m)) as Hin.
  { destruct (List.filter _ _); [done|]. simplify_eq/=. apply list_elem_of_here. }
  apply list_elem_of_In, filter_In in Hin as [Hin Hp]. split; [|done].
  by apply elem_of_map_to_list, list_elem_of_In.
Qed.

Lemma find_row_none {A} p (m : gmap UUID A) id r :
  find_row p m = None -> m !! id = Some r -> p id r = false.
Proof.
  unfold find_row. intros H Hr. destruct (p id r) eqn:E; [|done]. exfalso.
  assert ((id, r) ∈ List.filter (fun '(id, r) => p id r) (map_to_list m)) as Hin.
  { apply list_elem_of_In, filter_In. split; [|done].
    by apply list_elem_of_In, elem_of_map_to_list. }
  destruct (List.filter _ _); [by apply elem_of_nil in Hin|done].
Qed.

(** ** The frame: which tables a method leaves alone *)

Section frames.
Context `{UuidText}.

Lemma insert_audit_keeps (P : DB -> Prop) a u act t tu tj out :
  (forall au db, P db -> P (with_audit au db)) ->
  stmt_keeps P (insert_audit a u act t tu tj out).
Proof. intros HP cx v x v' ->%insert_audit_inv Hv. by apply HP. Qed.

Lemma audit_stmt_keeps (P : DB -> Prop) a u act t tu out :
  (forall au db, P db -> P (with_audit au db)) -> stmt_keeps P (audit_stmt a u act t tu out).
Proof.
  intros HP cx v x v'. unfold audit_stmt.
  repeat (case_match; try done); intros; eapply insert_audit_keeps; eauto.
Qed.

End frames.

(** The frame of a method, statement by statement. *)
Ltac solve_stmt :=
  let cx := fresh "cx" in let v := fresh "v" in
  intros cx v ? ?;
  cbv [insert_token_stmt queryToken queryExistingAgent insertAgent consumeToken query_agent_key
       heartbeat_stmt upsert_inventory upsert_telemetry insert_operator_stmt query_operator
       lock_enabled_operator prune_expired pruneExcessQuery insertSessionQuery query_session
       delete_session listAuditQuery with_uuid returning row_or_none uuid_param
       insert_token insert_agent insert_operator insert_session];
  repeat (case_match; try done); intros; simplify_eq/=; done.

Ltac solve_keeps :=
  repeat (intros;
    lazymatch goal with
    | |- keeps _ (mbind _ _) => apply keeps_bind
    | |- keeps _ (deferring_Rollback _) => apply keeps_deferring
    | |- keeps _ (Exec _ _) => apply keeps_exec
    | |- keeps _ (QueryRow _ _ _) => apply keeps_query_row
    | |- keeps _ (PoolQuery _ _) => apply keeps_pool_query
    | |- keeps _ (PoolQueryRow _ _ _) => apply keeps_pool_query_row
    | |- keeps _ (tx_stmt _) => apply keeps_tx_stmt
    | |- keeps _ (match _ with _ => _ end) => case_match
    | |- keeps _ _ => solve [eauto 2 with keeps]
    | |- stmt_keeps _ (audit_stmt _ _ _ _ _ _) => apply audit_stmt_keeps; done
    | |- stmt_keeps _ _ => solve_stmt
    end).

Section job_frames.
Context `{UuidText}.

(** The account methods never touch jobs or their history. *)

Lemma CreateEnrollmentToken_frame db0 h x : keeps (jobs_equal db0) (CreateEnrollmentToken h x).
Proof. unfold CreateEnrollmentToken. solve_keeps. Qed.

Lemma RegisterAgent_frame db0 h k : keeps (jobs_equal db0) (RegisterAgent h k).
Proof. unfold RegisterAgent, register_retry, register_new. solve_keeps. Qed.

Lemma RecordAgentHeartbeat_frame db0 k v : keeps (jobs_equal db0) (RecordAgentHeartbeat k v).
Proof. unfold RecordAgentHeartbeat. solve_keeps. Qed.

Lemma RecordAgentInventory_frame db0 k r : keeps (jobs_equal db0) (RecordAgentInventory k r).
Proof. unfold RecordAgentInventory. solve_keeps. Qed.

Lemma RecordAgentTelemetry_frame db0 k r : keeps (jobs_equal db0) (RecordAgentTelemetry k r).
Proof. unfold RecordAgentTelemetry. solve_keeps. Qed.

Lemma CreateOperator_frame `{UnicodeTables} db0 u h r : keeps (jobs_equal db0) (CreateOperator u h r).
Proof. unfold CreateOperator. solve_keeps. Qed.

Lemma CreateOperatorSession_frame db0 o h : keeps (jobs_equal db0) (CreateOperatorSession o h).
Proof. unfold CreateOperatorSession. solve_keeps. Qed.

Lemma RevokeOperatorSession_frame db0 s o u : keeps (jobs_equal db0) (RevokeOperatorSession s o u).
Proof. unfold RevokeOperatorSession. solve_keeps. Qed.

Lemma RecordAndListAuditEvents_frame db0 o u n :
  keeps (jobs_equal db0) (RecordAndListAuditEvents o u n).
Proof. unfold RecordAndListAuditEvents. solve_keeps. Qed.
End job_frames.

(** ** Enrollment *)

(** A consumed token has exactly one agent, an unconsumed one none. *)
Record wf_enrollment (db : DB) : Prop := {
  wfe_hash : forall id1 id2 t1 t2, enrollment_tokens db !! id1 = Some t1 ->
    enrollment_tokens db !! id2 = Some t2 -> tok_hash t1 = tok_hash t2 -> id1 = id2;
  wfe_agent : forall aid a, agents db !! aid = Some a ->
    exists t, enrollment_tokens db !! ag_enrollment_token_id a = Some t /\ tok_consumed_at t <> None;
  wfe_key : forall a1 a2 r1 r2, agents db !! a1 = Some r1 -> agents db !! a2 = Some r2 ->
    ag_public_key r1 = ag_public_key r2 \/ ag_enrollment_token_id r1 = ag_enrollment_token_id r2 ->
    a1 = a2;
  wfe_consumed : forall id t, enrollment_tokens db !! id = Some t -> tok_consumed_at t <> None ->
    exists aid a, agents db !! aid = Some a /\ ag_enrollment_token_id a = id;
}.

Section enrollment.
Context `{UuidTextLaws}.

(** The row of a token, by the digest of its plaintext. *)
Definition token_row (db : DB) (tokenHash : string) (id : UUID) (t : TokenRow) : Prop :=
  enrollment_tokens db !! id = Some t /\ tok_hash t = tokenHash.

Definition enrolled (db : DB) (id aid : UUID) (a : AgentRow) : Prop :=
  agents db !! aid = Some a /\ ag_enrollment_token_id a = id.

Inductive register_spec (tokenHash publicKey : string) (db : DB) :
    result (AgentRecord * bool) -> DB -> Prop :=
| register_unknown :
    (forall id t, ~ token_row db tokenHash id t) ->
    register_spec tokenHash publicKey db (Err ErrEnrollmentRejected) db
| register_expired id t now :
    token_row db tokenHash id t -> tok_consumed_at t = None -> tok_expires_at t <= now ->
    register_spec tokenHash publicKey db (Err ErrEnrollmentRejected) db
| register_other_key id t aid a :
    token_row db tokenHash id t -> tok_consumed_at t <> None -> enrolled db id aid a ->
    ag_public_key a <> publicKey ->
    register_spec tokenHash publicKey db (Err ErrEnrollmentRejected) db
| register_again id t aid a :
    token_row db tokenHash id t -> tok_consumed_at t <> None -> enrolled db id aid a ->
    ag_public_key a = publicKey ->
    register_spec tokenHash publicKey db
      (Ok (mkAgentRecord (uuid_String aid) publicKey (ag_created_at a) None None, false)) db
| register_conflict id t aid :
    token_row db tokenHash id t -> tok_consumed_at t = None ->
    has_key (agents db) aid = true
    \/ (exists aid' a, agents db !! aid' = Some a
        /\ (ag_public_key a = publicKey \/ ag_enrollment_token_id a = id)) ->
    register_spec tokenHash publicKey db (Err ErrIdentityConflict) db
| register_fresh id t aid now :
    token_row db tokenHash id t -> tok_consumed_at t = None -> now < tok_expires_at t ->
    agents db !! aid = None ->
    (forall aid' a, agents db !! aid' = Some a ->
       ag_public_key a <> publicKey /\ ag_enrollment_token_id a <> id) ->
    register_spec tokenHash publicKey db
      (Ok (mkAgentRecord (uuid_String aid) publicKey now None None, true))
      (with_tokens (<[id := consume_set now t]> (enrollment_tokens db))
         (with_agents (<[aid := mkAgentRow publicKey id now None None]> (agents db)) db)).

Lemma with_uuid_string {A} id (f : UUID -> stmt DB A) cx db :
  with_uuid (uuid_String id) f cx db = f id cx db.
Proof. unfold with_uuid, uuid_param. by rewrite uuid_parse_string. Qed.

Lemma insert_agent_cases id r db :
  (exists code, code <> "23505"%string /\ insert_agent id r db = inl (PgError code))
  \/ (insert_agent id r db = inl (PgError "23505")
      /\ (has_key (agents db) id = true
          \/ exists id' r', agents db !! id' = Some r'
             /\ (ag_public_key r' = ag_public_key r
                 \/ ag_enrollment_token_id r' = ag_enrollment_token_id r)))
  \/ (insert_agent id r db = inr (with_agents (<[id := r]> (agents db)) db)
      /\ agents db !! id = None
      /\ forall id' r', agents db !! id' = Some r' ->
           ag_public_key r' <> ag_public_key r
           /\ ag_enrollment_token_id r' <> ag_enrollment_token_id r).
Proof.
  unfold insert_agent. destruct (_ || _) eqn:E1; [left; by exists "23514"%string|].
  destruct (has_key (agents db) id || _) eqn:E2.
  - right; left. split; [done|]. apply orb_prop in E2 as [E2|E2]; [by left|right].
    apply negb_true_iff, bool_decide_eq_false in E2.
    apply map_not_Forall in E2 as (id' & r' & Hr & Hn); [|apply _].
    exists id', r'. split; [done|].
    destruct (decide (ag_public_key r' = ag_public_key r)); [by left|right].
    destruct (decide (ag_enrollment_token_id r' = ag_enrollment_token_id r)); [done|]. naive_solver.
  - destruct (has_key (enrollment_tokens db) _); [right; right|left; by exists "23503"%string].
    bsplit. split; [done|]. match goal with H : bool_decide _ = true |- _ => apply bool_decide_eq_true in H end.
    unfold has_key in *. split; [by destruct (agents db !! id)|done].
Qed.

Lemma register_new_ok tokenHash publicKey id t e db now n :
  token_row db tokenHash id t -> tok_consumed_at t = None -> now < tok_expires_at t ->
  wp (register_new (uuid_String id) publicKey)
    (fun r w => outcome db (register_spec tokenHash publicKey db) r
                  (mkWorld (committed w) TxNone (step w))) e (mkWorld db (TxOpen db now) n).
Proof.
  intros Ht Hc Hx. unfold register_new. apply wp_bind, wp_tx_stmt.
  - by apply wp_throw, outcome_unchanged.
  - unfold insertAgent. rewrite with_uuid_string. unfold returning.
    set (cx := stmt_ctx _ _ _). set (row := mkAgentRow _ _ _ _ _).
    destruct (insert_agent_cases (cx_uuidv7 cx) row db) as [(c & _ & ->)|[[-> _]|[-> _]]]; done.
  - unfold insertAgent. rewrite with_uuid_string. unfold returning.
    set (cx := stmt_ctx _ _ _). set (row := mkAgentRow _ _ _ _ _).
    destruct (insert_agent_cases (cx_uuidv7 cx) row db) as [(c & Hne & ->)|[[-> Hr]|[-> _]]]; [| |done].
    + intros err _ [= <-]. unfold unique_violation. rewrite (proj2 (String.eqb_neq _ _) Hne).
      by apply wp_throw, outcome_unchanged.
    + intros err _ [= <-]. apply wp_throw, outcome_done. by eapply register_conflict.
  - intros a v'. unfold insertAgent. rewrite with_uuid_string. unfold returning.
    set (cx := stmt_ctx _ _ _). set (row := mkAgentRow _ _ _ _ _).
    destruct (insert_agent_cases (cx_uuidv7 cx) row db) as [(c & Hne & ->)|[[-> Hr]|(-> & Hn & Hu)]];
      [done..|]. intros [= <- <-].
    apply wp_bind, wp_exec; [by intros; apply outcome_unchanged..|].
    intros tag v'. unfold consumeToken. rewrite with_uuid_string.
    change (enrollment_tokens (with_agents ?x ?d)) with (enrollment_tokens d).
    rewrite (proj1 Ht). intros [= <- <-].
    assert (register_spec tokenHash publicKey db
      (Ok (mkAgentRecord (uuid_String (cx_uuidv7 cx)) publicKey now None None, true))
      (with_tokens (<[id := consume_set now t]> (enrollment_tokens db))
         (with_agents (<[cx_uuidv7 cx := row]> (agents db)) db))) as HS by by eapply register_fresh.
    apply wp_bind, wp_refuse_if; [done|intros _].
    apply wp_bind, wp_commit; [by apply outcome_unchanged|by eapply outcome_lost|].
    by apply wp_ret, outcome_done.
Qed.

Lemma RegisterAgent_ok tokenHash publicKey e db n :
  wp (RegisterAgent tokenHash publicKey) (outcome db (register_spec tokenHash publicKey db)) e
    (mkWorld db TxNone n).
Proof.
  unfold RegisterAgent.
  apply wp_bind, wp_require_pool; [by auto with pg|].
  apply wp_bind, wp_begin; [by auto with pg|]. apply wp_deferring.
  apply wp_bind, wp_query_row; [by intros; apply outcome_unchanged| |];
    unfold queryToken, row_or_none.
  - destruct (find_row _ _) as [[id t]|] eqn:E; [done|]. intros _. apply outcome_done, register_unknown.
    intros id t [Ht Hh]. apply (find_row_none _ _ _ _ E) in Ht. by apply String.eqb_neq in Ht.
  - destruct (find_row _ _) as [[id t]|] eqn:E; [|done]. intros row v' [= <- <-].
    apply find_row_some in E as [Ht Hh]. apply String.eqb_eq in Hh.
    assert (token_row db tokenHash id t) as Hrow by done. cbn [fst snd].
    destruct (tok_consumed_at t) as [c|] eqn:Ec.
    + unfold register_retry. apply wp_bind, wp_exec; [by intros; apply outcome_unchanged..|].
      intros a v'. unfold queryExistingAgent. rewrite with_uuid_string. unfold row_or_none.
      destruct (find_row _ (agents db)) as [[aid ag]|] eqn:Ea; [|done]. intros [= <- <-].
      apply find_row_some in Ea as [Ha Hid]. apply N.eqb_eq in Hid.
      assert (tok_consumed_at t <> None) as Hc by congruence.
      apply wp_bind, wp_refuse_if; intros Hk; bsplit.
      * apply outcome_done. by eapply register_other_key.
      * assert (register_spec tokenHash publicKey db
          (Ok (mkAgentRecord (uuid_String aid) publicKey (ag_created_at ag) None None, false)) db)
          as HS by by eapply register_again.
        apply wp_bind, wp_commit; [by apply outcome_unchanged|by eapply outcome_lost|].
        by apply wp_ret, outcome_done.
    + apply wp_bind, wp_refuse_if; intros Hx; cbn [stmt_ctx cx_now] in Hx; bsplit.
      * apply outcome_done. by eapply register_expired.
      * eapply register_new_ok; done.
Qed.
End enrollment.

(** What the invariant reads of an agent row. *)
Definition same_enrollment (db db' : DB) : Prop :=
  enrollment_tokens db' = enrollment_tokens db
  /\ (forall aid, (fun a => (ag_public_key a, ag_enrollment_token_id a)) <$> agents db' !! aid
                = (fun a => (ag_public_key a, ag_enrollment_token_id a)) <$> agents db !! aid).

Lemma same_enrollment_agent db db' aid a :
  same_enrollment db db' -> agents db' !! aid = Some a ->
  exists a0, agents db !! aid = Some a0 /\ ag_public_key a0 = ag_public_key a
             /\ ag_enrollment_token_id a0 = ag_enrollment_token_id a.
Proof.
  intros [_ Ha] Haid. specialize (Ha aid). rewrite Haid in Ha. simpl in Ha.
  destruct (agents db !! aid) as [a0|]; [|done]. simpl in Ha. simplify_eq. by exists a0.
Qed.

Lemma same_enrollment_agent_back db db' aid a :
  same_enrollment db db' -> agents db !! aid = Some a ->
  exists a', agents db' !! aid = Some a' /\ ag_public_key a' = ag_public_key a
             /\ ag_enrollment_token_id a' = ag_enrollment_token_id a.
Proof.
  intros [_ Ha] Haid. specialize (Ha aid). rewrite Haid in Ha. simpl in Ha.
  destruct (agents db' !! aid) as [a'|]; [|done]. simpl in Ha. simplify_eq. by exists a'.
Qed.

Lemma wf_enrollment_same db db' :
  same_enrollment db db' -> wf_enrollment db -> wf_enrollment db'.
Proof.
  intros Hs Hwf. pose proof Hs as [Ht _]. split.
  - rewrite Ht. apply Hwf.
  - intros aid a (a0 & H0 & _ & <-)%(same_enrollment_agent _ _ _ _ Hs). rewrite Ht.
    by eapply wfe_agent.
  - intros a1 a2 r1 r2 (b1 & H1 & K1 & T1)%(same_enrollment_agent _ _ _ _ Hs)
      (b2 & H2 & K2 & T2)%(same_enrollment_agent _ _ _ _ Hs).
    rewrite <- K1, <- K2, <- T1, <- T2. by apply (wfe_key _ Hwf).
  - rewrite Ht. intros id t Hid Hc.
    destruct (wfe_consumed _ Hwf _ _ Hid Hc) as (aid & a & Ha & <-).
    destruct (same_enrollment_agent_back _ _ _ _ Hs Ha) as (a' & Ha' & _ & E). eauto.
Qed.

Lemma wf_enrollment_empty : wf_enrollment empty_db.
Proof. by split. Qed.

Lemma wf_enrollment_token db id r db' :
  tok_consumed_at r = None -> insert_token id r db = inr db' -> wf_enrollment db -> wf_enrollment db'.
Proof.
  unfold insert_token, has_key. intros Hr.
  destruct (negb (len _ =? 32)); [done|].
  destruct (enrollment_tokens db !! id) eqn:Hn; [done|]. simpl.
  destruct (negb _) eqn:Hu; [done|]. intros [= <-] Hwf. bsplit.
  apply bool_decide_eq_true in Hu. split; simpl.
  - intros id1 id2 t1 t2 [[<- <-]|[N1 H1]]%lookup_insert_Some [[<- <-]|[N2 H2]]%lookup_insert_Some E;
      [done| | |by apply (wfe_hash _ Hwf id1 id2 t1 t2)].
    + by destruct (Hu _ _ H2).
    + by destruct (Hu _ _ H1).
  - intros aid a (t & Ht & Hc)%(wfe_agent _ Hwf). exists t. split; [|done].
    rewrite lookup_insert_ne; [done|]. intros ->. congruence.
  - apply Hwf.
  - intros id1 t [[<- <-]|[N1 H1]]%lookup_insert_Some Hc; [done|]. by apply (wfe_consumed _ Hwf id1 t).
Qed.

Section enrollment_invariant.
Context `{UuidTextLaws}.

Lemma register_wf h k db r db' :
  register_spec h k db r db' -> wf_enrollment db -> wf_enrollment db'.
Proof.
  intros [| | | | |id t aid now [Ht Hh] Hc Hx Hn Hu] Hwf; try done. split; simpl.
  - intros id1 id2 t1 t2 [[<- <-]|[N1 H1]]%lookup_insert_Some [[<- <-]|[N2 H2]]%lookup_insert_Some E;
      simpl in *; [done| | |by apply (wfe_hash _ Hwf id1 id2 t1 t2)].
    + by apply (wfe_hash _ Hwf id id2 t t2).
    + by apply (wfe_hash _ Hwf id1 id t1 t).
  - intros a1 r1 [[<- <-]|[N1 H1]]%lookup_insert_Some; simpl.
    + exists (consume_set now t). by rewrite lookup_insert_eq.
    + destruct (wfe_agent _ Hwf _ _ H1) as (t1 & Ht1 & Hc1). exists t1. split; [|done].
      rewrite lookup_insert_ne; [done|]. intros Heq. apply (Hu _ _ H1). by rewrite <- Heq.
  - intros a1 a2 r1 r2 [[<- <-]|[N1 H1]]%lookup_insert_Some [[<- <-]|[N2 H2]]%lookup_insert_Some E;
      simpl in *; [done| | |by apply (wfe_key _ Hwf a1 a2 r1 r2)].
    + destruct (Hu _ _ H2). destruct E; congruence.
    + destruct (Hu _ _ H1). destruct E; congruence.
  - intros id1 t1 [[<- <-]|[N1 H1]]%lookup_insert_Some Hc1.
    + exists aid, (mkAgentRow k id now None None). by rewrite lookup_insert_eq.
    + destruct (wfe_consumed _ Hwf _ _ H1 Hc1) as (a1 & r1 & Ha1 & E). exists a1, r1.
      split; [|done]. rewrite lookup_insert_ne; [done|]. intros ->. congruence.
Qed.

(** A successful registration leaves its token bound to the key. *)
Definition bound_to (db : DB) (h k : string) (rec : AgentRecord) : Prop :=
  exists id t aid a, token_row db h id t /\ tok_consumed_at t <> None /\ enrolled db id aid a
    /\ ag_public_key a = k /\ AgID rec = uuid_String aid /\ AgPublicKey rec = k.

Lemma register_binds h k db rec b db' :
  register_spec h k db (Ok (rec, b)) db' -> bound_to db' h k rec.
Proof.
  intros Hr. inversion Hr; simplify_eq.
  - by exists id, t, aid, a.
  - exists id, (consume_set now t), aid, (mkAgentRow k id now None None). unfold token_row, enrolled.
    simpl. rewrite !lookup_insert_eq. match goal with H : token_row _ _ _ _ |- _ => destruct H end.
    repeat split; try done.
Qed.

(** On a bound token only the same key succeeds, with the same identity. *)
Lemma register_bound h k rec db k2 r2 db2 :
  wf_enrollment db -> bound_to db h k rec -> register_spec h k2 db r2 db2 ->
  db2 = db /\ ((k2 = k /\ exists rec2, r2 = Ok (rec2, false) /\ AgID rec2 = AgID rec
                 /\ AgPublicKey rec2 = AgPublicKey rec)
               \/ (k2 <> k /\ r2 = Err ErrEnrollmentRejected)).
Proof.
  intros Hwf (id & t & aid & a & [Ht Hh] & Hc & [Ha Hi] & Hk & Hid & Hpk) Hr.
  assert (forall id' t', token_row db h id' t' -> id' = id /\ t' = t) as Htok.
  { intros id' t' [Ht' Hh']. assert (id' = id) as -> by (eapply wfe_hash; eauto; congruence).
    split; [done|congruence]. }
  assert (forall aid' a', enrolled db id aid' a' -> aid' = aid /\ a' = a) as Hag.
  { intros aid' a' [Ha' Hi']. assert (aid' = aid) as ->
      by (eapply wfe_key; eauto; right; congruence). split; [done|congruence]. }
  destruct Hr as [Hn|id' t' now' Hrow Hnc|id' t' aid' a' Hrow _ He Hne|id' t' aid' a' Hrow _ He He2
                 |id' t' aid' Hrow Hnc|id' t' aid' now' Hrow Hnc];
    try (apply Htok in Hrow as [-> ->]); try (congruence).
  - by destruct (Hn id t).
  - apply Hag in He as [-> ->]. split; [done|]. right. split; [congruence|done].
  - apply Hag in He as [-> ->]. split; [done|]. left. split; [congruence|].
    eexists. repeat split; simpl; congruence.
Qed.

(** Tokens and agents are never rebound. *)
Lemma bound_same db db' h k rec :
  same_enrollment db db' -> bound_to db h k rec -> bound_to db' h k rec.
Proof.
  intros Hs (id & t & aid & a & [Ht Hh] & Hc & [Ha Hi] & Hk & Hid & Hpk).
  destruct (same_enrollment_agent_back _ _ _ _ Hs Ha) as (a' & Ha' & Ek & Ei).
  destruct Hs as [Htok _]. exists id, t, aid, a'. unfold token_row, enrolled. rewrite Htok.
  repeat split; congruence.
Qed.

Lemma bound_insert_token db db' h k rec id r :
  insert_token id r db = inr db' -> bound_to db h k rec -> bound_to db' h k rec.
Proof.
  unfold insert_token, has_key. destruct (negb (len _ =? 32)); [done|].
  destruct (enrollment_tokens db !! id) eqn:Hn; [done|]. simpl. destruct (negb _); [done|].
  intros [= <-] (id' & t & aid & a & [Ht Hh] & Hc & He & Hrest).
  exists id', t, aid, a. unfold token_row. simpl. rewrite lookup_insert_ne by congruence. done.
Qed.

Lemma bound_register db db' h k rec h2 k2 r2 :
  register_spec h2 k2 db r2 db' -> bound_to db h k rec -> bound_to db' h k rec.
Proof.
  intros [| | | | |id2 t2 aid2 now [Ht2 Hh2] Hc2 Hx Hn Hu]; try done.
  intros (id & t & aid & a & [Ht Hh] & Hc & [Ha Hi] & Hrest).
  exists id, t, aid, a. unfold token_row, enrolled. simpl.
  rewrite !lookup_insert_ne by congruence. done.
Qed.
End enrollment_invariant.

(** ** Sessions *)

Definition bounded_sessions (db : DB) : Prop :=
  forall op, Z.of_nat (length (sessions_of op db)) <= MaxActiveSessionsPerOperator.

Definition unique_session_hashes (db : DB) : Prop :=
  forall id1 id2 s1 s2, operator_sessions db !! id1 = Some s1 -> operator_sessions db !! id2 = Some s2 ->
    se_token_hash s1 = se_token_hash s2 -> id1 = id2.

Lemma elem_of_sessions_of op db x :
  x ∈ sessions_of op db <-> operator_sessions db !! x.1 = Some x.2 /\ se_operator_id x.2 = op.
Proof.
  unfold sessions_of. rewrite list_elem_of_In, filter_In, <- list_elem_of_In.
  destruct x as [id r]. rewrite elem_of_map_to_list, N.eqb_eq. done.
Qed.

Lemma sessions_of_NoDup op db : NoDup ((sessions_of op db).*1).
Proof.
  unfold sessions_of. apply (sublist_NoDup _ ((map_to_list (operator_sessions db)).*1));
    [apply NoDup_fst_map_to_list|apply fmap_sublist, sublist_list_filter].
Qed.

(** Sessions counted by a set of ids that contains them all. *)
Lemma sessions_of_bound op db (ids : list UUID) :
  (forall id r, operator_sessions db !! id = Some r -> se_operator_id r = op -> id ∈ ids) ->
  (length (sessions_of op db) <= length ids)%nat.
Proof.
  intros Hin. rewrite <- (length_fmap fst). apply submseteq_length, NoDup_submseteq.
  - apply sessions_of_NoDup.
  - intros id ([id' r] & -> & [Hl Ho]%elem_of_sessions_of)%list_elem_of_fmap. by eapply Hin.
Qed.

Lemma sessions_of_length_mono op db db' :
  (forall id r, operator_sessions db' !! id = Some r -> se_operator_id r = op ->
     exists r0, operator_sessions db !! id = Some r0 /\ se_operator_id r0 = op) ->
  (length (sessions_of op db') <= length (sessions_of op db))%nat.
Proof.
  intros Hs. rewrite <- (length_fmap fst (sessions_of op db)). apply sessions_of_bound.
  intros id r Hl Ho. destruct (Hs _ _ Hl Ho) as (r0 & H0 & E).
  apply list_elem_of_fmap. exists (id, r0). split; [done|]. by apply elem_of_sessions_of.
Qed.

Lemma lookup_delete_sessions p db id r :
  operator_sessions (delete_sessions p db) !! id = Some r
  <-> operator_sessions db !! id = Some r /\ p id r = false.
Proof. simpl. by rewrite map_lookup_filter_Some. Qed.

Section sessions.
Context `{UuidTextLaws}.

(** What pruning leaves of the sessions before the new one is added: nothing
    of the operator that has expired, at most [n] of the rest, and the
    newest of them. *)
Record pruned (op : UUID) (now : Z) (n : Z) (before after : DB) : Prop := {
  pr_sub : forall id r, operator_sessions after !! id = Some r -> operator_sessions before !! id = Some r;
  pr_others : forall id r, operator_sessions before !! id = Some r -> se_operator_id r <> op ->
    operator_sessions after !! id = Some r;
  pr_live : forall id r, operator_sessions after !! id = Some r -> se_operator_id r = op ->
    now < se_expires_at r;
  pr_count : Z.of_nat (length (sessions_of op after)) <= n;
  pr_newest : forall id r id' r', operator_sessions before !! id = Some r -> se_operator_id r = op ->
    now < se_expires_at r -> operator_sessions after !! id = None ->
    operator_sessions after !! id' = Some r' -> se_operator_id r' = op ->
    session_newer (id', r') (id, r);
}.

#[local] Instance session_newer_total : Total session_newer.
Proof. intros a b. unfold session_newer. lia. Qed.
#[local] Instance session_newer_trans : Transitive session_newer.
Proof. intros a b c. unfold session_newer. lia. Qed.

Lemma sorted_take_drop {A} (R : A -> A -> Prop) n l x y :
  StronglySorted R l -> x ∈ take n l -> y ∈ drop n l -> R x y.
Proof.
  intros Hs. rewrite <- (take_drop n l) in Hs. intros Hx Hy.
  by eapply StronglySorted_app in Hs as (Hxy & _ & _); eauto.
Qed.

Lemma prune_ok op now n db :
  0 <= n ->
  let db1 := delete_sessions (fun _ r => N.eqb (se_operator_id r) op && (se_expires_at r <=? now)) db in
  let keep := retained op n db1 in
  pruned op now n db
    (delete_sessions (fun id r => N.eqb (se_operator_id r) op && negb (bool_decide (id ∈ keep))) db1).
Proof.
  intros Hn db1 keep. set (db2 := delete_sessions _ db1).
  assert (forall id r, operator_sessions db2 !! id = Some r -> se_operator_id r = op -> id ∈ keep) as Hkeep.
  { intros id r [_ Hp]%lookup_delete_sessions Ho. rewrite (proj2 (N.eqb_eq _ _) Ho) in Hp.
    simpl in Hp. bsplit. by apply bool_decide_eq_true in Hp. }
  pose proof (merge_sort_Permutation session_newer (sessions_of op db1)) as Hperm.
  pose proof (StronglySorted_merge_sort session_newer (sessions_of op db1)) as Hsort.
  split.
  - by intros id r [[? _]%lookup_delete_sessions _]%lookup_delete_sessions.
  - intros id r Hl Ho. apply N.eqb_neq in Ho.
    apply lookup_delete_sessions. rewrite Ho. split; [|done].
    apply lookup_delete_sessions. by rewrite Ho.
  - intros id r [[_ Hp]%lookup_delete_sessions _]%lookup_delete_sessions Ho.
    rewrite (proj2 (N.eqb_eq _ _) Ho) in Hp. simpl in Hp. by bsplit.
  - pose proof (sessions_of_bound op db2 keep Hkeep) as Hb. unfold keep, retained, limit_rows in Hb.
    rewrite length_fmap, length_take in Hb. lia.
  - intros id r id' r' Hl Ho Hx Hgone Hl' Ho'.
    assert (operator_sessions db1 !! id = Some r) as H1.
    { apply lookup_delete_sessions. split; [done|].
      by rewrite (proj2 (Z.leb_gt _ _) Hx), andb_false_r. }
    assert (operator_sessions db1 !! id' = Some r') as H1'.
    { by apply lookup_delete_sessions in Hl' as [? _]. }
    assert (id' ∈ keep) as Hin' by eauto.
    assert (id ∉ keep) as Hout.
    { intros Hin. enough (operator_sessions db2 !! id = Some r) by congruence.
      apply lookup_delete_sessions. split; [done|].
      by rewrite (bool_decide_eq_true_2 _ Hin), andb_false_r. }
    unfold keep, retained, limit_rows in *.
    apply list_elem_of_fmap in Hin' as ([id'' r''] & -> & Hin').
    assert (r'' = r') as ->.
    { pose proof (elem_of_take_inv _ _ _ Hin') as Hm. rewrite Hperm in Hm.
      apply elem_of_sessions_of in Hm as [Hm _]. simpl in *. congruence. }
    eapply sorted_take_drop; [done|exact Hin'|].
    assert ((id, r) ∈ merge_sort session_newer (sessions_of op db1)) as Hall.
    { rewrite Hperm. by apply elem_of_sessions_of. }
    rewrite <- (take_drop (Z.to_nat n) (merge_sort _ _)) in Hall.
    apply elem_of_app in Hall as [Hall|Hall]; [|done].
    exfalso. apply Hout. apply list_elem_of_fmap. by exists (id, r).
Qed.

Definition session_lifetime_micros : Z := pg_interval_seconds (duration_seconds SessionLifetime).

Definition login_audit (aid op : UUID) (username action : string) (target : option UUID)
    (target_username : option string) (t : Z) : AuditRow :=
  mkAuditRow aid (Some op) username action target target_username OutcomeSuccess t None.

Inductive session_spec (operatorID tokenHash : string) (db : DB) :
    result SessionRecord -> DB -> Prop :=
| session_refused op :
    uuid_Parse operatorID = Some op ->
    (forall r, operators db !! op = Some r -> op_disabled_at r <> None) ->
    session_spec operatorID tokenHash db (Err ErrAuthenticationFailed) db
| session_created op r sid aid now mid :
    uuid_Parse operatorID = Some op -> operators db !! op = Some r -> op_disabled_at r = None ->
    pruned op now (MaxActiveSessionsPerOperator - 1) db mid ->
    operator_sessions mid !! sid = None ->
    (forall id s, operator_sessions mid !! id = Some s -> se_token_hash s <> tokenHash) ->
    len tokenHash = 32 ->
    let row := mkSessionRow op tokenHash now (now + session_lifetime_micros) in
    session_spec operatorID tokenHash db
      (Ok (mkSessionRecord (uuid_String sid) (uuid_String op) now (now + session_lifetime_micros)))
      (with_audit (operator_audit_events db
                     ++ [login_audit aid op (op_username r) ActionOperatorLogin (Some op)
                           (Some (op_username r)) now])
         (with_sessions (<[sid := row]> (operator_sessions mid)) db)).

Lemma with_uuid_parse {A} s id (f : UUID -> stmt DB A) cx db :
  uuid_Parse s = Some id -> with_uuid s f cx db = f id cx db.
Proof. unfold with_uuid, uuid_param. by intros ->. Qed.

Lemma with_uuid_none {A} s (f : UUID -> stmt DB A) cx db :
  uuid_Parse s = None -> with_uuid s f cx db = inl (PgError "22P02").
Proof. unfold with_uuid, uuid_param. by intros ->. Qed.

Lemma insert_session_inv id r db db' :
  insert_session id r db = inr db' ->
  db' = with_sessions (<[id := r]> (operator_sessions db)) db
  /\ operator_sessions db !! id = None
  /\ (forall id' r', operator_sessions db !! id' = Some r' -> se_token_hash r' <> se_token_hash r)
  /\ len (se_token_hash r) = 32.
Proof.
  unfold insert_session, session_checks, has_key.
  destruct (len _ =? 32) eqn:Hl; [|done]. destruct (_ <? _); [|done]. simpl.
  destruct (operator_sessions db !! id) eqn:E; [done|]. simpl.
  destruct (bool_decide _) eqn:Hu; [|done]. apply bool_decide_eq_true in Hu. simpl.
  destruct (operators db !! _); [|done]. intros [= <-]. bsplit. repeat split; try done; by apply Hu.
Qed.

Lemma audit_stmt_inv a u act t tu out cx v x v' :
  audit_stmt a u act t tu out cx v = inr (x, v') ->
  exists a' t', (a' = a ≫= uuid_Parse) /\ (t' = t ≫= uuid_Parse)
    /\ v' = with_audit (operator_audit_events v
             ++ [mkAuditRow (cx_uuidv7 cx) a' u act t' tu out (cx_now cx) None]) v.
Proof.
  unfold audit_stmt, uuid_param.
  destruct a as [a|], t as [t|]; simpl;
    repeat match goal with |- context [uuid_Parse ?s] => destruct (uuid_Parse s) eqn:? end; try done;
    intros ->%insert_audit_inv; simpl; eauto.
Qed.

Lemma CreateOperatorSession_ok operatorID tokenHash e db n :
  wp (CreateOperatorSession operatorID tokenHash)
    (outcome db (session_spec operatorID tokenHash db)) e (mkWorld db TxNone n).
Proof.
  unfold CreateOperatorSession.
  apply wp_bind, wp_require_pool; [by auto with pg|].
  apply wp_bind, wp_begin; [by auto with pg|]. apply wp_deferring.
  apply wp_bind. unfold lock_enabled_operator.
  destruct (uuid_Parse operatorID) as [op|] eqn:Hop.
  2: { apply wp_query_row; [by intros; apply outcome_unchanged|..]; rewrite with_uuid_none by done; done. }
  apply wp_query_row; [by intros; apply outcome_unchanged|..]; rewrite (with_uuid_parse _ op) by done;
    unfold row_or_none.
  { intros Hnone. apply outcome_done, session_refused with op; [done|]. intros r Hr. simpl in Hr. rewrite Hr in Hnone.
    by destruct (op_disabled_at r). }
  destruct (operators db !! op) as [r|] eqn:Hr; [|done].
  destruct (op_disabled_at r) eqn:Hd; [done|]. simpl. intros a v' [= <- <-].
  apply wp_bind, wp_exec; [by intros; apply outcome_unchanged..|].
  intros [] v1. unfold prune_expired. rewrite (with_uuid_parse _ op) by done. intros [= <-].
  apply wp_bind, wp_exec; [by intros; apply outcome_unchanged..|].
  intros [] v2. unfold pruneExcessQuery. rewrite (with_uuid_parse _ op) by done. intros [= <-].
  cbn [stmt_ctx cx_now].
  pose proof (prune_ok op (env_now e n) (MaxActiveSessionsPerOperator - 1) db ltac:(done)) as Hpr.
  simpl in Hpr. set (mid := delete_sessions _ (delete_sessions _ _)) in *.
  apply wp_bind, wp_exec; [by intros; apply outcome_unchanged..|].
  intros rec v3. unfold insertSessionQuery. rewrite (with_uuid_parse _ op) by done. unfold returning.
  destruct (insert_session _ _ mid) as [|v4] eqn:Hi; [done|]. intros [= <- <-].
  apply insert_session_inv in Hi as (-> & Hn & Hu & Hl).
  apply wp_bind, wp_exec; [by intros; apply outcome_unchanged..|].
  intros x v5 (a' & t' & -> & -> & ->)%audit_stmt_inv. cbn [mbind option_bind]. rewrite Hop.
  set (sid := cx_uuidv7 _) in *. cbn [stmt_ctx cx_now cx_uuidv7].
  assert (forall aid, session_spec operatorID tokenHash db
    (Ok (mkSessionRecord (uuid_String sid) (uuid_String op) (env_now e n)
           (env_now e n + session_lifetime_micros))) _) as HS
    by (intros aid; by apply (session_created _ _ _ op r sid aid (env_now e n) mid)).
  apply wp_bind, wp_commit; [by apply outcome_unchanged|eapply outcome_lost; [apply HS|done]|].
  apply wp_ret, outcome_done, HS.
Qed.

Lemma session_spec_bound operatorID tokenHash db r db' :
  session_spec operatorID tokenHash db r db' -> bounded_sessions db -> bounded_sessions db'.
Proof.
  intros [|op o sid aid now mid Hp Ho Hd Hpr Hn Hu Hl row] Hb; [done|]. intros op'.
  destruct (decide (op' = op)) as [->|Hne].
  - pose proof (pr_count _ _ _ _ _ Hpr) as Hc.
    match goal with |- Z.of_nat (length (sessions_of op ?d)) <= _ =>
      assert (length (sessions_of op d) <= length (sid :: (sessions_of op mid).*1))%nat as Hle
    end.
    { apply sessions_of_bound. simpl. intros id s [[<- <-]|[N1 H1]]%lookup_insert_Some E; [set_solver|].
      apply elem_of_cons. right. apply list_elem_of_fmap. exists (id, s). split; [done|].
      by apply elem_of_sessions_of. }
    simpl in Hle. rewrite length_fmap in Hle. unfold MaxActiveSessionsPerOperator in *. lia.
  - etrans; [|apply (Hb op')]. apply inj_le, sessions_of_length_mono. simpl.
    intros id s [[<- <-]|[N1 H1]]%lookup_insert_Some E; [done|].
    exists s. split; [by eapply pr_sub|done].
Qed.

Lemma session_spec_unique operatorID tokenHash db r db' :
  session_spec operatorID tokenHash db r db' -> unique_session_hashes db -> unique_session_hashes db'.
Proof.
  intros [|op o sid aid now mid Hp Ho Hd Hpr Hn Hu Hl row] Hb; [done|].
  intros id1 id2 s1 s2. simpl.
  intros [[<- <-]|[N1 H1]]%lookup_insert_Some [[<- <-]|[N2 H2]]%lookup_insert_Some E; simpl in *.
  - done.
  - by destruct (Hu _ _ H2).
  - by destruct (Hu _ _ H1).
  - eapply Hb; eauto using pr_sub.
Qed.

(** ** FindOperatorSessionByTokenHash *)

Definition live_session (db : DB) (tokenHash : string) (now : Z) (sid : UUID) (s : SessionRow)
    (o : OperatorRow) : Prop :=
  operator_sessions db !! sid = Some s /\ se_token_hash s = tokenHash /\ now < se_expires_at s
  /\ operators db !! se_operator_id s = Some o /\ op_disabled_at o = None.

Definition principal_of (sid : UUID) (s : SessionRow) (o : OperatorRow) : Principal :=
  mkPrincipal (uuid_String (se_operator_id s)) (op_username o) (op_role o) (uuid_String sid)
              (se_expires_at s).

(** [now] is the clock of the database when the query runs. *)
Inductive find_session_spec (tokenHash : string) (now : Z) (db : DB) : result Principal -> DB -> Prop :=
| find_session_live sid s o :
    live_session db tokenHash now sid s o -> Role_Valid (op_role o) = true ->
    find_session_spec tokenHash now db (Ok (principal_of sid s o)) db
| find_session_none :
    (forall sid s o, live_session db tokenHash now sid s o -> Role_Valid (op_role o) = false) ->
    find_session_spec tokenHash now db (Err ErrAuthenticationFailed) db.

Lemma ParseRole_is_Ok s : is_Ok (ParseRole s) = Role_Valid s.
Proof. unfold ParseRole, Role_Valid. by repeat case_match. Qed.

Lemma session_match_some h now db sid s o :
  session_match h now db = Some (sid, s, o) -> live_session db h now sid s o.
Proof.
  unfold session_match. destruct (find_row _ _) as [[id r]|] eqn:E; [|done].
  apply find_row_some in E as [Hl Hp].
  destruct (operators db !! se_operator_id r) as [o'|] eqn:Ho; [|done]. simpl. intros [= -> -> ->].
  bsplit. repeat split; try done. by destruct (op_disabled_at o).
Qed.

Lemma session_match_none h now db sid s o :
  session_match h now db = None -> ~ live_session db h now sid s o.
Proof.
  unfold session_match. intros Hm (Hl & Hh & Hx & Ho & Hd).
  destruct (find_row _ _) as [[id r]|] eqn:E.
  - apply find_row_some in E as [_ Hp]. by destruct (operators db !! se_operator_id r); bsplit.
  - apply (find_row_none _ _ _ _ E) in Hl. rewrite Ho, Hd, Hh in Hl. simpl in Hl.
    rewrite String.eqb_refl, (proj2 (Z.ltb_lt _ _) Hx) in Hl. done.
Qed.

Lemma FindOperatorSession_ok tokenHash e db n :
  unique_session_hashes db ->
  wp (FindOperatorSessionByTokenHash tokenHash)
    (outcome db (find_session_spec tokenHash (env_now e n) db)) e (mkWorld db TxNone n).
Proof.
  intros Hu. unfold FindOperatorSessionByTokenHash.
  apply wp_bind, wp_require_pool; [by auto with pg|].
  apply wp_bind, wp_pool_query_row; [by intros; apply outcome_unchanged| |];
    unfold query_session, row_or_none; cbn [stmt_ctx cx_now];
    destruct (session_match _ _ _) as [[[sid s] o]|] eqn:E; try done.
  - intros _. apply outcome_done, find_session_none. intros sid s o Hlive.
    by destruct (session_match_none _ _ _ _ _ _ E Hlive).
  - intros p v' [= <- <-]. split; [by apply outcome_unchanged|].
    apply session_match_some in E. pose proof (ParseRole_is_Ok (op_role o)) as Hr. simpl.
    destruct (ParseRole (op_role o)); simpl in Hr.
    + apply wp_ret, outcome_done. by apply find_session_live.
    + apply wp_throw, outcome_done, find_session_none.
      intros sid' s' o' (Hl' & Hh' & _ & Ho' & _). destruct E as (Hl & Hh & _ & Ho & _).
      assert (sid' = sid) as -> by (eapply Hu; eauto; congruence). by simplify_eq/=.
Qed.

(** ** RevokeOperatorSession *)

Inductive revoke_spec (sessionID operatorID username : string) (db : DB) : result unit -> DB -> Prop :=
| revoke_missing sid op :
    uuid_Parse sessionID = Some sid -> uuid_Parse operatorID = Some op ->
    (forall s, operator_sessions db !! sid = Some s -> se_operator_id s <> op) ->
    revoke_spec sessionID operatorID username db (Err ErrSessionNotFound) db
| revoke_done sid op s aid t :
    uuid_Parse sessionID = Some sid -> uuid_Parse operatorID = Some op ->
    operator_sessions db !! sid = Some s -> se_operator_id s = op ->
    revoke_spec sessionID operatorID username db (Ok tt)
      (with_audit (operator_audit_events db ++ [login_audit aid op username ActionOperatorLogout None None t])
         (with_sessions (delete sid (operator_sessions db)) db)).

Lemma RevokeOperatorSession_ok sessionID operatorID username e db n :
  wp (RevokeOperatorSession sessionID operatorID username)
    (outcome db (revoke_spec sessionID operatorID username db)) e (mkWorld db TxNone n).
Proof.
  unfold RevokeOperatorSession.
  apply wp_bind, wp_require_pool; [by auto with pg|].
  apply wp_bind, wp_begin; [by auto with pg|]. apply wp_deferring.
  apply wp_bind. unfold delete_session.
  destruct (uuid_Parse sessionID) as [sid|] eqn:Hs.
  2: { apply wp_query_row; [by intros; apply outcome_unchanged|..]; rewrite with_uuid_none by done; done. }
  destruct (uuid_Parse operatorID) as [op|] eqn:Ho.
  2: { apply wp_query_row; [by intros; apply outcome_unchanged|..];
       rewrite (with_uuid_parse _ sid), with_uuid_none by done; done. }
  apply wp_query_row; [by intros; apply outcome_unchanged|..];
    rewrite (with_uuid_parse _ sid), (with_uuid_parse _ op) by done;
    (destruct (operator_sessions db !! sid) as [s|] eqn:El;
     [destruct (N.eqb (se_operator_id s) op) eqn:Eo|]); try done.
  - intros _. apply outcome_done, revoke_missing with sid op; try done. simpl. rewrite El.
    intros s' [= <-]. by apply N.eqb_neq.
  - intros _. apply outcome_done, revoke_missing with sid op; try done. simpl. by rewrite El.
  - intros a v' [= <- <-].
    apply wp_bind, wp_exec; [by intros; apply outcome_unchanged..|].
    intros x v5 (a' & t' & -> & -> & ->)%audit_stmt_inv. cbn [mbind option_bind]. rewrite Ho.
    apply N.eqb_eq in Eo.
    assert (forall aid t, revoke_spec sessionID operatorID username db (Ok tt) _) as HS
      by (intros aid t; by apply (revoke_done _ _ _ _ sid op s aid t)).
    apply wp_commit; [by apply outcome_unchanged|eapply outcome_lost; [apply HS|done]|].
    apply outcome_done, HS.
Qed.

(** ** RecordAndListAuditEvents *)

Definition audit_page (limit : Z) (db : DB) (evs : list AuditEventRecord) : Prop :=
  exists sorted, Sorted audit_newer sorted /\ sorted ≡ₚ operator_audit_events db
    /\ evs = audit_record <$> limit_rows limit sorted.

Inductive audit_spec (actorID username : string) (limit : Z) (db : DB) :
    result (list AuditEventRecord) -> DB -> Prop :=
| audit_listed op aid t evs :
    uuid_Parse actorID = Some op -> 1 <= limit <= 200 ->
    let db' := with_audit (operator_audit_events db
                 ++ [login_audit aid op username ActionOperatorAuditRead None None t]) db in
    audit_page limit db' evs ->
    audit_spec actorID username limit db (Ok evs) db'.

#[local] Instance audit_newer_total : Total audit_newer.
Proof. intros a b. unfold audit_newer. lia. Qed.

Lemma RecordAndListAuditEvents_ok actorID username limit e db n :
  wp (RecordAndListAuditEvents actorID username limit)
    (outcome db (audit_spec actorID username limit db)) e (mkWorld db TxNone n).
Proof.
  unfold RecordAndListAuditEvents.
  apply wp_bind, wp_require_pool; [by auto with pg|].
  apply wp_bind, wp_refuse_if; intros Hl; [by apply outcome_unchanged|]. bsplit.
  apply wp_bind, wp_begin; [by auto with pg|]. apply wp_deferring.
  destruct (uuid_Parse actorID) as [op|] eqn:Ho.
  2: { apply wp_bind, wp_exec; [by intros; apply outcome_unchanged..|].
       intros x v'. unfold audit_stmt, uuid_param. by rewrite Ho. }
  apply wp_bind, wp_exec; [by intros; apply outcome_unchanged..|].
  intros x v5 (a' & t' & -> & -> & ->)%audit_stmt_inv. cbn [mbind option_bind]. rewrite Ho.
  apply wp_bind, wp_exec; [by intros; apply outcome_unchanged..|].
  intros evs v' [= <- <-].
  match goal with |- context [with_audit ?au db] =>
    assert (audit_page limit (with_audit au db)
      (audit_record <$> limit_rows limit (merge_sort audit_newer au))) as Hpage
      by (exists (merge_sort audit_newer au); split; [apply Sorted_merge_sort, _|];
          split; [apply merge_sort_Permutation|done])
  end.
  cbn [stmt_ctx cx_now cx_uuidv7] in *.
  assert (audit_spec actorID username limit db (Ok (audit_record <$> limit_rows limit (merge_sort audit_newer
    (operator_audit_events db ++ [login_audit (env_uuidv7 e (S n)) op username ActionOperatorAuditRead None None
       (env_now e n)])))) (with_audit (operator_audit_events db ++ [login_audit (env_uuidv7 e (S n)) op username
          ActionOperatorAuditRead None None (env_now e n)]) db)) as HS by (by apply audit_listed; [|lia|]).
  apply wp_bind, wp_commit; [by apply outcome_unchanged|by eapply outcome_lost|].
  by apply wp_ret, outcome_done.
Qed.

(** ** CreateOperator *)

Definition new_operator (username passwordHash role : string) (now : Z) : OperatorRow :=
  mkOperatorRow username passwordHash role None now now.

Inductive create_operator_spec (username passwordHash role : string) (db : DB) :
    result OperatorRecord -> DB -> Prop :=
| operator_invalid err :
    ValidateUsername username = Some err ->
    create_operator_spec username passwordHash role db (Err err) db
| operator_conflict id :
    has_key (operators db) id = true
    \/ (exists id' o, operators db !! id' = Some o /\ op_username o = username) ->
    create_operator_spec username passwordHash role db (Err ErrUsernameConflict) db
| operator_created id aid now ta :
    ValidateUsername username = None -> Role_Valid role = true -> operators db !! id = None ->
    (forall id' o, operators db !! id' = Some o -> op_username o <> username) ->
    let row := new_operator username passwordHash role now in
    create_operator_spec username passwordHash role db (Ok (operator_record id row))
      (with_audit (operator_audit_events db
                     ++ [mkAuditRow aid None "system" ActionOperatorCreated (Some id) (Some username)
                           OutcomeSuccess ta None])
         (with_operators (<[id := row]> (operators db)) db)).

Lemma insert_operator_cases id r db :
  (exists code, code <> "23505"%string /\ insert_operator id r db = inl (PgError code))
  \/ (insert_operator id r db = inl (PgError "23505")
      /\ (has_key (operators db) id = true
          \/ exists id' r', operators db !! id' = Some r' /\ op_username r' = op_username r))
  \/ (insert_operator id r db = inr (with_operators (<[id := r]> (operators db)) db)
      /\ operators db !! id = None
      /\ forall id' r', operators db !! id' = Some r' -> op_username r' <> op_username r).
Proof.
  unfold insert_operator. destruct (negb (operator_checks r)); [left; by exists "23514"%string|].
  destruct (has_key (operators db) id || _) eqn:E2.
  - right; left. split; [done|]. apply orb_prop in E2 as [E2|E2]; [by left|right].
    apply negb_true_iff, bool_decide_eq_false in E2.
    apply map_not_Forall in E2 as (id' & r' & Hr & Hn); [|apply _].
    exists id', r'. split; [done|].
    destruct (decide (op_username r' = op_username r)); [done|]. by destruct Hn.
  - bsplit. right; right. split; [done|].
    match goal with H : bool_decide _ = true |- _ => apply bool_decide_eq_true in H end.
    unfold has_key in *. split; [by destruct (operators db !! id)|done].
Qed.

Lemma CreateOperator_ok `{UnicodeTables} username passwordHash role e db n :
  wp (CreateOperator username passwordHash role)
    (outcome db (create_operator_spec (NormalizeUsername username) passwordHash role db)) e
    (mkWorld db TxNone n).
Proof.
  unfold CreateOperator. set (u := NormalizeUsername username).
  apply wp_bind, wp_require_pool; [by auto with pg|].
  destruct (ValidateUsername u) as [err|] eqn:Hv; [by apply wp_throw, outcome_done, operator_invalid|].
  apply wp_bind, wp_refuse_if; intros Hrole; [by apply outcome_unchanged|]. bsplit.
  apply wp_bind, wp_begin; [by auto with pg|]. apply wp_deferring.
  apply wp_bind. unfold insert_operator_stmt, returning.
  pose proof (insert_operator_cases (env_uuidv7 e (S n))
                (new_operator u passwordHash role (env_now e n)) db) as Hcases.
  apply wp_tx_stmt; cbn [stmt_ctx cx_now cx_uuidv7]; fold (new_operator u passwordHash role (env_now e n)).
  - by apply wp_throw, outcome_unchanged.
  - destruct Hcases as [(c & _ & ->)|[[-> _]|[-> _]]]; done.
  - destruct Hcases as [(c & Hne & ->)|[[-> Hr]|[-> _]]]; [| |done]; intros err _ [= <-]; simpl.
    + rewrite (proj2 (String.eqb_neq _ _) Hne). by apply wp_throw, outcome_unchanged.
    + by eapply wp_throw, outcome_done, operator_conflict.
  - destruct Hcases as [(c & Hne & ->)|[[-> _]|(-> & Hn & Hu)]]; [done..|]. intros rec v' [= <- <-].
    apply wp_bind, wp_exec; [by intros; apply outcome_unchanged..|].
    intros x v5 (a' & t' & -> & -> & ->)%audit_stmt_inv. simpl. rewrite uuid_parse_string.
    assert (forall aid ta, create_operator_spec u passwordHash role db
      (Ok (operator_record (env_uuidv7 e (S n)) (new_operator u passwordHash role (env_now e n)))) _) as HS
      by (intros aid ta; by apply (operator_created _ _ _ _ (env_uuidv7 e (S n)) aid (env_now e n) ta)).
    apply wp_bind, wp_commit; [by apply outcome_unchanged|eapply outcome_lost; [apply HS|done]|].
    apply wp_ret, outcome_done, HS.
Qed.
End sessions.
