(* ===== verification/System.v ===== *)
(** * The store under any sequence of requests and failures

    Every method of [*DB] as one call type, the tables reachable from an empty
    schema by any sequence of calls run against any servers and networks, and
    the invariant of these tables. *)

From S2P Require Import Prelude GoStrings Job Operator Enrollment Protocol Postgres Schema JobStore JobSpec JobReconcile JobContracts AccountStore AccountContracts.

Inductive call :=
| CallCreateJob (operatorID agentID : UUID) (action hash : string)
| CallGetJobByID (jobID : UUID)
| CallListJobs (limit : Z) (agentID : option UUID) (state : option string)
| CallListJobEvents (jobID : UUID) (limit : Z)
| CallClaimNextAgentJob (agentID : UUID)
| CallStartAgentJob (agentID jobID : UUID) (attempt : Z)
| CallCompleteAgentJob (agentID jobID : UUID) (attempt : Z) (outcome failureCode : string)
| CallCreateEnrollmentToken (tokenHash : string) (expiresAt : Z)
| CallRegisterAgent (tokenHash publicKey : string)
| CallFindAgentByPublicKey (publicKey : string)
| CallRecordAgentHeartbeat (publicKey : string) (version : Z)
| CallRecordAgentInventory (publicKey : string) (req : option InventoryRequest)
| CallRecordAgentTelemetry (publicKey : string) (req : option TelemetryRequest)
| CallCreateOperator (username passwordHash role : string)
| CallGetOperatorByUsername (username : string)
| CallCreateOperatorSession (operatorID tokenHash : string)
| CallFindOperatorSession (tokenHash : string)
| CallRevokeOperatorSession (sessionID operatorID username : string)
| CallRecordAndListAuditEvents (actorID username : string) (limit : Z).

Section system.
Context `{UuidTextLaws} `{UnicodeTables}.

(** The tables a call leaves, run on committed tables outside a transaction. *)
Definition after_call (c : call) (e : Env) (db : DB) : DB :=
  let w := mkWorld db TxNone 0 in
  match c with
  | CallCreateJob o a act h => committed (CreateJob o a act h e w).2
  | CallGetJobByID j => committed (GetJobByID j e w).2
  | CallListJobs n a s => committed (ListJobs n a s e w).2
  | CallListJobEvents j n => committed (ListJobEvents j n e w).2
  | CallClaimNextAgentJob a => committed (ClaimNextAgentJob a e w).2
  | CallStartAgentJob a j n => committed (StartAgentJob a j n e w).2
  | CallCompleteAgentJob a j n o f => committed (CompleteAgentJob a j n o f e w).2
  | CallCreateEnrollmentToken h x => committed (CreateEnrollmentToken h x e w).2
  | CallRegisterAgent h k => committed (RegisterAgent h k e w).2
  | CallFindAgentByPublicKey k => committed (FindAgentByPublicKey k e w).2
  | CallRecordAgentHeartbeat k v => committed (RecordAgentHeartbeat k v e w).2
  | CallRecordAgentInventory k r => committed (RecordAgentInventory k r e w).2
  | CallRecordAgentTelemetry k r => committed (RecordAgentTelemetry k r e w).2
  | CallCreateOperator u h r => committed (CreateOperator u h r e w).2
  | CallGetOperatorByUsername u => committed (GetOperatorByUsername u e w).2
  | CallCreateOperatorSession o h => committed (CreateOperatorSession o h e w).2
  | CallFindOperatorSession h => committed (FindOperatorSessionByTokenHash h e w).2
  | CallRevokeOperatorSession s o u => committed (RevokeOperatorSession s o u e w).2
  | CallRecordAndListAuditEvents a u n => committed (RecordAndListAuditEvents a u n e w).2
  end.

Definition is_job_call (c : call) : bool :=
  match c with
  | CallCreateJob _ _ _ _ | CallGetJobByID _ | CallListJobs _ _ _ | CallListJobEvents _ _
  | CallClaimNextAgentJob _ | CallStartAgentJob _ _ _ | CallCompleteAgentJob _ _ _ _ _ => true
  | _ => false
  end.

Lemma wp_committed {A} (m : M DB A) S e db :
  wp m (outcome db S) e (mkWorld db TxNone 0) ->
  outcome db S (m e (mkWorld db TxNone 0)).1 (m e (mkWorld db TxNone 0)).2.
Proof. apply wp_run. Qed.

Lemma keeps_committed {A} (m : M DB A) (P : DB -> Prop) e db :
  keeps P m -> P db -> P (committed (m e (mkWorld db TxNone 0)).2).
Proof. intros Hm Hp. apply (Hm e (mkWorld db TxNone 0)). by split. Qed.

(** ** Jobs move only along the life cycle *)

Lemma job_call_steps c e db :
  wf_jobs db -> is_job_call c = true -> rtc lifecycle_step db (after_call c e db).
Proof.
  intros Hwf Hc. destruct c; simpl in *; try done.
  - eapply outcome_rel; [done| |by apply wp_committed, CreateJob_ok].
    intros r' db' []; try done. by apply rtc_once.
  - eapply outcome_rel; [done| |by apply wp_committed, GetJobByID_ok].
    intros r' db' []; [done|]. by eapply single_spec_rtc.
  - eapply outcome_rel; [done| |by apply wp_committed, ListJobs_ok].
    intros r' db' []. by eapply reconciled_rtc.
  - eapply outcome_rel; [done| |by apply wp_committed, ListJobEvents_ok]. by intros r' db' [].
  - eapply outcome_rel; [done| |by apply wp_committed, ClaimNextAgentJob_ok].
    intros r' db' []; [done|by eapply reconciled_rtc..|].
    eapply rtc_r; [by eapply reconciled_rtc|done].
  - eapply outcome_rel; [done| |by apply wp_committed, StartAgentJob_ok].
    intros r' db' []; [by apply rtc_once|done].
  - eapply outcome_rel; [done| |by apply wp_committed, CompleteAgentJob_ok].
    intros r' db' []; try done; by apply rtc_once.
Qed.

Lemma account_call_jobs c e db :
  is_job_call c = false -> jobs_equal db (after_call c e db).
Proof.
  assert (jobs_equal db db) as Hr by done.
  intros Hc. destruct c; simpl in *; try done; (apply keeps_committed; [|done]).
  - apply CreateEnrollmentToken_frame.
  - apply RegisterAgent_frame.
  - unfold FindAgentByPublicKey. solve_keeps.
  - apply RecordAgentHeartbeat_frame.
  - apply RecordAgentInventory_frame.
  - apply RecordAgentTelemetry_frame.
  - apply CreateOperator_frame.
  - unfold GetOperatorByUsername. solve_keeps.
  - apply CreateOperatorSession_frame.
  - unfold FindOperatorSessionByTokenHash. solve_keeps.
  - apply RevokeOperatorSession_frame.
  - apply RecordAndListAuditEvents_frame.
Qed.

Lemma call_wf_jobs c e db : wf_jobs db -> wf_jobs (after_call c e db).
Proof.
  intros Hwf. destruct (is_job_call c) eqn:E.
  - eapply steps_wf; [done|by apply job_call_steps].
  - eapply wf_jobs_equal; [by apply account_call_jobs|done].
Qed.

(** ** Enrollment and sessions *)

Definition accounts_equal (db db' : DB) : Prop :=
  enrollment_tokens db' = enrollment_tokens db /\ agents db' = agents db
  /\ operators db' = operators db /\ operator_sessions db' = operator_sessions db.

Lemma step_accounts db db' : lifecycle_step db db' -> accounts_equal db db'.
Proof. by destruct 1. Qed.

Lemma steps_accounts db db' : rtc lifecycle_step db db' -> accounts_equal db db'.
Proof.
  induction 1 as [|db db1 db2 Hs _ IH]; [done|]. apply step_accounts in Hs.
  unfold accounts_equal in *. intuition congruence.
Qed.

Definition enrollment_equal (db db' : DB) : Prop :=
  enrollment_tokens db' = enrollment_tokens db /\ agents db' = agents db.

Lemma enrollment_equal_same db db' : enrollment_equal db db' -> same_enrollment db db'.
Proof. intros [? Ha]. split; [done|]. by rewrite Ha. Qed.

Lemma same_enrollment_trans db1 db2 db3 :
  same_enrollment db1 db2 -> same_enrollment db2 db3 -> same_enrollment db1 db3.
Proof. intros [T1 A1] [T2 A2]. split; [congruence|]. intros aid. by rewrite A2, A1. Qed.

Lemma heartbeat_keeps db0 k v : keeps (same_enrollment db0) (RecordAgentHeartbeat k v).
Proof.
  unfold RecordAgentHeartbeat. apply keeps_bind; [apply keeps_require_pool|intros _].
  apply keeps_pool_query_row. intros cx db a db'. unfold heartbeat_stmt.
  destruct (negb _); [done|]. unfold find_agent. destruct (find_row _ _) as [[id r]|] eqn:E; [|done].
  apply find_row_some in E as [Hl _]. destruct (negb _); [done|]. intros [= <- <-] Hs.
  apply (same_enrollment_trans _ _ _ Hs). split; [done|]. intros aid. simpl.
  destruct (decide (aid = id)) as [->|]; [by rewrite lookup_insert_eq, Hl|by rewrite lookup_insert_ne].
Qed.

(** What one call can do to tokens and agents. *)
Inductive enrollment_step (db db' : DB) : Prop :=
| enrollment_kept : same_enrollment db db' -> enrollment_step db db'
| enrollment_token id r :
    tok_consumed_at r = None -> insert_token id r db = inr db' -> enrollment_step db db'
| enrollment_agent h k r : register_spec h k db r db' -> enrollment_step db db'.

Lemma token_step h x e db :
  enrollment_step db (committed (CreateEnrollmentToken h x e (mkWorld db TxNone 0)).2).
Proof.
  assert (enrollment_step db db) as Hrefl by by apply enrollment_kept.
  assert (wp (CreateEnrollmentToken h x) (fun _ w => enrollment_step db (committed w)) e
            (mkWorld db TxNone 0)) as Hw; [|by apply wp_run in Hw].
  unfold CreateEnrollmentToken. apply wp_bind, wp_require_pool; [done|].
  apply wp_pool_query; [done|]. intros a db'. unfold insert_token_stmt, returning.
  destruct (insert_token _ _ db) as [|d] eqn:E; [done|]. intros [= <- <-].
  assert (enrollment_step db d) by (eapply enrollment_token; [|exact E]; done). done.
Qed.

Lemma enrollment_frame {A} (m : M DB A) e db :
  (forall db0, keeps (enrollment_equal db0) m) ->
  enrollment_step db (committed (m e (mkWorld db TxNone 0)).2).
Proof.
  intros Hk. apply enrollment_kept, enrollment_equal_same, keeps_committed; [apply Hk|done].
Qed.

Lemma call_enrollment_step c e db : wf_jobs db -> enrollment_step db (after_call c e db).
Proof.
  intros Hj. destruct (is_job_call c) eqn:E.
  - pose proof (steps_accounts _ _ (job_call_steps c e db Hj E)) as (Ht & Ha & _).
    by apply enrollment_kept, enrollment_equal_same.
  - destruct c; simpl in *; try done.
    + apply token_step.
    + eapply outcome_inv; [|intros r' db' Hr; by eapply enrollment_agent|
                           by apply wp_committed, RegisterAgent_ok]. by apply enrollment_kept.
    + apply enrollment_frame. intros. unfold FindAgentByPublicKey. solve_keeps.
    + apply enrollment_kept, keeps_committed; [apply heartbeat_keeps|done].
    + apply enrollment_frame. intros. unfold RecordAgentInventory. solve_keeps.
    + apply enrollment_frame. intros. unfold RecordAgentTelemetry. solve_keeps.
    + apply enrollment_frame. intros. unfold CreateOperator. solve_keeps.
    + apply enrollment_frame. intros. unfold GetOperatorByUsername. solve_keeps.
    + apply enrollment_frame. intros. unfold CreateOperatorSession. solve_keeps.
    + apply enrollment_frame. intros. unfold FindOperatorSessionByTokenHash. solve_keeps.
    + apply enrollment_frame. intros. unfold RevokeOperatorSession. solve_keeps.
    + apply enrollment_frame. intros. unfold RecordAndListAuditEvents. solve_keeps.
Qed.

Lemma call_wf_enrollment c e db :
  wf_jobs db -> wf_enrollment db -> wf_enrollment (after_call c e db).
Proof.
  intros Hj Hwf. destruct (call_enrollment_step c e db Hj) as [Hs|id r Hn Hi|h k r Hr].
  - by eapply wf_enrollment_same.
  - by eapply wf_enrollment_token.
  - by eapply register_wf.
Qed.

Definition wf_sessions (db : DB) : Prop := bounded_sessions db /\ unique_session_hashes db.

Definition sessions_equal (db db' : DB) : Prop := operator_sessions db' = operator_sessions db.

Lemma wf_sessions_sub db db' :
  (forall id s, operator_sessions db' !! id = Some s -> operator_sessions db !! id = Some s) ->
  wf_sessions db -> wf_sessions db'.
Proof.
  intros Hs [Hb Hu]. split.
  - intros op. etrans; [|apply (Hb op)]. apply inj_le, sessions_of_length_mono. eauto.
  - intros id1 id2 s1 s2 Hl1 Hl2. apply Hu; auto.
Qed.

Lemma sessions_frame {A} (m : M DB A) e db :
  (forall db0, keeps (sessions_equal db0) m) -> wf_sessions db ->
  wf_sessions (committed (m e (mkWorld db TxNone 0)).2).
Proof.
  intros Hk Hwf. eapply wf_sessions_sub; [|done]. intros id s.
  by rewrite (keeps_committed m (sessions_equal db) e db (Hk db)).
Qed.

Lemma call_wf_sessions c e db : wf_jobs db -> wf_sessions db -> wf_sessions (after_call c e db).
Proof.
  intros Hj Hwf. destruct (is_job_call c) eqn:E.
  - pose proof (steps_accounts _ _ (job_call_steps c e db Hj E)) as (_ & _ & _ & Hs).
    eapply wf_sessions_sub; [|done]. intros id s. by rewrite Hs.
  - destruct c; simpl in *; try done.
    + apply sessions_frame; [|done]. intros. unfold CreateEnrollmentToken. solve_keeps.
    + apply sessions_frame; [|done]. intros. unfold RegisterAgent, register_retry, register_new. solve_keeps.
    + apply sessions_frame; [|done]. intros. unfold FindAgentByPublicKey. solve_keeps.
    + apply sessions_frame; [|done]. intros. unfold RecordAgentHeartbeat. solve_keeps.
    + apply sessions_frame; [|done]. intros. unfold RecordAgentInventory. solve_keeps.
    + apply sessions_frame; [|done]. intros. unfold RecordAgentTelemetry. solve_keeps.
    + apply sessions_frame; [|done]. intros. unfold CreateOperator. solve_keeps.
    + apply sessions_frame; [|done]. intros. unfold GetOperatorByUsername. solve_keeps.
    + eapply outcome_inv; [exact Hwf| |by apply wp_committed, CreateOperatorSession_ok].
      intros r' db' Hr. destruct Hwf. split; [by eapply session_spec_bound|by eapply session_spec_unique].
    + apply sessions_frame; [|done]. intros. unfold FindOperatorSessionByTokenHash. solve_keeps.
    + eapply outcome_inv; [exact Hwf| |by apply wp_committed, RevokeOperatorSession_ok].
      intros r' db' [|]; [done|]. eapply wf_sessions_sub; [|done]. simpl.
      by intros id' s' [_ ?]%lookup_delete_Some.
    + apply sessions_frame; [|done]. intros. unfold RecordAndListAuditEvents. solve_keeps.
Qed.

(** ** Reachable tables *)

Inductive reachable : DB -> Prop :=
| reachable_empty : reachable empty_db
| reachable_call c e db : reachable db -> reachable (after_call c e db).

Record wf_store (db : DB) : Prop := {
  wfs_jobs : wf_jobs db;
  wfs_enrollment : wf_enrollment db;
  wfs_sessions : wf_sessions db;
}.

Lemma reachable_ok db : reachable db -> wf_store db.
Proof.
  induction 1 as [|c e db _ [Hj He Hs]].
  - split; [apply wf_empty|apply wf_enrollment_empty|]. split; [by intros op|done].
  - split; [by apply call_wf_jobs|by apply call_wf_enrollment|by apply call_wf_sessions].
Qed.
End system.
