(* ===== verification/Runs.v ===== *)
(** * Single calls and sequences of calls

    The result of one method and the tables it leaves, and what any further
    sequence of calls, by anyone, keeps: jobs stay, histories only grow, a job
    is started at most once. *)

From S2P Require Import Prelude GoStrings Job Operator Enrollment Protocol Postgres Schema JobStore JobSpec JobReconcile JobContracts AccountStore AccountContracts System.

(** The result of a method run outside a transaction, and the tables it leaves. *)
Definition result_of {A} (m : M DB A) (e : Env) (db : DB) : result A := (m e (mkWorld db TxNone 0)).1.
Definition tables_after {A} (m : M DB A) (e : Env) (db : DB) : DB :=
  committed (m e (mkWorld db TxNone 0)).2.

Lemma wp_outcome {A} (m : M DB A) S e db :
  wp m (outcome db S) e (mkWorld db TxNone 0) ->
  outcome db S (result_of m e db) (m e (mkWorld db TxNone 0)).2.
Proof. apply wp_run. Qed.

Lemma result_ok {A} (m : M DB A) S e db a :
  wp m (outcome db S) e (mkWorld db TxNone 0) ->
  result_of m e db = Ok a -> S (Ok a) (tables_after m e db).
Proof. intros Hw%wp_outcome Hr. rewrite Hr in Hw. by apply outcome_ok in Hw. Qed.

Lemma result_sentinel {A} (m : M DB A) S e db name :
  wp m (outcome db S) e (mkWorld db TxNone 0) ->
  result_of m e db = Err (sentinel name) -> S (Err (sentinel name)) (tables_after m e db).
Proof. intros Hw%wp_outcome Hr. rewrite Hr in Hw. by apply outcome_sentinel in Hw. Qed.

Section sequences.
Context `{UuidTextLaws} `{UnicodeTables}.

(** Any number of further calls. *)
Definition called (db db' : DB) : Prop := exists c e, db' = after_call c e db.

Lemma called_reachable db db' : reachable db -> rtc called db db' -> reachable db'.
Proof.
  intros Hr Hc. induction Hc as [|db db1 db2 (c & e & ->) _ IH]; [done|].
  by apply IH, reachable_call.
Qed.

(** Along calls a job stays, and a terminal one stays as it is. *)
Lemma called_lookup db db' id j :
  reachable db -> rtc called db db' -> jobs db !! id = Some j ->
  exists j', jobs db' !! id = Some j' /\ same_identity j j' /\ (is_active j = false -> j' = j).
Proof.
  intros Hr Hc. revert j. induction Hc as [db|db db1 db2 (c & e & ->) Hc IH]; intros j Hj.
  { exists j. by repeat split. }
  assert (exists j1, jobs (after_call c e db) !! id = Some j1 /\ same_identity j j1
                     /\ (is_active j = false -> j1 = j)) as (j1 & Hj1 & Hs1 & Ht1).
  { destruct (is_job_call c) eqn:E.
    - eapply steps_lookup; [|done]. apply job_call_steps; [|done]. by apply reachable_ok.
    - destruct (account_call_jobs c e db E) as [-> _]. exists j. by repeat split. }
  destruct (IH ltac:(by apply reachable_call) _ Hj1) as (j2 & Hj2 & Hs2 & Ht2).
  exists j2. split; [done|]. unfold same_identity in *. split; [intuition congruence|].
  intros Ha. pose proof (Ht1 Ha) as ->. auto.
Qed.

(** The history only grows along calls. *)
Lemma called_history db db' :
  reachable db -> rtc called db db' -> exists evs, job_events db' = job_events db ++ evs.
Proof.
  intros Hr Hc. induction Hc as [db|db db1 db2 (c & e & ->) Hc IH].
  { exists []. by rewrite app_nil_r. }
  destruct (IH ltac:(by apply reachable_call)) as [evs ->].
  destruct (is_job_call c) eqn:E.
  - destruct (steps_history db (after_call c e db)) as [evs1 ->].
    { apply job_call_steps; [|done]. by apply reachable_ok. }
    exists (evs1 ++ evs). by rewrite app_assoc.
  - destruct (account_call_jobs c e db E) as [_ ->]. by exists evs.
Qed.

Lemma started_once db id :
  reachable db -> (length (events_typed EventJobStarted (events_of id (job_events db))) <= 1)%nat.
Proof.
  intros Hr%reachable_ok. destruct Hr as [Hwf _ _].
  destruct (jobs db !! id) as [j|] eqn:Hj.
  - destruct (replay_counts _ _ (wf_history _ Hwf _ _ Hj)) as (_ & _ & ->).
    destruct (was_started (summary_of j)); simpl; lia.
  - rewrite (wf_orphans _ Hwf _ Hj). simpl. lia.
Qed.

Lemma events_of_app id l1 l2 : events_of id (l1 ++ l2) = events_of id l1 ++ events_of id l2.
Proof. apply List.filter_app. Qed.

Lemma events_typed_app t l1 l2 : events_typed t (l1 ++ l2) = events_typed t l1 ++ events_typed t l2.
Proof. apply List.filter_app. Qed.

Lemma start_counts db db' id j ev :
  db' = put_job id j ev db -> EventJobID ev = id -> EventType ev = EventJobStarted ->
  length (events_typed EventJobStarted (events_of id (job_events db')))
  = S (length (events_typed EventJobStarted (events_of id (job_events db)))).
Proof.
  intros -> He Ht. rewrite events_of_put_same by done.
  rewrite events_typed_app, length_app. simpl. rewrite Ht. simpl. lia.
Qed.
End sequences.

