(* ===== verification/UuidHex.v ===== *)
(** * A concrete textual form of identifiers

    The development is parametric in the textual form of UUIDs, which belongs
    to github.com/google/uuid and to PostgreSQL.  This file gives an instance,
    the canonical 8-4-4-4-12 lower-case hexadecimal form, so that the methods
    can be run on concrete inputs and the interface is seen to be satisfiable.
    [UUID] is the type of all numbers: one that does not fit 16 bytes, which
    no [uuid.UUID] is, is spelled with a leading x. *)

From S2P Require Import Prelude GoStrings.

Definition nibble_char (d : N) : ascii :=
  byte_of (if (d <? 10)%N then 48 + Z.of_N d else 87 + Z.of_N d).

Definition char_nibble (b : ascii) : option N :=
  if is_digit b then Some (Z.to_N (byte_val b - 48))
  else if (97 <=? byte_val b) && (byte_val b <=? 102) then Some (Z.to_N (byte_val b - 87))
  else None.

Fixpoint nibbles (n : nat) (u : N) : list N :=
  match n with
  | O => []
  | S n' => nibbles n' (u / 16)%N ++ [(u mod 16)%N]
  end.

Definition nibbles_value (l : list N) : N := foldl (fun acc d => 16 * acc + d)%N 0%N l.

Definition dash : ascii := byte_of 45.

Definition hyphenate (l : bytes) : bytes :=
  take 8 l ++ dash :: take 4 (drop 8 l) ++ dash :: take 4 (drop 12 l) ++ dash :: take 4 (drop 16 l)
  ++ dash :: drop 20 l.

Definition unhyphenate (l : bytes) : option bytes :=
  if (length l =? 36)%nat
     && forallb (fun i => match l !! i with Some b => Ascii.eqb b dash | None => false end)
          [8%nat; 13%nat; 18%nat; 23%nat]
  then Some (take 8 l ++ take 4 (drop 9 l) ++ take 4 (drop 14 l) ++ take 4 (drop 19 l) ++ drop 24 l)
  else None.

Definition small_uuid (u : N) : bool := (u <? 16 ^ 32)%N.

(** The text of a number that is no UUID: its binary digits, lowest first. *)
Fixpoint pos_text (p : positive) : bytes :=
  match p with
  | xH => []
  | xO p' => byte_of 48 :: pos_text p'
  | xI p' => byte_of 49 :: pos_text p'
  end.

Fixpoint text_pos (l : bytes) : positive :=
  match l with
  | [] => xH
  | b :: l' => if is_byte 48 b then xO (text_pos l') else xI (text_pos l')
  end.

Definition hex_String (u : UUID) : string :=
  if small_uuid u then string_of (hyphenate (nibble_char <$> nibbles 32 u))
  else string_of (byte_of 120 :: pos_text (N.succ_pos u)).

Definition parse_big (l : bytes) : option N :=
  match l with
  | b :: ds => if is_byte 120 b then Some (Pos.pred_N (text_pos ds)) else None
  | [] => None
  end.

Definition hex_Parse (s : string) : option UUID :=
  match unhyphenate (bytes_of s) with
  | Some l => nibbles_value <$> mapM char_nibble l
  | None => parse_big (bytes_of s)
  end.

#[export] Instance hex_uuid : UuidText := {| uuid_String := hex_String; uuid_Parse := hex_Parse |}.

(** ** The law *)

Lemma nibble_char_inv d : (d < 16)%N -> char_nibble (nibble_char d) = Some d.
Proof.
  intros Hd. destruct (decide (d = 0)%N) as [->|]; [done|].
  assert (d ∈ ([1; 2; 3; 4; 5; 6; 7; 8; 9; 10; 11; 12; 13; 14; 15]%N)) as Hin.
  { rewrite !elem_of_cons. lia. }
  repeat (apply elem_of_cons in Hin as [->|Hin]; [vm_compute; reflexivity|]).
  by apply elem_of_nil in Hin.
Qed.

Lemma nibbles_small n u : Forall (fun d => d < 16)%N (nibbles n u).
Proof.
  revert u. induction n as [|n IH]; intros u; simpl; [constructor|].
  apply Forall_app. split; [done|]. repeat constructor. by apply N.mod_lt.
Qed.

Lemma length_nibbles n u : length (nibbles n u) = n.
Proof. revert u. induction n; intros; simpl; [done|]. rewrite length_app, IHn. simpl. lia. Qed.

Lemma nibbles_value_nibbles n u : nibbles_value (nibbles n u) = (u mod 16 ^ N.of_nat n)%N.
Proof.
  revert u. induction n as [|n IH]; intros u; [by rewrite N.mod_1_r|].
  simpl nibbles. unfold nibbles_value in *. rewrite foldl_app, IH. simpl.
  rewrite Nat2N.inj_succ, N.pow_succ_r', N.Div0.mod_mul_r. lia.
Qed.

Lemma mapM_nibbles l :
  Forall (fun d => d < 16)%N l -> mapM char_nibble (nibble_char <$> l) = Some l.
Proof. intros Hl. apply mapM_fmap_Forall_Some, (Forall_impl _ _ _ Hl). apply nibble_char_inv. Qed.

Lemma unhyphenate_hyphenate l : length l = 32%nat -> unhyphenate (hyphenate l) = Some l.
Proof.
  intros Hl. do 32 (destruct l as [|? l]; [done|]). destruct l; [|done]. reflexivity.
Qed.

Lemma hex_law_small u : small_uuid u = true -> hex_Parse (hex_String u) = Some u.
Proof.
  intros Hs. unfold hex_String, hex_Parse. rewrite Hs, bytes_of_string_of.
  rewrite unhyphenate_hyphenate by (by rewrite length_fmap, length_nibbles).
  rewrite mapM_nibbles by apply nibbles_small. cbn [fmap option_fmap option_map].
  rewrite nibbles_value_nibbles. f_equal. apply N.mod_small. by apply N.ltb_lt.
Qed.

Lemma text_pos_text p : text_pos (pos_text p) = p.
Proof. induction p as [p IH|p IH|]; simpl; [by rewrite IH..|done]. Qed.

Lemma pos_text_no_dash p : dash ∉ pos_text p.
Proof. induction p; simpl; set_solver. Qed.

Lemma unhyphenate_no_dash l : dash ∉ l -> unhyphenate l = None.
Proof.
  intros Hn. unfold unhyphenate. destruct (length l =? 36)%nat; [|done]. simpl.
  destruct (l !! 8%nat) as [b|] eqn:E; [|done]. destruct (Ascii.eqb b dash) eqn:Eb; [|done].
  apply Ascii.eqb_eq in Eb as ->. by apply list_elem_of_lookup_2 in E.
Qed.

Lemma hex_law_big u : small_uuid u = false -> hex_Parse (hex_String u) = Some u.
Proof.
  intros Hs. unfold hex_String, hex_Parse. rewrite Hs, bytes_of_string_of.
  rewrite unhyphenate_no_dash.
  - unfold parse_big. simpl. rewrite text_pos_text. f_equal. destruct u; [done|]. simpl. lia.
  - pose proof (pos_text_no_dash (N.succ_pos u)). set_solver.
Qed.

Lemma hex_String_ascii u : Forall (fun b => byte_val b < 128) (bytes_of (hex_String u)).
Proof.
  unfold hex_String. destruct (small_uuid u); rewrite bytes_of_string_of.
  - assert (Forall (fun b => byte_val b < 128) (nibble_char <$> nibbles 32 u)) as Hn.
    { apply Forall_fmap. eapply Forall_impl; [apply nibbles_small|]. intros d Hd. cbn in Hd |- *. unfold nibble_char.
      destruct (N.ltb_spec d 10); rewrite byte_val_of; lia. }
    unfold hyphenate. assert (byte_val dash < 128) by (vm_compute; reflexivity).
    revert Hn. generalize (nibble_char <$> nibbles 32 u). intros l Hn.
    repeat first [exact Hn | apply Forall_app; split | apply Forall_cons; split | apply Forall_take | apply Forall_drop]; done.
  - apply Forall_cons. split; [by vm_compute|].
    generalize (N.succ_pos u). intros p. induction p; simpl; [constructor; [by vm_compute|done]..|constructor].
Qed.

#[export] Instance hex_uuid_laws : UuidTextLaws.
Proof.
  split.
  - intros u. destruct (small_uuid u) eqn:E; [by apply hex_law_small|by apply hex_law_big].
  - intros u. eapply Forall_impl; [apply hex_String_ascii|]. unfold byte_val. intros b Hb. cbn in Hb. lia.
Qed.
