(* ===== verification/Mime.v ===== *)
(** * Media types (package mime)

    [mime.ParseMediaType]: the media type of a Content-Type header and its
    parameters, with quoted values, the split and encoded parameters of
    RFC 2231, and its tolerance for a semicolon at the end and for backslashes
    that escape nothing. *)

From S2P Require Import Prelude GoStrings RuneFacts Numerals.

Definition quote_mark : ascii := byte_of 34.

(** The tspecials of RFC 1521 and RFC 2045. *)
Definition is_tspecial (b : ascii) : bool := bool_decide (b ∈ bytes_of "()<>@,;:\/[]?=") || Ascii.eqb b quote_mark.
Definition is_token_char (b : ascii) : bool := (32 <? byte_val b) && (byte_val b <? 127) && negb (is_tspecial b).

(** [consumeToken]. *)
Fixpoint mime_token (l : bytes) : bytes * bytes :=
  match l with
  | [] => ([], [])
  | b :: l' => if is_token_char b then let '(token, rest) := mime_token l' in (b :: token, rest) else ([], l)
  end.

(** What follows an opening quote, up to the closing one. *)
Fixpoint quoted_value (l : bytes) : option (bytes * bytes) :=
  match l with
  | [] => None
  | r :: l' =>
      if Ascii.eqb r quote_mark then Some ([], l')
      else
        let literal := if is_byte 13 r || is_byte 10 r then None else (fun vr => (r :: vr.1, vr.2)) <$> quoted_value l' in
        match l' with
        | c :: l'' => if is_byte 92 r && is_tspecial c then (fun vr => (c :: vr.1, vr.2)) <$> quoted_value l'' else literal
        | [] => literal
        end
  end.

(** [consumeValue]. *)
Definition mime_value (l : bytes) : bytes * bytes :=
  match l with
  | [] => ([], [])
  | q :: l' => if Ascii.eqb q quote_mark then default ([], l) (quoted_value l') else mime_token l
  end.

(** [strings.TrimLeftFunc(v, unicode.IsSpace)]. *)
Definition trim_left (l : bytes) : bytes := concat (snd <$> drop_space (byte_runes l)).

Definition after_byte (z : Z) (l : bytes) : option bytes :=
  match l with
  | b :: l' => if is_byte z b then Some l' else None
  | [] => None
  end.

Abbreviation params_map := (gmap string string).

Section media.
Context `{UnicodeTables}.

(** One [; name = value]; [None] is the empty name the code returns when there
    is none. *)
Definition consumeMediaParam (v : bytes) : option (string * string * bytes) :=
  rest ← after_byte 59 (trim_left v);
  let '(token, rest) := mime_token (trim_left rest) in
  let param := strings_ToLower (string_of token) in
  if String.eqb param "" then None else
  rest ← after_byte 61 (trim_left rest);
  let rest := trim_left rest in
  let '(value, rest2) := mime_value rest in
  if bool_decide (value = [] /\ rest2 = rest) then None else Some (param, string_of value, rest2).

Definition checkMediaTypeDisposition (s : string) : option error :=
  let '(typ, rest) := mime_token (bytes_of s) in
  fail_if bool_decide (typ = []) with errorString "mime: no media type";
  match rest with
  | [] => None
  | _ =>
      match after_byte 47 rest with
      | None => Some (errorString "mime: expected slash after first token")
      | Some rest =>
          let '(subtype, rest) := mime_token rest in
          fail_if bool_decide (subtype = []) with errorString "mime: expected token after slash";
          fail_if negb (bool_decide (rest = [])) with errorString "mime: unexpected content after media subtype";
          None
      end
  end.

(** ** Parameters of RFC 2231 *)

Fixpoint percentHexUnescape (l : bytes) : option bytes :=
  match l with
  | [] => Some []
  | b :: l' =>
      if is_byte 37 b then
        match l' with
        | h1 :: h2 :: l'' =>
            d1 ← digit_val 16 h1;
            d2 ← digit_val 16 h2;
            cons (byte_of (16 * d1 + d2)) <$> percentHexUnescape l''
        | _ => None
        end
      else cons b <$> percentHexUnescape l'
  end.

(** [charset'language'text]; only ASCII and UTF-8 are known. *)
Definition decode2231Enc (v : string) : option bytes :=
  '(cs, rest) ← cut_byte (bytes_of v) "'"%char;
  '(_, text) ← cut_byte rest "'"%char;
  let charset := strings_ToLower (string_of cs) in
  if String.eqb charset "us-ascii" || String.eqb charset "utf-8" then percentHexUnescape text else None.

(** The parts [key*0], [key*1], ... that are there, the encoded ones decoded. *)
Fixpoint joined_parts (fuel : nat) (key : string) (n : N) (pieces : gmap string string) : option bytes :=
  match fuel with
  | O => None
  | S fuel =>
      let simplePart := key +:+ "*" +:+ string_of (decimal n) in
      let more part := Some (part ++ default [] (joined_parts fuel key (n + 1) pieces)) in
      match pieces !! simplePart, pieces !! (simplePart +:+ "*") with
      | Some v, _ => more (bytes_of v)
      | None, Some v => more (default [] (if (n =? 0)%N then decode2231Enc v else percentHexUnescape (bytes_of v)))
      | None, None => None
      end
  end.

Definition stitched (key : string) (pieces : gmap string string) : option string :=
  string_of <$> match pieces !! (key +:+ "*") with
                | Some v => decode2231Enc v
                | None => joined_parts (S (size pieces)) key 0 pieces
                end.

(** ** Package mime *)

(** The loop over the parameters: plain ones, and by their base name the ones
    with a star.  A lone semicolon at the end returns at once, so the parts
    with stars are not put together. *)
Fixpoint media_params (fuel : nat) (params : params_map) (continuation : gmap string params_map) (v : bytes)
  : result (params_map * gmap string params_map) :=
  match fuel, trim_left v with
  | O, _ | _, [] => Ok (params, continuation)
  | S fuel, v =>
      match consumeMediaParam v with
      | None =>
          if String.eqb (strings_TrimSpace (string_of v)) ";" then Ok (params, ∅)
          else Err (sentinel "mime.ErrInvalidMediaParameter")
      | Some (key, value, rest) =>
          let base := fst <$> cut_byte (bytes_of key) "*"%char in
          let pmap := match base with Some b => default ∅ (continuation !! string_of b) | None => params end in
          fail_if match pmap !! key with Some old => negb (String.eqb old value) | None => false end
            with errorString "mime: duplicate parameter name" else
          let pmap := <[key := value]> pmap in
          match base with
          | Some b => media_params fuel params (<[string_of b := pmap]> continuation) rest
          | None => media_params fuel pmap continuation rest
          end
      end
  end.

Definition ParseMediaType (v : string) : result (string * params_map) :=
  let '(base, rest) := match IndexByte (bytes_of v) ";"%char with
                       | Some i => (take i (bytes_of v), drop i (bytes_of v))
                       | None => (bytes_of v, [])
                       end in
  let mediatype := strings_TrimSpace (strings_ToLower (string_of base)) in
  check checkMediaTypeDisposition mediatype as err with err else
  '(params, continuation) ← media_params (length rest) ∅ ∅ rest;
  Ok (mediatype, map_fold (fun key pieces acc => match stitched key pieces with Some s => <[key := s]> acc | None => acc end)
                   params continuation).
End media.

(** ** The fuel is enough *)

Lemma trim_left_length l : (length (trim_left l) <= length l)%nat.
Proof.
  unfold trim_left. destruct (drop_space_drop (byte_runes l)) as [n ->].
  rewrite <- (concat_byte_runes l) at 2. rewrite <- (take_drop n (byte_runes l)) at 2.
  rewrite fmap_app, concat_app, length_app. lia.
Qed.

Lemma after_byte_length z l r : after_byte z l = Some r -> length l = S (length r).
Proof. destruct l as [|b l]; [done|]. simpl. destruct (is_byte z b); [|done]. by intros [= ->]. Qed.

Lemma mime_token_split l : l = (mime_token l).1 ++ (mime_token l).2.
Proof. induction l as [|b l IH]; [done|]. simpl. destruct (is_token_char b); [|done]. destruct (mime_token l). simpl in *. congruence. Qed.

Lemma quoted_value_length n : forall l v r, (length l <= n)%nat -> quoted_value l = Some (v, r) -> (length r <= length l)%nat.
Proof.
  induction n as [|n IH]; intros l v r Hl; (destruct l as [|b l]; [done|]; simpl in Hl); [lia|]. simpl.
  destruct (Ascii.eqb b quote_mark); [intros [= _ <-]; lia|].
  assert ((if is_byte 13 b || is_byte 10 b then None else (fun vr => (b :: vr.1, vr.2)) <$> quoted_value l) = Some (v, r) ->
    (length r <= S (length l))%nat) as Hlit.
  { destruct (_ || _); [done|]. intros ([w r'] & E & [= -> ->])%fmap_Some. apply IH in E; simpl; lia. }
  destruct l as [|c l]; [done|]. destruct (is_byte 92 b && is_tspecial c); [|done].
  intros ([w r'] & E & [= -> ->])%fmap_Some. simpl in *. apply IH in E; lia.
Qed.

Lemma mime_value_length l : (length (mime_value l).2 <= length l)%nat.
Proof.
  destruct l as [|q l]; [done|]. unfold mime_value. destruct (Ascii.eqb q quote_mark).
  - destruct (quoted_value l) as [[v r]|] eqn:E; [|done]. eapply quoted_value_length in E; [|done]. simpl. lia.
  - rewrite (mime_token_split (q :: l)) at 2. rewrite length_app. lia.
Qed.

Lemma consumeMediaParam_shrinks `{UnicodeTables} v key value rest :
  consumeMediaParam v = Some (key, value, rest) -> (length rest < length v)%nat.
Proof.
  unfold consumeMediaParam. intros (r1 & E1 & E)%bind_Some. apply after_byte_length in E1.
  pose proof (trim_left_length v) as H1. pose proof (trim_left_length r1) as H2.
  pose proof (mime_token_split (trim_left r1)) as Hs. destruct (mime_token (trim_left r1)) as [token r2].
  apply (f_equal length) in Hs. rewrite length_app in Hs. simpl in Hs.
  destruct (String.eqb _ _); [done|]. apply bind_Some in E as (r3 & E3 & E). apply after_byte_length in E3.
  pose proof (trim_left_length r2). pose proof (trim_left_length r3). pose proof (mime_value_length (trim_left r3)).
  destruct (mime_value (trim_left r3)) as [value' r4]. simpl in *. case_bool_decide; [done|]. simplify_eq. lia.
Qed.

(** The loop reads every parameter: more fuel changes nothing. *)
Lemma media_params_fuel `{UnicodeTables} n : forall m params continuation v,
  (length v <= n)%nat -> (n <= m)%nat -> media_params m params continuation v = media_params n params continuation v.
Proof.
  induction n as [|n IH]; intros [|m] params continuation v Hv Hm; try lia; try done.
  - destruct v; [done|simpl in Hv; lia].
  - simpl. pose proof (trim_left_length v) as Ht. destruct (trim_left v) as [|b l] eqn:E; [done|].
    destruct (consumeMediaParam (b :: l)) as [[[key value] rest]|] eqn:Ep; [|done]. apply consumeMediaParam_shrinks in Ep.
    simpl in Ep, Ht. destruct (match _ with Some old => _ | None => false end); [done|].
    destruct (fst <$> _); (apply IH; lia).
Qed.

(** ** Examples *)

Definition media (s : string) : result (string * list (string * string)) :=
  match ParseMediaType (H := {| lower_rune r := r |}) s with Ok (m, params) => Ok (m, map_to_list params) | Err err => Err err end.

(** Case and space, a quoted value, an encoded one, one in parts. *)
Example media_types :
  media <$> ["application/json"; " Application/JSON ; Charset = UTF-8"; "application/json;";
    "a/b; charset=" +:+ String quote_mark ("\utf-\;" +:+ String quote_mark ""); "a/b; charset*=utf-8'en'u%74f-8"; "a/b; x*0=1; x*1*=%41; x*3=2"]
  = [Ok ("application/json", []); Ok ("application/json", [("charset", "UTF-8")]); Ok ("application/json", []);
     Ok ("a/b", [("charset", "\utf-;")]); Ok ("a/b", [("charset", "utf-8")]); Ok ("a/b", [("x", "1A")])].
Proof. vm_compute. reflexivity. Qed.

Example media_refused :
  media <$> ["text/html; a=(b"; "application/"; ""; "a/b; x=1; x=2"]
  = [Err (sentinel "mime.ErrInvalidMediaParameter"); Err (errorString "mime: expected token after slash");
     Err (errorString "mime: no media type"); Err (errorString "mime: duplicate parameter name")].
Proof. vm_compute. reflexivity. Qed.

(** The type every message is sent with, whatever the tables are. *)
Lemma json_media_type `{UnicodeTables} : ParseMediaType "application/json" = Ok ("application/json", ∅).
Proof. reflexivity. Qed.
