(* ===== verification/Http.v ===== *)
(** * HTTP messages and their bodies

    What the agent and the controller share of net/http, io and encoding/json:
    status codes, a response as a client reads it, bounded reads, and the
    interface of the JSON coder for one message type, whose instances are
    declared with the types: [json_Decode] is a [json.Decoder] with
    [DisallowUnknownFields] reading one value and leaving the rest. *)

From S2P Require Import Prelude GoStrings Mime Job Protocol.

Definition StatusOK : Z := 200.
Definition StatusCreated : Z := 201.
Definition StatusNoContent : Z := 204.
Definition StatusBadRequest : Z := 400.
Definition StatusUnauthorized : Z := 401.
Definition StatusForbidden : Z := 403.
Definition StatusNotFound : Z := 404.
Definition StatusMethodNotAllowed : Z := 405.
Definition StatusConflict : Z := 409.
Definition StatusUnsupportedMediaType : Z := 415.
Definition StatusTooManyRequests : Z := 429.
Definition StatusInternalServerError : Z := 500.
Definition StatusServiceUnavailable : Z := 503.

(** A body is the bytes that arrive, and the error that ends them, if any. *)
Record Body := mkBody { body_bytes : string; body_err : option error }.

Record Response := mkResponse { StatusCode : Z; resp_Body : Body }.

(** A client request; every request of the agent carries Content-Type
    application/json, and the certificate of the client that sends it, known
    by the end of its validity. *)
Record HttpRequest := mkHttpRequest {
  rq_Method : string;
  rq_URL : string;
  rq_Body : string;
  rq_NotAfter : Z;
}.

Definition bytes_take (n : nat) (s : string) : string := string_of (take n (bytes_of s)).

(** [io.ReadAll(io.LimitReader(body, n))]: an error after the limit is not seen. *)
Definition ReadAllLimit (n : Z) (b : Body) : result string :=
  if n <=? len (body_bytes b) then Ok (bytes_take (Z.to_nat n) (body_bytes b))
  else match body_err b with
       | Some err => Err err
       | None => Ok (body_bytes b)
       end.

Class Json (T : Type) := {
  json_Marshal : T -> string;
  json_Decode : string -> result (T * string);
}.
Arguments json_Marshal {T _} _ : simpl never.
Arguments json_Decode {T _} _ : simpl never.

(** The check of a Content-Type: [if charset, ok := params["charset"]; ...]. *)
Definition charset_refused `{UnicodeTables} (params : params_map) : bool :=
  match params !! "charset" with Some charset => negb (String.eqb (strings_ToLower charset) "utf-8") | None => false end.

(** White space of JSON, and what a second [Decode] or [More] finds in the rest. *)
Definition json_space (b : ascii) : bool :=
  is_byte 32 b || is_byte 9 b || is_byte 10 b || is_byte 13 b.

Definition decode_EOF (rest : string) : bool := all_bytes json_space rest.

Fixpoint skip_space (l : bytes) : bytes :=
  match l with
  | b :: l' => if json_space b then skip_space l' else l
  | [] => []
  end.

Definition decoder_More (rest : string) : bool :=
  match skip_space (bytes_of rest) with
  | b :: _ => negb (is_byte 93 b) && negb (is_byte 125 b)
  | [] => false
  end.

(** ** Facts *)

Lemma ReadAllLimit_whole n s : len s < n -> ReadAllLimit n (mkBody s None) = Ok s.
Proof. unfold ReadAllLimit. simpl. intros H. destruct (n <=? len s) eqn:E; [bsplit; lia|done]. Qed.

Lemma decoder_More_EOF rest : decode_EOF rest = true -> decoder_More rest = false.
Proof.
  unfold decode_EOF, decoder_More, all_bytes. generalize (bytes_of rest) as l.
  induction l as [|b l IH]; simpl; [done|]. intros [-> Hl]%andb_prop. by apply IH.
Qed.
