(* ===== verification/JsonFacts.v ===== *)
(** * Reading back what was written (encoding/json)

    The laws of the text layer: escaping is undone by unquoting, and a value
    that is written in any layout is read as itself, whatever follows it. *)

From S2P Require Import Prelude GoStrings RuneFacts Numerals Http JsonText.

(** ** Strings *)

Lemma unquote_skip n l : unquote n l = unquote 0 (drop n l).
Proof. revert n. induction l as [|b l IH]; intros [|n]; [done..|]. cbn [unquote drop]. apply IH. Qed.

(** A piece of a literal: it does not end the string, wherever it stands. *)
Definition piece (p : bytes) : Prop :=
  forall l, scan_string InString (p ++ l) = '(raw, rest) ← scan_string InString l; Some (p ++ raw, rest).

Lemma piece_app p q : piece p -> piece q -> piece (p ++ q).
Proof.
  intros Hp Hq l. rewrite <- app_assoc, Hp, Hq. destruct (scan_string InString l) as [[raw rest]|]; [|done].
  cbn. by rewrite <- app_assoc.
Qed.

Lemma piece_nil : piece [].
Proof. intros l. cbn. by destruct (scan_string InString l) as [[raw rest]|]. Qed.

Lemma piece_byte b : 32 <= byte_val b -> b <> quote -> b <> backslash -> piece [b].
Proof.
  intros H32 Hq Hb l. cbn [app scan_string]. apply Ascii.eqb_neq in Hq, Hb. rewrite Hq, Hb.
  by rewrite (proj2 (Z.ltb_ge _ _)) by done.
Qed.

Lemma piece_high p : Forall (fun b => 128 <= byte_val b) p -> piece p.
Proof.
  induction 1 as [|b p Hb _ IH]; [apply piece_nil|]. apply (piece_app [b] p); [|done].
  apply piece_byte; [lia|by intros ->; apply Hb..].
Qed.

Lemma piece_escape_byte b : byte_val b < 128 -> piece (escape_byte b).
Proof.
  intros Hb l. destruct b as [[] [] [] [] [] [] [] []]; try (vm_compute in Hb; discriminate);
    cbv -[scan_string app mbind option_bind]; cbn; by destruct (scan_string InString l) as [[raw rest]|].
Qed.

Lemma next_escape_byte b x : byte_val b < 128 -> next_char (escape_byte b ++ x) = ([b], length (escape_byte b)).
Proof. intros Hb. destruct b as [[] [] [] [] [] [] [] []]; try (vm_compute in Hb; discriminate); reflexivity. Qed.

Lemma char_high z bs : utf8_char z bs -> (exists b, bs = [b] /\ z = byte_val b /\ byte_val b < 128)
  \/ ((1 < length bs)%nat /\ Forall (fun b => 128 <= byte_val b) bs).
Proof.
  intros H. destruct H; [left; eauto|right..]; unfold cont in *; bsplit;
    repeat match goal with H : context [if ?c then _ else _] |- _ => destruct c end;
    (split; [simpl; lia|]); repeat constructor; lia.
Qed.

(** The escape of a well-formed rune is a piece that stands for the rune. *)
Lemma escape_char z bs : utf8_char z bs ->
  let p := escape_rune (z, true, bs) in piece p /\ p <> [] /\ forall x, next_char (p ++ x) = (bs, length p).
Proof.
  intros Hc. destruct (char_high z bs Hc) as [(b & -> & -> & Hb)|[Hl Hh]].
  - cbn [escape_rune]. split_and!; [by apply piece_escape_byte| |by intros x; apply next_escape_byte].
    unfold escape_byte. repeat case_match; done.
  - assert (escape_rune (z, true, bs) =
      if (z =? 8232) || (z =? 8233) then backslash :: bytes_of "u202" ++ [hex_char (z mod 16)] else bs) as ->
      by (destruct bs as [|b0 [|b1 bs]]; [simpl in Hl; lia..|done]).
    destruct ((z =? 8232) || (z =? 8233)) eqn:Ez.
    + assert (bs = utf8_EncodeRune z) as -> by (symmetry; by apply encode_char).
      apply orb_prop in Ez as [->%Z.eqb_eq | ->%Z.eqb_eq]; (split_and!; [|done|done]);
        intros l; cbv -[scan_string app mbind option_bind]; cbn; by destruct (scan_string InString l) as [[raw rest]|].
    + split_and!; [by apply piece_high|intros ->; simpl in Hl; lia|]. intros x. destruct bs as [|b bs]; [simpl in Hl; lia|].
      pose proof (Forall_inv Hh) as Hb. cbn [app next_char].
      destruct (Ascii.eqb_spec b backslash) as [->|_]; [by exfalso; apply Hb|].
      change (b :: bs ++ x) with ((b :: bs) ++ x). rewrite (decode_char z (b :: bs) x Hc). by rewrite (encode_char z (b :: bs) Hc).
Qed.

(** What the escaped text stands for: ill-formed bytes become U+FFFD. *)
Definition to_valid (l : bytes) : bytes := concat ((fun r => utf8_EncodeRune r.1.1) <$> byte_runes l).

Lemma escape_cons l : l <> [] -> escape l = escape_rune (head_rune l) ++ escape (drop (width l) l).
Proof. intros Hl. unfold escape. by rewrite byte_runes_cons. Qed.

Lemma to_valid_cons l : l <> [] -> to_valid l = utf8_EncodeRune (head_rune l).1.1 ++ to_valid (drop (width l) l).
Proof. intros Hl. unfold to_valid. by rewrite byte_runes_cons. Qed.

Lemma head_escape l : l <> [] ->
  let p := escape_rune (head_rune l) in
  piece p /\ p <> [] /\ forall x, next_char (p ++ x) = (utf8_EncodeRune (head_rune l).1.1, length p).
Proof.
  intros Hl. unfold head_rune. pose proof (char_decoded l) as Hc. unfold width in Hc.
  destruct (decode_rune l) as [[r w] [|]] eqn:Ed; cbn [fst snd] in Hc |- *; cbv zeta.
  - specialize (Hc eq_refl). rewrite (encode_char _ _ Hc). by apply escape_char.
  - assert (r = RuneError) as ->.
    { destruct l as [|b0 l]; [done|]. unfold decode_rune in Ed. repeat (case_match; simplify_eq/=; try done). }
    assert (forall bs, escape_rune (RuneError, false, bs) = backslash :: bytes_of "ufffd") as Hf by (intros bs; by destruct bs as [|? [|]]).
    rewrite Hf. split_and!; [|done|done].
    intros x. cbv -[scan_string app mbind option_bind]. cbn. by destruct (scan_string InString x) as [[raw rest]|].
Qed.

Lemma piece_escape l : piece (escape l).
Proof.
  induction l as [|l Hl IH] using rune_ind; [apply piece_nil|]. rewrite escape_cons by done.
  by apply piece_app; [apply head_escape|].
Qed.

Lemma unquote_escape l : unquote 0 (escape l) = to_valid l.
Proof.
  induction l as [|l Hl IH] using rune_ind; [done|]. rewrite escape_cons, to_valid_cons by done.
  destruct (head_escape l Hl) as (_ & Hne & Hnext). specialize (Hnext (escape (drop (width l) l))).
  destruct (escape_rune (head_rune l)) as [|b p]; [done|]. cbn [app unquote] in *. rewrite Hnext. f_equal.
  rewrite unquote_skip. cbn [length]. by rewrite drop_app_length' by lia.
Qed.

Lemma to_valid_text l : utf8_ValidString (string_of l) = true -> to_valid l = l.
Proof.
  unfold utf8_ValidString. rewrite runes_bytes, bytes_of_string_of. unfold to_valid.
  induction l as [|l Hl IH] using rune_ind; [done|]. rewrite byte_runes_cons by done. cbn [forallb].
  intros [Hh Ht]%andb_prop. rewrite fmap_cons. cbn [concat]. rewrite IH by done.
  transitivity (take (width l) l ++ drop (width l) l); [f_equal|apply take_drop]. pose proof (char_decoded l) as Hc.
  unfold head_rune, width in *. destruct (decode_rune l) as [[r w] ok]. simpl in *. by apply encode_char, Hc.
Qed.

Lemma string_read l rest : utf8_ValidString (string_of l) = true -> string_at (escape l ++ quote :: rest) = Some (l, rest).
Proof.
  intros Hl. unfold string_at. rewrite piece_escape. cbn [scan_string]. rewrite Ascii.eqb_refl. cbn.
  by rewrite app_nil_r, unquote_escape, to_valid_text.
Qed.

(** ** Numbers *)

(** What may follow a number without becoming part of it. *)
Definition number_end (l : bytes) : Prop :=
  match l with
  | [] => True
  | b :: _ => is_digit b = false /\ is_byte 46 b = false /\ (is_byte 69 b || is_byte 101 b) = false
  end.

Definition number_text (literal : bytes) : Prop :=
  text literal /\
  (exists b l, literal = b :: l /\ (is_digit b || is_byte 45 b) = true)
  /\ forall rest, number_end rest -> scan_number (literal ++ rest) = Some (literal, rest).

Lemma digits_span_app ds rest : forallb is_digit ds = true -> number_end rest -> digits_span (ds ++ rest) = (ds, rest).
Proof.
  intros Hds Hr. induction ds as [|b ds IH]; simpl in *.
  - destruct rest as [|b rest]; [done|]. destruct Hr as [Hr _]. simpl. by rewrite Hr.
  - apply andb_prop in Hds as [-> Hds]. by rewrite IH.
Qed.

Lemma scan_integer_decimal n rest : number_end rest -> scan_integer (decimal n ++ rest) = Some (decimal n, rest).
Proof.
  intros Hr. destruct (decimal_spec n) as (b & l & -> & Hall & _ & Hz). cbn [app scan_integer].
  destruct (is_byte 48 b) eqn:Eb; [by destruct (Hz eq_refl) as [-> _]|].
  change (b :: l ++ rest) with ((b :: l) ++ rest). unfold some_digits. by rewrite digits_span_app.
Qed.

Lemma no_fraction rest : number_end rest -> scan_fraction rest = Some ([], rest) /\ scan_exponent rest = Some ([], rest).
Proof.
  unfold scan_fraction, scan_exponent, front. destruct rest as [|b rest]; [done|]. intros (_ & -> & ->). done.
Qed.

Lemma decimal_front n : exists b l, decimal n = b :: l /\ is_digit b = true.
Proof. destruct (decimal_spec n) as (b & l & E & Hall & _). exists b, l. simpl in Hall. bsplit. done. Qed.

Lemma integer_text z : number_text (FormatInt z).
Proof.
  assert (forall n rest sign, number_end rest ->
    ('(int, l2) ← scan_integer (decimal n ++ rest); '(frac, l3) ← scan_fraction l2; '(exp, l4) ← scan_exponent l3;
     Some (sign ++ int ++ frac ++ exp, l4)) = Some (sign ++ decimal n, rest)) as Hscan.
  { intros n rest sign Hr. rewrite scan_integer_decimal by done. destruct (no_fraction rest Hr) as [Hf He]. cbn.
    rewrite Hf. cbn. rewrite He. cbn. by rewrite app_nil_r. }
  assert (forall n, Forall (fun b => byte_val b < 128) (decimal n)) as Hascii.
  { intros n. pose proof (decimal_digits n) as Hd. rewrite forallb_forall in Hd. apply Forall_forall. intros b Hb%list_elem_of_In%Hd.
    unfold is_digit in Hb. bsplit. lia. }
  split; [apply text_ascii; unfold FormatInt; destruct (z <? 0); [constructor|]; done|].
  unfold FormatInt. destruct (z <? 0).
  - split; [by eexists _, _|]. intros rest Hr. exact (Hscan _ _ [byte_of 45] Hr).
  - destruct (decimal_front (Z.to_N z)) as (b & l & E & Hb). split; [exists b, l; by rewrite Hb|].
    intros rest Hr. unfold scan_number. replace (front (is_byte 45) (decimal (Z.to_N z) ++ rest)) with (@None (ascii * bytes)).
    + exact (Hscan _ _ [] Hr).
    + rewrite E. unfold is_digit in Hb. bsplit. simpl. unfold is_byte. by rewrite (proj2 (Z.eqb_neq _ _)) by lia.
Qed.

(** ** White space *)

Lemma skip_space_app ws l : forallb json_space ws = true -> skip_space (ws ++ l) = skip_space l.
Proof. induction ws as [|b ws IH]; simpl; [done|]. intros [-> Hws]%andb_prop. by apply IH. Qed.

Lemma skip_space_front b l : json_space b = false -> skip_space (b :: l) = b :: l.
Proof. intros Hb. simpl. by rewrite Hb. Qed.

Lemma value_at_space n depth ws l : forallb json_space ws = true -> value_at n depth (ws ++ l) = value_at n depth l.
Proof. intros Hws. destruct n as [|n]; [done|]. cbn [value_at]. by rewrite skip_space_app. Qed.

(** ** Values *)

(** What can be written so that it is read back: text, numbers, and no more
    open brackets than the decoder allows. *)
Unset Elimination Schemes.
Inductive writable : Z -> value -> Prop :=
| writable_null d : writable d Null
| writable_bool d b : writable d (Bool b)
| writable_number d literal : number_text literal -> writable d (Number literal)
| writable_str d s : text s -> writable d (Str s)
| writable_arr d l : d + 1 <= maxNestingDepth -> Forall (writable (d + 1)) l -> writable d (Arr l)
| writable_obj d l : d + 1 <= maxNestingDepth ->
    Forall (fun kv => text kv.1 /\ writable (d + 1) kv.2) l -> writable d (Obj l).
Set Elimination Schemes.

Definition spaced (lay : layout) : Prop :=
  (forall d, forallb json_space (line_break lay d) = true) /\ forallb json_space (after_colon lay) = true.

Lemma compact_spaced : spaced compact.
Proof. done. Qed.

Lemma indented_spaced : spaced indented.
Proof.
  split; [|done]. intros d. cbn [line_break indented forallb]. change (json_space (byte_of 10)) with true. cbn [andb].
  induction d as [|d IH]; [done|]. cbn [replicate concat]. by rewrite forallb_app, IH.
Qed.

Lemma number_start b : (is_digit b || is_byte 45 b) = true ->
  json_space b = false /\ Ascii.eqb b quote = false /\ Ascii.eqb b "{" = false /\ Ascii.eqb b "[" = false
  /\ Ascii.eqb b "t" = false /\ Ascii.eqb b "f" = false /\ Ascii.eqb b "n" = false.
Proof. intros Hb. destruct b as [[] [] [] [] [] [] [] []]; try (vm_compute in Hb; discriminate); done. Qed.

Lemma number_end_space ws b rest :
  forallb json_space ws = true -> number_end [b] -> number_end (ws ++ b :: rest).
Proof.
  intros Hws Hb. destruct ws as [|w ws]; [exact Hb|]. apply andb_prop in Hws as [Hw _].
  destruct w as [[] [] [] [] [] [] [] []]; try (vm_compute in Hw; discriminate); done.
Qed.

(** No bracket closes where an item starts. *)
Lemma print_front lay d depth v : writable depth v -> exists b l, print lay d v = b :: l
  /\ json_space b = false /\ Ascii.eqb b "]" = false.
Proof.
  intros Hv. destruct Hv as [|? [|]|? lit (_ & (b & l & -> & Hb) & _)|? s|? [|x l]|? [|x l]]; try by (do 2 eexists).
  exists b, l. split; [done|]. destruct (number_start b Hb) as (-> & _). split; [done|].
  destruct b as [[] [] [] [] [] [] [] []]; try (vm_compute in Hb; discriminate); done.
Qed.

Lemma keyword_read w v rest : keyword w v (bytes_of w ++ rest) = Some (v, rest).
Proof. unfold keyword. by rewrite has_prefix_app, <- length_bytes_of, drop_app_length. Qed.

Section read.
Context (lay : layout) (lay_spaced : spaced lay).

(** [v] is read back at [depth], however it is indented. *)
Definition reads (depth : Z) (v : value) : Prop :=
  forall d fuel rest, number_end rest -> (length (print lay d v ++ rest) < fuel)%nat ->
  value_at fuel depth (print lay d v ++ rest) = Some (v, rest).

(** The same for one item of a list. *)
Definition item_reads {A} (show : A -> bytes) (item : bytes -> option (A * bytes)) (bound : nat) (x : A) : Prop :=
  forall ws rest, forallb json_space ws = true -> number_end rest -> (length (ws ++ show x ++ rest) < bound)%nat ->
  item (ws ++ show x ++ rest) = Some (x, rest).

Lemma items_read {A} (show : A -> bytes) item close d fuel l ws rest :
  l <> [] -> Forall (item_reads show item fuel) l -> json_space close = false -> number_end [close] -> Ascii.eqb "," close = false ->
  forallb json_space ws = true ->
  forall n, (length (ws ++ separated lay d (show <$> l) ++ line_break lay (pred d) ++ close :: rest) <= n < fuel)%nat ->
  items_at item close (S n) (ws ++ separated lay d (show <$> l) ++ line_break lay (pred d) ++ close :: rest) = Some (l, rest).
Proof.
  intros Hne Hall Hsp Hend Hcomma Hws n Hn. destruct lay_spaced as [Hbreak _].
  revert ws n Hws Hn. induction Hall as [|x l Hx Hall IH]; intros ws n Hws Hn; [done|].
  destruct l as [|y l].
  - cbn [fmap list_fmap separated] in *. cbn [items_at]. rewrite Hx; [|done|by apply number_end_space|lia].
    cbn [mbind option_bind]. rewrite skip_space_app by apply Hbreak. rewrite skip_space_front by done.
    cbn [front mbind option_bind]. by rewrite Ascii.eqb_refl.
  - set (items := show <$> y :: l) in *.
    assert (separated lay d (show <$> x :: y :: l) = show x ++ ","%char :: line_break lay d ++ separated lay d items) as E by done.
    rewrite E in *. rewrite <- !app_assoc in *. cbn [app] in *. rewrite <- !app_assoc in *.
    assert (exists m, n = S m) as [m ->] by (exists (pred n); rewrite !length_app in Hn; simpl in Hn; lia).
    remember (S m) as n eqn:En. cbn [items_at]. rewrite Hx; [|done|done|lia]. cbn [mbind option_bind].
    rewrite skip_space_front by done. cbn [front mbind option_bind]. rewrite Hcomma, Ascii.eqb_refl. subst n.
    rewrite IH; [done|done|apply Hbreak|]. rewrite !length_app in *. simpl in *. rewrite !length_app in *. simpl in *. lia.
Qed.

Lemma bracket_read {A} (show : A -> bytes) item opening close d fuel l rest :
  Forall (item_reads show item fuel) l -> (forall x, x ∈ l -> exists b s, show x = b :: s /\ json_space b = false /\ Ascii.eqb b close = false) ->
  json_space close = false -> number_end [close] -> Ascii.eqb "," close = false ->
  (length (bracketed lay opening close d (show <$> l) ++ rest) <= fuel)%nat ->
  exists body, bracketed lay opening close d (show <$> l) ++ rest = opening :: body
    /\ bracket_at item close fuel body = Some (l, rest).
Proof.
  intros Hall Hfront Hsp Hend Hcomma Hf. destruct l as [|x l].
  - exists (close :: rest). split; [done|]. unfold bracket_at. rewrite skip_space_front by done. by rewrite Ascii.eqb_refl.
  - exists (line_break lay (S d) ++ separated lay (S d) (show <$> x :: l) ++ line_break lay d ++ close :: rest).
    assert (bracketed lay opening close d (show <$> x :: l) ++ rest
      = opening :: line_break lay (S d) ++ separated lay (S d) (show <$> x :: l) ++ line_break lay d ++ close :: rest) as E.
    { unfold bracketed. cbn [fmap list_fmap]. cbn [app]. by rewrite <- !app_assoc. }
    rewrite E in Hf. split; [done|]. clear E. unfold bracket_at.
    destruct lay_spaced as [Hbreak _]. rewrite skip_space_app by apply Hbreak.
    assert (exists b s, separated lay (S d) (show <$> x :: l) ++ line_break lay d ++ close :: rest = b :: s
      /\ json_space b = false /\ Ascii.eqb b close = false) as (b & s & Es & Hb1 & Hb2).
    { destruct (Hfront x ltac:(left)) as (b & s & Es & H1 & H2).
      destruct l; cbn [fmap list_fmap separated]; rewrite Es; by do 2 eexists. }
    rewrite Es, skip_space_front, Hb2 by done. rewrite <- Es.
    destruct fuel as [|n]; [simpl in Hf; lia|].
    apply (items_read show item close (S d) (S n)); [done|done|done|done|done|apply Hbreak|].
    cbn [length] in Hf. rewrite !length_app in *. cbn [pred]. lia.
Qed.

Definition member (d : nat) (kv : bytes * value) : bytes :=
  quoted kv.1 ++ ":"%char :: after_colon lay ++ print lay d kv.2.

Lemma member_reads d depth fuel kv :
  text kv.1 -> reads depth kv.2 -> item_reads (member d) (member_at (value_at fuel depth)) fuel kv.
Proof.
  destruct kv as [k v]. intros Hk Hv ws rest Hws Hr Hf. cbn [fst snd] in *. unfold member_at. rewrite skip_space_app by done.
  unfold member, quoted in *. cbn [fst snd app] in *. rewrite <- !app_assoc in *. cbn [app] in *. rewrite <- !app_assoc in *.
  rewrite skip_space_front by done. change (front _ (quote :: ?l)) with (Some (quote, l)). cbn [mbind option_bind].
  rewrite string_read by done. cbn [mbind option_bind]. rewrite skip_space_front by done.
  change (front _ (":"%char :: ?l)) with (Some (":"%char, l)). cbn [mbind option_bind]. destruct lay_spaced as [_ Hcolon]. rewrite value_at_space by done.
  rewrite Hv; [done|done|]. rewrite !length_app in *. simpl in *. rewrite !length_app in *. simpl in *. rewrite !length_app in *. lia.
Qed.

Theorem writable_reads depth v : writable depth v -> reads depth v.
Proof.
  revert depth. induction v as [|b|n|s|l IH|l IH] using value_ind; intros depth Hw d fuel rest Hr Hf;
    (destruct fuel as [|fuel]; [lia|]); inversion Hw as [| |? ? Hn|? ? Hs|? ? Hd Hl|? ? Hd Hl]; subst; clear Hw.
  - cbn [print]. exact (keyword_read "null" Null rest).
  - cbn [print]. destruct b; [exact (keyword_read "true" (Bool true) rest)|exact (keyword_read "false" (Bool false) rest)].
  - destruct Hn as (_ & (b & l & -> & Hb) & Hscan). destruct (number_start b Hb) as (H1 & H2 & H3 & H4 & H5 & H6 & H7).
    cbn [print app value_at]. rewrite skip_space_front, H2, H3, H4, H5, H6, H7 by done.
    change (b :: l ++ rest) with ((b :: l) ++ rest). by rewrite Hscan.
  - cbn [print]. unfold quoted. cbn [app value_at]. rewrite <- app_assoc. cbn [app]. rewrite skip_space_front by done.
    rewrite Ascii.eqb_refl, string_read by done. done.
  - cbn [print] in *.
    destruct (bracket_read (print lay (S d)) (value_at fuel (depth + 1)) "[" "]" d fuel l rest) as (body & E & Hb); [| |done..|exact (le_S_n _ _ Hf)|].
    + rewrite Forall_forall in IH, Hl |- *. intros x Hx ws rest' Hws Hr' Hf'. rewrite value_at_space by done.
      apply IH; [done|by apply Hl|done|]. rewrite length_app in Hf'. lia.
    + intros x Hx. rewrite Forall_forall in Hl. eapply print_front. by apply Hl.
    + change (map (print lay (S d)) l) with (print lay (S d) <$> l). rewrite E. cbn [value_at]. rewrite skip_space_front by done. cbn -[bracket_at value_at Z.ltb].
      rewrite (proj2 (Z.ltb_ge _ _)) by done. by rewrite Hb.
  - cbn [print] in *. change (fun kv : bytes * value => quoted kv.1 ++ ":"%char :: after_colon lay ++ print lay (S d) kv.2) with (member (S d)) in *.
    destruct (bracket_read (member (S d)) (member_at (value_at fuel (depth + 1))) "{" "}" d fuel l rest) as (body & E & Hb); [| |done..|exact (le_S_n _ _ Hf)|].
    + rewrite Forall_forall in IH, Hl |- *. intros kv Hx. apply member_reads; [by apply Hl|]. apply IH; [done|by apply Hl].
    + intros x Hx. by do 2 eexists.
    + change (map (member (S d)) l) with (member (S d) <$> l). rewrite E. cbn [value_at]. rewrite skip_space_front by done. cbn -[bracket_at value_at Z.ltb].
      rewrite (proj2 (Z.ltb_ge _ _)) by done. by rewrite Hb.
Qed.
End read.

(** A value that was written is read as itself, in any layout and whatever
    follows it. *)
Theorem value_written_is_read lay v rest :
  spaced lay -> writable 0 v -> number_end rest -> decode_value (print lay 0 v ++ rest) = Some (v, rest).
Proof. intros Hl Hv Hr. apply (writable_reads lay Hl 0 v Hv); [done|lia]. Qed.

(** ** Enough fuel

    Every part of a value takes at least a byte, so the length of the input
    bounds the values and members read: [decode_value] refuses an input only
    for its syntax or depth. *)

Definition shrinks {A} (p : bytes -> option (A * bytes)) : Prop :=
  forall l x rest, p l = Some (x, rest) -> (length rest < length l)%nat.

Lemma skip_space_length l : (length (skip_space l) <= length l)%nat.
Proof. induction l as [|b l IH]; simpl; [lia|]. destruct (json_space b); simpl; lia. Qed.

Lemma front_shrinks p l b rest : front p l = Some (b, rest) -> length l = S (length rest).
Proof. destruct l as [|x l]; simpl; [done|]. destruct (p x); [|done]. by intros [= _ <-]. Qed.

Lemma string_shrinks : shrinks string_at.
Proof.
  assert (forall l st raw rest, scan_string st l = Some (raw, rest) -> (length rest < length l)%nat) as Hscan.
  { induction l as [|b l IH]; intros st raw rest; [done|]. cbn [scan_string].
    assert (forall st', ('(raw', rest') ← scan_string st' l; Some (b :: raw', rest')) = Some (raw, rest) -> (length rest < length (b :: l))%nat) as Hgo.
    { intros st'. destruct (scan_string st' l) as [[raw' rest']|] eqn:E; [|done]. intros [= _ <-]. apply IH in E. simpl. lia. }
    destruct st as [| |n]; [destruct (Ascii.eqb b quote)| |]; [intros [= _ <-]; simpl; lia|..]; repeat case_match; try done; apply Hgo. }
  intros l s rest. unfold string_at. destruct (scan_string InString l) as [[raw rest']|] eqn:E; [|done].
  intros [= _ <-]. by apply Hscan in E.
Qed.

Lemma digits_span_length l ds rest : digits_span l = (ds, rest) -> length l = (length ds + length rest)%nat.
Proof.
  revert ds. induction l as [|b l IH]; intros ds; simpl; [by intros [= <- <-]|]. destruct (is_digit b); [|by intros [= <- <-]].
  destruct (digits_span l) as [ds' rest']. intros [= <- <-]. simpl. f_equal. by apply IH.
Qed.

Lemma some_digits_shrinks : shrinks some_digits.
Proof.
  intros l ds rest. unfold some_digits. destruct (digits_span l) as [[|d ds'] rest'] eqn:E; [done|].
  apply digits_span_length in E. intros [= _ <-]. simpl in E. lia.
Qed.

Lemma number_shrinks : shrinks scan_number.
Proof.
  intros l lit rest. unfold scan_number, scan_fraction, scan_exponent, scan_integer. intros H.
  repeat (case_match; simplify_option_eq);
    repeat match goal with
    | H : front _ _ = Some (_, _) |- _ => apply front_shrinks in H
    | H : some_digits _ = Some (_, _) |- _ => apply some_digits_shrinks in H
    end; simpl in *; lia.
Qed.

Lemma keyword_shrinks w v l x rest : w <> ""%string -> l <> [] -> keyword w v l = Some (x, rest) -> (length rest < length l)%nat.
Proof.
  intros Hw Hl. unfold keyword. destruct (has_prefix _ _); [|done]. intros [= _ <-]. rewrite length_drop.
  destruct w; [done|]. destruct l; [done|]. simpl. lia.
Qed.

Lemma items_shrinks {A} (item : bytes -> option (A * bytes)) close n : shrinks item -> shrinks (items_at item close n).
Proof.
  intros Hi. induction n as [|n IH]; intros l xs rest; [done|]. cbn [items_at].
  destruct (item l) as [[x l1]|] eqn:E1; [|done]. apply Hi in E1. cbn [mbind option_bind].
  destruct (front _ _) as [[b l2]|] eqn:E2; [|done]. apply front_shrinks in E2. pose proof (skip_space_length l1).
  cbn [mbind option_bind]. destruct (Ascii.eqb b close); [intros [= _ <-]; lia|]. destruct (Ascii.eqb b ","); [|done].
  destruct (items_at _ _ _ l2) as [[xs' rest']|] eqn:E3; [|done]. apply IH in E3. intros [= _ <-]. lia.
Qed.

Lemma bracket_shrinks {A} (item : bytes -> option (A * bytes)) close n : shrinks item -> shrinks (bracket_at item close n).
Proof.
  intros Hi l xs rest. unfold bracket_at. pose proof (skip_space_length l). destruct (skip_space l) as [|b l1] eqn:E; [done|].
  destruct (Ascii.eqb b close); [intros [= _ <-]; simpl in *; lia|]. by apply items_shrinks.
Qed.

Lemma member_shrinks val : shrinks val -> shrinks (member_at val).
Proof.
  intros Hv l kv rest. unfold member_at. pose proof (skip_space_length l).
  destruct (front _ (skip_space l)) as [[b l1]|] eqn:E1; [|done]. apply front_shrinks in E1. cbn [mbind option_bind].
  destruct (string_at l1) as [[k l2]|] eqn:E2; [|done]. apply string_shrinks in E2. cbn [mbind option_bind].
  pose proof (skip_space_length l2).
  destruct (front _ (skip_space l2)) as [[c l3]|] eqn:E3; [|done]. apply front_shrinks in E3. cbn [mbind option_bind].
  destruct (val l3) as [[v l4]|] eqn:E4; [|done]. apply Hv in E4. intros [= _ <-]. lia.
Qed.

Lemma value_shrinks n depth : shrinks (value_at n depth).
Proof.
  revert depth. induction n as [|n IH]; intros depth l v rest; [done|]. cbn [value_at].
  pose proof (skip_space_length l) as Hl. destruct (skip_space l) as [|b l1]; [done|]. simpl in Hl.
  repeat case_match; try done; try (intros Hk; apply keyword_shrinks in Hk; [simpl in Hk; lia|done..]).
  - destruct (string_at l1) as [[s rest']|] eqn:E; [|done]. apply string_shrinks in E. intros [= _ <-]. lia.
  - destruct (bracket_at _ _ n l1) as [[ms rest']|] eqn:E; [|done]. apply bracket_shrinks in E; [|apply member_shrinks, IH].
    intros [= _ <-]. lia.
  - destruct (bracket_at _ _ n l1) as [[ms rest']|] eqn:E; [|done]. apply bracket_shrinks in E; [|apply IH]. intros [= _ <-]. lia.
  - destruct (scan_number (b :: l1)) as [[literal rest']|] eqn:E; [|done]. apply number_shrinks in E. intros [= _ <-]. simpl in *. lia.
Qed.

(** Two item readers that agree on everything up to a length. *)
Definition agree {A} (k : nat) (p q : bytes -> option A) : Prop := forall l, (length l <= k)%nat -> p l = q l.

Lemma items_agree {A} (p q : bytes -> option (A * bytes)) close k n m :
  shrinks p -> agree k p q -> forall l, (length l <= k)%nat -> (length l < n)%nat -> (length l < m)%nat ->
  items_at p close n l = items_at q close m l.
Proof.
  intros Hs Ha. revert m. induction n as [|n IH]; intros m l Hk Hn Hm; [lia|]. destruct m as [|m]; [lia|]. cbn [items_at].
  rewrite <- (Ha l) by done. destruct (p l) as [[x l1]|] eqn:E1; [|done]. apply Hs in E1. cbn [mbind option_bind].
  destruct (front _ _) as [[b l2]|] eqn:E2; [|done]. apply front_shrinks in E2. pose proof (skip_space_length l1).
  cbn [mbind option_bind]. destruct (Ascii.eqb b close); [done|]. destruct (Ascii.eqb b ","); [|done]. by rewrite (IH m l2) by lia.
Qed.

Lemma bracket_agree {A} (p q : bytes -> option (A * bytes)) close k n m l :
  shrinks p -> agree k p q -> (length l <= k)%nat -> (length l < n)%nat -> (length l < m)%nat ->
  bracket_at p close n l = bracket_at q close m l.
Proof.
  intros Hs Ha Hk Hn Hm. unfold bracket_at. destruct (skip_space l); [done|]. destruct (Ascii.eqb _ _); [done|].
  by apply (items_agree p q close k).
Qed.

Lemma member_agree k p q : shrinks p -> agree k p q -> agree k (member_at p) (member_at q).
Proof.
  intros Hs Ha l Hk. unfold member_at. pose proof (skip_space_length l).
  destruct (front _ (skip_space l)) as [[b l1]|] eqn:E1; [|done]. apply front_shrinks in E1. cbn [mbind option_bind].
  destruct (string_at l1) as [[s l2]|] eqn:E2; [|done]. apply string_shrinks in E2. cbn [mbind option_bind].
  pose proof (skip_space_length l2).
  destruct (front _ (skip_space l2)) as [[c l3]|] eqn:E3; [|done]. apply front_shrinks in E3. cbn [mbind option_bind].
  by rewrite Ha by lia.
Qed.

Theorem value_fuel_enough n m depth l :
  (length l < n)%nat -> (length l < m)%nat -> value_at n depth l = value_at m depth l.
Proof.
  revert m depth l. induction n as [|n IH]; intros m depth l Hn Hm; [lia|]. destruct m as [|m]; [lia|]. cbn [value_at].
  pose proof (skip_space_length l) as Hl. destruct (skip_space l) as [|b l1]; [done|]. simpl in Hl.
  assert (forall d, agree (length l1) (value_at n d) (value_at m d)) as Ha by (intros d l' Hl'; apply IH; lia).
  rewrite (bracket_agree _ (member_at (value_at m (depth + 1))) "}" (length l1) n m);
    [|apply member_shrinks, value_shrinks|apply member_agree; [apply value_shrinks|done]|lia..].
  by rewrite (bracket_agree _ (value_at m (depth + 1)) "]" (length l1) n m) by (done || lia || apply value_shrinks).
Qed.

(** ** What is written is text, at most six bytes for one *)

Lemma escape_byte_ascii b : byte_val b < 128 -> Forall (fun c => byte_val c < 128) (escape_byte b) /\ (length (escape_byte b) <= 6)%nat.
Proof.
  intros Hb. destruct b as [[] [] [] [] [] [] [] []]; try (vm_compute in Hb; discriminate);
    (split; [repeat constructor|cbv; lia]).
Qed.

Lemma escape_rune_text l : l <> [] -> text (escape_rune (head_rune l)) /\ (length (escape_rune (head_rune l)) <= 6 * width l)%nat.
Proof.
  intros Hl. unfold head_rune. pose proof (char_decoded l) as Hc. pose proof (width_bounds l Hl) as Hw. unfold width in *.
  destruct (decode_rune l) as [[r w] [|]]; cbn [fst snd] in *.
  - specialize (Hc eq_refl). destruct (char_high _ _ Hc) as [(b & Eb & _ & Hb)|[Hlen Hh]].
    + rewrite Eb. destruct (escape_byte_ascii b Hb) as [Ha Hn]. split; [by apply text_ascii|]. cbn [escape_rune]. lia.
    + assert (length (take w l) = w) as Hlw by (rewrite length_take; lia). rewrite Hlw in Hlen.
      destruct (take w l) as [|b0 [|b1 bs]] eqn:Et; [simpl in Hlw; lia..|]. cbn [escape_rune].
      destruct ((r =? 8232) || (r =? 8233)) eqn:Er; [|split; [by rewrite <- (app_nil_r (b0 :: b1 :: bs)); apply (text_char_app r)|lia]].
      apply orb_prop in Er as [->%Z.eqb_eq | ->%Z.eqb_eq]; (split; [by vm_compute|cbn; lia]).
  - split; [|destruct (take w l) as [|? [|]]; cbn; lia].
    by destruct (take w l) as [|? [|]]; vm_compute.
Qed.

Lemma escape_text l : text (escape l) /\ (length (escape l) <= 6 * length l)%nat.
Proof.
  induction l as [|l Hl [IH1 IH2]] using rune_ind; [split; [done|cbn; lia]|]. rewrite escape_cons by done.
  destruct (escape_rune_text l Hl) as [H1 H2]. pose proof (width_bounds l Hl). rewrite length_drop in IH2.
  split; [by apply text_app|]. rewrite length_app. lia.
Qed.

Lemma text_cons b l : byte_val b < 128 -> text l -> text (b :: l).
Proof. intros Hb. by apply (text_char_app (byte_val b) [b]), utf8_one. Qed.

Lemma space_text ws : forallb json_space ws = true -> text ws.
Proof.
  intros Hws. apply text_ascii, Forall_forall. intros b Hb. rewrite forallb_forall in Hws. apply list_elem_of_In, Hws in Hb.
  unfold json_space, is_byte in Hb. repeat (apply orb_prop in Hb as [Hb|Hb]); bsplit; lia.
Qed.

Lemma quoted_text s : text (quoted s).
Proof. apply text_cons; [done|]. apply text_app; [apply escape_text|done]. Qed.

Lemma bracketed_text lay opening closing d items :
  spaced lay -> byte_val opening < 128 -> byte_val closing < 128 -> Forall text items -> text (bracketed lay opening closing d items).
Proof.
  intros [Hb _] Ho Hc Hi. assert (forall d, text (separated lay d items)) as Hs.
  { intros d'. induction Hi as [|x items Hx Hi IH]; [done|]. destruct items as [|y items]; [done|]. cbn [separated].
    apply text_app; [done|]. apply text_cons; [done|]. by apply text_app; [apply space_text|]. }
  unfold bracketed. destruct items as [|x items]; apply text_cons; try done; [by apply text_cons|].
  repeat (apply text_app; [apply space_text, Hb || apply Hs|]). by apply text_cons.
Qed.

(** What is written is UTF-8. *)
Lemma print_text lay d depth v : spaced lay -> writable depth v -> text (print lay d v).
Proof.
  intros Hl. revert d depth. induction v as [|b|n|s|l IH|l IH] using value_ind; intros d depth Hw;
    inversion Hw as [| |? ? Hn|? ? Hs|? ? Hd Hf|? ? Hd Hf]; subst; cbn [print].
  - done.
  - by destruct b.
  - by destruct Hn.
  - apply quoted_text.
  - apply bracketed_text; [done..|]. apply Forall_map. rewrite Forall_forall in IH, Hf |- *. intros x Hx. eapply IH; [done|by apply Hf].
  - apply bracketed_text; [done..|]. apply Forall_map. rewrite Forall_forall in IH, Hf |- *. intros x Hx. cbn.
    apply text_app; [apply quoted_text|]. apply text_cons; [done|]. destruct Hl as [_ Hcolon].
    apply text_app; [by apply space_text|]. eapply IH; [done|by apply Hf].
Qed.

Lemma quoted_length s : (length (quoted s) <= 6 * length s + 2)%nat.
Proof. unfold quoted. cbn [length]. rewrite length_app. cbn [length]. pose proof (escape_text s) as [_ H]. lia. Qed.

(** ** The length of compact text *)

Fixpoint size (v : value) : nat :=
  match v with
  | Null => 4
  | Bool _ => 5
  | Number literal => length literal
  | Str s => 6 * length s + 2
  | Arr l => 2 + list_sum (map (fun x => S (size x)) l)
  | Obj l => 2 + list_sum (map (fun kv => 6 * length kv.1 + 4 + size kv.2) l)
  end%nat.

Lemma separated_length {A} (show : A -> bytes) (bound : A -> nat) d l :
  Forall (fun x => (length (show x) < bound x)%nat) l ->
  (length (separated compact d (map show l)) <= list_sum (map bound l))%nat.
Proof.
  induction 1 as [|x l Hx Hl IH]; [done|]. destruct l as [|y l].
  - cbn [map separated list_sum foldr fold_right]. lia.
  - assert (separated compact d (map show (x :: y :: l)) = show x ++ ","%char :: separated compact d (map show (y :: l))) as -> by done.
    rewrite length_app. cbn [length]. change (list_sum (map bound (x :: y :: l))) with (bound x + list_sum (map bound (y :: l)))%nat. lia.
Qed.

Lemma bracketed_length opening closing d items :
  (0 < length (bracketed compact opening closing d items) <= length (separated compact (S d) items) + 2)%nat.
Proof.
  unfold bracketed. destruct items as [|x items]; [simpl; lia|]. cbn [length compact line_break app]. rewrite length_app. cbn [length]. lia.
Qed.

Lemma print_size d v : (length (print compact d v) <= size v)%nat.
Proof.
  revert d. induction v as [|b|n|s|l IH|l IH] using value_ind; intros d; cbn [print size].
  - done.
  - destruct b; cbn; lia.
  - done.
  - pose proof (quoted_length s). lia.
  - pose proof (bracketed_length "[" "]" d (map (print compact (S d)) l)).
    pose proof (separated_length (print compact (S d)) (fun x => S (size x)) (S d) l) as Hs.
    enough (Forall (fun x => (length (print compact (S d) x) < S (size x))%nat) l) as Hf by (specialize (Hs Hf); lia).
    eapply Forall_impl; [exact IH|]. intros x Hx. specialize (Hx (S d)). cbn beta in Hx. lia.
  - set (show := fun kv : bytes * value => quoted kv.1 ++ ":"%char :: after_colon compact ++ print compact (S d) kv.2).
    pose proof (bracketed_length "{" "}" d (map show l)).
    pose proof (separated_length show (fun kv => 6 * length kv.1 + 4 + size kv.2)%nat (S d) l) as Hs.
    enough (Forall (fun kv => (length (show kv) < 6 * length kv.1 + 4 + size kv.2)%nat) l) as Hf by (specialize (Hs Hf); lia).
    eapply Forall_impl; [exact IH|]. intros kv Hx. specialize (Hx (S d)). cbn beta in Hx. unfold show.
    rewrite length_app. cbn [length after_colon compact app]. pose proof (quoted_length kv.1). lia.
Qed.
