(* ===== verification/JsonCoder.v ===== *)
(** * Coders for Go structs (encoding/json)

    How [Decode] stores a value into a variable of some type and how [Marshal]
    makes a value of it, for the types the repository's messages are made of:
    strings, integers, structs and pointers to structs.  A struct is the list
    of its fields with their tags.  [null] leaves a variable as it is (a
    pointer becomes nil), a key that occurs again is stored over what the first
    one left, keys match fields regardless of letter case, and a key without a
    field is an error ([DisallowUnknownFields]).  [Decode] goes on behind some
    errors before it returns the first; what it has stored by then is not used
    by any caller, so a coder ends at the first one. *)

From S2P Require Import Prelude GoStrings RuneFacts Numerals Http JsonText JsonFacts.

Record coder (T : Type) := mkCoder {
  zero : T;
  store : value -> T -> option T;
  emit : T -> value;
  is_empty : T -> bool;
}.
Arguments zero {T}. Arguments store {T}. Arguments emit {T}. Arguments is_empty {T}. Arguments mkCoder {T}.

Definition string_coder : coder string := {|
  zero := "";
  store v old := match v with Null => Some old | Str s => Some (string_of s) | _ => None end;
  emit s := Str (bytes_of s);
  is_empty s := String.eqb s "";
|}.

(** [int] and [int64] *)
Definition int_coder : coder Z := {|
  zero := 0;
  store v old := match v with
                 | Null => Some old
                 | Number n => match strconv_ParseInt (string_of n) with inl z => Some z | inr _ => None end
                 | _ => None
                 end;
  emit z := Number (FormatInt z);
  is_empty z := z =? 0;
|}.

Definition uint_coder : coder Z := {|
  zero := 0;
  store v old := match v with
                 | Null => Some old
                 | Number n => match strconv_ParseUint (string_of n) 10 64 with inl z => Some z | inr _ => None end
                 | _ => None
                 end;
  emit z := Number (FormatInt z);
  is_empty z := z =? 0;
|}.

Definition pointer_coder {T} (c : coder T) : coder (option T) := {|
  zero := None;
  store v old := match v with Null => Some None | _ => x ← store c v (default (zero c) old); Some (Some x) end;
  emit p := match p with None => Null | Some x => emit c x end;
  is_empty p := match p with None => true | Some _ => false end;
|}.

(** ** Structs *)

Record field (T : Type) := mkField {
  f_name : string;
  f_type : Type;
  f_coder : coder f_type;
  f_get : T -> f_type;
  f_set : f_type -> T -> T;
  f_omitempty : bool;
}.
Arguments f_name {T}. Arguments f_type {T}. Arguments f_coder {T}. Arguments f_get {T}. Arguments f_set {T}.
Arguments f_omitempty {T}. Arguments mkField {T} f_name {f_type} f_coder f_get f_set f_omitempty.

(** [foldName]: ASCII letters are equal in both cases; of all other letters
    only U+017F and U+212A fold to ASCII, to S and K. *)
Fixpoint fold_name (l : bytes) : bytes :=
  match l with
  | b :: l' =>
      if is_lower b then byte_of (byte_val b - 32) :: fold_name l'
      else match l' with
           | c :: l'' =>
               if is_byte 197 b && is_byte 191 c then "S"%char :: fold_name l''
               else match l'' with
                    | d :: l3 => if is_byte 226 b && is_byte 132 c && is_byte 170 d then "K"%char :: fold_name l3
                                 else b :: fold_name l'
                    | [] => b :: fold_name l'
                    end
           | [] => [b]
           end
  | [] => []
  end.

Section struct.
Context {T : Type} (fields : list (field T)).

Definition named (k : bytes) (f : field T) : bool := bool_decide (bytes_of (f_name f) = k).
Definition named_folded (k : bytes) (f : field T) : bool := bool_decide (fold_name (bytes_of (f_name f)) = fold_name k).

Definition find_field (k : bytes) : option (field T) :=
  match List.find (named k) fields with
  | Some f => Some f
  | None => List.find (named_folded k) fields
  end.

Definition store_member (t : T) (kv : bytes * value) : option T :=
  f ← find_field kv.1; x ← store (f_coder f) kv.2 (f_get f t); Some (f_set f x t).

Fixpoint store_members (ms : list (bytes * value)) (t : T) : option T :=
  match ms with
  | [] => Some t
  | kv :: ms' => t' ← store_member t kv; store_members ms' t'
  end.

Definition omitted (t : T) (f : field T) : bool := f_omitempty f && is_empty (f_coder f) (f_get f t).

Definition emit_fields (t : T) : list (bytes * value) :=
  (fun f => (bytes_of (f_name f), emit (f_coder f) (f_get f t))) <$> List.filter (fun f => negb (omitted t f)) fields.

(** [t0] is the struct with all fields zero.  A struct is never empty. *)
Definition struct_coder (t0 : T) : coder T := {|
  zero := t0;
  store v old := match v with Null => Some old | Obj ms => store_members ms old | _ => None end;
  emit t := Obj (emit_fields t);
  is_empty _ := false;
|}.
End struct.

(** ** The coder of a message: [json.Marshal] or [MarshalIndent], and a
    decoder that reads one value into a zero variable. *)
Definition message {T} (lay : layout) (c : coder T) : Json T := {|
  json_Marshal t := string_of (print lay 0 (emit c t));
  json_Decode s :=
    match decode_value (bytes_of s) with
    | None => Err (errorString "json: cannot read a value")
    | Some (v, rest) =>
        match store c v (zero c) with
        | None => Err (errorString "json: cannot unmarshal")
        | Some t => Ok (t, string_of rest)
        end
    end;
|}.

(** ** What is stored back *)

Definition stored_back {T} (c : coder T) (x : T) : Prop := forall old, store c (emit c x) old = Some x.

(** [x] can be written at [depth], and storing what is written gives it back. *)
Definition faithful {T} (c : coder T) (depth : Z) (x : T) : Prop := writable depth (emit c x) /\ stored_back c x.

Lemma string_faithful d s : utf8_ValidString s = true -> faithful string_coder d s.
Proof.
  intros Hs. split; [constructor; unfold text; by rewrite string_of_bytes_of|]. intros old. simpl. by rewrite string_of_bytes_of.
Qed.

Lemma int_faithful d z : in_int64 z -> faithful int_coder d z.
Proof. intros Hz. split; [constructor; apply integer_text|]. intros old. simpl. by rewrite ParseInt_format. Qed.

Lemma uint_faithful d z : in_uint64 z -> faithful uint_coder d z.
Proof. intros Hz. split; [constructor; apply integer_text|]. intros old. simpl. by rewrite ParseUint_format. Qed.

Section struct_facts.
Context {T : Type} (fields : list (field T)).

(** A struct whose field names are text and all different. *)
Definition distinct_names : bool :=
  bool_decide (NoDup (f_name <$> fields)) && forallb (fun f => utf8_ValidString (f_name f)) fields.

Context (Hnames : distinct_names = true).

Lemma find_field_own f : f ∈ fields -> find_field fields (bytes_of (f_name f)) = Some f.
Proof.
  intros Hf. apply andb_prop in Hnames as [Hd%bool_decide_eq_true _]. unfold find_field.
  assert (forall l, NoDup (f_name <$> l) -> f ∈ l -> List.find (named (bytes_of (f_name f))) l = Some f) as Hfind; [|by rewrite Hfind].
  clear. induction l as [|g l IH]; intros Hd Hf; [by apply elem_of_nil in Hf|]. apply NoDup_cons in Hd as [Hg Hd].
  cbn [List.find]. unfold named at 1. apply elem_of_cons in Hf as [-> | Hf]; [by rewrite bool_decide_eq_true_2|].
  rewrite bool_decide_eq_false_2; [by apply IH|]. intros Hn%bytes_of_inj. destruct Hg. rewrite Hn. by apply list_elem_of_fmap_2.
Qed.

(** The fields of [t] that are written, put into [acc]. *)
Definition copy_fields (t : T) (acc : T) : T :=
  foldl (fun acc f => if omitted t f then acc else f_set f (f_get f t) acc) acc fields.

Lemma emitted_stored t old :
  (forall f, f ∈ fields -> stored_back (f_coder f) (f_get f t)) ->
  store_members fields (emit_fields fields t) old = Some (copy_fields t old).
Proof.
  intros Hf. unfold emit_fields, copy_fields.
  assert (forall l acc, l ⊆ fields ->
    store_members fields ((fun f => (bytes_of (f_name f), emit (f_coder f) (f_get f t))) <$> List.filter (fun f => negb (omitted t f)) l) acc
    = Some (foldl (fun acc f => if omitted t f then acc else f_set f (f_get f t) acc) acc l)) as Hind; [|by apply Hind].
  induction l as [|f l IH]; intros acc Hl; [done|]. cbn [List.filter foldl].
  assert (l ⊆ fields) as Hl' by set_solver. destruct (omitted t f); cbn [negb]; [by apply IH|].
  rewrite fmap_cons. cbn [store_members]. unfold store_member at 1. cbn [fst snd].
  rewrite find_field_own by set_solver. cbn [mbind option_bind]. rewrite (Hf f ltac:(set_solver)). cbn [mbind option_bind].
  by apply IH.
Qed.

Lemma struct_writable t0 t d :
  (forall f, f ∈ fields -> writable (d + 1) (emit (f_coder f) (f_get f t))) -> d + 1 <= maxNestingDepth ->
  writable d (emit (struct_coder fields t0) t).
Proof.
  intros Hf Hd. cbn [emit struct_coder]. constructor; [done|]. apply andb_prop in Hnames as [_ Hv]. rewrite forallb_forall in Hv.
  unfold emit_fields. apply Forall_fmap, Forall_forall. intros f Hin%list_elem_of_In%filter_In. destruct Hin as [Hin _]. cbn.
  split; [|by apply Hf, list_elem_of_In]. unfold text. rewrite string_of_bytes_of. by apply Hv.
Qed.

Lemma struct_faithful t0 t d :
  (forall f, f ∈ fields -> faithful (f_coder f) (d + 1) (f_get f t)) ->
  d + 1 <= maxNestingDepth -> (forall old, copy_fields t old = t) -> faithful (struct_coder fields t0) d t.
Proof.
  intros Hf Hd Hc. split; [apply struct_writable; [|done]; intros f Hin; by apply Hf|]. intros old. cbn [store emit struct_coder].
  rewrite emitted_stored; [by rewrite Hc|]. intros f Hin. by apply Hf.
Qed.

(** A message is decoded to what was encoded. *)
Theorem message_round_trip lay t0 t rest :
  spaced lay -> (forall f, f ∈ fields -> faithful (f_coder f) 1 (f_get f t)) -> copy_fields t t0 = t ->
  number_end (bytes_of rest) ->
  let _ := message lay (struct_coder fields t0) in json_Decode (json_Marshal t +:+ rest) = Ok (t, rest).
Proof.
  intros Hl Hf Hc Hr. cbv zeta. unfold json_Decode, json_Marshal, message. rewrite bytes_of_app, bytes_of_string_of.
  rewrite value_written_is_read; [|done|by apply struct_writable; [intros f Hin; apply Hf|]|done].
  cbn [store zero struct_coder emit]. rewrite emitted_stored by (intros f Hin; by apply Hf). by rewrite Hc, string_of_bytes_of.
Qed.
Lemma message_decoded lay t0 t :
  spaced lay -> (forall f, f ∈ fields -> faithful (f_coder f) 1 (f_get f t)) -> copy_fields t t0 = t ->
  let _ := message lay (struct_coder fields t0) in json_Decode (json_Marshal t) = Ok (t, "").
Proof.
  intros Hl Hf Hc. pose proof (message_round_trip lay t0 t "" Hl Hf Hc I) as Hm. cbv zeta in *.
  assert (forall s, s +:+ "" = s) as He by (intros s; apply bytes_of_inj; by rewrite bytes_of_app, app_nil_r). by rewrite He in Hm.
Qed.

Lemma message_text lay t0 t :
  spaced lay -> (forall f, f ∈ fields -> faithful (f_coder f) 1 (f_get f t)) ->
  let _ := message lay (struct_coder fields t0) in utf8_ValidString (json_Marshal t) = true.
Proof.
  intros Hl Hf. cbv zeta. unfold json_Marshal, message. apply (print_text lay 0 0 _ Hl).
  apply struct_writable; [intros f Hin; by apply Hf|done].
Qed.
End struct_facts.

Lemma pointer_faithful {T} (c : coder T) d p :
  (forall x, p = Some x -> faithful c d x /\ emit c x <> Null) -> faithful (pointer_coder c) d p.
Proof.
  intros Hp. destruct p as [x|]; [|by repeat constructor]. destruct (Hp x eq_refl) as [[Hw Hs] Hn].
  split; [done|]. intros old. cbn [store emit pointer_coder]. rewrite Hs. by destruct (emit c x).
Qed.

(** The fields of a message, one by one. *)
Ltac each_field :=
  let f := fresh "f" in let Hf := fresh "Hf" in
  intros f Hf; repeat (apply elem_of_cons in Hf as [-> | Hf]); [..|by apply elem_of_nil in Hf].

Ltac field_faithful := each_field; (apply string_faithful || apply int_faithful || apply uint_faithful); done.
