(* ===== verification/JsonSound.v ===== *)
(** * What is read is well typed (encoding/json)

    Whatever the input is, the strings of a value that was read are UTF-8; a
    coder stores only integers that fit and strings that are text. *)

From S2P Require Import Prelude GoStrings RuneFacts Numerals Http JsonText JsonFacts JsonCoder.

(** ** Text *)

Lemma text_encoded r l : text l -> text (utf8_EncodeRune r ++ l).
Proof. destruct (encode_is_char r) as [z Hz]. by apply text_char_app with z. Qed.

(** ** String literals *)

(** A literal the scanner let through: its closing quote is the next one. *)
Definition literal (raw : bytes) : Prop := scan_string InString (raw ++ [quote]) = Some (raw, []).

Lemma scanned st l raw rest : scan_string st l = Some (raw, rest) -> scan_string st (raw ++ [quote]) = Some (raw, []).
Proof.
  revert st raw. induction l as [|b l IH]; intros st raw; [done|]. cbn [scan_string].
  assert (forall st', ('(r, rest') ← scan_string st' l; Some (b :: r, rest')) = Some (raw, rest) ->
    exists raw', raw = b :: raw' /\ scan_string st' (raw' ++ [quote]) = Some (raw', [])) as Hgo.
  { intros st'. destruct (scan_string st' l) as [[r rest']|] eqn:E; [|done]. intros [= <- <-]. exists r. split; [done|]. by eapply IH. }
  destruct st as [| |n].
  - destruct (Ascii.eqb b quote) eqn:E1; [by intros [= <- <-]|].
    destruct (Ascii.eqb b backslash) eqn:E2; [|destruct (byte_val b <? 32) eqn:E3; [done|]];
      intros (raw' & -> & Hr)%Hgo; cbn [app scan_string]; rewrite E1, E2, ?E3, Hr; done.
  - destruct (Ascii.eqb b "u") eqn:E1; [|destruct (existsb _ _) eqn:E2; [|done]];
      intros (raw' & -> & Hr)%Hgo; cbn [app scan_string]; rewrite E1, ?E2, Hr; done.
  - destruct (hex_digit b) eqn:E1; [|done]. intros (raw' & -> & Hr)%Hgo. cbn [app scan_string]. by rewrite E1, Hr.
Qed.

(** One step of the scanner over a literal. *)
Lemma literal_cons b l :
  literal (b :: l) ->
  if Ascii.eqb b backslash then scan_string InEscape (l ++ [quote]) = Some (l, [])
  else 32 <= byte_val b /\ literal l.
Proof.
  unfold literal. cbn [app scan_string]. destruct (Ascii.eqb b quote) eqn:E1; [done|].
  destruct (Ascii.eqb b backslash).
  - destruct (scan_string InEscape (l ++ [quote])) as [[r rest]|]; [|done]. by intros [= -> ->].
  - destruct (byte_val b <? 32) eqn:E3; [done|]. bsplit.
    destruct (scan_string InString (l ++ [quote])) as [[r rest]|]; [|done]. intros [= -> ->]. done.
Qed.

Lemma hex_step n l : scan_string (InHex n) (l ++ [quote]) = Some (l, []) ->
  exists h l', l = h :: l' /\ is_Some (hex_digit h) /\ scan_string (match n with O => InString | S m => InHex m end) (l' ++ [quote]) = Some (l', []).
Proof.
  destruct l as [|h l]; cbn [app scan_string].
  - change (hex_digit quote) with (@None Z). done.
  - destruct (hex_digit h) eqn:E; [|done].
    destruct (scan_string _ (l ++ [quote])) as [[r rest]|] eqn:Er; [|done]. intros [= -> ->]. eauto.
Qed.

Lemma literal_escape l : scan_string InEscape (l ++ [quote]) = Some (l, []) ->
  (exists h1 h2 h3 h4 l', l = "u"%char :: h1 :: h2 :: h3 :: h4 :: l' /\ is_Some (digits_val 16 0 [h1; h2; h3; h4]) /\ literal l')
  \/ exists e l', l = e :: l' /\ e <> "u"%char /\ byte_val (unescape e) < 128 /\ literal l'.
Proof.
  destruct l as [|e l]; [done|]. cbn [app scan_string]. destruct (Ascii.eqb_spec e "u") as [->|Hu].
  - destruct (scan_string (InHex 3) (l ++ [quote])) as [[r rest]|] eqn:E; [|done]. intros [= -> ->]. left.
    apply hex_step in E as (h1 & l1 & -> & [v1 H1] & E). apply hex_step in E as (h2 & l2 & -> & [v2 H2] & E).
    apply hex_step in E as (h3 & l3 & -> & [v3 H3] & E). apply hex_step in E as (h4 & l4 & -> & [v4 H4] & E).
    unfold hex_digit in *. exists h1, h2, h3, h4, l4. split; [done|]. split; [|done]. cbn [digits_val]. rewrite H1. cbn [mbind option_bind].
    rewrite H2. cbn [mbind option_bind]. rewrite H3. cbn [mbind option_bind]. rewrite H4. by eexists.
  - destruct (existsb (Ascii.eqb e) _) eqn:E; [|done].
    destruct (scan_string InString (l ++ [quote])) as [[r rest]|] eqn:Er; [|done]. intros [= -> ->]. right. exists e, l.
    split_and!; [done..| |exact Er]. apply existsb_exists in E as (x & Hx & ->%Ascii.eqb_eq).
    repeat (destruct Hx as [<- | Hx]; [vm_compute; reflexivity|]). done.
Qed.

Lemma getu4_literal l rr : literal l -> getu4 l = Some rr -> literal (drop 6 l).
Proof.
  intros Hl Hg. destruct l as [|b l]; [done|]. apply literal_cons in Hl. destruct l as [|e l]; [done|]. cbn [getu4] in Hg.
  destruct (Ascii.eqb b backslash); [|done]. destruct (Ascii.eqb_spec e "u") as [->|]; [|done].
  apply literal_escape in Hl as [(h1 & h2 & h3 & h4 & l' & [= ->] & _ & Hl')|(e & l' & [= <- ->] & Hne & _)]; done.
Qed.

(** What stands at the front of a literal is text, and a literal follows. *)
Lemma next_char_text b l : literal (b :: l) ->
  let '(out, w) := next_char (b :: l) in
  (1 <= w)%nat /\ literal (drop w (b :: l)) /\ forall x, text x -> text (out ++ x).
Proof.
  intros Hl. pose proof (literal_cons b l Hl) as Hc. cbn [next_char]. destruct (Ascii.eqb b backslash) eqn:Eb.
  - destruct (getu4 (b :: l)) as [rr|] eqn:Eg.
    + pose proof (getu4_literal _ _ Hl Eg) as H6.
      destruct (surrogate rr); [|split_and!; [lia|done|intros x; apply text_encoded]].
      destruct (getu4 (drop 6 (b :: l))) as [rr1|] eqn:Eg1; [|split_and!; [lia|done|intros x; apply text_encoded]].
      pose proof (getu4_literal _ _ H6 Eg1) as H12. rewrite drop_drop in H12.
      destruct (utf16_DecodeRune rr rr1); (split_and!; [lia|done|intros x; apply text_encoded]).
    + apply literal_escape in Hc as [(h1 & h2 & h3 & h4 & l' & -> & [v Hv] & _)|(e & l' & -> & _ & He & Hl')].
      { cbn [getu4] in Eg. rewrite Eb in Eg. change (Ascii.eqb "u" "u") with true in Eg. simpl andb in Eg. congruence. }
      split_and!; [lia|done|]. intros x. by apply (text_char_app (byte_val (unescape e))), utf8_one.
  - destruct Hc as [H32 Hl']. pose proof (char_decoded (b :: l)) as Hchar. pose proof (width_bounds (b :: l) ltac:(done)) as Hw.
    unfold width in *. destruct (decode_rune (b :: l)) as [[r w] ok] eqn:Ed. cbn [fst snd] in *.
    split; [lia|]. split; [|intros x; apply text_encoded].
    destruct w as [|[|w]]; [lia|done|]. destruct ok.
    + specialize (Hchar eq_refl). destruct (char_high _ _ Hchar) as [(b' & Hb & _)|[_ Hh]].
      { apply (f_equal length) in Hb. rewrite length_take in Hb. cbn [length] in *. lia. }
      pose proof (piece_high _ Hh (drop (S (S w)) (b :: l) ++ [quote])) as Hp. rewrite app_assoc, take_drop in Hp.
      unfold literal in Hl. rewrite Hl in Hp.
      destruct (scan_string InString (drop (S (S w)) (b :: l) ++ [quote])) as [[raw rest]|] eqn:Er; [|done].
      cbn [mbind option_bind] in Hp. injection Hp as Hraw <-. unfold literal. rewrite Er. do 2 f_equal.
      apply (app_inv_head (take (S (S w)) (b :: l))). rewrite take_drop. cbn [take app]. by rewrite <- Hraw.
    + exfalso. clear -Ed. unfold decode_rune in Ed. repeat (case_match; simplify_eq/=; try done).
Qed.

Lemma unquote_text raw : literal raw -> text (unquote 0 raw).
Proof.
  induction raw as [raw IH] using (induction_ltof1 _ (@length _)). unfold ltof in IH. intros Hl. destruct raw as [|b l]; [done|].
  pose proof (next_char_text b l Hl) as Hn. cbn [unquote]. destruct (next_char (b :: l)) as [out w]. destruct Hn as (Hw & Hd & Ht).
  apply Ht. rewrite unquote_skip. destruct w as [|w]; [lia|]. cbn [drop] in Hd. replace (S w - 1)%nat with w by lia. apply IH; [|done].
  rewrite length_drop. simpl. lia.
Qed.

Lemma string_at_text l s rest : string_at l = Some (s, rest) -> text s.
Proof.
  unfold string_at. destruct (scan_string InString l) as [[raw rest']|] eqn:E; [|done]. intros [= <- _].
  apply unquote_text. by eapply scanned.
Qed.

(** ** Values *)

Unset Elimination Schemes.
Inductive text_value : value -> Prop :=
| text_null : text_value Null
| text_bool b : text_value (Bool b)
| text_number n : text_value (Number n)
| text_str s : text s -> text_value (Str s)
| text_arr l : Forall text_value l -> text_value (Arr l)
| text_obj l : Forall (fun kv => text_value kv.2) l -> text_value (Obj l).
Set Elimination Schemes.

Definition yields {A} (P : A -> Prop) (p : bytes -> option (A * bytes)) : Prop := forall l x rest, p l = Some (x, rest) -> P x.

Lemma items_yield {A} (P : A -> Prop) item close n : yields P item -> yields (Forall P) (items_at item close n).
Proof.
  intros Hi. induction n as [|n IH]; intros l xs rest; [done|]. cbn [items_at].
  destruct (item l) as [[x l1]|] eqn:E1; [|done]. apply Hi in E1. cbn [mbind option_bind].
  destruct (front _ _) as [[b l2]|]; [|done]. cbn [mbind option_bind].
  destruct (Ascii.eqb b close); [intros [= <- _]; by repeat constructor|]. destruct (Ascii.eqb b ","); [|done].
  destruct (items_at _ _ _ l2) as [[xs' rest']|] eqn:E3; [|done]. apply IH in E3. intros [= <- _]. by constructor.
Qed.

Lemma bracket_yields {A} (P : A -> Prop) item close n : yields P item -> yields (Forall P) (bracket_at item close n).
Proof.
  intros Hi l xs rest. unfold bracket_at. destruct (skip_space l) as [|b l1]; [done|].
  destruct (Ascii.eqb b close); [intros [= <- _]; constructor|]. by apply items_yield.
Qed.

Lemma member_yields P val : yields P val -> yields (fun kv => P kv.2) (member_at val).
Proof.
  intros Hv l kv rest. unfold member_at. destruct (front _ (skip_space l)) as [[b l1]|]; [|done]. cbn [mbind option_bind].
  destruct (string_at l1) as [[k l2]|]; [|done]. cbn [mbind option_bind].
  destruct (front _ (skip_space l2)) as [[c l3]|]; [|done]. cbn [mbind option_bind].
  destruct (val l3) as [[v l4]|] eqn:E4; [|done]. apply Hv in E4. by intros [= <- _].
Qed.

Lemma value_at_text n depth : yields text_value (value_at n depth).
Proof.
  revert depth. induction n as [|n IH]; intros depth l v rest; [done|]. cbn [value_at].
  destruct (skip_space l) as [|b l1]; [done|]. unfold keyword.
  repeat case_match; try done; try (intros [= <- _]; by constructor).
  - destruct (string_at l1) as [[s rest']|] eqn:E; [|done]. apply string_at_text in E. intros [= <- _]. by constructor.
  - destruct (bracket_at _ _ n l1) as [[ms rest']|] eqn:E; [|done]. apply (bracket_yields _ _ _ _ (member_yields _ _ (IH _))) in E.
    intros [= <- _]. by constructor.
  - destruct (bracket_at _ _ n l1) as [[ms rest']|] eqn:E; [|done]. apply (bracket_yields _ _ _ _ (IH _)) in E. intros [= <- _]. by constructor.
  - destruct (scan_number (b :: l1)) as [[lit rest']|]; [|done]. intros [= <- _]. by constructor.
Qed.

(** ** Coders

    [P] holds of a zero variable and is kept by storing. *)
Definition sound {T} (c : coder T) (P : T -> Prop) : Prop :=
  P (zero c) /\ forall v old x, text_value v -> P old -> store c v old = Some x -> P x.

Lemma string_sound : sound string_coder (fun s => utf8_ValidString s = true).
Proof. split; [done|]. intros v old x Hv Ho. destruct Hv; simpl; try done; by intros [= <-]. Qed.

Lemma ParseInt_range s z : strconv_ParseInt s = inl z -> in_int64 z.
Proof. unfold strconv_ParseInt, in_int64. intros H. repeat (case_match; simplify_eq); bsplit; lia. Qed.

Lemma int_sound : sound int_coder in_int64.
Proof.
  split; [done|]. intros v old x Hv Ho. destruct Hv as [| |n| | |]; simpl; try done; [by intros [= <-]|].
  destruct (strconv_ParseInt _) eqn:E; [|done]. intros [= <-]. by eapply ParseInt_range.
Qed.

Lemma uint_sound : sound uint_coder in_uint64.
Proof.
  split; [done|]. intros v old x Hv Ho. destruct Hv as [| |n| | |]; simpl; try done; [by intros [= <-]|].
  destruct (strconv_ParseUint _ _ _) eqn:E; [|done]. intros [= <-]. apply ParseUint_range in E. unfold in_uint64, MaxUint64. lia.
Qed.

Lemma pointer_sound {T} (c : coder T) P : sound c P -> sound (pointer_coder c) (fun p => forall x, p = Some x -> P x).
Proof.
  intros [Hz Hs]. split; [done|]. intros v old p Hv Ho Hp x ->.
  assert (P (default (zero c) old)) as Hd by (destruct old; [by apply Ho|done]).
  destruct v; simpl in Hp; try done;
    (destruct (store c _ (default (zero c) old)) as [y|] eqn:E; [|done]; injection Hp as ->; by eapply Hs).
Qed.

(** A field is stored soundly into a struct of which [P] holds. *)
Definition sound_field {T} (P : T -> Prop) (f : field T) : Prop :=
  exists Q, sound (f_coder f) Q /\ (forall t, P t -> Q (f_get f t)) /\ forall x t, Q x -> P t -> P (f_set f x t).

Lemma struct_sound {T} (fields : list (field T)) t0 P :
  P t0 -> (forall f, f ∈ fields -> sound_field P f) -> sound (struct_coder fields t0) P.
Proof.
  intros H0 Hf. split; [done|]. intros v old x Hv Ho. destruct Hv as [| | | | |ms Hms]; try done; [by intros [= <-]|].
  cbn [store struct_coder]. revert old Ho. induction Hms as [|[k v] ms Hv Hms IH]; intros old Ho; [by intros [= <-]|].
  cbn [store_members]. unfold store_member at 1. cbn [fst snd].
  destruct (find_field fields k) as [f|] eqn:Ef; [|done]. cbn [mbind option_bind].
  destruct (store (f_coder f) v (f_get f old)) as [y|] eqn:Es; [|done]. cbn [mbind option_bind].
  assert (f ∈ fields) as Hin.
  { apply list_elem_of_In. unfold find_field in Ef. destruct (List.find (named k) fields) eqn:En; [|by apply find_some in Ef as [? _]].
    injection Ef as ->. by apply find_some in En as [? _]. }
  destruct (Hf f Hin) as (Q & [_ HQ] & Hget & Hset). apply IH. apply Hset; [|done]. eapply HQ; [done|by apply Hget|done].
Qed.

(** What a decoder takes from any input has the property of its coder. *)
Theorem decoded_sound {T} (c : coder T) P lay s t rest :
  sound c P -> (let _ := message lay c in json_Decode s = Ok (t, rest)) -> P t.
Proof.
  intros [Hz Hs]. cbv zeta. unfold json_Decode, message. unfold decode_value. destruct (value_at _ 0 (bytes_of s)) as [[v r]|] eqn:Ev; [|done].
  destruct (store c v (zero c)) as [x|] eqn:Ex; [|done]. intros [= <- _]. eapply Hs; [by eapply value_at_text|done|done].
Qed.
