(* ===== verification/Messages.v ===== *)
(** * The messages of the wire protocol as JSON (src/internal/protocol/protocol.go)

    The coders of the structs of protocol.go, by their json tags, and that a
    valid message is decoded to what was encoded. *)

From S2P Require Import Prelude GoStrings RuneFacts Job Protocol Http JsonText JsonFacts JsonCoder JsonSound.

Definition assignment_fields : list (field JobAssignment) := [
  mkField "job_id" string_coder JA_JobID (fun x r => mkJobAssignment x (JA_Attempt r) (JA_Action r)) false;
  mkField "attempt" int_coder JA_Attempt (fun x r => mkJobAssignment (JA_JobID r) x (JA_Action r)) false;
  mkField "action" string_coder JA_Action (fun x r => mkJobAssignment (JA_JobID r) (JA_Attempt r) x) false].
Definition assignment_coder : coder JobAssignment := struct_coder assignment_fields (mkJobAssignment "" 0 "").

Definition heartbeat_response_fields : list (field HeartbeatResponse) := [
  mkField "protocol_version" int_coder HB_ProtocolVersion (fun x r => mkHeartbeatResponse x (HB_Job r)) false;
  mkField "job" (pointer_coder assignment_coder) HB_Job (fun x r => mkHeartbeatResponse (HB_ProtocolVersion r) x) true].
Definition heartbeat_response_coder : coder HeartbeatResponse := struct_coder heartbeat_response_fields (mkHeartbeatResponse 0 None).
#[export] Instance heartbeat_response_json : Json HeartbeatResponse := message compact heartbeat_response_coder.

Definition job_start_fields : list (field JobStartRequest) := [
  mkField "protocol_version" int_coder JS_ProtocolVersion (fun x r => mkJobStartRequest x (JS_JobID r) (JS_Attempt r)) false;
  mkField "job_id" string_coder JS_JobID (fun x r => mkJobStartRequest (JS_ProtocolVersion r) x (JS_Attempt r)) false;
  mkField "attempt" int_coder JS_Attempt (fun x r => mkJobStartRequest (JS_ProtocolVersion r) (JS_JobID r) x) false].
#[export] Instance job_start_json : Json JobStartRequest := message compact (struct_coder job_start_fields (mkJobStartRequest 0 "" 0)).

Definition job_complete_fields : list (field JobCompleteRequest) := [
  mkField "protocol_version" int_coder JC_ProtocolVersion
    (fun x r => mkJobCompleteRequest x (JC_JobID r) (JC_Attempt r) (JC_Outcome r) (JC_FailureCode r)) false;
  mkField "job_id" string_coder JC_JobID
    (fun x r => mkJobCompleteRequest (JC_ProtocolVersion r) x (JC_Attempt r) (JC_Outcome r) (JC_FailureCode r)) false;
  mkField "attempt" int_coder JC_Attempt
    (fun x r => mkJobCompleteRequest (JC_ProtocolVersion r) (JC_JobID r) x (JC_Outcome r) (JC_FailureCode r)) false;
  mkField "outcome" string_coder JC_Outcome
    (fun x r => mkJobCompleteRequest (JC_ProtocolVersion r) (JC_JobID r) (JC_Attempt r) x (JC_FailureCode r)) false;
  mkField "failure_code" string_coder JC_FailureCode
    (fun x r => mkJobCompleteRequest (JC_ProtocolVersion r) (JC_JobID r) (JC_Attempt r) (JC_Outcome r) x) true].
#[export] Instance job_complete_json : Json JobCompleteRequest :=
  message compact (struct_coder job_complete_fields (mkJobCompleteRequest 0 "" 0 "" "")).

Definition heartbeat_request_fields : list (field HeartbeatRequest) := [
  mkField "protocol_version" int_coder HR_ProtocolVersion (fun x _ => mkHeartbeatRequest x) false].
#[export] Instance heartbeat_request_json : Json HeartbeatRequest :=
  message compact (struct_coder heartbeat_request_fields (mkHeartbeatRequest 0)).

Definition inventory_fields : list (field InventoryRequest) :=
  let set f r := f (Inv_ProtocolVersion r) (Hostname r) (OSID r) (OSName r) (OSVersion r) (KernelRelease r) (Architecture r)
                   (CPULogicalCores r) (Inv_MemoryTotalBytes r) in [
  mkField "protocol_version" int_coder Inv_ProtocolVersion (fun x => set (fun _ b c d e f g h i => mkInventoryRequest x b c d e f g h i)) false;
  mkField "hostname" string_coder Hostname (fun x => set (fun a _ c d e f g h i => mkInventoryRequest a x c d e f g h i)) false;
  mkField "os_id" string_coder OSID (fun x => set (fun a b _ d e f g h i => mkInventoryRequest a b x d e f g h i)) false;
  mkField "os_name" string_coder OSName (fun x => set (fun a b c _ e f g h i => mkInventoryRequest a b c x e f g h i)) false;
  mkField "os_version" string_coder OSVersion (fun x => set (fun a b c d _ f g h i => mkInventoryRequest a b c d x f g h i)) false;
  mkField "kernel_release" string_coder KernelRelease (fun x => set (fun a b c d e _ g h i => mkInventoryRequest a b c d e x g h i)) false;
  mkField "architecture" string_coder Architecture (fun x => set (fun a b c d e f _ h i => mkInventoryRequest a b c d e f x h i)) false;
  mkField "cpu_logical_cores" int_coder CPULogicalCores (fun x => set (fun a b c d e f g _ i => mkInventoryRequest a b c d e f g x i)) false;
  mkField "memory_total_bytes" int_coder Inv_MemoryTotalBytes (fun x => set (fun a b c d e f g h _ => mkInventoryRequest a b c d e f g h x)) false].
#[export] Instance inventory_json : Json InventoryRequest :=
  message compact (struct_coder inventory_fields (mkInventoryRequest 0 "" "" "" "" "" "" 0 0)).

(** The struct is its fields in order: the [n]-th is replaced. *)
Definition telemetry_list (r : TelemetryRequest) : list Z :=
  [Tel_ProtocolVersion r; CPUUsageBasisPoints r; MemoryTotalBytes r; MemoryUsedBytes r; MemoryAvailableBytes r;
   Load1mMilli r; Load5mMilli r; Load15mMilli r; RootFilesystemTotalBytes r; RootFilesystemUsedBytes r;
   RootFilesystemAvailableBytes r; NetworkReceiveBytesTotal r; NetworkTransmitBytesTotal r; UptimeSeconds r; SampleWindowMS r].

Definition telemetry_of (l : list Z) : TelemetryRequest :=
  let n i := nth i l 0 in
  mkTelemetryRequest (n 0%nat) (n 1%nat) (n 2%nat) (n 3%nat) (n 4%nat) (n 5%nat) (n 6%nat) (n 7%nat) (n 8%nat) (n 9%nat)
    (n 10%nat) (n 11%nat) (n 12%nat) (n 13%nat) (n 14%nat).

Definition telemetry_names : list string :=
  ["protocol_version"; "cpu_usage_basis_points"; "memory_total_bytes"; "memory_used_bytes"; "memory_available_bytes";
   "load_1m_milli"; "load_5m_milli"; "load_15m_milli"; "root_filesystem_total_bytes"; "root_filesystem_used_bytes";
   "root_filesystem_available_bytes"; "network_receive_bytes_total"; "network_transmit_bytes_total"; "uptime_seconds";
   "sample_window_ms"].

Definition telemetry_fields : list (field TelemetryRequest) :=
  imap (fun i name => mkField name int_coder (fun r => nth i (telemetry_list r) 0)
                        (fun x r => telemetry_of (<[i := x]> (telemetry_list r))) false) telemetry_names.
#[export] Instance telemetry_json : Json TelemetryRequest := message compact (struct_coder telemetry_fields (telemetry_of [])).

(** ** Round trips

    Go strings of a message are text and its integers are of type int64. *)

Ltac record_copied := match goal with |- copy_fields _ ?t _ = _ => by destruct t end.

Class WireType (T : Type) := { typed : T -> Prop }.
Arguments typed {T _} _ : simpl never.

Definition assignment_typed (r : JobAssignment) : Prop :=
  utf8_ValidString (JA_JobID r) = true /\ in_int64 (JA_Attempt r) /\ utf8_ValidString (JA_Action r) = true.
#[export] Instance heartbeat_request_typed : WireType HeartbeatRequest := {| typed r := in_int64 (HR_ProtocolVersion r) |}.
#[export] Instance heartbeat_response_typed : WireType HeartbeatResponse := {|
  typed r := in_int64 (HB_ProtocolVersion r) /\ forall a, HB_Job r = Some a -> assignment_typed a |}.
#[export] Instance job_start_typed : WireType JobStartRequest := {|
  typed r := in_int64 (JS_ProtocolVersion r) /\ utf8_ValidString (JS_JobID r) = true /\ in_int64 (JS_Attempt r) |}.
#[export] Instance job_complete_typed : WireType JobCompleteRequest := {|
  typed r := in_int64 (JC_ProtocolVersion r) /\ utf8_ValidString (JC_JobID r) = true /\ in_int64 (JC_Attempt r)
             /\ utf8_ValidString (JC_Outcome r) = true /\ utf8_ValidString (JC_FailureCode r) = true |}.
#[export] Instance inventory_typed : WireType InventoryRequest := {|
  typed r := in_int64 (Inv_ProtocolVersion r)
    /\ Forall (fun s => utf8_ValidString s = true) [Hostname r; OSID r; OSName r; OSVersion r; KernelRelease r; Architecture r]
    /\ in_int64 (CPULogicalCores r) /\ in_int64 (Inv_MemoryTotalBytes r) |}.
#[export] Instance telemetry_typed : WireType TelemetryRequest := {| typed r := Forall in_int64 (telemetry_list r) |}.

Lemma assignment_faithful d r : d + 1 <= maxNestingDepth -> assignment_typed r -> faithful assignment_coder d r.
Proof. intros Hd (H1 & H2 & H3). apply struct_faithful; [done|field_faithful|done|]. intros old. record_copied. Qed.

(** What is read from the front of an input is the message that was written
    there. *)
Definition round_trips {T} `{Json T} `{WireType T} : Prop :=
  forall (r : T) rest, typed r -> number_end (bytes_of rest) -> json_Decode (json_Marshal r +:+ rest) = Ok (r, rest).

Lemma round_trips_whole {T} `{Json T} `{WireType T} : round_trips (T := T) -> forall r : T, typed r -> json_Decode (json_Marshal r) = Ok (r, "").
Proof.
  intros Hr r Ht. specialize (Hr r "" Ht I).
  assert (forall s, s +:+ "" = s) as He by (intros s; apply bytes_of_inj; by rewrite bytes_of_app, app_nil_r). by rewrite He in Hr.
Qed.

Lemma heartbeat_response_copied t : copy_fields heartbeat_response_fields t (mkHeartbeatResponse 0 None) = t.
Proof. by destruct t as [v [a|]]. Qed.

Lemma job_complete_copied t : copy_fields job_complete_fields t (mkJobCompleteRequest 0 "" 0 "" "") = t.
Proof. by destruct t as [v j a o [|b c]]. Qed.

Lemma heartbeat_response_faithful r f :
  typed r -> f ∈ heartbeat_response_fields -> faithful (f_coder f) 1 (f_get f r).
Proof.
  intros [Hv Ha]. revert f. each_field; [by apply int_faithful|]. apply pointer_faithful. intros a Hp. split; [|done].
  apply assignment_faithful; [done|]. by apply Ha.
Qed.

Lemma messages_round_trip_all :
  @round_trips HeartbeatRequest _ _ /\ @round_trips HeartbeatResponse _ _ /\ @round_trips JobStartRequest _ _
  /\ @round_trips JobCompleteRequest _ _ /\ @round_trips InventoryRequest _ _ /\ @round_trips TelemetryRequest _ _.
Proof.
  split_and!; intros r rest Ht Hr; (apply message_round_trip; [done..| |try record_copied|done]); unfold typed in Ht; simpl in Ht.
  - field_faithful.
  - intros f Hf. by apply heartbeat_response_faithful.
  - apply heartbeat_response_copied.
  - destruct Ht as (H1 & H2 & H3). field_faithful.
  - destruct Ht as (H1 & H2 & H3 & H4 & H5). field_faithful.
  - apply job_complete_copied.
  - destruct Ht as (H1 & H2 & H3 & H4). rewrite !Forall_cons in H2. destruct H2 as (Ha & Hb & Hc & Hd & He & Hf & _). field_faithful.
  - rewrite Forall_forall in Ht. each_field; apply int_faithful, Ht; unfold telemetry_list; cbn [f_get nth]; set_solver.
Qed.

(** ** Types

    Whatever arrives, a message that is decoded has text and integers of its
    types. *)
Definition well_typed {T} `{Json T} `{WireType T} : Prop :=
  forall s (r : T) rest, json_Decode s = Ok (r, rest) -> typed r.

Ltac unfold_typed :=
  unfold typed, heartbeat_request_typed, heartbeat_response_typed, job_start_typed, job_complete_typed, inventory_typed, telemetry_typed in *.

Ltac sound_field :=
  eexists; (split; [apply string_sound || apply int_sound || apply uint_sound|]);
  (split; [intros ? ?|intros ? ? ? ?]); unfold_typed; cbn in *; rewrite ?Forall_cons in *; intuition.

Ltac sound_fields := each_field; sound_field.

Lemma assignment_sound : sound assignment_coder assignment_typed.
Proof. apply struct_sound; [done|]. unfold assignment_typed. sound_fields. Qed.

Lemma nth_in_int64 i l : Forall in_int64 l -> in_int64 (nth i l 0).
Proof. intros Hl. revert i. induction Hl as [|x l Hx Hl IH]; intros [|i]; done || apply IH. Qed.

Lemma telemetry_sound_field f : f ∈ telemetry_fields -> sound_field typed f.
Proof.
  intros (i & name & -> & _)%elem_of_lookup_imap_1. exists in_int64. split; [apply int_sound|].
  split; [intros t Ht; by apply nth_in_int64|]. intros x t Hx Ht. cbn [f_set].
  assert (forall l, Forall in_int64 l -> typed (telemetry_of l)) as Hl; [|by apply Hl, Forall_insert].
  intros l Hl. unfold typed, telemetry_typed. pose proof (fun i => nth_in_int64 i l Hl) as Hn. by repeat constructor; apply Hn.
Qed.

Lemma messages_well_typed_all :
  @well_typed HeartbeatRequest _ _ /\ @well_typed HeartbeatResponse _ _ /\ @well_typed JobStartRequest _ _
  /\ @well_typed JobCompleteRequest _ _ /\ @well_typed InventoryRequest _ _ /\ @well_typed TelemetryRequest _ _.
Proof.
  split_and!; intros s r rest; (eapply decoded_sound, struct_sound).
  - done.
  - sound_fields.
  - done.
  - each_field; [by sound_field|]. eexists. split; [apply pointer_sound, assignment_sound|].
    split; [intros t Ht|intros x t Hx Ht]; unfold_typed; cbn in *; naive_solver.
  - done.
  - sound_fields.
  - done.
  - sound_fields.
  - unfold_typed. cbn. split_and!; repeat constructor; done.
  - sound_fields.
  - unfold_typed. repeat constructor; done.
  - apply telemetry_sound_field.
Qed.

(** ** Examples *)

Example start_marshalled :
  json_Marshal (mkJobStartRequest 2 "<job>" (-1)) = quoting "{'protocol_version':2,'job_id':'\u003cjob\u003e','attempt':-1}".
Proof. vm_compute. reflexivity. Qed.

(** Keys in any case, escapes, a repeated key, null, white space, and what
    follows. *)
Example start_decoded :
  json_Decode (quoting " { 'Protocol_Version' : 1 , 'job_id':'\u0061\/' , 'attempt':-0, 'PROTOCOL_VERSION':2,'job_id':null } x")
  = Ok (mkJobStartRequest 2 "a/" 0, " x").
Proof. vm_compute. reflexivity. Qed.

(** Unknown keys, numbers that are no int64, other types, trailing commas and
    unfinished text are refused; so is nothing at all, but null is taken for
    the zero message. *)
Example starts_refused :
  Forall (fun s => is_Ok (json_Decode (T := JobStartRequest) (quoting s)) = false)
    ["{'job':1}"; "{'attempt':1.0}"; "{'attempt':1e2}"; "{'attempt':9223372036854775808}"; "{'attempt':'1'}"; "{'attempt':1,}";
     "{'attempt':01}"; "[]"; "2"; "{'job_id':'a"; "{'job_id':'\x'}"; ""; "{"]
  /\ json_Decode "null" = Ok (mkJobStartRequest 0 "" 0, "").
Proof. split; [repeat constructor|reflexivity]. Qed.

(** A lone surrogate and bytes that are no UTF-8 become U+FFFD; a pair of
    surrogates is one character. *)
Example strings_decoded :
  (fun s => (fun r => r.1) <$> string_at (bytes_of (quoting s))) <$> ["\ud800x'"; "\ud83d\ude00'"; String (byte_of 255) "'"]
  = [Some (utf8_EncodeRune RuneError ++ bytes_of "x"); Some (utf8_EncodeRune 128512); Some (utf8_EncodeRune RuneError)].
Proof. vm_compute. reflexivity. Qed.

(** The inner struct of a repeated pointer is written over, not replaced. *)
Example assignment_merged :
  json_Decode (quoting "{'protocol_version':2,'job':{'job_id':'a','attempt':1},'job':{'attempt':2}}")
  = Ok (mkHeartbeatResponse 2 (Some (mkJobAssignment "a" 2 "")), "").
Proof. vm_compute. reflexivity. Qed.
