(* ===== verification/Files.v ===== *)
(** * Files the agent reads

    One reading of the file system: opening a path may fail, and an open file
    delivers bytes and possibly an error before its end.  [readBoundedFile] is
    that of src/internal/agent/inventory.go.  Then the functions of
    path/filepath the code uses. *)

From S2P Require Import Prelude GoStrings Http.

Definition FileSystem : Type := string -> result Body.

Definition os_ErrNotExist : error := sentinel "os.ErrNotExist".

Definition readBoundedFile (fs : FileSystem) (path : string) (maxBytes : Z) : result string :=
  match fs path with
  | Err err => Err err
  | Ok f =>
      match ReadAllLimit (maxBytes + 1) f with
      | Err err => Err err
      | Ok data =>
          fail_if maxBytes <? len data with errorString "file exceeds maximum allowed size" else Ok data
      end
  end.

(** [bufio.NewReader(io.LimitReader(f, n)).ReadString('\n')], with an EOF
    that is not an error: the bytes through the first newline, or all there
    are. *)
Definition read_line_limit (n : Z) (f : Body) : result string :=
  let l := take (Z.to_nat n) (bytes_of (body_bytes f)) in
  match IndexByte l "010"%char with
  | Some i => Ok (string_of (take (S i) l))
  | None =>
      if n <=? len (body_bytes f) then Ok (string_of l)
      else match body_err f with
           | Some err => Err err
           | None => Ok (string_of l)
           end
  end.

(** [strings.TrimRight(s, cutset)] for a cutset of ASCII characters. *)
Fixpoint drop_any (cutset l : bytes) : bytes :=
  match l with
  | b :: l' => if existsb (Ascii.eqb b) cutset then drop_any cutset l' else l
  | [] => []
  end.

Definition strings_TrimRight (s cutset : string) : string :=
  string_of (rev (drop_any (bytes_of cutset) (rev (bytes_of s)))).

(** ** path/filepath *)

(** The elements of a path after [Clean]: the last element first. *)
Fixpoint clean_elements (rooted : bool) (elems : list string) (stack : list string) : list string :=
  match elems with
  | [] => stack
  | e :: elems' =>
      clean_elements rooted elems'
        (if String.eqb e "" || String.eqb e "." then stack
         else if String.eqb e ".." then
           match stack with
           | [] => if rooted then [] else [".."]
           | top :: stack' => if String.eqb top ".." then ".." :: stack else stack'
           end
         else e :: stack)
  end.

Definition filepath_IsAbs (path : string) : bool := strings_HasPrefix path "/".

Definition filepath_Clean (path : string) : string :=
  if String.eqb path "" then "." else
  let rooted := filepath_IsAbs path in
  let out := String.concat "/" (rev (clean_elements rooted (strings_Split path "/"%char) [])) in
  if rooted then "/" +:+ out else if String.eqb out "" then "." else out.

(** [filepath.Join] of a non-empty directory and a file name. *)
Definition filepath_Join (dir file : string) : string := filepath_Clean (dir +:+ "/" +:+ file).

(** The bound holds for whatever is read. *)
Lemma readBoundedFile_bound fs path n data :
  readBoundedFile fs path n = Ok data -> len data <= n.
Proof.
  unfold readBoundedFile. destruct (fs path) as [f|]; [|done].
  destruct (ReadAllLimit _ _) as [d|]; [|done]. destruct (n <? len d) eqn:E; [done|].
  intros [= ->]. bsplit. lia.
Qed.

(** ** Joining a clean directory and a file name *)

Lemma string_app_assoc (s1 s2 s3 : string) : (s1 +:+ s2) +:+ s3 = s1 +:+ s2 +:+ s3.
Proof. apply bytes_of_inj. by rewrite !bytes_of_app, app_assoc. Qed.

Lemma split_byte_app sep acc l1 l2 :
  split_byte sep acc (l1 ++ sep :: l2) = split_byte sep acc l1 ++ split_byte sep [] l2.
Proof.
  revert acc. induction l1 as [|b l1 IH]; intros acc; simpl; [by rewrite Ascii.eqb_refl|].
  destruct (Ascii.eqb b sep); [by rewrite IH|apply IH].
Qed.

Lemma clean_elements_app rooted l1 l2 st :
  clean_elements rooted (l1 ++ l2) st = clean_elements rooted l2 (clean_elements rooted l1 st).
Proof. revert st. induction l1 as [|e l1 IH]; intros st; simpl; [done|apply IH]. Qed.

Lemma concat_snoc sep l x :
  String.concat sep (l ++ [x]) = match l with [] => x | _ => String.concat sep l +:+ sep +:+ x end.
Proof.
  induction l as [|y l IH]; [done|]. destruct l as [|z l]; [done|].
  change (String.concat sep ((y :: z :: l) ++ [x])) with (y +:+ (sep +:+ String.concat sep ((z :: l) ++ [x]))).
  rewrite IH. change (String.concat sep (y :: z :: l)) with (y +:+ (sep +:+ String.concat sep (z :: l))).
  by rewrite !string_app_assoc.
Qed.

(** A file name: no separator, and none of the special elements. *)
Definition file_name (name : string) : Prop :=
  ("/"%char ∉ bytes_of name) /\ name <> "" /\ name <> "." /\ name <> "..".

#[export] Instance file_name_dec name : Decision (file_name name).
Proof. unfold file_name. apply _. Defined.

Definition clean_dir (dir : string) : Prop :=
  filepath_IsAbs dir = true /\ filepath_Clean dir = dir /\ dir <> "/".

Lemma filepath_Join_clean dir name :
  clean_dir dir -> file_name name -> filepath_Join dir name = dir +:+ "/" +:+ name.
Proof.
  intros (Ha & Hc & Hr) (Hs & H0 & H1 & H2).
  assert (dir <> "") as Hd by (by intros ->).
  assert (dir +:+ "/" +:+ name <> "") as Hj by (by destruct dir).
  assert (filepath_IsAbs (dir +:+ "/" +:+ name) = true) as Ha'.
  { unfold filepath_IsAbs, strings_HasPrefix in *. rewrite bytes_of_app, (has_prefix_inv _ _ Ha), <- app_assoc.
    apply has_prefix_app. }
  unfold filepath_Join. revert Hc. unfold filepath_Clean.
  rewrite (proj2 (String.eqb_neq _ _) Hd), (proj2 (String.eqb_neq _ _) Hj), Ha, Ha'.
  assert (strings_Split (dir +:+ "/" +:+ name) "/" = strings_Split dir "/" ++ [name]) as ->.
  { unfold strings_Split. rewrite !bytes_of_app. change (bytes_of "/" ++ bytes_of name) with ("/"%char :: bytes_of name).
    rewrite split_byte_app, fmap_app, (split_byte_none _ _ (bytes_of name)) by done. simpl.
    by rewrite string_of_bytes_of. }
  rewrite clean_elements_app. set (st := clean_elements true (strings_Split dir "/") []). simpl.
  rewrite (proj2 (String.eqb_neq _ _) H0), (proj2 (String.eqb_neq _ _) H1), (proj2 (String.eqb_neq _ _) H2).
  simpl. rewrite concat_snoc. intros Hc. destruct (rev st) as [|x l] eqn:E; [by rewrite <- Hc in Hr|].
  rewrite <- Hc at 1. by rewrite !string_app_assoc.
Qed.
