(* ===== verification/GoFloat.v ===== *)
(** * float64 as the agent uses it

    The numbers of package strconv's [ParseFloat] and the operations the agent
    applies to them.  A finite float64 is [m * 2^e]; a non-negative rational is
    rounded to the nearest one, ties to even, with 53 bits and exponents from
    -1074, which is what [ParseFloat] and the arithmetic of IEEE 754 return. *)

From S2P Require Import Prelude GoStrings.

Inductive float64 := Finite (neg : bool) (m e : Z) | Inf (neg : bool) | NaN.

(** ** Rounding *)

(** [x * 2^k] for a rational [x = num / den], as a rational. *)
Definition scaled (num den k : Z) : Z * Z :=
  if 0 <=? k then (num * 2 ^ k, den) else (num, den * 2 ^ (- k)).

Definition nearest_even (num den : Z) : Z :=
  let q := num / den in
  let r := num mod den in
  if 2 * r <? den then q
  else if den <? 2 * r then q + 1
  else if Z.even q then q else q + 1.

(** The exponent of the leading bit of [num / den]. *)
Definition leading_bit (num den : Z) : Z :=
  let k := Z.log2 num - Z.log2 den in
  let '(n, d) := scaled num den (- k) in
  if d <=? n then k else k - 1.

(** The exponent of the last of 53 bits. *)
Definition last_bit (num den : Z) : Z := Z.max (-1074) (leading_bit num den - 52).

Definition round64 (neg : bool) (num den : Z) : float64 :=
  if num <=? 0 then Finite neg 0 0 else
  let e := last_bit num den in
  let '(n, d) := scaled num den (- e) in
  let m := nearest_even n d in
  if (971 <? e) || ((e =? 971) && (2 ^ 53 <=? m)) then Inf neg else Finite neg m e.

(** ** strconv.ParseFloat *)

(** The digits of a mantissa, with one point: the number they spell, how many
    follow the point, whether there was one, and what is left. *)
Fixpoint scan_mantissa (base : Z) (l : bytes) (dot digits : bool) (mant frac : Z) : Z * Z * bool * bytes :=
  match l with
  | [] => (mant, frac, digits, [])
  | b :: l' =>
      if is_byte 95 b then scan_mantissa base l' dot digits mant frac
      else if is_byte 46 b then
        if dot then (mant, frac, digits, l) else scan_mantissa base l' true digits mant frac
      else match digit_val base b with
           | Some d => scan_mantissa base l' dot true (mant * base + d) (if dot then frac + 1 else frac)
           | None => (mant, frac, digits, l)
           end
  end.

Fixpoint scan_exponent (l : bytes) (e : Z) : Z * bytes :=
  match l with
  | [] => (e, [])
  | b :: l' =>
      if is_byte 95 b then scan_exponent l' e
      else if is_digit b then scan_exponent l' (if e <? 10000 then e * 10 + (byte_val b - 48) else e)
      else (e, l)
  end.

(** The exponent after [e] or [p]: a sign and at least one digit. *)
Definition read_exponent (l : bytes) : option (Z * bytes) :=
  let '(sign, l) := match l with
                    | b :: l' => if is_byte 43 b then (1, l') else if is_byte 45 b then (-1, l') else (1, l)
                    | [] => (1, [])
                    end in
  match l with
  | b :: _ => if is_digit b then let '(e, rest) := scan_exponent l 0 in Some (sign * e, rest) else None
  | [] => None
  end.

(** [underscoreOK]: an underscore only between digits or after a base prefix.
    [saw] is the kind of the last character: a digit, an underscore or another. *)
Inductive saw_kind := SawNothing | SawDigit | SawUnderscore | SawOther.

Fixpoint underscore_scan (hex : bool) (saw : saw_kind) (l : bytes) : bool :=
  match l with
  | [] => match saw with SawUnderscore => false | _ => true end
  | b :: l' =>
      if negb (is_null (digit_val (if hex then 16 else 10) b)) then underscore_scan hex SawDigit l'
      else if is_byte 95 b then
        match saw with SawDigit => underscore_scan hex SawUnderscore l' | _ => false end
      else match saw with SawUnderscore => false | _ => underscore_scan hex SawOther l' end
  end.

Definition drop_sign (l : bytes) : bool * bytes :=
  match l with
  | b :: l' => if is_byte 43 b then (false, l') else if is_byte 45 b then (true, l') else (false, l)
  | [] => (false, [])
  end.

(** The letter of a base prefix [0b], [0o] or [0x]. *)
Definition base_prefix (l : bytes) : option ascii :=
  match l with
  | b0 :: b1 :: _ =>
      let c := lower_byte b1 in
      if is_byte 48 b0 && (is_byte 98 c || is_byte 111 c || is_byte 120 c) then Some c else None
  | _ => None
  end.

Definition underscoreOK (l : bytes) : bool :=
  let l := (drop_sign l).2 in
  match base_prefix l with
  | Some c => underscore_scan (is_byte 120 c) SawDigit (drop 2 l)
  | None => underscore_scan false SawNothing l
  end.

(** What [readFloat] finds: the sign, the mantissa, and the exponent of ten or
    of two; everything must be read. *)
Definition readFloat (l : bytes) : option (bool * Z * bool * Z) :=
  let '(neg, u) := drop_sign l in
  let hex := match u with
             | b0 :: b1 :: _ :: _ => is_byte 48 b0 && is_byte 120 (lower_byte b1)
             | _ => false
             end in
  let base := if hex then 16 else 10 in
  let '(mant, frac, digits, rest) := scan_mantissa base (if hex then drop 2 u else u) false false 0 0 in
  if negb digits then None else
  if existsb (is_byte 95) l && negb (underscoreOK l) then None else
  match rest with
  | [] => if hex then None else Some (neg, mant, false, - frac)
  | b :: rest' =>
      if is_byte (if hex then 112 else 101) (lower_byte b) then
        match read_exponent rest' with
        | Some (e, []) => Some (neg, mant, hex, if hex then e - 4 * frac else e - frac)
        | _ => None
        end
      else None
  end.

Definition equal_fold (l : bytes) (s : string) : bool :=
  String.eqb (string_of (lower_byte <$> l)) s.

Definition special (l : bytes) : option float64 :=
  let '(neg, u) := drop_sign l in
  if equal_fold u "inf" || equal_fold u "infinity" then Some (Inf neg)
  else if equal_fold l "nan" then Some NaN else None.

Definition strconv_ParseFloat (s : string) : float64 + num_error :=
  match special (bytes_of s) with
  | Some f => inl f
  | None =>
      match readFloat (bytes_of s) with
      | None => inr ErrSyntax
      | Some (neg, mant, hex, e) =>
          let b := if hex then 2 else 10 in
          let f := if 0 <=? e then round64 neg (mant * b ^ e) 1 else round64 neg mant (b ^ (- e)) in
          match f with
          | Inf _ => inr ErrRange
          | _ => inl f
          end
      end
  end.

(** ** Operations on finite numbers *)

Definition math_IsNaN (f : float64) : bool := match f with NaN => true | _ => false end.
Definition math_IsInf (f : float64) : bool := match f with Inf _ => true | _ => false end.

(** [f < 0] *)
Definition negative (f : float64) : bool :=
  match f with
  | Finite neg m _ => neg && negb (m =? 0)
  | Inf neg => neg
  | NaN => false
  end.

(** [c < f] for a non-negative integer constant that is a float64. *)
Definition exceeds (c : Z) (f : float64) : bool :=
  match f with
  | Finite false m e => let '(n, d) := scaled m 1 e in c * d <? n
  | Finite true _ _ => false
  | Inf neg => negb neg
  | NaN => false
  end.

(** [f * c] for a positive integer constant. *)
Definition float64_times (c : Z) (f : float64) : float64 :=
  match f with
  | Finite neg m e => let '(n, d) := scaled m 1 e in round64 neg (n * c) d
  | _ => f
  end.

(** [int64(math.Round(f))] and [int64(math.Floor(f))]: to the nearest integer,
    halves away from zero, and downward; for results in range. *)
Definition int64_Round (f : float64) : Z :=
  match f with
  | Finite neg m e =>
      let '(n, d) := scaled m 1 e in
      let v := (2 * n + d) / (2 * d) in if neg then - v else v
  | _ => 0
  end.

Definition int64_Floor (f : float64) : Z :=
  match f with
  | Finite neg m e =>
      let '(n, d) := scaled m 1 e in if neg then (- n) / d else n / d
  | _ => 0
  end.

Example parse_tenth : strconv_ParseFloat "0.1" = inl (Finite false 7205759403792794 (-56)).
Proof. vm_compute. reflexivity. Qed.
Example parse_max : strconv_ParseFloat "1.7976931348623157e308" = inl (Finite false (2 ^ 53 - 1) 971).
Proof. vm_compute. reflexivity. Qed.
Example parse_overflow : strconv_ParseFloat "1.8e308" = inr ErrRange.
Proof. vm_compute. reflexivity. Qed.
Example parse_min : strconv_ParseFloat "5e-324" = inl (Finite false 1 (-1074)).
Proof. vm_compute. reflexivity. Qed.
Example parse_hex : strconv_ParseFloat "0x1_0p-2" = inl (Finite false (2 ^ 52) (-50)).
Proof. vm_compute. reflexivity. Qed.
Example parse_underscores : strconv_ParseFloat "1_23.50_0_0e+1_2" = strconv_ParseFloat "1.235e14".
Proof. vm_compute. reflexivity. Qed.
Example parse_bad : strconv_ParseFloat "1__2" = inr ErrSyntax /\ strconv_ParseFloat "1_" = inr ErrSyntax
  /\ strconv_ParseFloat "." = inr ErrSyntax /\ strconv_ParseFloat "1.2.3" = inr ErrSyntax.
Proof. vm_compute. repeat split; reflexivity. Qed.

(** ** Facts *)

Lemma nearest_even_error n d : 0 < d -> 2 * Z.abs (nearest_even n d * d - n) <= d.
Proof.
  intros Hd. unfold nearest_even. pose proof (Z.div_mod n d ltac:(lia)) as E.
  pose proof (Z.mod_pos_bound n d Hd). set (q := n / d) in *. set (r := n mod d) in *.
  rewrite E. repeat case_match; bsplit; nia.
Qed.

Lemma nearest_even_nonneg n d : 0 <= n -> 0 < d -> 0 <= nearest_even n d.
Proof.
  intros Hn Hd. pose proof (nearest_even_error n d Hd). nia.
Qed.

Lemma scaled_pos num den k : 0 <= num -> 0 < den -> 0 <= (scaled num den k).1 /\ 0 < (scaled num den k).2.
Proof.
  intros Hn Hd. unfold scaled. pose proof (Z.pow_nonneg 2 k). pose proof (Z.pow_pos_nonneg 2 (- k)).
  destruct (0 <=? k) eqn:E; bsplit; simpl; split; nia.
Qed.

Lemma leading_bit_upper num den j :
  0 < num -> 0 < den -> 0 <= j -> num < den * 2 ^ j -> leading_bit num den <= j - 1.
Proof.
  intros Hn Hd Hj Hlt. unfold leading_bit, scaled. set (k := Z.log2 num - Z.log2 den).
  assert (k <= j) as Hk.
  { unfold k. pose proof (Z.log2_le_mono num (den * 2 ^ j) ltac:(lia)) as Hl.
    rewrite Z.log2_mul_pow2 in Hl by lia. lia. }
  destruct (0 <=? - k) eqn:E; bsplit.
  - destruct (_ <=? _) eqn:E2; bsplit; [|lia]. assert (k <> j \/ j = 0) as [Hx| ->] by lia; [lia|].
    assert (k = 0 \/ k < 0) as [Ek|] by lia; [|lia]. exfalso. rewrite Ek in E2. simpl in *. lia.
  - rewrite Z.opp_involutive. destruct (_ <=? _) eqn:E2; bsplit; [|lia].
    assert (k <> j); [|lia]. intros Ek. rewrite Ek in E2. lia.
Qed.

(** Rounding a rational below [2^j]. *)
Lemma round64_below neg num den j :
  0 < num -> 0 < den -> 0 <= j <= 1000 -> num < den * 2 ^ j ->
  exists m e, round64 neg num den = Finite neg m e /\ 0 <= m /\ e <= Z.max (-1074) (j - 53)
    /\ let '(n, d) := scaled num den (- e) in 2 * Z.abs (m * d - n) <= d.
Proof.
  intros Hn Hd Hj Hlt. pose proof (leading_bit_upper num den j Hn Hd ltac:(lia) Hlt) as Hb.
  unfold round64. rewrite (proj2 (Z.leb_gt num 0)) by lia. cbv zeta.
  assert (last_bit num den <= Z.max (-1074) (j - 53)) as He by (unfold last_bit; lia).
  set (e := last_bit num den) in *.
  pose proof (scaled_pos num den (- e) ltac:(lia) Hd) as [H1 H2]. destruct (scaled num den (- e)) as [n d] eqn:Es.
  simpl in *. assert ((971 <? e) || ((e =? 971) && (2 ^ 53 <=? nearest_even n d)) = false) as ->.
  { apply orb_false_intro; [apply Z.ltb_ge; lia|]. rewrite (proj2 (Z.eqb_neq e 971)) by lia. done. }
  exists (nearest_even n d), e. split_and!; [done|by apply nearest_even_nonneg|lia|].
  rewrite Es. by apply nearest_even_error.
Qed.

(** Below [2^j] with [j <= 52] the last bit is a fraction. *)
Lemma round64_fraction neg num den j :
  0 < num -> 0 < den -> 0 <= j <= 52 -> num < den * 2 ^ j ->
  exists m s, round64 neg num den = Finite neg m (- s) /\ 0 <= m /\ 53 - j <= s
    /\ 2 * Z.abs (m * den - num * 2 ^ s) <= den.
Proof.
  intros Hn Hd Hj Hlt. destruct (round64_below neg num den j Hn Hd ltac:(lia) Hlt) as (m & e & -> & Hm & He & Herr).
  exists m, (- e). rewrite Z.opp_involutive. split_and!; [done|done|lia|].
  unfold scaled in Herr. by rewrite (proj2 (Z.leb_le 0 (- e))) in Herr by lia.
Qed.

Lemma scan_digits base l dot digits mant frac rest :
  2 <= base <= 10 ->
  forallb is_digit l = true -> forall v, digits_val base mant l = Some v ->
  scan_mantissa base (l ++ rest) dot digits mant frac
  = scan_mantissa base rest dot (digits || negb (is_null (head l))) v
      (if dot then frac + Z.of_nat (length l) else frac).
Proof.
  intros Hb Hl. revert mant frac digits. induction l as [|b l IH]; intros mant frac digits v Hv; simpl in *.
  - injection Hv as ->. rewrite orb_false_r. by destruct dot; rewrite ?Z.add_0_r.
  - apply andb_prop in Hl as [Hd Hl]. unfold is_digit in Hd. bsplit.
    assert (is_byte 95 b = false) as -> by (apply Z.eqb_neq; lia).
    assert (is_byte 46 b = false) as -> by (apply Z.eqb_neq; lia).
    destruct (digit_val base b) as [d|] eqn:Ed; [|done]. simpl in Hv.
    rewrite (IH Hl _ _ _ v Hv). rewrite orb_true_r. f_equal. destruct dot; lia.
Qed.
