(* ===== verification/Syscalls.v ===== *)
(** * Programs over calls to the operating system

    A program asks one call at a time and goes on with the answer; nothing is
    assumed about the answers.  [runs h l r]: with the calls and answers [l]
    the program returns [r].  [safe h P Q l] says that after the calls [l] the
    program only makes calls allowed by [P] and ends in [Q], whatever it is
    answered. *)

From S2P Require Import Prelude.

Section programs.
Context {C : Type -> Type}.

Inductive prog (R : Type) : Type :=
| Return (r : R)
| Call {A} (c : C A) (k : A -> prog R).
Arguments Return {R} r.
Arguments Call {R A} c k.

Inductive event : Type :=
| Event {A} (c : C A) (a : A).

#[export] Instance prog_ret : MRet prog := @Return.
#[export] Instance prog_bind : MBind prog := fun A B f =>
  fix bind (m : prog A) : prog B :=
    match m with
    | Return a => f a
    | Call c k => Call c (fun a => bind (k a))
    end.

Definition call {A} (c : C A) : prog A := Call c Return.

(** A step that may end the function with a result of type [R]. *)
Definition or_return (R A : Type) : Type := prog (R + A).

#[export] Instance or_return_ret {R} : MRet (or_return R) := fun A a => Return (inr a).
#[export] Instance or_return_bind {R} : MBind (or_return R) := fun A B f m =>
  prog_bind _ _ (fun r => match r with inl x => Return (inl x) | inr a => f a end) m.

Definition return_with {R A} (r : R) : or_return R A := Return (inl r).
Definition ask {R A} (c : C A) : or_return R A := Call c (fun a => Return (inr a)).
Definition lift {R A} (m : prog A) : or_return R A := prog_bind _ _ (fun a => Return (inr a)) m.

(** [if err := c(); err != nil { return f(err) }] and the form with a value. *)
Definition must {R} (c : C (option error)) (f : error -> R) : or_return R unit :=
  Call c (fun r => match r with Some err => return_with (f err) | None => Return (inr tt) end).
Definition must_get {R A} (c : C (result A)) (f : error -> R) : or_return R A :=
  Call c (fun r => match r with Err err => return_with (f err) | Ok a => Return (inr a) end).
Definition ensure {R} (err : option error) (f : error -> R) : or_return R unit :=
  match err with Some e => return_with (f e) | None => Return (inr tt) end.


(** The same for a function: its error returned through [f]. *)
Definition must_run {R A} (m : prog (result A)) (f : error -> R) : or_return R A :=
  prog_bind _ _ (fun r => match r with Err err => return_with (f err) | Ok a => Return (inr a) end) m.
Definition must_do {R} (m : prog (option error)) (f : error -> R) : or_return R unit :=
  prog_bind _ _ (fun r => match r with Some err => return_with (f err) | None => Return (inr tt) end) m.

(** The function as a whole. *)
Definition body {R} (m : or_return R R) : prog R :=
  prog_bind _ _ (fun r => match r with inl x => Return x | inr x => Return x end) m.

(** ** Runs *)

Inductive runs {R} : prog R -> list event -> R -> Prop :=
| runs_return r : runs (Return r) [] r
| runs_call A (c : C A) k a l r : runs (k a) l r -> runs (Call c k) (Event c a :: l) r.

(** Which call may be made after which calls; the answer is along for the ride. *)
Definition allowed : Type := list event -> event -> Prop.

Fixpoint safe {R} (h : prog R) (P : allowed) (Q : R -> list event -> Prop) (l : list event) : Prop :=
  match h with
  | Return r => Q r l
  | Call c k => forall a, P l (Event c a) /\ safe (k a) P Q (l ++ [Event c a])
  end.

Lemma safe_runs {R} (h : prog R) P Q l0 l r :
  safe h P Q l0 -> runs h l r ->
  Q r (l0 ++ l) /\ forall l1 e l2, l = l1 ++ e :: l2 -> P (l0 ++ l1) e.
Proof.
  intros Hs Hr. revert l0 Hs. induction Hr as [r|A c k a l r Hr IH]; intros l0 Hs; simpl in Hs.
  - rewrite app_nil_r. split; [done|]. by intros [|??] ???.
  - destruct (Hs a) as [Hp Hk]. destruct (IH _ Hk) as [HQ HP]. rewrite <- app_assoc in HQ. split; [done|].
    intros [|e' l1] e l2 E; injection E as <- E; [by rewrite app_nil_r|].
    specialize (HP _ _ _ E). by rewrite <- app_assoc in HP.
Qed.

Lemma safe_bind {A B} (f : A -> prog B) (m : prog A) P Q l :
  safe m P (fun a l' => safe (f a) P Q l') l -> safe (prog_bind _ _ f m) P Q l.
Proof.
  revert l. induction m as [r|X c k IH]; intros l; simpl; [done|].
  intros Hs a. destruct (Hs a) as [Hp Hk]. split; [done|]. by apply IH.
Qed.

Lemma safe_mono {R} (h : prog R) P (Q Q' : R -> list event -> Prop) l :
  (forall r l', Q r l' -> Q' r l') -> safe h P Q l -> safe h P Q' l.
Proof.
  intros HQ. revert l. induction h as [r|X c k IH]; intros l; simpl; [by apply HQ|].
  intros Hs a. destruct (Hs a) as [Hp Hk]. split; [done|]. by apply IH.
Qed.

Lemma safe_always {R} (h : prog R) P (Q : R -> list event -> Prop) l :
  (forall l e, P l e) -> (forall r l', Q r l') -> safe h P Q l.
Proof. intros HP HQ. revert l. induction h as [r|X c k IH]; intros l; simpl; [done|]. split; [apply HP|apply IH]. Qed.

(** ** Rules for functions with early returns

    [rsafe m P Q E l]: as [safe], with [Q] where the function goes on and [E]
    where it returns. *)
Definition rsafe {R A} (m : or_return R A) (P : allowed) (Q : A -> list event -> Prop)
    (E : R -> list event -> Prop) (l : list event) : Prop :=
  safe m P (fun r l' => match r with inl x => E x l' | inr a => Q a l' end) l.

Section rules.
Context {R : Type} (P : allowed) (E : R -> list event -> Prop).

Lemma rsafe_bind {A B} (m : or_return R A) (k : A -> or_return R B) Q l :
  rsafe m P (fun a l' => rsafe (k a) P Q E l') E l -> rsafe (m ≫= k) P Q E l.
Proof. intros Hm. apply safe_bind. eapply safe_mono; [|exact Hm]. by intros [x|a] l'. Qed.
Lemma rsafe_ret {A} (a : A) Q l : Q a l -> rsafe (mret a) P Q E l.
Proof. done. Qed.
Lemma rsafe_return {A} r (Q : A -> list event -> Prop) l : E r l -> rsafe (return_with r) P Q E l.
Proof. done. Qed.
Lemma rsafe_ask {A} (c : C A) Q l :
  (forall a, P l (Event c a) /\ Q a (l ++ [Event c a])) -> rsafe (ask c) P Q E l.
Proof. done. Qed.
Lemma rsafe_must (c : C (option error)) f Q l :
  (forall r, P l (Event c r)) -> (forall err, E (f err) (l ++ [Event c (Some err)])) ->
  Q tt (l ++ [Event c None]) -> rsafe (must c f) P Q E l.
Proof. intros HP HE HQ [err|]; (split; [apply HP|]); [apply HE|apply HQ]. Qed.
Lemma rsafe_must_get {A} (c : C (result A)) f Q l :
  (forall r, P l (Event c r)) -> (forall err, E (f err) (l ++ [Event c (Err err)])) ->
  (forall a, Q a (l ++ [Event c (Ok a)])) -> rsafe (must_get c f) P Q E l.
Proof. intros HP HE HQ [a|err]; (split; [apply HP|]); [apply HQ|apply HE]. Qed.
Lemma rsafe_ensure err f Q l :
  (forall e, err = Some e -> E (f e) l) -> (err = None -> Q tt l) -> rsafe (ensure err f) P Q E l.
Proof. destruct err as [e|]; intros HE HQ; [by apply HE|by apply HQ]. Qed.
Lemma rsafe_lift {A} (m : prog A) Q l : safe m P Q l -> rsafe (lift m) P Q E l.
Proof. intros Hm. apply safe_bind. eapply safe_mono; [|exact Hm]. done. Qed.
Lemma rsafe_must_run {A} (m : prog (result A)) f Q l :
  safe m P (fun r l' => match r with Err err => E (f err) l' | Ok a => Q a l' end) l -> rsafe (must_run m f) P Q E l.
Proof. intros Hm. apply safe_bind. eapply safe_mono; [|exact Hm]. by intros [a|err] l'. Qed.
Lemma rsafe_must_do (m : prog (option error)) f Q l :
  safe m P (fun r l' => match r with Some err => E (f err) l' | None => Q tt l' end) l -> rsafe (must_do m f) P Q E l.
Proof. intros Hm. apply safe_bind. eapply safe_mono; [|exact Hm]. by intros [err|] l'. Qed.
Lemma rsafe_mono {A} (m : or_return R A) (Q Q' : A -> list event -> Prop) l :
  (forall a l', Q a l' -> Q' a l') -> rsafe m P Q E l -> rsafe m P Q' E l.
Proof. intros HQ. apply safe_mono. intros [x|a] l'; [done|apply HQ]. Qed.
End rules.

Lemma safe_body {R} (m : or_return R R) P E l : rsafe m P E E l -> safe (body m) P E l.
Proof. intros Hm. apply safe_bind. eapply safe_mono; [|exact Hm]. by intros [x|x] l'. Qed.
End programs.
Arguments Return {C R} r.
Arguments Call {C R A} c k.
Arguments Event {C A} c a.
Arguments prog : clear implicits.
Arguments event : clear implicits.
Arguments or_return : clear implicits.
Arguments allowed : clear implicits.

(** ** Runs of composed programs *)

Lemma runs_inv {C R} (h : prog C R) l r :
  runs h l r ->
  match h with
  | Return r' => l = [] /\ r = r'
  | Call c k => exists a l', l = Event c a :: l' /\ runs (k a) l' r
  end.
Proof. destruct 1; [done|by (do 2 eexists)]. Qed.

Lemma runs_bind {C A B} (m : prog C A) (k : A -> prog C B) l r :
  runs (m ≫= k) l r -> exists l1 a l2, l = l1 ++ l2 /\ runs m l1 a /\ runs (k a) l2 r.
Proof.
  revert l. induction m as [a|X c f IH]; intros l Hr.
  - exists [], a, l. split; [done|]. split; [constructor|done].
  - apply runs_inv in Hr as (x & l' & -> & Hr). apply IH in Hr as (l1 & a & l2 & -> & H1 & H2).
    exists (Event c x :: l1), a, l2. split; [done|]. split; [by constructor|done].
Qed.

Lemma runs_lift {C R A} (m : prog C A) l (x : R + A) :
  runs (lift m) l x -> exists a, x = inr a /\ runs m l a.
Proof.
  intros (l1 & a & l2 & -> & Hm & [-> ->]%runs_inv)%(runs_bind m). rewrite app_nil_r. by exists a.
Qed.

Lemma runs_body {C R} (m : or_return C R R) l r : runs (body m) l r -> runs m l (inl r) \/ runs m l (inr r).
Proof.
  intros (l1 & x & l2 & -> & Hm & Hx)%(runs_bind m).
  destruct x as [x|x]; apply runs_inv in Hx as [-> ->]; rewrite app_nil_r; [by left|by right].
Qed.

(** A statement and the rest of the function. *)
Lemma runs_seq {C R A B} (m : or_return C R A) (k : A -> or_return C R B) l x :
  runs (m ≫= k) l x -> exists l1 y l2, l = l1 ++ l2 /\ runs m l1 y
  /\ match y with inl r => l2 = [] /\ x = inl r | inr a => runs (k a) l2 x end.
Proof.
  intros (l1 & y & l2 & -> & Hm & Hx)%(runs_bind m). exists l1, y, l2. split; [done|]. split; [done|].
  destruct y; [by apply runs_inv in Hx|done].
Qed.

Lemma runs_must_do {C R} (m : prog C (option error)) (f : error -> R) l x :
  runs (must_do m f) l x -> exists r, runs m l r /\ x = match r with Some err => inl (f err) | None => inr tt end.
Proof.
  intros (l1 & r & l2 & -> & Hm & Hx)%(runs_bind m). exists r.
  destruct r; apply runs_inv in Hx as [-> ->]; by rewrite app_nil_r.
Qed.

Lemma runs_must_run {C R A} (m : prog C (result A)) (f : error -> R) l x :
  runs (must_run m f) l x -> exists r, runs m l r /\ x = match r with Err err => inl (f err) | Ok a => inr a end.
Proof.
  intros (l1 & r & l2 & -> & Hm & Hx)%(runs_bind m). exists r.
  destruct r; apply runs_inv in Hx as [-> ->]; by rewrite app_nil_r.
Qed.

(** A program whose calls are among those of a larger set. *)
Section through.
Context {C D : Type -> Type} (f : forall A, C A -> D A).

Fixpoint through {R} (h : prog C R) : prog D R :=
  match h with
  | Return r => Return r
  | Call c k => Call (f _ c) (fun a => through (k a))
  end.

Definition event_through (e : event C) : event D := match e with Event c a => Event (f _ c) a end.

Lemma runs_through {R} (h : prog C R) l r :
  runs (through h) l r -> exists l', l = event_through <$> l' /\ runs h l' r.
Proof.
  revert l. induction h as [r'|A c k IH]; intros l Hr.
  - apply runs_inv in Hr as [-> ->]. exists []. split; [done|constructor].
  - apply runs_inv in Hr as (a & l' & -> & Hr). apply IH in Hr as (l2 & -> & Hr).
    exists (Event c a :: l2). split; [done|by constructor].
Qed.

Lemma safe_through {R} (h : prog C R) P (Q : R -> list (event D) -> Prop) l :
  (forall l e, P l (event_through e)) -> (forall r l', Q r l') -> safe (through h) P Q l.
Proof.
  intros HP HQ. revert l. induction h as [r|A c k IH]; intros l; simpl; [done|].
  intros a. split; [apply (HP l (Event c a))|apply IH].
Qed.
End through.

(** ** Running against a kernel *)

Section kernel.
Context {C : Type -> Type} {K : Type} (answer : forall A, C A -> K -> A * K).

Fixpoint execute {R} (h : prog C R) (k : K) : R * list (event C) * K :=
  match h with
  | Return r => (r, [], k)
  | Call c f =>
      let '(a, k') := answer _ c k in
      let '(r, l, k'') := execute (f a) k' in (r, Event c a :: l, k'')
  end.

Lemma execute_runs {R} (h : prog C R) k : runs h (execute h k).1.2 (execute h k).1.1.
Proof.
  revert k. induction h as [r|A c f IH]; intros k; simpl; [constructor|].
  destruct (answer A c k) as [a k']. specialize (IH a k'). destruct (execute (f a) k') as [[r l] k'']. by constructor.
Qed.
End kernel.

(** One statement of a function with early returns. *)
Ltac rstep :=
  lazymatch goal with
  | |- safe (body _) _ _ _ => apply safe_body
  | |- safe (mret ?a) _ ?Q ?l => change (Q a l); cbv beta
  | |- rsafe (mret _) _ _ _ _ => apply rsafe_ret
  | |- rsafe (_ ≫= _) _ _ _ _ => apply rsafe_bind
  | |- rsafe (return_with _) _ _ _ _ => apply rsafe_return
  | |- rsafe (ask _) _ _ _ _ => apply rsafe_ask; intros ?; split; [try exact I|]
  | |- rsafe (must _ _) _ _ _ _ => apply rsafe_must; [try (intros ?; exact I)|intros ?|]
  | |- rsafe (must_get _ _) _ _ _ _ => apply rsafe_must_get; [try (intros ?; exact I)|intros ?|intros ?]
  | |- rsafe (ensure _ _) _ _ _ _ => apply rsafe_ensure; [intros ? ?|intros ?]
  | |- rsafe (lift _) _ _ _ _ => apply rsafe_lift
  | |- rsafe (must_run _ _) _ _ _ _ => apply rsafe_must_run
  | |- rsafe (must_do _ _) _ _ _ _ => apply rsafe_must_do
  | |- rsafe (match ?x with _ => _ end) _ _ _ _ => destruct x eqn:?
  | |- rsafe (let _ := _ in _) _ _ _ _ => cbv zeta
  end.

(** Membership in a log that grew at its end. *)
Ltac seen := repeat first [ assumption | apply elem_of_app; right; apply list_elem_of_singleton; reflexivity
                          | apply elem_of_app; left ].
