(* ===== verification/Pool.v ===== *)
(** * The database handle (src/internal/database/database.go, migrate.go)

    Opening the connection pool, the run of the migrations, and what is removed
    from the text of an error before it is passed on.  The pool and the
    migrator are third-party code: each call of them may fail. *)

From S2P Require Import Prelude GoStrings Syscalls.

(** ** sanitizeError

    [passwordPattern] is (?i)(password=)[^\s&,]+ and [userinfoPattern] is
    (:)[^/@:]+(@).  Both are unambiguous, and all characters they name are
    single bytes but for the letter that folds to s. *)

(** [ReplaceAllString]: [m] gives the replacement of a match at the front and
    its length; [skip] is how much of a match is still to be passed over. *)
Fixpoint replace_all (m : bytes -> option (bytes * nat)) (skip : nat) (l : bytes) : bytes :=
  match l with
  | [] => []
  | b :: l' =>
      match skip with
      | S n => replace_all m n l'
      | O => match m l with
             | Some (text, n) => text ++ replace_all m (n - 1) l'
             | None => b :: replace_all m 0 l'
             end
      end
  end.

Fixpoint take_while (p : ascii -> bool) (l : bytes) : bytes :=
  match l with
  | b :: l' => if p b then b :: take_while p l' else []
  | [] => []
  end.

(** The length of a match of lower-case letters and symbols, in any case;
    U+017F folds to s. *)
Fixpoint fold_prefix (p l : bytes) : option nat :=
  match p with
  | [] => Some 0%nat
  | x :: p' =>
      match l with
      | [] => None
      | b :: l' =>
          if Ascii.eqb (lower_byte b) x then S <$> fold_prefix p' l'
          else if Ascii.eqb x "s" && is_byte 197 b then
            match l' with
            | c :: l'' => if is_byte 191 c then (fun n => S (S n)) <$> fold_prefix p' l'' else None
            | [] => None
            end
          else None
      end
  end.

Definition redacted : bytes := bytes_of "[REDACTED]".

(** Not white space, not &, not a comma. *)
Definition value_byte (b : ascii) : bool :=
  negb (is_byte 9 b || is_byte 10 b || is_byte 12 b || is_byte 13 b || is_byte 32 b || Ascii.eqb b "&" || Ascii.eqb b ",").

Definition passwordPattern (l : bytes) : option (bytes * nat) :=
  k ← fold_prefix (bytes_of "password=") l;
  match take_while value_byte (drop k l) with
  | [] => None
  | v => Some (take k l ++ redacted, (k + length v)%nat)
  end.

Definition userinfo_byte (b : ascii) : bool := negb (Ascii.eqb b "/" || Ascii.eqb b "@" || Ascii.eqb b ":").

Definition userinfoPattern (l : bytes) : option (bytes * nat) :=
  match l with
  | ":"%char :: l' =>
      match take_while userinfo_byte l' with
      | [] => None
      | v => match drop (length v) l' with
             | "@"%char :: _ => Some (":"%char :: redacted ++ ["@"%char], (length v + 2)%nat)
             | _ => None
             end
      end
  | _ => None
  end.

Definition sanitize (msg : string) : string :=
  string_of (replace_all userinfoPattern 0 (replace_all passwordPattern 0 (bytes_of msg))).

(** [err.Error()], as far as a message is kept; the name of a sentinel stands
    for its text. *)
Fixpoint error_text (err : error) : string :=
  match err with
  | errorString msg => msg
  | sentinel name => name
  | wrapError msg inner => msg +:+ ": " +:+ error_text inner
  end.

Definition sanitizeError (err : error) : error := errorString (sanitize (error_text err)).

(** ** Opening and migrating *)

Definition defaultMaxConns : Z := 10.
Definition defaultMinConns : Z := 0.
Definition applicationName : string := "stackpilot-controller".
Definition versionTable : string := "public.stackpilot_schema_version".

(** The fields of a [pgxpool.Config] the code sets. *)
Record PoolConfig := mkPoolConfig {
  MaxConns : Z;
  MinConns : Z;
  RuntimeParams : option (gmap string string);
  RequireAuth : string;
}.

Inductive pool_call : Type -> Type :=
| ParseConfig (url : string) : pool_call (result PoolConfig)
| NewWithConfig (cfg : PoolConfig) : pool_call (option error)
| PingPool : pool_call (option error)
| ClosePool : pool_call unit
| AcquireConn : pool_call (option error)
| ReleaseConn : pool_call unit
| NewMigrator (table : string) : pool_call (option error)
| SubFS (dir : string) : pool_call (option error)
| LoadMigrations : pool_call (option error)
| FindMigrations : pool_call (result (list string))
| MigrateAll : pool_call (option error).

Definition tune (cfg : PoolConfig) : PoolConfig :=
  mkPoolConfig defaultMaxConns defaultMinConns
    (Some (<["application_name" := applicationName]> (default ∅ (RuntimeParams cfg)))) "scram-sha-256".

Definition configurePool (databaseURL : string) : prog pool_call (result PoolConfig) :=
  body (
    poolConfig ← must_get (ParseConfig databaseURL) (fun _ => Err (errorString "failed to parse database configuration"));
    mret (Ok (tune poolConfig))).

Definition Ping (has_pool : bool) : prog pool_call (option error) :=
  if has_pool then call PingPool else mret (Some (errorString "database pool is not initialized")).

Definition Close (has_pool : bool) : prog pool_call unit :=
  if has_pool then call ClosePool else mret tt.

(** The handle is the pool that was made; [None] is success. *)
Definition Open (databaseURL : string) : prog pool_call (option error) :=
  body (
    poolConfig ← must_run (configurePool databaseURL) Some;
    must (NewWithConfig poolConfig) (fun _ => Some (errorString "failed to initialize database pool")) ;;
    pinged ← lift (Ping true);
    match pinged with
    | Some err => lift (Close true) ;; return_with (Some (wrapError "database ping failed" (sanitizeError err)))
    | None => mret None
    end).

Definition getEmbeddedMigrations : prog pool_call (result (list string)) :=
  body (
    must (SubFS "migrations") (fun err => Err (wrapError "failed to open migrations directory" err)) ;;
    names ← ask FindMigrations;
    mret names).

(** From the acquired connection to the end. *)
Definition migrate_with_conn : or_return pool_call (option error) (option error) :=
  must (NewMigrator versionTable)
    (fun err => Some (wrapError "database migration failed: failed to create migrator" (sanitizeError err))) ;;
  must (SubFS "migrations")
    (fun err => Some (wrapError "database migration failed: failed to access migrations directory" err)) ;;
  must LoadMigrations (fun err => Some (wrapError "database migration failed: failed to load migrations" err)) ;;
  must MigrateAll (fun err => Some (wrapError "database migration failed" (sanitizeError err))) ;;
  mret None.

Definition Migrate (has_pool : bool) : prog pool_call (option error) :=
  body (
    if negb has_pool then return_with (Some (errorString "database pool is not initialized")) else
    must AcquireConn
      (fun err => Some (wrapError "database migration failed: failed to acquire connection" (sanitizeError err))) ;;
    result ← lift (body migrate_with_conn);
    ask ReleaseConn ;;
    mret result).

(** ** What the sanitizer hides *)

Lemma replace_all_skip m n l : replace_all m n l = replace_all m 0 (drop n l).
Proof.
  revert n. induction l as [|b l IH]; intros n; [by rewrite drop_nil|]. destruct n as [|n]; [done|]. cbn [replace_all drop]. apply IH.
Qed.

Lemma take_while_app p v l : forallb p v = true -> take_while p (v ++ l) = v ++ take_while p l.
Proof. induction v as [|b v IH]; simpl; [done|]. intros [-> Hv]%andb_prop. by rewrite IH. Qed.

Lemma take_while_stop p l1 l2 : (length (take_while p l1) < length l1)%nat -> take_while p (l1 ++ l2) = take_while p l1.
Proof. induction l1 as [|b l1 IH]; simpl; [lia|]. destruct (p b); simpl; [|done]. intros Hl. f_equal. apply IH. lia. Qed.

Lemma take_while_cases p l : (length (take_while p l) < length l)%nat \/ forallb p l = true.
Proof. induction l as [|b l IH]; simpl; [by right|]. destruct (p b); simpl; [|left; lia]. destruct IH; [left; lia|by right]. Qed.

Lemma take_while_until p v l : forallb p v = true -> match l with [] => True | b :: _ => p b = false end -> take_while p (v ++ l) = v.
Proof. intros Hv Hl. rewrite take_while_app by done. destruct l as [|b l]; simpl; [|rewrite Hl]; by rewrite app_nil_r. Qed.

(** A key is not found across a byte that is no part of it. *)
Lemma fold_prefix_boundary x p l r :
  lower_byte x ∉ p -> is_byte 197 x = false -> is_byte 191 x = false -> fold_prefix p (l ++ x :: r) = fold_prefix p l.
Proof.
  intros Hp H197 H191. revert p Hp. induction l as [l IH] using (induction_ltof1 _ (@length _)). unfold ltof in IH. intros p Hp.
  destruct p as [|y p]; [by destruct l|]. apply not_elem_of_cons in Hp as [Hy Hp].
  destruct l as [|b l]; cbn [app fold_prefix].
  - assert (Ascii.eqb (lower_byte x) y = false) as -> by (by apply Ascii.eqb_neq). by rewrite H197, andb_false_r.
  - destruct (Ascii.eqb (lower_byte b) y); [by rewrite IH by (simpl; lia || done)|].
    destruct (Ascii.eqb y "s" && is_byte 197 b); [|done]. destruct l as [|c l]; cbn [app]; [by rewrite H191|].
    destruct (is_byte 191 c); [|done]. by rewrite IH by (simpl; lia || done).
Qed.

Lemma fold_prefix_length p l k : fold_prefix p l = Some k -> (k <= length l)%nat.
Proof.
  revert p k. induction l as [l IH] using (induction_ltof1 _ (@length _)). unfold ltof in IH. intros p k.
  destruct p as [|y p]; [intros Hk; destruct l; injection Hk as <-; lia|]. destruct l as [|b l]; [done|]. cbn [fold_prefix].
  destruct (Ascii.eqb (lower_byte b) y).
  { intros (k' & Hk & ->)%fmap_Some. apply IH in Hk; simpl in *; lia. }
  destruct (_ && _); [|done]. destruct l as [|c l]; [done|]. destruct (is_byte 191 c); [|done].
  intros (k' & Hk & ->)%fmap_Some. apply IH in Hk; simpl in *; lia.
Qed.

Definition password_key : bytes := bytes_of "password=".

Lemma key_boundary b l x : fold_prefix password_key (b :: l ++ password_key ++ x) = fold_prefix password_key (b :: l).
Proof.
  change (password_key ++ x) with ("p"%char :: bytes_of "assword=" ++ x).
  assert ("p"%char ∉ bytes_of "assword=") as Hp by (by apply (bool_decide_unpack _)).
  change password_key with ("p"%char :: bytes_of "assword="). revert Hp. generalize (bytes_of "assword=" ++ x) as y.
  generalize (bytes_of "assword=") as t. intros t y Hp. cbn [fold_prefix].
  destruct (Ascii.eqb (lower_byte b) "p"); [|done]. by rewrite (fold_prefix_boundary "p").
Qed.

(** ** Values of password= and of the user part of an address *)

Definition secret (p : ascii -> bool) (v : bytes) : Prop := v <> [] /\ forallb p v = true.
Definition ends_value (post : bytes) : Prop := match post with [] => True | b :: _ => value_byte b = false end.

Lemma key_run v post : secret value_byte v -> ends_value post ->
  take_while value_byte (password_key ++ v ++ post) = password_key ++ v.
Proof. intros [_ Hv] Hpost. rewrite (app_assoc password_key). apply take_while_until; [|done]. by rewrite forallb_app, Hv. Qed.

(** A match that begins with the key. *)
Lemma password_at_key v post : secret value_byte v -> ends_value post ->
  replace_all passwordPattern 0 (password_key ++ v ++ post) = password_key ++ redacted ++ replace_all passwordPattern 0 post.
Proof.
  intros [Hne Hv] Hpost.
  assert (passwordPattern (password_key ++ v ++ post) = Some (password_key ++ redacted, (9 + length v)%nat)) as E.
  { unfold passwordPattern. change (fold_prefix _ _) with (Some 9%nat). cbn [mbind option_bind].
    change (drop 9 (password_key ++ v ++ post)) with (v ++ post). rewrite take_while_until by done. by destruct v. }
  change (password_key ++ v ++ post) with ("p"%char :: (bytes_of "assword=" ++ v ++ post)) in E |- *. cbn [replace_all].
  rewrite E, replace_all_skip. rewrite <- app_assoc. do 2 f_equal.
  change (9 + length v - 1)%nat with (8 + length v)%nat. rewrite drop_app_add'; [|done]. by rewrite drop_app_length.
Qed.

(** A match that begins before the key has its own key there. *)
Lemma password_before_key pre v post b :
  passwordPattern (b :: pre ++ password_key ++ v ++ post) =
  k ← fold_prefix password_key (b :: pre);
  match take_while value_byte (drop k (b :: pre) ++ password_key ++ v ++ post) with
  | [] => None
  | x => Some (take k (b :: pre) ++ redacted, (k + length x)%nat)
  end.
Proof.
  unfold passwordPattern. fold password_key. rewrite key_boundary.
  destruct (fold_prefix password_key (b :: pre)) as [k|] eqn:Ek; [|done]. apply fold_prefix_length in Ek. cbn [mbind option_bind].
  by rewrite app_comm_cons, drop_app_le, take_app_le by done.
Qed.

Lemma key_matched l k : fold_prefix password_key l = Some k -> (1 <= k <= length l)%nat.
Proof.
  intros E. split; [|by apply fold_prefix_length in E]. destruct k; [|lia]. exfalso.
  cbn [password_key bytes_of String.list_ascii_of_string fold_prefix] in E.
  destruct l; [done|]. destruct (Ascii.eqb _ _); [by apply fmap_Some in E as (? & _ & ?)|done].
Qed.

Lemma password_replaced pre n v post :
  secret value_byte v -> ends_value post -> (n <= length pre)%nat ->
  forall w, secret value_byte w ->
  replace_all passwordPattern n (pre ++ password_key ++ v ++ post) = replace_all passwordPattern n (pre ++ password_key ++ w ++ post).
Proof.
  intros Hv Hpost Hn w Hw. revert n Hn. induction pre as [|b pre IH]; intros n Hn.
  - assert (n = 0%nat) as -> by (simpl in Hn; lia). cbn [app]. by rewrite !password_at_key.
  - destruct n as [|n]; [|cbn [app replace_all]; apply IH; simpl in Hn; lia]. cbn [app replace_all]. rewrite !password_before_key.
    destruct (fold_prefix password_key (b :: pre)) as [k|] eqn:Ek; cbn [mbind option_bind]; [|f_equal; apply IH; lia].
    apply key_matched in Ek. cbn [length] in Ek.
    destruct (take_while_cases value_byte (drop k (b :: pre))) as [Hlt|Hall].
    + rewrite !(take_while_stop _ (drop k (b :: pre))) by done. destruct (take_while _ _) as [|c x] eqn:Ex; [f_equal; apply IH; lia|].
      f_equal. apply IH. rewrite length_drop in Hlt. cbn [length] in *. lia.
    + rewrite !(take_while_app _ (drop k (b :: pre))), !key_run by done.
      assert (forall u, replace_all passwordPattern (k + length (drop k (b :: pre) ++ password_key ++ u) - 1) (pre ++ password_key ++ u ++ post)
                = replace_all passwordPattern 0 post) as Hs.
      { intros u. rewrite replace_all_skip. f_equal. rewrite !length_app, length_drop. cbn [length].
        rewrite !app_assoc. apply drop_app_length'. rewrite !length_app. lia. }
      assert (forall u, drop k (b :: pre) ++ password_key ++ u <> []) as Hne by (intros u; by destruct (drop k (b :: pre))).
      pose proof (Hs v) as Hsv. pose proof (Hs w) as Hsw. pose proof (Hne v) as Hnv. pose proof (Hne w) as Hnw.
      destruct (drop k (b :: pre) ++ password_key ++ v); [done|]. destruct (drop k (b :: pre) ++ password_key ++ w); [done|].
      by rewrite Hsv, Hsw.
Qed.

Lemma userinfo_replaced pre n v post :
  secret userinfo_byte v -> (n <= length pre)%nat ->
  forall w, secret userinfo_byte w ->
  replace_all userinfoPattern n (pre ++ ":"%char :: v ++ "@"%char :: post)
  = replace_all userinfoPattern n (pre ++ ":"%char :: w ++ "@"%char :: post).
Proof.
  intros Hv Hn w Hw. revert n Hn. induction pre as [|b pre IH]; intros n Hn.
  - assert (forall u, secret userinfo_byte u -> replace_all userinfoPattern n (":"%char :: u ++ "@"%char :: post)
              = ":"%char :: redacted ++ "@"%char :: replace_all userinfoPattern 0 post) as Hone; [|cbn [app]; by rewrite !Hone].
    intros u [Hne Hu]. assert (n = 0%nat) as -> by (simpl in Hn; lia). cbn [replace_all userinfoPattern].
    rewrite take_while_until by done. destruct u as [|c u]; [done|]. rewrite drop_app_length, replace_all_skip.
    rewrite <- app_comm_cons, <- app_assoc. cbn [app]. do 4 f_equal. replace (length (c :: u) + 2 - 1)%nat with (length (c :: u) + 1)%nat by lia.
    by rewrite (app_comm_cons u), drop_app_add.
  - destruct n as [|n]; [|cbn [app replace_all]; apply IH; simpl in Hn; lia]. cbn [app replace_all].
    destruct (decide (b = ":"%char)) as [->|Hb].
    2:{ assert (forall l, userinfoPattern (b :: l) = None) as Hnone by (intros l; destruct b as [[] [] [] [] [] [] [] []]; done).
        rewrite !Hnone. f_equal. apply IH. lia. }
    cbn [userinfoPattern]. destruct (take_while_cases userinfo_byte pre) as [Hlt|Hall].
    + rewrite !(take_while_stop _ pre) by done. destruct (take_while userinfo_byte pre) as [|c x] eqn:Ex; [f_equal; apply IH; lia|].
      rewrite !drop_app_le by lia. destruct (drop (length (c :: x)) pre) as [|d y] eqn:Ed.
      { apply (f_equal (@length _)) in Ed. rewrite length_drop in Ed. simpl in *. lia. }
      cbn [app]. assert (forall l z, match d :: l with "@"%char :: _ => Some z | _ => None end
        = if decide (d = "@"%char) then @Some (bytes * nat) z else None) as Hat
        by (intros l z; by destruct d as [[] [] [] [] [] [] [] []]).
      rewrite !(Hat []%list). destruct (decide (d = "@"%char)); [|f_equal; apply IH; lia]. f_equal. apply IH. simpl in *. lia.
    + rewrite !take_while_app by done. assert (forall l, take_while userinfo_byte (":"%char :: l) = []) as Hc by done.
      rewrite !Hc, !app_nil_r. destruct pre as [|c x]; [cbn [app] in *; f_equal; by apply (IH 0%nat)|].
      rewrite !drop_app_length. f_equal. apply IH. lia.
Qed.

(** ** The two patterns together

    A password of an address that is no value of password= itself: neither
    pattern ends inside it. *)
Definition address_password (v : bytes) : Prop :=
  secret userinfo_byte v /\ forallb value_byte v = true /\ forall i, fold_prefix password_key (drop i v) = None.

Lemma no_key_byte x l r : x ∈ [":"; "@"]%char -> fold_prefix password_key (l ++ x :: r) = fold_prefix password_key l.
Proof.
  intros Hx. apply fold_prefix_boundary; (apply elem_of_cons in Hx as [->|Hx%list_elem_of_singleton]; [|subst x]);
    try reflexivity; by apply (bool_decide_unpack _).
Qed.

Lemma passwordPattern_none l : fold_prefix password_key l = None -> passwordPattern l = None.
Proof. unfold passwordPattern. fold password_key. by intros ->. Qed.

(** The first pattern passes over the password. *)
Lemma password_passed v post :
  (forall i, fold_prefix password_key (drop i v) = None) ->
  replace_all passwordPattern 0 (v ++ "@"%char :: post) = v ++ "@"%char :: replace_all passwordPattern 0 post.
Proof.
  induction v as [|b v IH]; intros Hv; cbn [app replace_all].
  - by rewrite (passwordPattern_none ("@"%char :: post)) by reflexivity.
  - rewrite passwordPattern_none; [|rewrite app_comm_cons, no_key_byte by set_solver; apply (Hv 0%nat)].
    f_equal. apply IH. intros i. apply (Hv (S i)).
Qed.

Definition around (pre post u : bytes) : bytes := pre ++ ":"%char :: u ++ "@"%char :: post.

(** What the first pattern makes of two messages that differ in the password:
    the same text, or texts that still differ only there. *)
Definition alike (v w x y : bytes) : Prop :=
  x = y \/ exists pre post, x = around pre post v /\ y = around pre post w.

Lemma alike_app t v w x y : alike v w x y -> alike v w (t ++ x) (t ++ y).
Proof.
  intros [->|(pre & post & -> & ->)]; [by left|right]. exists (t ++ pre), post. unfold around. by rewrite !app_assoc.
Qed.

(** A match that begins before the colon. *)
Lemma pattern_before_colon b pre post u :
  passwordPattern (b :: around pre post u) =
  k ← fold_prefix password_key (b :: pre);
  match take_while value_byte (drop k (b :: pre) ++ ":"%char :: u ++ "@"%char :: post) with
  | [] => None
  | x => Some (take k (b :: pre) ++ redacted, (k + length x)%nat)
  end.
Proof.
  unfold passwordPattern, around. fold password_key. rewrite app_comm_cons, no_key_byte by set_solver.
  destruct (fold_prefix password_key (b :: pre)) as [k|] eqn:Ek; [|done]. apply fold_prefix_length in Ek. cbn [mbind option_bind].
  by rewrite drop_app_le, take_app_le by done.
Qed.

(** A value that reaches the colon swallows the password. *)
Lemma value_over_password u post :
  forallb value_byte u = true ->
  take_while value_byte (":"%char :: u ++ "@"%char :: post) = ":"%char :: u ++ "@"%char :: take_while value_byte post.
Proof. intros Hu. cbn [take_while]. change (value_byte ":") with true. cbv iota. f_equal. by rewrite take_while_app. Qed.

Lemma swallowed k b pre post u t :
  (1 <= k <= S (length pre))%nat ->
  replace_all passwordPattern (k + length (drop k (b :: pre) ++ ":"%char :: u ++ "@"%char :: t) - 1) (around pre post u)
  = replace_all passwordPattern (length t) post.
Proof.
  intros Hk. rewrite replace_all_skip, (replace_all_skip _ (length t)). f_equal. unfold around.
  replace (pre ++ ":"%char :: u ++ "@"%char :: post) with ((pre ++ ":"%char :: u ++ ["@"%char]) ++ post)
    by (by rewrite <- app_assoc, <- app_comm_cons, <- app_assoc).
  replace (_ - 1)%nat with (length (pre ++ ":"%char :: u ++ ["@"%char]) + length t)%nat; [apply drop_app_add|].
  rewrite !length_app, length_drop. cbn [length]. rewrite !length_app. cbn [length]. lia.
Qed.

Lemma password_alike pre n post v w :
  address_password v -> address_password w -> (n <= length pre)%nat ->
  alike v w (replace_all passwordPattern n (around pre post v)) (replace_all passwordPattern n (around pre post w)).
Proof.
  intros (_ & Hv & Hkv) (_ & Hw & Hkw). revert n. induction pre as [|b pre IH]; intros n Hn.
  - assert (n = 0%nat) as -> by (simpl in Hn; lia). right. exists [], (replace_all passwordPattern 0 post).
    unfold around. cbn [app replace_all]. rewrite !(passwordPattern_none (":"%char :: _)) by reflexivity. by rewrite !password_passed.
  - destruct n as [|n]; [|apply IH; simpl in Hn; lia].
    assert (forall u, replace_all passwordPattern 0 (around (b :: pre) post u) =
      match passwordPattern (b :: around pre post u) with
      | Some (text, n) => text ++ replace_all passwordPattern (n - 1) (around pre post u)
      | None => b :: replace_all passwordPattern 0 (around pre post u)
      end) as Hstep by done.
    setoid_rewrite pattern_before_colon in Hstep.
    pose proof (alike_app [b] _ _ _ _ (IH 0%nat ltac:(lia))) as Hnone. rewrite !Hstep. clear Hstep.
    destruct (fold_prefix password_key (b :: pre)) as [k|] eqn:Ek; cbn [mbind option_bind]; [|exact Hnone].
    apply key_matched in Ek. cbn [length] in Ek.
    destruct (take_while_cases value_byte (drop k (b :: pre))) as [Hlt|Hall].
    + rewrite !(take_while_stop _ (drop k (b :: pre))) by done. destruct (take_while _ _) as [|c x] eqn:Ex; [exact Hnone|].
      rewrite length_drop in Hlt. cbn [length] in Hlt.
      apply alike_app, IH. cbn [length]. lia.
    + left. rewrite !(take_while_app _ (drop k (b :: pre))), !value_over_password by done.
      pose proof (swallowed k b pre post v (take_while value_byte post) ltac:(lia)) as Hsv.
      pose proof (swallowed k b pre post w (take_while value_byte post) ltac:(lia)) as Hsw.
      destruct (drop k (b :: pre)) as [|c x]; cbn [app] in *; by rewrite Hsv, Hsw.
Qed.

Lemma address_replaced pre post v w :
  address_password v -> address_password w ->
  replace_all userinfoPattern 0 (replace_all passwordPattern 0 (around pre post v))
  = replace_all userinfoPattern 0 (replace_all passwordPattern 0 (around pre post w)).
Proof.
  intros Hv Hw. destruct (password_alike pre 0 post v w Hv Hw ltac:(lia)) as [->|(pre' & post' & -> & ->)]; [done|].
  apply userinfo_replaced; [apply Hv|lia|apply Hw].
Qed.

(** C37: a sanitized message does not depend on a password it contains, whatever
    stands around it: on a non-empty value of password= without white space, &
    and comma, up to one of these or the end; and on a non-empty part between a
    colon and @ without white space and any of & , / : @ and without password=
    in it.  (Of a password that does contain these something stays:
    [sanitize_leaves_rest].) *)
Theorem sanitize_hides_password pre post v w :
  (secret value_byte (bytes_of v) -> secret value_byte (bytes_of w) -> ends_value (bytes_of post) ->
   sanitize (pre +:+ "password=" +:+ v +:+ post) = sanitize (pre +:+ "password=" +:+ w +:+ post))
  /\ (address_password (bytes_of v) -> address_password (bytes_of w) ->
      sanitize (pre +:+ ":" +:+ v +:+ "@" +:+ post) = sanitize (pre +:+ ":" +:+ w +:+ "@" +:+ post)).
Proof.
  unfold sanitize. split; intros Hv Hw; rewrite !bytes_of_app.
  - intros Hp. exact (f_equal (fun l => string_of (replace_all userinfoPattern 0 l))
      (password_replaced (bytes_of pre) 0 (bytes_of v) (bytes_of post) Hv Hp ltac:(lia) (bytes_of w) Hw)).
  - exact (f_equal string_of (address_replaced (bytes_of pre) (bytes_of post) (bytes_of v) (bytes_of w) Hv Hw)).
Qed.

Lemma address_password_short v :
  forallb (fun b => userinfo_byte b && value_byte b) v = true -> v <> [] ->
  forallb (fun i => is_null (fold_prefix password_key (drop i v))) (seq 0 (S (length v))) = true -> address_password v.
Proof.
  intros Hb Hne Hi. rewrite forallb_forall in Hb. split; [split; [done|]|split].
  - apply forallb_forall. intros b Hin. by apply Hb, andb_prop in Hin as [? _].
  - apply forallb_forall. intros b Hin. by apply Hb, andb_prop in Hin as [_ ?].
  - intros i. rewrite forallb_forall in Hi. destruct (decide (i <= length v)%nat) as [Hl|Hl].
    + specialize (Hi i ltac:(apply in_seq; lia)). by destruct (fold_prefix _ _).
    + by rewrite drop_ge by lia.
Qed.

Lemma sanitize_hides_password_witness :
  sanitize ("password=x postgres://sp" +:+ ":" +:+ "hunter2" +:+ "@" +:+ "db:5432")
     = sanitize ("password=x postgres://sp" +:+ ":" +:+ "swordfish" +:+ "@" +:+ "db:5432")
  /\ sanitize ("user=sp " +:+ "password=" +:+ "hunter2" +:+ " host=db") = sanitize ("user=sp " +:+ "password=" +:+ "x" +:+ " host=db").
Proof.
  split.
  - apply (proj2 (sanitize_hides_password "password=x postgres://sp" "db:5432" "hunter2" "swordfish"));
      (apply address_password_short; [reflexivity|discriminate|reflexivity]).
  - apply (proj1 (sanitize_hides_password "user=sp " " host=db" "hunter2" "x")); (split; [discriminate|reflexivity]) || reflexivity.
Defined.

Example sanitized :
  sanitize "user=sp PASSWORD=hunter2&x=y" = "user=sp PASSWORD=[REDACTED]&x=y"
  /\ sanitize "postgres://sp:hunter2@db" = "postgres://sp:[REDACTED]@db".
Proof. by vm_compute. Qed.

(** A password of an address with a colon or a slash is not covered by the
    pattern: what precedes its last colon, or all of it, stays. *)
Example sanitize_leaves_rest :
  sanitize "postgres://sp:hun:ter2@db" = "postgres://sp:hun:[REDACTED]@db"
  /\ sanitize "postgres://sp:hun/ter2@db" = "postgres://sp:hun/ter2@db".
Proof. by vm_compute. Qed.

(** ** No pool is left behind *)

(** The calls of [Open] and its result: a pool that was made answered a ping,
    or it is closed. *)
Definition open_outcome (url : string) (l : list (event pool_call)) (r : option error) : Prop :=
  (exists err, l = [Event (ParseConfig url) (Err err)] /\ is_Some r)
  \/ exists cfg, let parsed := Event (ParseConfig url) (Ok cfg) in
     (exists err, l = [parsed; Event (NewWithConfig (tune cfg)) (Some err)] /\ is_Some r)
     \/ (l = [parsed; Event (NewWithConfig (tune cfg)) None; Event PingPool None] /\ r = None)
     \/ exists err, l = [parsed; Event (NewWithConfig (tune cfg)) None; Event PingPool (Some err); Event ClosePool tt]
                    /\ r = Some (wrapError "database ping failed" (sanitizeError err)).

(** [Open] makes only a tuned pool, keeps it only after a ping, and passes no
    unsanitized error of the pool on. *)
Theorem open_leaves_no_pool url l r : runs (Open url) l r -> open_outcome url l r.
Proof.
  intros Hr. enough (safe (Open url) (fun _ _ => True) (fun r l => open_outcome url l r) []) as Hs
    by exact (proj1 (safe_runs _ _ _ _ _ _ Hs Hr)).
  unfold Open, configurePool, Ping, Close. rstep. rstep. rstep. rstep. rstep. rstep; cbv beta iota; [left; by exists err|].
  rename a into cfg. rstep. cbv beta iota. rstep. rstep; cbv beta iota; [right; exists cfg; left; by exists err|].
  rstep. rstep. intros [err|]; (split; [done|]); [|right; exists cfg; right; by left].
  intros []. split; [done|]. right. exists cfg. right. right. by exists err.
Qed.
