(* ===== verification/Backoff.v ===== *)
(** * Retry delays of the agent (src/internal/agent/presence.go)

    [defaultJitter] computes with float64: the conversion, the product and the
    truncation are those of IEEE 754 binary64 ([SpecFloat]).  Durations are
    nanoseconds. *)

From Stdlib Require Import Floats.SpecFloat.
From S2P Require Import Prelude.

Definition DefaultHeartbeatInterval : Z := 30 * Second.
Definition DefaultMaxBackoff : Z := 30 * Second.
Definition DefaultClientTimeout : Z := 10 * Second.

(** ** float64 *)

Definition float64_of_int64 (z : Z) : spec_float := binary_normalize 53 1024 z 0 false.
Definition float64_mul (x y : spec_float) : spec_float := SFmul 53 1024 x y.

(** [int64(x)] of a finite [x] in range: truncation toward zero. *)
Definition int64_of_float64 (x : spec_float) : Z :=
  match x with
  | S754_finite s m e =>
      let v := if 0 <=? e then Z.pos m * 2 ^ e else Z.pos m / 2 ^ (- e) in
      if s : bool then - v else v
  | _ => 0
  end.

(** The constant 0.10: the binary64 number nearest to one tenth. *)
Definition DefaultSuccessJitterPercent : spec_float := S754_finite false 7205759403792794 (-56).

(** [pct <= 0] *)
Definition pct_not_positive (x : spec_float) : bool :=
  match x with
  | S754_finite false _ _ | S754_infinity false => false
  | S754_nan => false
  | _ => true
  end.

(** ** defaultJitter

    [draw] is what [rand.Int(rand.Reader, limit)] returns: a number below the
    limit, or an error. *)
Definition jitter_delta (base : Z) (pct : spec_float) : Z :=
  int64_of_float64 (float64_mul (float64_of_int64 base) pct).

Definition defaultJitter (draw : Z -> option Z) (base : Z) (pct : spec_float) : Z :=
  if pct_not_positive pct then base else
  let delta := jitter_delta base pct in
  if delta <=? 0 then base else
  match draw (2 * delta + 1) with
  | None => base
  | Some n =>
      let offset := n - delta in
      let result := base + offset in
      if result <? 0 then base else result
  end.

(** ** computeBackoff *)

Definition backoff_base (failCount maxBackoff : Z) : Z :=
  let base :=
    if 1 <? failCount then
      let shift := if 5 <? failCount - 1 then 5 else failCount - 1 in
      Z.shiftl 1 shift * Second
    else 1 * Second in
  if maxBackoff <? base then maxBackoff else base.

Definition clamp_delay (maxBackoff d : Z) : Z :=
  let result := if maxBackoff <? d then maxBackoff else d in
  if result <? 0 then 0 else result.

Definition computeBackoff (failCount maxBackoff : Z) (jitterFunc : option (Z -> spec_float -> Z)) : Z :=
  let base := backoff_base failCount maxBackoff in
  clamp_delay maxBackoff
    (match jitterFunc with
     | Some f => f base DefaultSuccessJitterPercent
     | None => base
     end).

(** ** Facts *)

(** The delays before the jitter: 1, 2, 4, 8, 16 and then 30 seconds. *)
Definition nominal_delay (failCount : Z) : Z :=
  if failCount <=? 1 then 1 * Second
  else if failCount <=? 5 then 2 ^ (failCount - 1) * Second
  else 30 * Second.

Lemma backoff_base_nominal n : backoff_base n DefaultMaxBackoff = nominal_delay n.
Proof.
  unfold backoff_base, nominal_delay. destruct (n <=? 1) eqn:E; bsplit.
  - by rewrite (proj2 (Z.ltb_ge 1 n)).
  - rewrite (proj2 (Z.ltb_lt 1 n)) by lia. destruct (n <=? 5) eqn:E5; bsplit.
    + assert (n = 2 \/ n = 3 \/ n = 4 \/ n = 5) as [->|[->|[->| ->]]] by lia; reflexivity.
    + destruct (5 <? n - 1) eqn:E6; bsplit; [reflexivity|].
      assert (n = 6) as -> by lia. reflexivity.
Qed.

Lemma nominal_delay_cases n :
  nominal_delay n ∈ [1 * Second; 2 * Second; 4 * Second; 8 * Second; 16 * Second; 30 * Second].
Proof.
  unfold nominal_delay. destruct (n <=? 1) eqn:E; bsplit; [set_solver|].
  destruct (n <=? 5) eqn:E5; bsplit; [|set_solver].
  assert (n = 2 \/ n = 3 \/ n = 4 \/ n = 5) as [->|[->|[->| ->]]] by lia; set_solver.
Qed.

(** The float64 product is exactly a tenth on these delays. *)
Lemma jitter_delta_nominal n :
  jitter_delta (nominal_delay n) DefaultSuccessJitterPercent = nominal_delay n / 10.
Proof.
  pose proof (nominal_delay_cases n) as H.
  repeat (apply elem_of_cons in H as [->|H]; [vm_compute; reflexivity|]). by apply elem_of_nil in H.
Qed.

Lemma defaultJitter_range draw base pct :
  (forall m k, draw m = Some k -> 0 <= k < m) -> 0 <= base ->
  base - Z.max 0 (jitter_delta base pct) <= defaultJitter draw base pct
  <= base + Z.max 0 (jitter_delta base pct).
Proof.
  intros Hd Hb. unfold defaultJitter. destruct (pct_not_positive pct); [lia|].
  destruct (_ <=? 0) eqn:E; bsplit; [lia|].
  destruct (draw _) as [k|] eqn:Ek; [|lia]. apply Hd in Ek.
  destruct (_ <? 0) eqn:E2; bsplit; lia.
Qed.

(** C16: the n-th retry delay is within a tenth of 1, 2, 4, 8, 16, 30, 30, ...
    seconds and never above 30 seconds. *)
Theorem backoff_range n draw :
  (forall m k, draw m = Some k -> 0 <= k < m) ->
  let d := computeBackoff n DefaultMaxBackoff (Some (defaultJitter draw)) in
  nominal_delay n * 9 <= d * 10 <= nominal_delay n * 11 /\ d <= 30 * Second /\ 900 * Millisecond <= d.
Proof.
  intros Hd d. unfold d, computeBackoff. rewrite backoff_base_nominal.
  assert (1 * Second <= nominal_delay n <= 30 * Second /\ nominal_delay n mod 10 = 0) as [Hn Hm].
  { pose proof (nominal_delay_cases n) as H. unfold Second in *.
    repeat (apply elem_of_cons in H as [->|H]; [split; [lia|reflexivity]|]). by apply elem_of_nil in H. }
  pose proof (defaultJitter_range draw (nominal_delay n) DefaultSuccessJitterPercent Hd ltac:(unfold Second in *; lia)) as Hj.
  rewrite jitter_delta_nominal in Hj. revert Hj. generalize (defaultJitter draw (nominal_delay n) DefaultSuccessJitterPercent) as r.
  intros r Hj. pose proof (Z.div_mod (nominal_delay n) 10 ltac:(lia)) as Hdm. rewrite Hm in Hdm.
  unfold clamp_delay, DefaultMaxBackoff, Millisecond, Second in *.
  repeat case_match; bsplit; lia.
Qed.

Definition demo_draw (m : Z) : option Z := if 0 <? m then Some (m - 1) else None.

Lemma backoff_range_witness :
  let d := computeBackoff 3 DefaultMaxBackoff (Some (defaultJitter demo_draw)) in
  d = 4400000000 /\ d <= 30 * Second.
Proof.
  split; [vm_compute; reflexivity|]. apply (backoff_range 3 demo_draw).
  intros m k. unfold demo_draw. destruct (0 <? m) eqn:E; [|discriminate].
  intros [= <-]. apply Z.ltb_lt in E. lia.
Defined.

(** The first delay can be shorter than its nominal second. *)
Example first_retry_below_second :
  computeBackoff 1 DefaultMaxBackoff (Some (defaultJitter (fun _ => Some 0))) = 900 * Millisecond.
Proof. vm_compute. reflexivity. Qed.
