(* ===== verification/GoTime.v ===== *)
(** * Calendar times (package time)

    An instant is its nanoseconds since 1970 (UTC).  [RFC3339Nano] is
    [Time.Format(time.RFC3339Nano)] in the time zone of the process, which is
    a parameter: pgx returns a timestamptz in [time.Local]. *)

From S2P Require Import Prelude GoStrings RuneFacts Numerals.

(** The offset of the local zone from UTC in seconds, at an instant. *)
Class Location := { utc_offset : Z -> Z }.

(** ** The Gregorian calendar

    Years are counted from March, so the day that some years lack is the last
    of its year: day [doe] of an era of 400 years, day [doy] of its year, and
    month [mp] of the year, 0 being March. *)
Record date := mkDate { year : Z; month : Z; day : Z }.

Definition days_of_era : Z := 146097.
(** From 1 March of the year 0 to 1 January 1970. *)
Definition epoch_shift : Z := 719468.

Definition date_of_days (days : Z) : date :=
  let z := days + epoch_shift in
  let era := z / days_of_era in
  let doe := z mod days_of_era in
  let yoe := (doe - doe / 1460 + doe / 36524 - doe / 146096) / 365 in
  let doy := doe - (365 * yoe + yoe / 4 - yoe / 100) in
  let mp := (5 * doy + 2) / 153 in
  let m := if mp <? 10 then mp + 3 else mp - 9 in
  mkDate (yoe + 400 * era + if m <=? 2 then 1 else 0) m (doy - (153 * mp + 2) / 5 + 1).

(** The reference: leap years and the lengths of the months. *)
Definition leap (y : Z) : bool := (y mod 4 =? 0) && negb (y mod 100 =? 0) || (y mod 400 =? 0).
Definition days_in_month (y m : Z) : Z :=
  if m =? 2 then (if leap y then 29 else 28) else if (m =? 4) || (m =? 6) || (m =? 9) || (m =? 11) then 30 else 31.
Definition valid_date (d : date) : Prop := 1 <= month d <= 12 /\ 1 <= day d <= days_in_month (year d) (month d).

Definition next_date (d : date) : date :=
  if day d <? days_in_month (year d) (month d) then mkDate (year d) (month d) (day d + 1)
  else if month d <? 12 then mkDate (year d) (month d + 1) 1
  else mkDate (year d + 1) 1 1.

(** ** The text *)

(** A number below [10 ^ n] in [n] digits. *)
Fixpoint digits (n : nat) (z : Z) : bytes :=
  match n with
  | O => []
  | S n => digits n (z / 10) ++ [byte_of (48 + z mod 10)]
  end.

(** [appendInt(b, x, width)]: a year may need more digits or a sign. *)
Definition append_int (width : nat) (z : Z) : bytes :=
  let text := decimal (Z.to_N (Z.abs z)) in
  (if z <? 0 then bytes_of "-" else []) ++ replicate (width - length text) (byte_of 48) ++ text.

(** [.999999999]: the trailing zeros and an empty fraction are left out. *)
Fixpoint drop_zeros (l : bytes) : bytes :=
  match l with
  | b :: l' => if is_byte 48 b then drop_zeros l' else l
  | [] => []
  end.
Definition fraction (ns : Z) : bytes :=
  match rev (drop_zeros (rev (digits 9 ns))) with
  | [] => []
  | l => bytes_of "." ++ l
  end.

(** [Z07:00]: the offset in minutes, Z for UTC. *)
Definition zone (offset : Z) : bytes :=
  if offset =? 0 then bytes_of "Z" else
  let minutes := Z.quot offset 60 in
  bytes_of (if minutes <? 0 then "-" else "+") ++ append_int 2 (Z.abs minutes / 60) ++ bytes_of ":" ++ digits 2 (Z.abs minutes mod 60).

Section format.
Context `{Location}.

Definition local_seconds (t : Z) : Z := t / Second + utc_offset t.
Definition local_date (t : Z) : date := date_of_days (local_seconds t / 86400).

Definition RFC3339Nano (t : Z) : string :=
  let d := local_date t in
  let s := local_seconds t mod 86400 in
  string_of (append_int 4 (year d) ++ bytes_of "-" ++ digits 2 (month d) ++ bytes_of "-" ++ digits 2 (day d) ++ bytes_of "T"
    ++ digits 2 (s / 3600) ++ bytes_of ":" ++ digits 2 (s / 60 mod 60) ++ bytes_of ":" ++ digits 2 (s mod 60)
    ++ fraction (t mod Second) ++ zone (utc_offset t)).

(** [Time.MarshalJSON] refuses what RFC 3339 has no text for. *)
Definition MarshalJSON_time (t : Z) : option string :=
  if (year (local_date t) <? 0) || (9999 <? year (local_date t)) || (86400 <=? Z.abs (utc_offset t)) then None
  else Some (RFC3339Nano t).
End format.

(** ** The calendar is the Gregorian one

    Day [z] from 1 March of the year 0 lies in the year that begins on day
    [year_start]. *)

Ltac zdiv := Z.to_euclidean_division_equations; lia.
Definition year_start (y : Z) : Z := 365 * y + y / 4 - y / 100 + y / 400.

Lemma year_start_mono y1 y2 : y1 <= y2 -> year_start y1 <= year_start y2.
Proof. unfold year_start. intros. zdiv. Qed.

Lemma year_length y : year_start (y + 1) - year_start y = if leap (y + 1) then 366 else 365.
Proof. unfold year_start, leap. destruct (Z.eqb_spec ((y+1) mod 4) 0), (Z.eqb_spec ((y+1) mod 100) 0), (Z.eqb_spec ((y+1) mod 400) 0); cbn [negb andb orb]; zdiv. Qed.

Lemma yoe_year doe : 0 <= doe < 146097 -> let y := (doe - doe / 1460 + doe / 36524 - doe / 146096) / 365 in
  0 <= y <= 399 /\ year_start y <= doe < year_start (y + 1).
Proof. intros ? y. split; [subst y; zdiv|]. unfold year_start. subst y. zdiv. Qed.

(** The year (from March) and the day in it. *)
Definition march_year (days : Z) : Z :=
  let z := days + epoch_shift in
  let doe := z mod days_of_era in
  (doe - doe / 1460 + doe / 36524 - doe / 146096) / 365 + 400 * (z / days_of_era).

Lemma march_year_spec days : year_start (march_year days) <= days + epoch_shift < year_start (march_year days + 1).
Proof.
  unfold march_year. set (z := days + epoch_shift). pose proof (Z.mod_pos_bound z days_of_era ltac:(done)) as Hd.
  pose proof (Z.div_mod z days_of_era ltac:(done)) as Hz. destruct (yoe_year (z mod days_of_era) Hd) as [Hy Hs].
  revert Hy Hs. set (y := _ / 365). set (era := z / days_of_era) in *. intros Hy Hs.
  assert (forall y, 0 <= y -> year_start (y + 400 * era) = year_start y + 146097 * era) as He by (intros; unfold year_start; zdiv).
  replace (y + 400 * era + 1) with ((y + 1) + 400 * era) by lia. rewrite !He by lia. unfold days_of_era in *. lia.
Qed.

Lemma march_year_unique days y : year_start y <= days + epoch_shift < year_start (y + 1) -> march_year days = y.
Proof.
  intros Hy. pose proof (march_year_spec days) as Hs. destruct (Z.lt_trichotomy (march_year days) y) as [Hl|[?|Hl]]; [|done|].
  - pose proof (year_start_mono (march_year days + 1) y ltac:(lia)). lia.
  - pose proof (year_start_mono (y + 1) (march_year days) ltac:(lia)). lia.
Qed.

Definition march_date (y doy : Z) : date :=
  let mp := (5 * doy + 2) / 153 in
  let m := if mp <? 10 then mp + 3 else mp - 9 in
  mkDate (y + if m <=? 2 then 1 else 0) m (doy - (153 * mp + 2) / 5 + 1).

Lemma date_march days : date_of_days days = march_date (march_year days) (days + epoch_shift - year_start (march_year days)).
Proof.
  unfold date_of_days, march_date. cbv zeta. fold (march_year days).
  assert ((days + epoch_shift) mod days_of_era - (365 * (((days + epoch_shift) mod days_of_era - (days + epoch_shift) mod days_of_era / 1460 + (days + epoch_shift) mod days_of_era / 36524 - (days + epoch_shift) mod days_of_era / 146096) / 365)
    + (((days + epoch_shift) mod days_of_era - (days + epoch_shift) mod days_of_era / 1460 + (days + epoch_shift) mod days_of_era / 36524 - (days + epoch_shift) mod days_of_era / 146096) / 365) / 4
    - (((days + epoch_shift) mod days_of_era - (days + epoch_shift) mod days_of_era / 1460 + (days + epoch_shift) mod days_of_era / 36524 - (days + epoch_shift) mod days_of_era / 146096) / 365) / 100)
    = days + epoch_shift - year_start (march_year days)) as ->; [|done].
  unfold march_year. set (z := days + epoch_shift). pose proof (Z.mod_pos_bound z days_of_era ltac:(done)) as Hd.
  pose proof (Z.div_mod z days_of_era ltac:(done)) as Hz. destruct (yoe_year (z mod days_of_era) Hd) as [Hy _].
  revert Hy. set (y := _ / 365). set (era := z / days_of_era) in *. intros Hy. unfold year_start, days_of_era in *. zdiv.
Qed.

(** The twelve months, [mp] a numeral in each. *)
Lemma months mp : 0 <= mp <= 11 -> mp ∈ [0; 1; 2; 3; 4; 5; 6; 7; 8; 9; 10; 11].
Proof. intros. rewrite !elem_of_cons. lia. Qed.

Ltac each_month H := apply months in H; repeat (apply elem_of_cons in H as [->|H]); [..|by apply elem_of_nil in H].
Ltac numeral t := let v := eval vm_compute in t in change t with v in *.
Ltac month_numerals := repeat match goal with
  | |- context [?a + 3] => numeral (a + 3)
  | |- context [?a - 9] => numeral (a - 9)
  | |- context [(153 * ?a + 2) / 5] => numeral ((153 * a + 2) / 5)
  end; cbn -[Z.div Z.mul leap].

Lemma month_bounds doy mp : mp = (5 * doy + 2) / 153 <-> 153 * mp <= 5 * doy + 2 < 153 * mp + 153.
Proof. split; intros; zdiv. Qed.

Lemma march_valid y doy : 0 <= doy < (if leap (y + 1) then 366 else 365) -> valid_date (march_date y doy).
Proof.
  intros Hd. unfold valid_date, march_date, days_in_month. cbn [year month day].
  assert (0 <= (5 * doy + 2) / 153 <= 11) as Hm by (destruct (leap (y + 1)); zdiv).
  remember ((5 * doy + 2) / 153) as mp eqn:E. apply month_bounds in E.
  each_month Hm; month_numerals; destruct (leap (y + 1)); lia.
Qed.

Lemma march_next y doy :
  0 <= doy -> doy + 1 < (if leap (y + 1) then 366 else 365) -> march_date y (doy + 1) = next_date (march_date y doy).
Proof.
  intros Hd Hl. unfold march_date, next_date, days_in_month.
  remember ((5 * doy + 2) / 153) as mp eqn:E. remember ((5 * (doy + 1) + 2) / 153) as mp' eqn:E'. cbn [year month day].
  apply month_bounds in E, E'. assert (0 <= mp <= 11) as Hm by (destruct (leap (y + 1)); lia).
  assert (0 <= mp' <= 11) as Hm' by (destruct (leap (y + 1)); lia).
  each_month Hm; each_month Hm'; try (exfalso; lia); month_numerals;
    (destruct (leap (y + 1)); case_match; bsplit; [f_equal; lia || (exfalso; lia)..]).
Qed.

Lemma march_wraps y : march_date (y + 1) 0 = next_date (march_date y ((if leap (y + 1) then 366 else 365) - 1)).
Proof.
  unfold march_date, next_date, days_in_month. destruct (leap (y + 1)) eqn:El; simpl. all: by rewrite El, Z.add_0_r.
Qed.

Lemma march_day days : 0 <= days + epoch_shift - year_start (march_year days) < (if leap (march_year days + 1) then 366 else 365).
Proof. pose proof (march_year_spec days). pose proof (year_length (march_year days)). destruct (leap _); lia. Qed.

Theorem date_valid days : valid_date (date_of_days days).
Proof. rewrite date_march. apply march_valid, march_day. Qed.

(** The day after: with [first_date], every date is that of the Gregorian
    calendar. *)
Theorem date_next days : date_of_days (days + 1) = next_date (date_of_days days).
Proof.
  rewrite !date_march. pose proof (march_day days) as Hd. pose proof (march_year_spec days) as Hs.
  pose proof (year_length (march_year days)) as Hy. remember (march_year days) as y eqn:E.
  destruct (Z.lt_ge_cases (days + 1 + epoch_shift) (year_start (y + 1))) as [Hl|Hl].
  - rewrite (march_year_unique (days + 1) y) by lia.
    rewrite <- march_next by (destruct (leap (y + 1)); lia). f_equal. lia.
  - assert (days + 1 + epoch_shift = year_start (y + 1)) as He by lia.
    rewrite (march_year_unique (days + 1) (y + 1)) by (pose proof (year_length (y + 1)); destruct (leap (y + 1 + 1)); lia).
    replace (days + 1 + epoch_shift - year_start (y + 1)) with 0 by lia. rewrite march_wraps. do 2 f_equal. lia.
Qed.

Lemma first_date : date_of_days 0 = mkDate 1970 1 1.
Proof. reflexivity. Qed.

(** ** The text is ASCII *)

Definition ascii_only (l : bytes) : Prop := Forall (fun b => byte_val b < 128) l.

Lemma ascii_string s : forallb (fun b => byte_val b <? 128) (bytes_of s) = true -> ascii_only (bytes_of s).
Proof. intros Hs. apply Forall_forall. intros b Hb. rewrite forallb_forall in Hs. apply list_elem_of_In, Hs in Hb. by apply Z.ltb_lt. Qed.

Lemma ascii_digits n z : ascii_only (digits n z).
Proof.
  revert z. induction n as [|n IH]; intros z; [constructor|]. apply Forall_app. split; [apply IH|]. apply Forall_singleton.
  pose proof (Z.mod_pos_bound z 10 ltac:(done)). rewrite byte_val_of; lia.
Qed.

Lemma ascii_decimal n : ascii_only (decimal n).
Proof.
  pose proof (decimal_digits n) as Hd. apply Forall_forall. intros b Hb. rewrite forallb_forall in Hd.
  apply list_elem_of_In, Hd in Hb. unfold is_digit in Hb. bsplit. lia.
Qed.

Lemma ascii_append_int w z : ascii_only (append_int w z).
Proof.
  apply Forall_app. split; [destruct (z <? 0); [by apply ascii_string|constructor]|].
  apply Forall_app. split; [by apply Forall_replicate|apply ascii_decimal].
Qed.

Lemma ascii_drop_zeros l : ascii_only l -> ascii_only (drop_zeros l).
Proof. intros Hl. induction Hl as [|b l Hb Hl IH]; [constructor|]. simpl. destruct (is_byte 48 b); [done|by constructor]. Qed.

Lemma ascii_rev l : ascii_only l -> ascii_only (rev l).
Proof. unfold ascii_only. rewrite !Forall_forall. intros Hl b Hb. apply Hl. by rewrite list_elem_of_In, in_rev, <- list_elem_of_In. Qed.

Lemma ascii_fraction ns : ascii_only (fraction ns).
Proof.
  unfold fraction. pose proof (ascii_rev _ (ascii_drop_zeros _ (ascii_rev _ (ascii_digits 9 ns)))) as Hr.
  destruct (rev _); [done|]. apply Forall_app. split; [by apply ascii_string|done].
Qed.

Lemma ascii_app l1 l2 : ascii_only l1 -> ascii_only l2 -> ascii_only (l1 ++ l2).
Proof. intros. by apply Forall_app. Qed.

Ltac ascii_parts := repeat lazymatch goal with
  | |- ascii_only (_ ++ _) => apply ascii_app
  | |- ascii_only (append_int _ _) => apply ascii_append_int
  | |- ascii_only (digits _ _) => apply ascii_digits
  | |- ascii_only (fraction _) => apply ascii_fraction
  | |- ascii_only (bytes_of (if ?c then _ else _)) => destruct c
  | |- ascii_only (bytes_of _) => by apply ascii_string
  end.

Lemma ascii_zone offset : ascii_only (zone offset).
Proof. unfold zone. destruct (offset =? 0); ascii_parts. Qed.

Lemma RFC3339Nano_text `{Location} t : text (bytes_of (RFC3339Nano t)).
Proof.
  unfold RFC3339Nano. cbv zeta. rewrite bytes_of_string_of. apply text_ascii. lazymatch goal with |- Forall _ ?l => change (ascii_only l) end.
  ascii_parts. apply ascii_zone.
Qed.

(** ** Examples *)

Example formatted :
  (fun t => RFC3339Nano (H := {| utc_offset _ := 0 |}) t) <$> [0; 951782400 * Second + 120000000; 4102444799 * Second + 5; -1]
  = ["1970-01-01T00:00:00Z"; "2000-02-29T00:00:00.12Z"; "2099-12-31T23:59:59.000000005Z"; "1969-12-31T23:59:59.999999999Z"]
  /\ RFC3339Nano (H := {| utc_offset _ := -12600 |}) (1709164800 * Second) = "2024-02-28T20:30:00-03:30".
Proof. split; vm_compute; reflexivity. Qed.
