(* ===== verification/Handlers.v ===== *)
(** * Requests, replies and handlers of the controller

    What src/internal/controller/controller.go is written in: an incoming
    request, a reply, and handlers as programs over the effects a handler has:
    one method of the store at a time, the clock, the random source and the
    slots of the login limiter.  [serve] runs a handler against the tables;
    before every effect other requests may have run ([oracle_before]), and
    each method meets a server of its own ([oracle_env]). *)

From S2P Require Import Prelude GoStrings Job Operator Enrollment Protocol Postgres Schema JobStore AccountStore System Runs Http.

(** ** Requests *)

Definition ExtKeyUsageClientAuth : Z := 2.

(** A certificate the peer proved possession of; [PublicKey] is its key when
    it is an Ed25519 key. *)
Record Certificate := mkCertificate {
  NotBefore : Z;
  NotAfter : Z;
  ExtKeyUsage : list Z;
  PublicKey : option string;
}.

Record Request := mkRequest {
  Method : string;
  Path : string;
  TLS : option (list Certificate);          (* None: plain HTTP *)
  Header : list (string * list string);     (* canonical names *)
  Query : list (string * list string);      (* r.URL.Query() *)
  ReqBody : Body;
}.

Definition lookup_values (k : string) (l : list (string * list string)) : option (list string) :=
  snd <$> head (List.filter (fun kv => String.eqb kv.1 k) l).

(** [Get] of a header or a query: the first value, or the empty string. *)
Definition values_Get (k : string) (l : list (string * list string)) : string :=
  match lookup_values k l with
  | Some (v :: _) => v
  | _ => ""
  end.

Definition Query_Has (k : string) (l : list (string * list string)) : bool :=
  negb (is_null (lookup_values k l)).

(** ** Replies *)

Record jobHTTPResponse := mkJobHTTPResponse {
  jr_ID : string;
  jr_AgentID : string;
  jr_Action : string;
  jr_State : string;
  jr_Attempt : Z;
  jr_CreatedByUsername : string;
  jr_FailureCode : option string;
  jr_CreatedAt : string;
  jr_UpdatedAt : string;
  jr_StartedAt : option string;
  jr_FinishedAt : option string;
}.

Record jobEventHTTPResponse := mkJobEventHTTPResponse {
  er_ID : string;
  er_EventType : string;
  er_Attempt : Z;
  er_ActorType : string;
  er_ActorIdentifier : string;
  er_FailureCode : option string;
  er_OccurredAt : string;
}.

(** The values handed to [writeJSON]. *)
Inductive payload :=
| ErrorBody (msg : string)
| AgentIDBody (id : string)
| LoginBody (token expiresAt id username role : string)
| MeBody (id username role expiresAt : string)
| AuditBody (events : list AuditEventRecord)
| JobBody (j : jobHTTPResponse)
| JobsBody (js : list jobHTTPResponse)
| EventsBody (es : list jobEventHTTPResponse)
| AssignmentBody (r : HeartbeatResponse)
| TextBody (s : string).

Record Reply := mkReply {
  rep_Status : Z;
  rep_Header : list (string * string);
  rep_Body : option payload;
}.

Definition json_headers : list (string * string) :=
  [("Content-Type", "application/json"); ("Cache-Control", "no-store"); ("X-Content-Type-Options", "nosniff")].

Definition writeJSON (status : Z) (data : payload) : Reply := mkReply status json_headers (Some data).

Definition error_reply (status : Z) (msg : string) : Reply := writeJSON status (ErrorBody msg).

(** [w.Header().Set("Allow", ...)] and 405. *)
Definition method_not_allowed (allow : string) : Reply :=
  mkReply StatusMethodNotAllowed [("Allow", allow)] None.

Definition no_content : Reply := mkReply StatusNoContent [("Cache-Control", "no-store")] None.

Definition with_header (k v : string) (r : Reply) : Reply :=
  mkReply (rep_Status r) ((k, v) :: rep_Header r) (rep_Body r).

(** ** Handlers *)

(** The methods of the store behind the interfaces of the controller. *)
Inductive backend : Type -> Type :=
| DoRegisterAgent (tokenHash publicKey : string) : backend (AgentRecord * bool)
| DoFindAgentByPublicKey (publicKey : string) : backend AgentRecord
| DoRecordAgentHeartbeat (publicKey : string) (version : Z) : backend (AgentRecord * bool)
| DoRecordAgentInventory (publicKey : string) (req : InventoryRequest) : backend unit
| DoRecordAgentTelemetry (publicKey : string) (req : TelemetryRequest) : backend unit
| DoGetOperatorByUsername (username : string) : backend OperatorRecord
| DoCreateOperatorSession (operatorID tokenHash : string) : backend SessionRecord
| DoFindOperatorSession (tokenHash : string) : backend Principal
| DoRevokeOperatorSession (sessionID operatorID username : string) : backend unit
| DoRecordAndListAuditEvents (actorID username : string) (limit : Z) : backend (list AuditEventRecord)
| DoCreateJob (operatorID agentID : UUID) (action hash : string) : backend (Job * bool)
| DoGetJobByID (jobID : UUID) : backend Job
| DoListJobs (limit : Z) (agentID : option UUID) (state : option string) : backend (list Job)
| DoListJobEvents (jobID : UUID) (limit : Z) : backend (list JobEvent)
| DoClaimNextAgentJob (agentID : UUID) : backend (option JobAssignment)
| DoStartAgentJob (agentID jobID : UUID) (attempt : Z) : backend unit
| DoCompleteAgentJob (agentID jobID : UUID) (attempt : Z) (outcome failureCode : string) : backend unit.

Inductive handler (R : Type) : Type :=
| Return (r : R)
| Invoke {A} (m : backend A) (k : result A -> handler R)
| Now (k : Z -> handler R)
| Entropy (k : result bytes -> handler R)
| AcquireSlot (k : bool -> handler R)
| ReleaseSlot (k : handler R)
| PingDB (k : bool -> handler R).
Arguments Return {R}. Arguments Invoke {R A}. Arguments Now {R}. Arguments Entropy {R}.
Arguments AcquireSlot {R}. Arguments ReleaseSlot {R}. Arguments PingDB {R}.

#[export] Instance handler_ret : MRet handler := @Return.
#[export] Instance handler_bind : MBind handler := fun A B f =>
  fix bind (m : handler A) : handler B :=
    match m with
    | Return a => f a
    | Invoke c k => Invoke c (fun r => bind (k r))
    | Now k => Now (fun t => bind (k t))
    | Entropy k => Entropy (fun b => bind (k b))
    | AcquireSlot k => AcquireSlot (fun ok => bind (k ok))
    | ReleaseSlot k => ReleaseSlot (bind k)
    | PingDB k => PingDB (fun ok => bind (k ok))
    end.

Definition invoke {A} (m : backend A) : handler (result A) := Invoke m Return.
Definition now : handler Z := Now Return.
Definition entropy : handler (result bytes) := Entropy Return.
Definition acquire_slot : handler bool := AcquireSlot Return.
Definition ping : handler bool := PingDB Return.
Definition release_slot : handler unit := ReleaseSlot (Return tt).

(** A step that may end the handler with a reply: [if ... { writeJSON(...); return }]. *)
Definition step_or_reply (A : Type) : Type := handler (Reply + A).

#[export] Instance step_ret : MRet step_or_reply := fun A a => Return (inr a).
#[export] Instance step_bind : MBind step_or_reply := fun A B f m =>
  handler_bind _ _ (fun r => match r with inl rep => Return (inl rep) | inr a => f a end) m.

Definition reply_with {A} (r : Reply) : step_or_reply A := Return (inl r).
Definition reply_if (c : bool) (r : Reply) : step_or_reply unit := if c then reply_with r else mret tt.
Definition lift {A} (m : handler A) : step_or_reply A := handler_bind _ _ (fun a => Return (inr a)) m.
Definition pure_or_reply {A} (r : Reply + A) : step_or_reply A := Return r.

(** The handler as a whole. *)
Definition finish (m : step_or_reply Reply) : handler Reply :=
  handler_bind _ _ (fun r => match r with inl rep => Return rep | inr rep => Return rep end) m.

(** ** Serving *)

Section serve.
Context `{UuidTextLaws} `{UnicodeTables}.

Definition backend_method {A} (m : backend A) : M DB A :=
  match m with
  | DoRegisterAgent h k => RegisterAgent h k
  | DoFindAgentByPublicKey k => FindAgentByPublicKey k
  | DoRecordAgentHeartbeat k v => RecordAgentHeartbeat k v
  | DoRecordAgentInventory k r => RecordAgentInventory k (Some r)
  | DoRecordAgentTelemetry k r => RecordAgentTelemetry k (Some r)
  | DoGetOperatorByUsername u => GetOperatorByUsername u
  | DoCreateOperatorSession o h => CreateOperatorSession o h
  | DoFindOperatorSession h => FindOperatorSessionByTokenHash h
  | DoRevokeOperatorSession s o u => RevokeOperatorSession s o u
  | DoRecordAndListAuditEvents a u n => RecordAndListAuditEvents a u n
  | DoCreateJob o a act h => CreateJob o a act h
  | DoGetJobByID j => GetJobByID j
  | DoListJobs n a s => ListJobs n a s
  | DoListJobEvents j n => ListJobEvents j n
  | DoClaimNextAgentJob a => ClaimNextAgentJob a
  | DoStartAgentJob a j n => StartAgentJob a j n
  | DoCompleteAgentJob a j n o f => CompleteAgentJob a j n o f
  end.

Definition backend_call {A} (m : backend A) : call :=
  match m with
  | DoRegisterAgent h k => CallRegisterAgent h k
  | DoFindAgentByPublicKey k => CallFindAgentByPublicKey k
  | DoRecordAgentHeartbeat k v => CallRecordAgentHeartbeat k v
  | DoRecordAgentInventory k r => CallRecordAgentInventory k (Some r)
  | DoRecordAgentTelemetry k r => CallRecordAgentTelemetry k (Some r)
  | DoGetOperatorByUsername u => CallGetOperatorByUsername u
  | DoCreateOperatorSession o h => CallCreateOperatorSession o h
  | DoFindOperatorSession h => CallFindOperatorSession h
  | DoRevokeOperatorSession s o u => CallRevokeOperatorSession s o u
  | DoRecordAndListAuditEvents a u n => CallRecordAndListAuditEvents a u n
  | DoCreateJob o a act h => CallCreateJob o a act h
  | DoGetJobByID j => CallGetJobByID j
  | DoListJobs n a s => CallListJobs n a s
  | DoListJobEvents j n => CallListJobEvents j n
  | DoClaimNextAgentJob a => CallClaimNextAgentJob a
  | DoStartAgentJob a j n => CallStartAgentJob a j n
  | DoCompleteAgentJob a j n o f => CallCompleteAgentJob a j n o f
  end.

Lemma backend_after {A} (m : backend A) e db :
  tables_after (backend_method m) e db = after_call (backend_call m) e db.
Proof. by destruct m. Qed.

(** What the controller meets at its [i]-th effect. *)
Record Oracle := mkOracle {
  oracle_before : nat -> list (call * Env);
  oracle_env : nat -> Env;
  oracle_now : nat -> Z;
  oracle_entropy : nat -> result bytes;
  oracle_ping : nat -> bool;
}.

Record Ctl := mkCtl { ctl_db : DB; ctl_limiter : ConcurrencyLimiter; ctl_step : nat }.

Definition interfere (o : Oracle) (c : Ctl) : DB :=
  foldl (fun db ce => after_call ce.1 ce.2 db) (ctl_db c) (oracle_before o (ctl_step c)).

Fixpoint serve {R} (o : Oracle) (h : handler R) (c : Ctl) : R * Ctl :=
  let i := ctl_step c in
  let db := interfere o c in
  match h with
  | Return r => (r, c)
  | Invoke m k =>
      serve o (k (result_of (backend_method m) (oracle_env o i) db))
        (mkCtl (tables_after (backend_method m) (oracle_env o i) db) (ctl_limiter c) (S i))
  | Now k => serve o (k (oracle_now o i)) (mkCtl db (ctl_limiter c) (S i))
  | Entropy k => serve o (k (oracle_entropy o i)) (mkCtl db (ctl_limiter c) (S i))
  | AcquireSlot k =>
      let '(l, ok) := TryAcquire (ctl_limiter c) in serve o (k ok) (mkCtl db l (S i))
  | ReleaseSlot k => serve o k (mkCtl db (release (ctl_limiter c)) (S i))
  | PingDB k => serve o (k (oracle_ping o i)) (mkCtl db (ctl_limiter c) (S i))
  end.

Lemma interfere_called o c : rtc called (ctl_db c) (interfere o c).
Proof.
  unfold interfere. generalize (ctl_db c) as db. induction (oracle_before o (ctl_step c)) as [|[cl e] l IH];
    intros db; simpl; [done|]. eapply rtc_l; [by exists cl, e|]. apply IH.
Qed.

(** Serving a request is a sequence of calls. *)
Lemma serve_called {R} o (h : handler R) c : rtc called (ctl_db c) (ctl_db (serve o h c).2).
Proof.
  revert c. induction h as [r|A m k IH|k IH|k IH|k IH|k IH|k IH]; intros c; simpl; [done|..].
  - etrans; [|apply IH]. simpl. eapply rtc_r; [apply interfere_called|].
    exists (backend_call m), (oracle_env o (ctl_step c)). apply backend_after.
  - etrans; [|apply IH]. apply interfere_called.
  - etrans; [|apply IH]. apply interfere_called.
  - destruct (TryAcquire _) as [l ok]. etrans; [|apply IH]. apply interfere_called.
  - etrans; [|apply IH]. apply interfere_called.
  - etrans; [|apply IH]. apply interfere_called.
Qed.

Lemma serve_reachable {R} o (h : handler R) c :
  reachable (ctl_db c) -> reachable (ctl_db (serve o h c).2).
Proof. intros Hr. eapply called_reachable; [exact Hr|apply serve_called]. Qed.

Lemma serve_bind {A B} o (f : A -> handler B) (m : handler A) c :
  serve o (handler_bind _ _ f m) c = let '(a, c') := serve o m c in serve o (f a) c'.
Proof.
  revert c. induction m as [r|X m k IH|k IH|k IH|k IH|k IH|k IH]; intros c; simpl; auto.
  destruct (TryAcquire _) as [l ok]. auto.
Qed.
End serve.
