(* ===== verification/Replies.v ===== *)
(** * The text of replies (src/internal/controller/controller.go, internal/operator/operator.go)

    What [json.NewEncoder(w).Encode] writes for the values handed to
    [writeJSON]: the structs by their tags, the maps with their keys in order,
    and a newline.  Plain text is written as it is. *)

From S2P Require Import Prelude GoStrings RuneFacts Numerals GoTime Job Operator Protocol Http JsonText JsonFacts JsonCoder Messages Handlers.

Definition str (s : string) : value := Str (bytes_of s).
Definition int (z : Z) : value := Number (FormatInt z).
(** A [*string]. *)
Definition opt_str (s : option string) : value := match s with Some s => str s | None => Null end.
Definition object (ms : list (string * value)) : value := Obj ((fun kv => (bytes_of kv.1, kv.2)) <$> ms).

Definition job_value (j : jobHTTPResponse) : value :=
  object [("id", str (jr_ID j)); ("agent_id", str (jr_AgentID j)); ("action", str (jr_Action j)); ("state", str (jr_State j));
          ("attempt", int (jr_Attempt j)); ("created_by_username", str (jr_CreatedByUsername j));
          ("failure_code", opt_str (jr_FailureCode j)); ("created_at", str (jr_CreatedAt j)); ("updated_at", str (jr_UpdatedAt j));
          ("started_at", opt_str (jr_StartedAt j)); ("finished_at", opt_str (jr_FinishedAt j))].

Definition job_event_value (e : jobEventHTTPResponse) : value :=
  object [("id", str (er_ID e)); ("event_type", str (er_EventType e)); ("attempt", int (er_Attempt e));
          ("actor_type", str (er_ActorType e)); ("actor_identifier", str (er_ActorIdentifier e));
          ("failure_code", opt_str (er_FailureCode e)); ("occurred_at", str (er_OccurredAt e))].

Section replies.
Context `{Location}.

(** A [time.Time] that RFC 3339 has no text for cannot be encoded. *)
Definition audit_value (ev : AuditEventRecord) : option value :=
  occurred ← MarshalJSON_time (AuditOccurredAt ev);
  Some (object [("id", str (AuditID ev)); ("occurred_at", str occurred);
                ("actor_operator_id", opt_str (AuditActorOperatorID ev)); ("actor_username", str (AuditActorUsername ev));
                ("action", str (AuditActionName ev)); ("target_operator_id", opt_str (AuditTargetOperatorID ev));
                ("target_username", opt_str (AuditTargetUsername ev)); ("target_job_id", opt_str (AuditTargetJobID ev));
                ("outcome", str (AuditOutcomeName ev))]).

Definition encoded (v : value) : string := string_of (print compact 0 v ++ [byte_of 10]).

(** The value [Encode] is given, if it is one that can be encoded. *)
Definition payload_value (p : payload) : option value :=
  match p with
  | ErrorBody msg => Some (object [("error", str msg)])
  | AgentIDBody id => Some (object [("agent_id", str id)])
  | LoginBody token expiresAt id username role =>
      Some (object [("expires_at", str expiresAt);
                    ("operator", object [("id", str id); ("role", str role); ("username", str username)]);
                    ("token", str token)])
  | MeBody id username role expiresAt =>
      Some (object [("id", str id); ("role", str role); ("session_expires_at", str expiresAt); ("username", str username)])
  | AuditBody events => Arr <$> mapM audit_value events
  | JobBody j => Some (job_value j)
  | JobsBody js => Some (Arr (job_value <$> js))
  | EventsBody es => Some (Arr (job_event_value <$> es))
  | AssignmentBody r => Some (emit heartbeat_response_coder r)
  | TextBody _ => None
  end.

(** The error of [Encode] is dropped: then the body stays empty. *)
Definition reply_text (p : payload) : string :=
  match p with
  | TextBody s => s
  | _ => default "" (encoded <$> payload_value p)
  end.

(** ** Every reply is one JSON document *)

(** The strings a reply is made of. *)
Definition job_strings (j : jobHTTPResponse) : list string :=
  [jr_ID j; jr_AgentID j; jr_Action j; jr_State j; jr_CreatedByUsername j; jr_CreatedAt j; jr_UpdatedAt j]
  ++ option_list (jr_FailureCode j) ++ option_list (jr_StartedAt j) ++ option_list (jr_FinishedAt j).
Definition event_strings (e : jobEventHTTPResponse) : list string :=
  [er_ID e; er_EventType e; er_ActorType e; er_ActorIdentifier e; er_OccurredAt e] ++ option_list (er_FailureCode e).
Definition audit_strings (ev : AuditEventRecord) : list string :=
  [AuditID ev; AuditActorUsername ev; AuditActionName ev; AuditOutcomeName ev]
  ++ option_list (AuditActorOperatorID ev) ++ option_list (AuditTargetOperatorID ev)
  ++ option_list (AuditTargetUsername ev) ++ option_list (AuditTargetJobID ev).
Definition payload_strings (p : payload) : list string :=
  match p with
  | ErrorBody msg => [msg]
  | AgentIDBody id => [id]
  | LoginBody token expiresAt id username role => [token; expiresAt; id; username; role]
  | MeBody id username role expiresAt => [id; username; role; expiresAt]
  | AuditBody events => events ≫= audit_strings
  | JobBody j => job_strings j
  | JobsBody js => js ≫= job_strings
  | EventsBody es => es ≫= event_strings
  | AssignmentBody r => match HB_Job r with Some a => [JA_JobID a; JA_Action a] | None => [] end
  | TextBody _ => []
  end.

Definition is_text (s : string) : Prop := utf8_ValidString s = true.

Lemma text_bytes s : is_text s -> text (bytes_of s).
Proof. unfold text. by rewrite string_of_bytes_of. Qed.

Lemma str_writable d s : is_text s -> writable d (str s).
Proof. intros Hs. by apply writable_str, text_bytes. Qed.

Lemma int_writable d z : writable d (int z).
Proof. apply writable_number, integer_text. Qed.

Lemma opt_str_writable d s : Forall is_text (option_list s) -> writable d (opt_str s).
Proof. destruct s as [s|]; intros Hs; cbn in *; [apply str_writable; by rewrite Forall_singleton in Hs|constructor]. Qed.

Lemma object_writable d ms :
  d + 1 <= maxNestingDepth -> Forall (fun kv => text (bytes_of kv.1) /\ writable (d + 1) kv.2) ms -> writable d (object ms).
Proof. intros Hd Hms. apply writable_obj; [done|]. by apply Forall_fmap. Qed.

Lemma array_writable {A} d (f : A -> value) l :
  d + 1 <= maxNestingDepth -> (forall x, x ∈ l -> writable (d + 1) (f x)) -> writable d (Arr (f <$> l)).
Proof. intros Hd Hl. apply writable_arr; [done|]. by apply Forall_fmap, Forall_forall. Qed.

Ltac split_strings := repeat match goal with
  | H : Forall _ (_ ++ _) |- _ => apply Forall_app in H as [? ?]
  | H : Forall _ (_ :: _) |- _ => apply Forall_cons in H as [? ?]
  end.
Ltac object_fields :=
  apply object_writable; [unfold maxNestingDepth; lia|];
  repeat (apply Forall_cons; split; [split; [done|]; cbn [snd]; first [by apply str_writable | apply int_writable | by apply opt_str_writable | idtac]|]);
  try apply Forall_nil_2.

Lemma job_writable d j : d <= 1 -> Forall is_text (job_strings j) -> writable d (job_value j).
Proof. unfold job_strings. intros Hd Hs. split_strings. object_fields. Qed.

Lemma event_writable d e : d <= 1 -> Forall is_text (event_strings e) -> writable d (job_event_value e).
Proof. unfold event_strings. intros Hd Hs. split_strings. object_fields. Qed.

Lemma audit_writable d ev v : d <= 1 -> Forall is_text (audit_strings ev) -> audit_value ev = Some v -> writable d v.
Proof.
  unfold audit_strings, audit_value. intros Hd Hs (occurred & Ho & [= <-])%bind_Some. split_strings.
  unfold MarshalJSON_time in Ho. destruct (_ || _); [done|]. injection Ho as <-.
  object_fields. apply writable_str, RFC3339Nano_text.
Qed.

Lemma bind_strings {A} (f : A -> list string) l x : Forall is_text (l ≫= f) -> x ∈ l -> Forall is_text (f x).
Proof. rewrite !Forall_forall. intros Hl Hx s Hs. apply Hl, list_elem_of_bind. eauto. Qed.

Lemma payload_writable p v : payload_value p = Some v -> Forall is_text (payload_strings p) -> writable 0 v.
Proof.
  destruct p; cbn [payload_value payload_strings]; intros E Hs; try (injection E as <-).
  - split_strings. object_fields.
  - split_strings. object_fields.
  - split_strings. object_fields. object_fields.
  - split_strings. object_fields.
  - apply fmap_Some in E as (l & E & ->). apply writable_arr; [done|]. apply Forall_forall. intros v' Hv.
    apply mapM_Some in E. apply list_elem_of_lookup in Hv as [i Hv]. destruct (Forall2_lookup_r _ _ _ _ _ E Hv) as (ev & Hev%list_elem_of_lookup_2 & Ev). apply (audit_writable 1 ev); [done| |done].
    by eapply bind_strings.
  - by apply job_writable.
  - apply array_writable; [done|]. intros j Hj. apply job_writable; [done|]. by eapply bind_strings.
  - apply array_writable; [done|]. intros e He. apply event_writable; [done|]. by eapply bind_strings.
  - destruct r as [version [a|]].
    + cbn [HB_Job] in Hs. split_strings.
      change (writable 0 (object [("protocol_version", int version);
        ("job", object [("job_id", str (JA_JobID a)); ("attempt", int (JA_Attempt a)); ("action", str (JA_Action a))])])).
      object_fields. object_fields.
    + change (writable 0 (object [("protocol_version", int version)])). object_fields.
  - done.
Qed.

Lemma reply_text_value p v : payload_value p = Some v -> reply_text p = encoded v.
Proof. intros E. unfold reply_text. by destruct p; rewrite ?E. Qed.

(** A reply is UTF-8 text that holds one JSON document and a newline: a reader
    finds in it the value the handler passed to [writeJSON], whatever
    characters the strings in it have. *)
Theorem reply_read_back p v :
  payload_value p = Some v -> Forall is_text (payload_strings p) ->
  decode_value (bytes_of (reply_text p)) = Some (v, [byte_of 10]) /\ utf8_ValidString (reply_text p) = true.
Proof.
  intros E Hs. pose proof (payload_writable p v E Hs) as Hw.
  rewrite (reply_text_value p v E). unfold encoded. rewrite bytes_of_string_of. split; [by apply value_written_is_read|].
  apply text_app; [|done]. by apply (print_text compact 0 0).
Qed.
End replies.
