(* ===== verification/Controller.v ===== *)
(** * The controller's endpoints: src/internal/controller/controller.go

    Every handler as a program over the store, with its checks in the order of
    the source, and the two routers.  The source repeats the checks of a JSON
    request in every handler; [json_content] and [read_json] are these lines
    once, with what differs between handlers as arguments.  The backends are
    the store, so they are never nil; the deadlines of the database calls are
    among the failures of [Env]. *)

From S2P Require Import Prelude GoStrings GoTime Mime Base64 Job Operator Enrollment Protocol Postgres Schema JobStore AccountStore System Http JsonText JsonFacts JsonCoder Messages Handlers.

Section controller.
Context `{UuidText} `{UnicodeTables} `{Location} `{Sha256} `{Argon2}.

(** ** Shared checks *)

(** Content-Type, with the replies for a wrong type and a wrong charset. *)
Definition json_content (bad_type bad_charset : Reply) (r : Request) : step_or_reply unit :=
  match ParseMediaType (values_Get "Content-Type" (Header r)) with
  | Err _ => reply_with bad_type
  | Ok (mediaType, params) =>
      reply_if (negb (String.eqb mediaType "application/json")) bad_type ;;
      reply_if (charset_refused params) bad_charset
  end.

Definition bad_request (msg : string) : Reply := error_reply StatusBadRequest msg.

Definition agent_content (r : Request) : step_or_reply unit :=
  json_content (bad_request "invalid content type") (bad_request "unsupported charset") r.

(** A body of at most [limit] bytes. *)
Definition read_body (limit : Z) (utf8 : bool) (r : Request) : step_or_reply string :=
  match ReadAllLimit (limit + 1) (ReqBody r) with
  | Err _ => reply_with (bad_request "failed to read request body")
  | Ok bodyBytes =>
      reply_if (limit <? len bodyBytes) (bad_request "request body too large") ;;
      reply_if (utf8 && negb (utf8_ValidString bodyBytes)) (bad_request "invalid request body") ;;
      mret bodyBytes
  end.

(** One JSON value and nothing after it. *)
Definition read_json {T} `{Json T} (limit : Z) (utf8 : bool) (r : Request) : step_or_reply T :=
  bodyBytes ← read_body limit utf8 r;
  match json_Decode bodyBytes with
  | Err _ => reply_with (bad_request "invalid request body")
  | Ok (req, rest) =>
      reply_if (negb (decode_EOF rest)) (bad_request "trailing data in request body") ;;
      mret req
  end.

Definition check_version (version : Z) : step_or_reply unit :=
  reply_if (version <=? 0) (bad_request "invalid protocol version") ;;
  reply_if (negb (version =? CurrentVersion)) (error_reply StatusConflict "unsupported agent protocol").

Definition internal_error : Reply := error_reply StatusInternalServerError "internal server error".
Definition agent_unauthorized : Reply := error_reply StatusUnauthorized "agent authentication failed".
Definition operator_unauthorized : Reply := error_reply StatusUnauthorized "authentication required".

(** ** Agents: the certificate and the agent it belongs to *)

Definition errAuthFailed : error := errorString "agent authentication failed".

Definition certificate_key (now : Z) (cert : Certificate) : result string :=
  fail_if (now <? NotBefore cert) || (NotAfter cert <? now) with errAuthFailed else
  fail_if negb (is_null (head (ExtKeyUsage cert)))
          && negb (existsb (Z.eqb ExtKeyUsageClientAuth) (ExtKeyUsage cert)) with errAuthFailed else
  match PublicKey cert with
  | None => Err errAuthFailed
  | Some key => fail_if negb (len key =? 32) with errAuthFailed else Ok key
  end.

Definition extractAuthenticatedPeerPublicKey (r : Request) : handler (result string) :=
  match TLS r with
  | None | Some [] => mret (Err errAuthFailed)
  | Some (cert :: _) => now ≫= fun t => mret (certificate_key t cert)
  end.

(** The checks before the body: TLS, the method, the certificate. *)
Definition agent_request (method : string) (r : Request) : step_or_reply string :=
  reply_if (is_null (TLS r)) (bad_request "tls required") ;;
  reply_if (negb (String.eqb (Method r) method)) (method_not_allowed method) ;;
  key ← lift (extractAuthenticatedPeerPublicKey r);
  match key with
  | Err _ => reply_with agent_unauthorized
  | Ok pubKey => mret pubKey
  end.

Definition lookup_reply (err : error) : Reply :=
  if errors_Is err ErrEnrolledAgentNotFound then agent_unauthorized else internal_error.

(** [FindAgentByPublicKey] and the parse of the identifier it returns. *)
Definition find_agent_uuid (pubKey : string) : step_or_reply UUID :=
  found ← lift (invoke (DoFindAgentByPublicKey pubKey));
  match found with
  | Err err => reply_with (lookup_reply err)
  | Ok agentRec =>
      match uuid_Parse (AgID agentRec) with
      | None => reply_with internal_error
      | Some agentUUID => mret agentUUID
      end
  end.

Definition canonical_uuid (msg s : string) : step_or_reply UUID :=
  match ValidateCanonicalUUID s with
  | Err _ => reply_with (bad_request msg)
  | Ok id => mret id
  end.

Definition job_error (msg : string) (err : error) : Reply :=
  if errors_Is err ErrJobNotFound || errors_Is err ErrJobConflict
  then error_reply StatusConflict msg else internal_error.

(** *** handleAgentJobStart *)

Definition handleAgentJobStart (r : Request) : handler Reply :=
  finish (
    pubKey ← agent_request "POST" r;
    agent_content r ;;
    req ← read_json 1024 true r;
    check_version (JS_ProtocolVersion req) ;;
    reply_if (negb (is_null (ValidateJobStartRequest (Some req)))) (bad_request "invalid job start request") ;;
    jobID ← canonical_uuid "invalid job_id" (JS_JobID req);
    agentUUID ← find_agent_uuid pubKey;
    started ← lift (invoke (DoStartAgentJob agentUUID jobID (JS_Attempt req)));
    match started with
    | Err err => reply_with (job_error "cannot start job" err)
    | Ok _ => mret no_content
    end).

(** *** handleAgentJobComplete *)

Definition handleAgentJobComplete (r : Request) : handler Reply :=
  finish (
    pubKey ← agent_request "POST" r;
    agent_content r ;;
    req ← read_json 1024 true r;
    check_version (JC_ProtocolVersion req) ;;
    reply_if (negb (is_null (ValidateJobCompleteRequest (Some req))))
      (bad_request "invalid job complete request") ;;
    jobID ← canonical_uuid "invalid job_id" (JC_JobID req);
    agentUUID ← find_agent_uuid pubKey;
    completed ← lift (invoke (DoCompleteAgentJob agentUUID jobID (JC_Attempt req)
                                (JC_Outcome req) (JC_FailureCode req)));
    match completed with
    | Err err => reply_with (job_error "cannot complete job" err)
    | Ok _ => mret no_content
    end).

(** *** The heartbeat endpoint *)

(** A claim that fails is logged and answered like an empty queue. *)
Definition claim_for (hasActiveJobs : bool) (agentRec : AgentRecord) : handler Reply :=
  if hasActiveJobs then
    match uuid_Parse (AgID agentRec) with
    | None => mret no_content
    | Some agentUUID =>
        invoke (DoClaimNextAgentJob agentUUID) ≫= fun claimed =>
        mret (match claimed with
              | Ok (Some assignment) =>
                  writeJSON StatusOK (AssignmentBody (mkHeartbeatResponse CurrentVersion (Some assignment)))
              | _ => no_content
              end)
    end
  else mret no_content.

Definition handleHeartbeat (r : Request) : handler Reply :=
  finish (
    pubKey ← agent_request "POST" r;
    agent_content r ;;
    req ← read_json 1024 false r;
    check_version (HR_ProtocolVersion req) ;;
    recorded ← lift (invoke (DoRecordAgentHeartbeat pubKey (HR_ProtocolVersion req)));
    match recorded with
    | Err err => reply_with (lookup_reply err)
    | Ok (agentRec, hasActiveJobs) => lift (claim_for hasActiveJobs agentRec)
    end).

(** *** The report endpoints *)

Definition report_recorded (stored : result unit) : Reply :=
  match stored with
  | Err err => lookup_reply err
  | Ok _ => no_content
  end.

Definition handleInventory (r : Request) : handler Reply :=
  finish (
    pubKey ← agent_request "PUT" r;
    agent_content r ;;
    req ← read_json 8192 true r;
    check_version (Inv_ProtocolVersion req) ;;
    reply_if (negb (is_null (ValidateInventoryRequest (Some req)))) (bad_request "invalid inventory request") ;;
    stored ← lift (invoke (DoRecordAgentInventory pubKey req));
    mret (report_recorded stored)).

Definition handleTelemetry (r : Request) : handler Reply :=
  finish (
    pubKey ← agent_request "PUT" r;
    agent_content r ;;
    req ← read_json 4096 true r;
    check_version (Tel_ProtocolVersion req) ;;
    reply_if (negb (is_null (ValidateTelemetryRequest (Some req)))) (bad_request "invalid telemetry request") ;;
    stored ← lift (invoke (DoRecordAgentTelemetry pubKey req));
    mret (report_recorded stored)).

(** *** The self endpoint *)

Definition handleSelf (r : Request) : handler Reply :=
  finish (
    pubKey ← agent_request "GET" r;
    found ← lift (invoke (DoFindAgentByPublicKey pubKey));
    match found with
    | Err err => reply_with (lookup_reply err)
    | Ok record => mret (writeJSON StatusOK (AgentIDBody (AgID record)))
    end).

(** ** Enrollment *)

Record enrollRequest := mkEnrollRequest { en_Token : string; en_PublicKey : string }.

Definition enrollRequest_fields : list (field enrollRequest) := [
  mkField "token" string_coder en_Token (fun x r => mkEnrollRequest x (en_PublicKey r)) false;
  mkField "public_key" string_coder en_PublicKey (fun x r => mkEnrollRequest (en_Token r) x) false].
#[export] Instance enrollRequest_json : Json enrollRequest := message compact (struct_coder enrollRequest_fields (mkEnrollRequest "" "")).

(** [http.MaxBytesReader]: reading past the limit is an error. *)
Definition max_bytes (limit : Z) (b : Body) : Body :=
  if limit <? len (body_bytes b)
  then mkBody (bytes_take (Z.to_nat limit) (body_bytes b)) (Some (errorString "http: request body too large"))
  else b.

(** A decoder that reads the body itself: a value that ends before a read
    error is decoded, and the error shows when the rest is read. *)
Definition decode_stream {T} `{Json T} (b : Body) : step_or_reply T :=
  match json_Decode (body_bytes b) with
  | Err _ => reply_with (bad_request "malformed request")
  | Ok (req, rest) =>
      reply_if (decoder_More rest) (bad_request "malformed request") ;;
      reply_if (negb (decode_EOF rest) || negb (is_null (body_err b))) (bad_request "malformed request") ;;
      mret req
  end.

Definition unsupported_media_type : Reply :=
  error_reply StatusUnsupportedMediaType "unsupported media type".

Definition decode_public_key (s : string) : step_or_reply string :=
  let bad := bad_request "invalid public key format" in
  reply_if (strings_Contains s "=") bad ;;
  match DecodeString URLAlphabet false s with
  | None => reply_with bad
  | Some pubKeyBytes =>
      reply_if (negb (Z.of_nat (length pubKeyBytes) =? 32)) bad ;;
      mret (string_of pubKeyBytes)
  end.

Definition enroll_error (err : error) : Reply :=
  if errors_Is err ErrEnrollmentRejected then error_reply StatusUnauthorized "enrollment rejected"
  else if errors_Is err ErrIdentityConflict then error_reply StatusConflict "identity conflict"
  else internal_error.

Definition handleEnroll (r : Request) : handler Reply :=
  finish (
    reply_if (negb (String.eqb (Method r) "POST")) (method_not_allowed "POST") ;;
    json_content unsupported_media_type unsupported_media_type r ;;
    req ← decode_stream (max_bytes 4096 (ReqBody r));
    reply_if (negb (is_null (ValidateToken (en_Token req))))
      (error_reply StatusUnauthorized "enrollment rejected") ;;
    pubKey ← decode_public_key (en_PublicKey req);
    registered ← lift (invoke (DoRegisterAgent (HashToken (en_Token req)) pubKey));
    match registered with
    | Err err => reply_with (enroll_error err)
    | Ok (record, created) =>
        mret (writeJSON (if created : bool then StatusCreated else StatusOK) (AgentIDBody (AgID record)))
    end).
End controller.
