(* ===== verification/ControllerOps.v ===== *)
(** * The operators' endpoints and the routers (src/internal/controller/controller.go)

    Login, sessions, audit and jobs for operators, and the two request
    multiplexers: [newHandler] listens locally, [newRemoteHandler] serves
    agents over TLS.  The loop over the query parameters is a loop over a Go
    map: which of two bad parameters is reported is not determined there; the
    model takes them in the order of the list. *)

From S2P Require Import Prelude GoStrings GoTime Base64 Job Operator Enrollment Protocol Postgres Schema JobStore AccountStore System Http JsonText JsonFacts JsonCoder Messages Handlers Controller.

Section operators.
Context `{UuidText} `{UnicodeTables} `{Location} `{Sha256} `{Argon2}.

(** ** handleOperatorLogin *)

Record loginRequest := mkLoginRequest { lr_Username : string; lr_Password : string }.

Definition login_fields : list (field loginRequest) := [
  mkField "username" string_coder lr_Username (fun x r => mkLoginRequest x (lr_Password r)) false;
  mkField "password" string_coder lr_Password (fun x r => mkLoginRequest (lr_Username r) x) false].
#[export] Instance login_json : Json loginRequest := message compact (struct_coder login_fields (mkLoginRequest "" "")).

Definition read_login (r : Request) : step_or_reply loginRequest :=
  match ReadAllLimit 1025 (ReqBody r) with
  | Err _ => reply_with (bad_request "failed to read request body")
  | Ok bodyBytes =>
      reply_if (len bodyBytes =? 0) (bad_request "empty request body") ;;
      reply_if (1024 <? len bodyBytes) (bad_request "request body too large") ;;
      reply_if (negb (utf8_ValidString bodyBytes)) (bad_request "invalid request body") ;;
      match json_Decode bodyBytes with
      | Err _ => reply_with (bad_request "malformed request")
      | Ok (req, rest) =>
          reply_if (decoder_More rest || negb (decode_EOF rest))
            (bad_request "trailing data in request body") ;;
          mret req
      end
  end.

Definition invalid_credentials : Reply := error_reply StatusUnauthorized "invalid credentials".

(** The part that runs while the caller holds a slot. *)
Definition login_with_slot (req : loginRequest) : step_or_reply Reply :=
  found ← lift (invoke (DoGetOperatorByUsername (NormalizeUsername (lr_Username req))));
  match found with
  | Err err => reply_with (if errors_Is err ErrOperatorNotFound then invalid_credentials else internal_error)
  | Ok op =>
      reply_if (negb (is_null (VerifyPassword (OpPasswordHash op) (lr_Password req)))
                || negb (is_null (OpDisabledAt op))) invalid_credentials ;;
      b ← lift entropy;
      match GenerateSessionToken b with
      | Err _ => reply_with internal_error
      | Ok rawToken =>
          created ← lift (invoke (DoCreateOperatorSession (OpID op) (HashSessionToken rawToken)));
          match created with
          | Err err =>
              reply_with (if errors_Is err ErrAuthenticationFailed then invalid_credentials else internal_error)
          | Ok sessionRec =>
              mret (writeJSON StatusOK (LoginBody rawToken (RFC3339Nano (SessExpiresAt sessionRec))
                                          (OpID op) (OpUsername op) (OpRole op)))
          end
      end
  end.

Definition too_many_requests (after msg : string) : Reply :=
  with_header "Retry-After" after (error_reply StatusTooManyRequests msg).

Definition handleOperatorLogin (r : Request) : handler Reply :=
  finish (
    reply_if (negb (String.eqb (Method r) "POST")) (method_not_allowed "POST") ;;
    json_content unsupported_media_type unsupported_media_type r ;;
    req ← read_login r;
    ok ← lift acquire_slot;
    reply_if (negb ok) (too_many_requests "1" "too many requests") ;;
    reply ← lift (finish (login_with_slot req));
    lift release_slot ;;
    mret reply).

(** ** authenticateOperator *)

(** The token of an [Authorization: Bearer] header. *)
Definition bearer_token (r : Request) : option string :=
  match cut_byte (bytes_of (values_Get "Authorization" (Header r))) " "%char with
  | Some (scheme, token) =>
      if String.eqb (string_of scheme) "Bearer" && negb (is_null (head token))
      then Some (string_of token) else None
  | None => None
  end.

Definition authenticateOperator (r : Request) : step_or_reply Principal :=
  match bearer_token r with
  | None => reply_with operator_unauthorized
  | Some rawToken =>
      reply_if (negb (is_null (ValidateSessionToken rawToken))) operator_unauthorized ;;
      found ← lift (invoke (DoFindOperatorSession (HashSessionToken rawToken)));
      match found with
      | Err err =>
          reply_with (if errors_Is err ErrAuthenticationFailed then operator_unauthorized else internal_error)
      | Ok principal =>
          reply_if (negb (Role_Valid (PrRole principal))) operator_unauthorized ;;
          mret principal
      end
  end.

Definition forbidden : Reply := error_reply StatusForbidden "forbidden".

Definition require_permission (p : Principal) (perm : Permission) : step_or_reply unit :=
  reply_if (negb (HasPermission (PrRole p) perm)) forbidden.

Definition require_method (method : string) (r : Request) : step_or_reply unit :=
  reply_if (negb (String.eqb (Method r) method)) (method_not_allowed method).

(** ** Sessions and audit *)

Definition handleOperatorMe (r : Request) : handler Reply :=
  finish (
    require_method "GET" r ;;
    p ← authenticateOperator r;
    mret (writeJSON StatusOK (MeBody (PrOperatorID p) (PrUsername p) (PrRole p) (RFC3339Nano (PrExpiresAt p))))).

Definition handleOperatorLogout (r : Request) : handler Reply :=
  finish (
    require_method "POST" r ;;
    p ← authenticateOperator r;
    revoked ← lift (invoke (DoRevokeOperatorSession (PrSessionID p) (PrOperatorID p) (PrUsername p)));
    match revoked with
    | Err err => reply_with (if errors_Is err ErrSessionNotFound then operator_unauthorized else internal_error)
    | Ok _ => mret no_content
    end).

(** The [limit] parameter: 1 to 200, 100 when absent. *)
Definition query_limit (msg : string) (r : Request) : step_or_reply Z :=
  if Query_Has "limit" (Query r) then
    match strconv_Atoi (values_Get "limit" (Query r)) with
    | inr _ => reply_with (bad_request msg)
    | inl limit =>
        reply_if ((limit <? 1) || (200 <? limit)) (bad_request msg) ;;
        mret limit
    end
  else mret 100.

Definition handleOperatorAudit (r : Request) : handler Reply :=
  finish (
    require_method "GET" r ;;
    p ← authenticateOperator r;
    require_permission p PermissionAuditRead ;;
    reply_if (existsb (fun kv => negb (String.eqb kv.1 "limit")) (Query r))
      (bad_request "unknown query parameter") ;;
    limit ← query_limit "invalid limit query parameter (must be 1..200)" r;
    listed ← lift (invoke (DoRecordAndListAuditEvents (PrOperatorID p) (PrUsername p) limit));
    match listed with
    | Err _ => reply_with internal_error
    | Ok events => mret (writeJSON StatusOK (AuditBody events))
    end).

(** ** Jobs *)

Definition formatJobResponse (j : Job) : jobHTTPResponse :=
  mkJobHTTPResponse (uuid_String (ID j)) (uuid_String (AgentID j)) (ActionType j) (JobState j) (Attempt j)
    (CreatedByUsername j) (JobFailureCode j) (RFC3339Nano (CreatedAt j)) (RFC3339Nano (UpdatedAt j))
    (RFC3339Nano <$> StartedAt j) (RFC3339Nano <$> FinishedAt j).

Definition formatJobEventResponse (e : JobEvent) : jobEventHTTPResponse :=
  mkJobEventHTTPResponse (uuid_String (EventID e)) (EventType e) (EventAttempt e) (ActorType e)
    (ActorIdentifier e) (EventFailureCode e) (RFC3339Nano (OccurredAt e)).

Record createJobRequest := mkCreateJobRequest { cr_AgentID : string; cr_Action : string }.

Definition create_job_fields : list (field createJobRequest) := [
  mkField "agent_id" string_coder cr_AgentID (fun x r => mkCreateJobRequest x (cr_Action r)) false;
  mkField "action" string_coder cr_Action (fun x r => mkCreateJobRequest (cr_AgentID r) x) false].
#[export] Instance create_job_json : Json createJobRequest := message compact (struct_coder create_job_fields (mkCreateJobRequest "" "")).

Definition create_error (err : error) : Reply :=
  if errors_Is err ErrOperatorAuthRequired then operator_unauthorized
  else if errors_Is err ErrPermissionDenied then forbidden
  else if errors_Is err ErrAgentNotFound then error_reply StatusNotFound "agent not found"
  else if errors_Is err ErrJobIdempotencyConflict then error_reply StatusConflict "idempotency key conflict"
  else if errors_Is err ErrQueueFull then too_many_requests "5" "agent job queue full"
  else internal_error.

Definition idempotency_key (r : Request) : step_or_reply string :=
  match lookup_values "Idempotency-Key" (Header r) with
  | Some [key] =>
      reply_if (negb (is_null (ValidateIdempotencyKey key))) (bad_request "invalid Idempotency-Key header") ;;
      mret key
  | _ => reply_with (bad_request "missing or invalid Idempotency-Key header")
  end.

Definition handleOperatorCreateJob (r : Request) (p : Principal) : step_or_reply Reply :=
  require_permission p PermissionOperationsExecute ;;
  key ← idempotency_key r;
  agent_content r ;;
  req ← read_json 1024 true r;
  agentUUID ← canonical_uuid "invalid agent_id" (cr_AgentID req);
  reply_if (negb (is_null (ValidateAction (cr_Action req)))) (bad_request "invalid action") ;;
  match uuid_Parse (PrOperatorID p) with
  | None => reply_with internal_error
  | Some opUUID =>
      created ← lift (invoke (DoCreateJob opUUID agentUUID (cr_Action req) (HashIdempotencyKey key)));
      match created with
      | Err err => reply_with (create_error err)
      | Ok (j, isNew) =>
          mret (writeJSON (if isNew : bool then StatusCreated else StatusOK) (JobBody (formatJobResponse j)))
      end
  end.

(** Unknown and repeated parameters are refused. *)
Fixpoint check_query (known : list string) (q : list (string * list string)) : step_or_reply unit :=
  match q with
  | [] => mret tt
  | (k, vals) :: q' =>
      reply_if (negb (existsb (String.eqb k) known)) (bad_request "unknown query parameter") ;;
      reply_if (1 <? Z.of_nat (length vals)) (bad_request "repeated query parameter") ;;
      check_query known q'
  end.

Definition agent_filter (r : Request) : step_or_reply (option UUID) :=
  if Query_Has "agent_id" (Query r) then
    parsed ← canonical_uuid "invalid agent_id parameter" (values_Get "agent_id" (Query r));
    mret (Some parsed)
  else mret None.

Definition state_filter (r : Request) : step_or_reply (option string) :=
  if Query_Has "state" (Query r) then
    let st := values_Get "state" (Query r) in
    reply_if (negb (State_Valid st)) (bad_request "invalid state parameter") ;;
    mret (Some st)
  else mret None.

Definition handleOperatorListJobs (r : Request) (p : Principal) : step_or_reply Reply :=
  require_permission p PermissionJobsRead ;;
  check_query ["limit"; "agent_id"; "state"] (Query r) ;;
  limit ← query_limit "invalid limit parameter" r;
  agentIDFilter ← agent_filter r;
  stateFilter ← state_filter r;
  listed ← lift (invoke (DoListJobs limit agentIDFilter stateFilter));
  match listed with
  | Err _ => reply_with internal_error
  | Ok jobs => mret (writeJSON StatusOK (JobsBody (formatJobResponse <$> jobs)))
  end.

Definition not_found_or_internal (err : error) : Reply :=
  if errors_Is err ErrJobNotFound then error_reply StatusNotFound "job not found" else internal_error.

Definition handleOperatorGetJobByID (r : Request) (jobIDStr : string) (p : Principal) : step_or_reply Reply :=
  require_method "GET" r ;;
  require_permission p PermissionJobsRead ;;
  jobID ← canonical_uuid "invalid job_id" jobIDStr;
  got ← lift (invoke (DoGetJobByID jobID));
  match got with
  | Err err => reply_with (not_found_or_internal err)
  | Ok j => mret (writeJSON StatusOK (JobBody (formatJobResponse j)))
  end.

Definition handleOperatorJobEvents (r : Request) (jobIDStr : string) (p : Principal) : step_or_reply Reply :=
  require_method "GET" r ;;
  require_permission p PermissionJobsRead ;;
  jobID ← canonical_uuid "invalid job_id" jobIDStr;
  check_query ["limit"] (Query r) ;;
  limit ← query_limit "invalid limit parameter" r;
  listed ← lift (invoke (DoListJobEvents jobID limit));
  match listed with
  | Err err => reply_with (not_found_or_internal err)
  | Ok events => mret (writeJSON StatusOK (EventsBody (formatJobEventResponse <$> events)))
  end.

(** ** The routers *)

Definition status_only (code : Z) : Reply := mkReply code [] None.
Definition not_found : Reply := status_only StatusNotFound.

Definition handleHealthz (r : Request) : handler Reply :=
  finish (
    require_method "GET" r ;;
    mret (mkReply StatusOK [("Content-Type", "text/plain")] (Some (TextBody "OK")))).

Definition handleReadyz (r : Request) : handler Reply :=
  finish (
    require_method "GET" r ;;
    ok ← lift ping;
    mret (if ok : bool then mkReply StatusOK [("Content-Type", "text/plain")] (Some (TextBody "OK"))
          else mkReply StatusServiceUnavailable [("Content-Type", "text/plain")] (Some (TextBody "NOT READY")))).

(** /api/v1/operator/jobs *)
Definition handle_jobs (r : Request) : handler Reply :=
  finish (
    p ← authenticateOperator r;
    if String.eqb (Method r) "POST" then handleOperatorCreateJob r p
    else if String.eqb (Method r) "GET" then handleOperatorListJobs r p
    else mret (method_not_allowed "GET, POST")).

Definition jobs_path : string := "/api/v1/operator/jobs/".

(** /api/v1/operator/jobs/... *)
Definition handle_job (r : Request) : handler Reply :=
  finish (
    let trimmed := strings_TrimPrefix (Path r) jobs_path in
    reply_if (String.eqb trimmed "") not_found ;;
    require_method "GET" r ;;
    p ← authenticateOperator r;
    if strings_HasSuffix trimmed "/events" then
      let jobIDStr := strings_TrimSuffix trimmed "/events" in
      reply_if (strings_Contains jobIDStr "/") not_found ;;
      handleOperatorJobEvents r jobIDStr p
    else
      reply_if (strings_Contains trimmed "/") not_found ;;
      handleOperatorGetJobByID r trimmed p).


Definition newHandler (r : Request) : handler Reply :=
  let path := Path r in
  if String.eqb path "/healthz" then handleHealthz r
  else if String.eqb path "/readyz" then handleReadyz r
  else if String.eqb path "/api/v1/agent/enroll" then handleEnroll r
  else if String.eqb path "/api/v1/operator/login" then handleOperatorLogin r
  else if String.eqb path "/api/v1/operator/me" then handleOperatorMe r
  else if String.eqb path "/api/v1/operator/logout" then handleOperatorLogout r
  else if String.eqb path "/api/v1/operator/audit" then handleOperatorAudit r
  else if String.eqb path "/api/v1/operator/jobs" then handle_jobs r
  else if strings_HasPrefix path jobs_path then handle_job r
  else mret not_found.

Definition enroll_over_tls (r : Request) : handler Reply :=
  if is_null (TLS r) then mret (bad_request "tls required") else handleEnroll r.

Definition newRemoteHandler (r : Request) : handler Reply :=
  let path := Path r in
  if String.eqb path "/api/v1/agent/enroll" then enroll_over_tls r
  else if String.eqb path "/api/v1/agent/self" then handleSelf r
  else if String.eqb path HeartbeatEndpointPath then handleHeartbeat r
  else if String.eqb path InventoryEndpointPath then handleInventory r
  else if String.eqb path TelemetryEndpointPath then handleTelemetry r
  else if String.eqb path AgentJobStartEndpointPath then handleAgentJobStart r
  else if String.eqb path AgentJobCompleteEndpointPath then handleAgentJobComplete r
  else mret not_found.
End operators.
