(* ===== verification/ControllerSpec.v ===== *)
(** * Reasoning about handlers

    Weakest preconditions for steps of a handler that may end with a reply,
    and what the shared checks of the endpoints establish. *)

From S2P Require Import Prelude GoStrings GoTime Mime Base64 Job Operator Enrollment Protocol Postgres Schema JobStore JobSpec JobReconcile JobContracts AccountStore AccountContracts System Runs Http JsonText JsonFacts JsonCoder Messages Handlers Controller ControllerOps.

Definition refusal (rep : Reply) : Prop := 400 <= rep_Status rep.

Section rules.
Context `{UuidTextLaws} `{UnicodeTables} (o : Oracle).

(** From [c] the step goes on with a value and state in [Q], or ends the
    handler with a reply and state in [E]. *)
Definition swp {A} (m : step_or_reply A) (Q : A -> Ctl -> Prop) (E : Reply -> Ctl -> Prop) (c : Ctl) : Prop :=
  match serve o m c with
  | (inr a, c') => Q a c'
  | (inl rep, c') => E rep c'
  end.

Lemma swp_ret {A} (a : A) Q E c : Q a c -> swp (mret a) Q E c.
Proof. done. Qed.

Lemma swp_reply {A} rep (Q : A -> Ctl -> Prop) (E : Reply -> Ctl -> Prop) c :
  E rep c -> swp (reply_with rep) Q E c.
Proof. done. Qed.

Lemma swp_bind {A B} (m : step_or_reply A) (f : A -> step_or_reply B) Q E c :
  swp m (fun a => swp (f a) Q E) E c -> swp (m ≫= f) Q E c.
Proof.
  unfold swp at 1 3, mbind, step_bind. rewrite serve_bind.
  destruct (serve o m c) as [[rep|a] c']; [done|]. by unfold swp.
Qed.

Lemma swp_reply_if b rep (Q : unit -> Ctl -> Prop) (E : Reply -> Ctl -> Prop) c :
  (b = true -> E rep c) -> (b = false -> Q tt c) -> swp (reply_if b rep) Q E c.
Proof. unfold reply_if. destruct b; intros Hy Hn; [by apply swp_reply, Hy|by apply swp_ret, Hn]. Qed.

Lemma swp_lift {A} (m : handler A) (Q : A -> Ctl -> Prop) E c :
  Q (serve o m c).1 (serve o m c).2 -> swp (lift m) Q E c.
Proof. unfold swp, lift. rewrite serve_bind. by destruct (serve o m c) as [a c']. Qed.

(** A method of the store runs on tables other calls may have changed. *)
Lemma swp_invoke {A} (m : backend A) (Q : result A -> Ctl -> Prop) E c :
  (forall db e c', rtc called (ctl_db c) db -> ctl_db c' = tables_after (backend_method m) e db ->
     ctl_limiter c' = ctl_limiter c -> Q (result_of (backend_method m) e db) c') ->
  swp (lift (invoke m)) Q E c.
Proof. intros HQ. apply swp_lift. simpl. apply HQ; [apply interfere_called|done|done]. Qed.

(** The same with the tables and the environment the method meets. *)
Lemma swp_invoke_now {A} (m : backend A) (Q : result A -> Ctl -> Prop) E c :
  (forall c', Q (result_of (backend_method m) (oracle_env o (ctl_step c)) (interfere o c)) c') -> swp (lift (invoke m)) Q E c.
Proof. intros HQ. by apply swp_lift. Qed.

Lemma swp_mono {A} (m : step_or_reply A) (Q Q' : A -> Ctl -> Prop) (E E' : Reply -> Ctl -> Prop) c :
  swp m Q E c -> (forall a c', Q a c' -> Q' a c') -> (forall r c', E r c' -> E' r c') -> swp m Q' E' c.
Proof. unfold swp. destruct (serve o m c) as [[rep|a] c']; auto. Qed.

(** What the reply of a whole handler says. *)
Lemma swp_finish (m : step_or_reply Reply) (P : Reply -> Ctl -> Prop) c :
  swp m P P c -> P (serve o (finish m) c).1 (serve o (finish m) c).2.
Proof. unfold swp, finish. rewrite serve_bind. by destruct (serve o m c) as [[rep|rep] c']. Qed.
End rules.

(** One statement of a step. *)
Ltac hstep :=
  lazymatch goal with
  | |- swp _ (mret _) _ _ _ => apply swp_ret
  | |- swp _ (_ ≫= _) _ _ _ => apply swp_bind
  | |- swp _ (reply_with _) _ _ _ => apply swp_reply
  | |- swp _ (reply_if _ _) _ _ _ => apply swp_reply_if; intros ?
  | |- swp _ (lift (invoke _)) _ _ _ => apply swp_invoke; intros ? ? ? ? ? ?
  | |- swp _ (match ?x with _ => _ end) _ _ _ => destruct x eqn:?
  | |- swp _ (if ?x then _ else _) _ _ _ => destruct x eqn:?
  end.

(** ** The shared checks *)

Section checks.
Context `{UuidTextLaws} `{UnicodeTables} `{Location} `{Sha256} `{Argon2} (o : Oracle).
Implicit Types (E : Reply -> Ctl -> Prop) (c : Ctl).

(** The replies of every check are refusals. *)
Definition refuses E c : Prop := forall rep, refusal rep -> E rep c.

Ltac solve_refusal := unfold refusal; simpl; done.
Ltac refused := match goal with HE : refuses _ _ |- _ => apply HE; solve_refusal end.

Lemma swp_json_content t cs r (Q : unit -> Ctl -> Prop) E c :
  refusal t -> refusal cs -> refuses E c -> Q tt c -> swp o (json_content t cs r) Q E c.
Proof.
  intros Ht Hcs HE HQ. unfold json_content. destruct (ParseMediaType _) as [[mt ps]|]; [|by apply swp_reply, HE].
  apply swp_bind, swp_reply_if; intros _; [by apply HE|]. apply swp_reply_if; intros _; [by apply HE|done].
Qed.

Lemma swp_agent_content r (Q : unit -> Ctl -> Prop) E c :
  refuses E c -> Q tt c -> swp o (agent_content r) Q E c.
Proof. apply swp_json_content; solve_refusal. Qed.

Lemma ReadAllLimit_short n (b : Body) s :
  0 <= n -> ReadAllLimit (n + 1) b = Ok s -> len s <= n -> s = body_bytes b.
Proof.
  unfold ReadAllLimit. intros Hn. destruct (_ <=? _) eqn:E; [|by destruct (body_err b); intros [= <-]].
  intros [= <-] Hl. bsplit. exfalso. unfold len, bytes_take in *.
  rewrite string_length_of, length_take, length_bytes_of in Hl. lia.
Qed.

Lemma swp_read_body n u r (Q : string -> Ctl -> Prop) E c :
  0 <= n -> refuses E c -> Q (body_bytes (ReqBody r)) c -> swp o (read_body n u r) Q E c.
Proof.
  intros Hn HE HQ. unfold read_body. destruct (ReadAllLimit _ _) as [b|] eqn:Er; [|apply swp_reply; refused].
  apply swp_bind, swp_reply_if; intros Hl; [refused|].
  apply swp_bind, swp_reply_if; intros Hu; [refused|].
  apply swp_ret. bsplit. by rewrite (ReadAllLimit_short _ _ _ Hn Er).
Qed.

Lemma swp_read_json {T} `{Json T} n u r (Q : T -> Ctl -> Prop) E c :
  0 <= n -> refuses E c ->
  (forall req rest, json_Decode (body_bytes (ReqBody r)) = Ok (req, rest) -> Q req c) ->
  swp o (read_json n u r) Q E c.
Proof.
  intros Hn HE HQ. unfold read_json. apply swp_bind, swp_read_body; [done|done|].
  destruct (json_Decode _) as [[req rest]|] eqn:Ed; [|apply swp_reply; refused].
  apply swp_bind, swp_reply_if; intros Hr; [refused|]. apply swp_ret. by eapply HQ.
Qed.

Lemma swp_check_version v (Q : unit -> Ctl -> Prop) E c :
  refuses E c -> (v = CurrentVersion -> Q tt c) -> swp o (check_version v) Q E c.
Proof.
  intros HE HQ. unfold check_version. repeat hstep; try refused.
  apply HQ. by apply Z.eqb_eq, negb_false_iff.
Qed.

Lemma swp_canonical_uuid msg s (Q : UUID -> Ctl -> Prop) E c :
  refuses E c -> (forall id, ValidateCanonicalUUID s = Ok id -> Q id c) -> swp o (canonical_uuid msg s) Q E c.
Proof. intros HE HQ. unfold canonical_uuid. repeat hstep; [by apply HQ|refused]. Qed.

(** The clock read for the certificate moves other requests, not the reply. *)
Definition later c c' : Prop := rtc called (ctl_db c) (ctl_db c') /\ ctl_limiter c' = ctl_limiter c.

Lemma later_refl c : later c c.
Proof. by split. Qed.
Lemma later_trans c1 c2 c3 : later c1 c2 -> later c2 c3 -> later c1 c3.
Proof. intros [? ?] [? ?]. split; [by etrans|congruence]. Qed.

(** A certificate for client authentication, or for no purpose in particular. *)
Definition client_purpose (cert : Certificate) : Prop :=
  ExtKeyUsage cert = [] \/ ExtKeyUsageClientAuth ∈ ExtKeyUsage cert.

(** The request came over TLS with a certificate of this Ed25519 key, for
    clients, and valid by the clock as the controller reads it when it is asked
    in [c]. *)
Definition presented c r (pubKey : string) : Prop :=
  exists cert rest, TLS r = Some (cert :: rest) /\ PublicKey cert = Some pubKey /\ len pubKey = 32
    /\ NotBefore cert <= oracle_now o (ctl_step c) <= NotAfter cert /\ client_purpose cert.

Lemma certificate_key_ok t cert key :
  certificate_key t cert = Ok key ->
  PublicKey cert = Some key /\ len key = 32 /\ NotBefore cert <= t <= NotAfter cert /\ client_purpose cert.
Proof.
  unfold certificate_key, client_purpose. destruct (_ || _) eqn:E1; [done|]. destruct (_ && _) eqn:E2; [done|].
  destruct (PublicKey cert) as [k|]; [|done]. destruct (negb (len k =? 32)) eqn:E3; [done|].
  intros [= ->]. bsplit. split_and!; [done|done|lia..|].
  destruct (ExtKeyUsage cert) as [|u us]; [by left|right]. cbn [head is_null negb andb] in E2. apply negb_false_iff in E2.
  apply existsb_exists in E2 as (x & Hx%list_elem_of_In & ->%Z.eqb_eq). done.
Qed.

Lemma swp_agent_request method r (Q : string -> Ctl -> Prop) E c :
  (forall c', later c c' -> refuses E c') ->
  (forall pubKey c', presented c r pubKey -> later c c' -> Q pubKey c') ->
  swp o (agent_request method r) Q E c.
Proof.
  intros HE HQ. unfold agent_request. apply swp_bind, swp_reply_if; intros Ht; [apply (HE _ (later_refl c)); solve_refusal|].
  apply swp_bind, swp_reply_if; intros Hm; [apply (HE _ (later_refl c)); solve_refusal|].
  apply swp_bind, swp_lift. unfold extractAuthenticatedPeerPublicKey.
  destruct (TLS r) as [[|cert certs]|] eqn:Et; simpl.
  1,3: apply swp_reply, (HE _ (later_refl c)); solve_refusal.
  set (c' := mkCtl _ _ _).
  assert (later c c') as Hl by (split; [apply interfere_called|done]).
  destruct (certificate_key _ cert) as [key|] eqn:Ek; [|apply swp_reply, (HE _ Hl); solve_refusal].
  apply swp_ret, HQ; [|done]. apply certificate_key_ok in Ek as (Hk & Hlen & Hv & Hu). by exists cert, certs.
Qed.

(** The enrolled agent of a key. *)
Lemma find_agent_result k e db rec :
  result_of (FindAgentByPublicKey k) e db = Ok rec ->
  exists id a, find_agent k db = Some (id, a) /\ AgID rec = uuid_String id.
Proof.
  unfold result_of, FindAgentByPublicKey, mbind, M_bind, require_pool. destruct (env_pool e); [|done].
  unfold PoolQueryRow, or_fail, pool_stmt, mbind, M_bind, query_agent_key, row_or_none. simpl.
  destruct (env_fault e 0); [|done|]; destruct (find_agent k db) as [[id a]|]; simpl; try done.
  unfold refuse_if. destruct (negb _); [done|]. intros [= <-]. by exists id, a.
Qed.

Lemma swp_find_agent_uuid k (Q : UUID -> Ctl -> Prop) E c :
  (forall c', rtc called (ctl_db c) (ctl_db c') -> refuses E c') ->
  (forall db id a c', rtc called (ctl_db c) db -> find_agent k db = Some (id, a) ->
     rtc called db (ctl_db c') -> Q id c') ->
  swp o (find_agent_uuid k) Q E c.
Proof.
  intros HE HQ. unfold find_agent_uuid. apply swp_bind, swp_invoke. intros db e c' Hdb Hc' _.
  assert (rtc called db (ctl_db c')) as Hl.
  { apply rtc_once. exists (CallFindAgentByPublicKey k), e. by rewrite Hc'. }
  assert (refuses E c') as HEc by (apply HE; by etrans).
  destruct (result_of _ e db) as [rec|err] eqn:Er.
  - apply find_agent_result in Er as (id & a & Hf & Hid). rewrite Hid, uuid_parse_string.
    apply swp_ret. by eapply HQ.
  - apply swp_reply, HEc. unfold lookup_reply, refusal. by destruct (errors_Is _ _).
Qed.
End checks.
