(* ===== verification/ControllerTheorems.v ===== *)
(** * What the endpoints guarantee

    Theorems about replies: what a controller has checked and done when it
    answers with success, whatever else runs between its calls of the store. *)

From S2P Require Import Prelude GoStrings GoTime Mime Base64 Job Operator Enrollment Protocol Postgres Schema JobStore JobSpec JobReconcile JobContracts AccountStore AccountContracts System Runs Http JsonText JsonFacts JsonCoder Messages Handlers Controller ControllerOps ControllerSpec.

Section agents.
Context `{UuidTextLaws} `{UnicodeTables} `{Location} `{Sha256} `{Argon2} (o : Oracle).

(** A start that was granted on behalf of request [r]. *)
Definition grant_of (r : Request) (c c' : Ctl) : Prop :=
  exists pubKey id a db0 db1 e jobID req rest,
    presented o c r pubKey /\ rtc called (ctl_db c) db0 /\ find_agent pubKey db0 = Some (id, a)
    /\ rtc called db0 db1
    /\ json_Decode (body_bytes (ReqBody r)) = Ok (req, rest) /\ ValidateCanonicalUUID (JS_JobID req) = Ok jobID
    /\ result_of (StartAgentJob id jobID (JS_Attempt req)) e db1 = Ok tt
    /\ ctl_db c' = tables_after (StartAgentJob id jobID (JS_Attempt req)) e db1.

Lemma start_reply r c :
  rep_Status (serve o (handleAgentJobStart r) c).1 = StatusNoContent ->
  grant_of r c (serve o (handleAgentJobStart r) c).2.
Proof.
  apply (swp_finish o _ (fun rep c' => rep_Status rep = StatusNoContent -> grant_of r c c')).
  assert (forall c', refuses (fun rep c' => rep_Status rep = StatusNoContent -> grant_of r c c') c') as HE
    by (intros c' rep Hr Hs; unfold refusal, StatusNoContent in *; lia).
  apply swp_bind, swp_agent_request; [auto|]. intros pubKey c1 Hp [Hc1 _].
  apply swp_bind, swp_agent_content; [auto|].
  apply swp_bind, swp_read_json; [done|auto|]. intros req rest Hd.
  apply swp_bind, swp_check_version; [auto|]. intros _.
  apply swp_bind, swp_reply_if; intros Hv; [by apply HE|].
  apply swp_bind, swp_canonical_uuid; [auto|]. intros jobID Hj.
  apply swp_bind, swp_find_agent_uuid; [auto|]. intros db0 id a c2 Hdb0 Hf Hc2.
  apply swp_bind, swp_invoke. intros db1 e c3 Hdb1 Hc3 _.
  destruct (result_of _ e db1) as [[]|err] eqn:Er; [apply swp_ret|apply swp_reply].
  - intros _. exists pubKey, id, a, db0, db1, e, jobID, req, rest.
    repeat split; try done; by etrans.
  - apply HE. unfold job_error, refusal. by destruct (_ || _).
Qed.

(** C17: when the controller answers a start request with 204, the request came
    over TLS with a certificate of an enrolled agent's Ed25519 key, for client
    authentication and valid by the controller's clock, and the store granted
    the start of the job and attempt in its body to that agent. *)
Theorem start_204_granted r c :
  rep_Status (serve o (handleAgentJobStart r) c).1 = StatusNoContent ->
  grant_of r c (serve o (handleAgentJobStart r) c).2.
Proof. apply start_reply. Qed.
End agents.

(** ** Operators *)

Section operators.
Context `{UuidTextLaws} `{UnicodeTables} `{Location} `{Sha256} `{Argon2} (o : Oracle).

Definition success (rep : Reply) : Prop := 200 <= rep_Status rep < 300.

(** When the store is asked for it in [c], it finds a session of the request's
    token, of an operator with the permission. *)
Definition authorised (r : Request) (perm : option Permission) (c : Ctl) : Prop :=
  exists token p,
    bearer_token r = Some token /\ ValidateSessionToken token = None
    /\ result_of (FindOperatorSessionByTokenHash (HashSessionToken token)) (oracle_env o (ctl_step c)) (interfere o c) = Ok p
    /\ Role_Valid (PrRole p) = true
    /\ match perm with Some q => HasPermission (PrRole p) q = true | None => True end.

(** The permission an operators' endpoint asks for. *)
Definition jobs_permission (r : Request) : Permission :=
  if String.eqb (Method r) "POST" then PermissionOperationsExecute else PermissionJobsRead.

Definition required_permission (r : Request) : option (option Permission) :=
  let path := Path r in
  if String.eqb path "/api/v1/operator/me" || String.eqb path "/api/v1/operator/logout" then Some None
  else if String.eqb path "/api/v1/operator/audit" then Some (Some PermissionAuditRead)
  else if String.eqb path "/api/v1/operator/jobs" then
    Some (Some (jobs_permission r))
  else if strings_HasPrefix path jobs_path then Some (Some PermissionJobsRead)
  else None.

(** Success only with authorisation, as a postcondition. *)
Definition only_authorised r perm c (rep : Reply) (c' : Ctl) : Prop := success rep -> authorised r perm c.

Lemma only_authorised_refuses r perm c c' : refuses (only_authorised r perm c) c'.
Proof. intros rep Hr Hs. unfold refusal, success in *. lia. Qed.

Lemma finish_authorised m r perm c0 c :
  swp o m (only_authorised r perm c0) (only_authorised r perm c0) c ->
  only_authorised r perm c0 (serve o (finish m) c).1 (serve o (finish m) c).2.
Proof. apply (swp_finish o m (only_authorised r perm c0)). Qed.

(** A step after which everything is authorised. *)
Lemma swp_authorised {A} (m : step_or_reply A) (Q : A -> Ctl -> Prop) r perm c c' :
  (forall a c'', Q a c'') -> authorised r perm c -> swp o m Q (only_authorised r perm c) c'.
Proof.
  intros HQ Ha. unfold swp. destruct (serve o m c') as [[rep|a] c'']; [|done]. by intros _.
Qed.

Lemma swp_authenticate r (Q : Principal -> Ctl -> Prop) perm c :
  (forall p c', (forall perm', match perm' with Some q => HasPermission (PrRole p) q = true | None => True end ->
                  authorised r perm' c) -> Q p c') ->
  swp o (authenticateOperator r) Q (only_authorised r perm c) c.
Proof.
  intros HQ. pose proof (only_authorised_refuses r perm c) as HE. unfold authenticateOperator.
  destruct (bearer_token r) as [token|] eqn:Hb; [|apply swp_reply, HE; done].
  apply swp_bind, swp_reply_if; intros Hv; [apply HE; done|].
  apply swp_bind, swp_invoke_now. intros c'. cbn [backend_method].
  destruct (result_of _ _ _) as [p|err] eqn:Er.
  2:{ apply swp_reply, HE. unfold refusal. by destruct (errors_Is _ _). }
  apply swp_bind, swp_reply_if; intros Hr; [apply HE; done|]. apply swp_ret, HQ. intros perm' Hp.
  exists token, p. apply negb_false_iff in Hr, Hv.
  destruct (ValidateSessionToken token) eqn:Ev; [done|]. by repeat split.
Qed.

Lemma swp_require_permission p q r (Q : unit -> Ctl -> Prop) c c' :
  (HasPermission (PrRole p) q = true -> Q tt c') ->
  swp o (require_permission p q) Q (only_authorised r (Some q) c) c'.
Proof.
  intros HQ. apply swp_reply_if; intros Hp; [apply only_authorised_refuses; done|].
  apply HQ. by apply negb_false_iff.
Qed.

Lemma swp_require_method m r perm (Q : unit -> Ctl -> Prop) c c' :
  Q tt c' -> swp o (require_method m r) Q (only_authorised r perm c) c'.
Proof. intros HQ. apply swp_reply_if; intros _; [apply only_authorised_refuses; done|done]. Qed.

(** A job endpoint: permission first, then anything. *)
Ltac permitted Ha :=
  apply swp_bind, swp_require_permission; intros ?;
  apply swp_authorised; [intros; by intros _; apply Ha|by apply Ha].

Lemma handle_jobs_authorised r c :
  only_authorised r (Some (jobs_permission r)) c (serve o (handle_jobs r) c).1 (serve o (handle_jobs r) c).2.
Proof.
  unfold jobs_permission. apply finish_authorised, swp_bind, swp_authenticate. intros p c1 Ha.
  destruct (String.eqb (Method r) "POST"); [unfold handleOperatorCreateJob; permitted Ha|].
  destruct (String.eqb (Method r) "GET"); [unfold handleOperatorListJobs; permitted Ha|].
  apply swp_ret, only_authorised_refuses. done.
Qed.

Lemma handle_job_authorised r c :
  only_authorised r (Some PermissionJobsRead) c (serve o (handle_job r) c).1 (serve o (handle_job r) c).2.
Proof.
  pose proof (only_authorised_refuses r (Some PermissionJobsRead) c) as HE.
  apply finish_authorised. cbv zeta. apply swp_bind, swp_reply_if; intros _; [apply HE; done|].
  apply swp_bind, swp_require_method, swp_bind, swp_authenticate. intros p c1 Ha.
  destruct (strings_HasSuffix _ _);
    (apply swp_bind, swp_reply_if; intros _; [apply HE; done|]);
    (unfold handleOperatorJobEvents, handleOperatorGetJobByID; apply swp_bind, swp_require_method; permitted Ha).
Qed.

Lemma endpoint_authorised r perm c :
  required_permission r = Some perm ->
  only_authorised r perm c (serve o (newHandler r) c).1 (serve o (newHandler r) c).2.
Proof.
  unfold required_permission, newHandler. intros Hreq.
  repeat match type of Hreq with (if ?b then _ else _) = _ => destruct b eqn:? end; try done; injection Hreq as <-;
    repeat match goal with
    | H : (_ || _)%bool = true |- _ => apply orb_prop in H as [H|H]
    | H : String.eqb (Path r) _ = true |- _ => apply String.eqb_eq in H; rewrite H; simpl
    end.
  - apply finish_authorised, swp_bind, swp_require_method, swp_bind, swp_authenticate. intros p c1 Ha.
    apply swp_authorised; [intros; by intros _; apply Ha|by apply Ha].
  - apply finish_authorised, swp_bind, swp_require_method, swp_bind, swp_authenticate. intros p c1 Ha.
    apply swp_authorised; [intros; by intros _; apply Ha|by apply Ha].
  - apply finish_authorised, swp_bind, swp_require_method, swp_bind, swp_authenticate. intros p c1 Ha.
    permitted Ha.
  - apply handle_jobs_authorised.
  - destruct (String.eqb (Path r) "/healthz") eqn:E1; [apply String.eqb_eq in E1; rewrite E1 in *; done|].
    destruct (String.eqb (Path r) "/readyz") eqn:E2; [apply String.eqb_eq in E2; rewrite E2 in *; done|].
    destruct (String.eqb (Path r) "/api/v1/agent/enroll") eqn:E3; [apply String.eqb_eq in E3; rewrite E3 in *; done|].
    destruct (String.eqb (Path r) "/api/v1/operator/login") eqn:E4; [apply String.eqb_eq in E4; rewrite E4 in *; done|].
    bsplit. repeat match goal with H : Path r <> _ |- _ => apply String.eqb_neq in H; rewrite ?H; clear H end.
    apply handle_job_authorised.
Qed.

Lemma find_session_inv h t db p d :
  find_session_spec h t db (Ok p) d -> exists sid s u, live_session db h t sid s u /\ p = principal_of sid s u.
Proof. inversion 1. eauto 6. Qed.

(** C18: an operators' endpoint answers with success only when the request
    carries the token of a session that the store holds when the controller
    asks for it, not expired by the clock of the database at that query, of an
    enabled operator whose role has the permission the endpoint asks for. *)
Theorem operator_success_authorised r perm c :
  reachable (ctl_db c) -> required_permission r = Some perm ->
  success (serve o (newHandler r) c).1 ->
  let db := interfere o c in
  exists token sid s u,
    bearer_token r = Some token /\ ValidateSessionToken token = None
    /\ operator_sessions db !! sid = Some s /\ se_token_hash s = HashSessionToken token
    /\ env_now (oracle_env o (ctl_step c)) 0 < se_expires_at s
    /\ operators db !! se_operator_id s = Some u /\ op_disabled_at u = None
    /\ match perm with Some q => HasPermission (op_role u) q = true | None => True end.
Proof.
  intros Hreach Hreq Hs db.
  destruct (endpoint_authorised r perm c Hreq Hs) as (token & p & Hb & Hv & Hf & _ & Hp).
  destruct (wfs_sessions _ (reachable_ok _ (called_reachable _ _ Hreach (interfere_called o c)))) as [_ Hu].
  apply (result_ok _ _ _ _ _ (FindOperatorSession_ok _ _ _ _ Hu)) in Hf.
  apply find_session_inv in Hf as (sid & s & u & (Hl & Hh & Hx & Ho & Hd) & ->).
  exists token, sid, s, u. by repeat (split; [done|]).
Qed.
End operators.

(** ** The login limiter *)

Create HintDb slots.

Section limiter.
Context `{UuidTextLaws} `{UnicodeTables} `{Location} `{Sha256} `{Argon2} (o : Oracle).

(** A handler that leaves the limiter as it finds it. *)
Definition keeps_slots {R} (h : handler R) : Prop :=
  forall c, ctl_limiter (serve o h c).2 = ctl_limiter c.

Lemma slots_bind {A B} (f : A -> handler B) (m : handler A) :
  keeps_slots m -> (forall a, keeps_slots (f a)) -> keeps_slots (handler_bind _ _ f m).
Proof.
  intros Hm Hf c. rewrite serve_bind. specialize (Hm c). destruct (serve o m c) as [a c'].
  rewrite Hf. exact Hm.
Qed.

Lemma slots_return {R} (r : R) : keeps_slots (Return r).
Proof. done. Qed.
Lemma slots_invoke {A} (m : backend A) : keeps_slots (invoke m).
Proof. done. Qed.
Lemma slots_now : keeps_slots now.
Proof. done. Qed.
Lemma slots_entropy : keeps_slots entropy.
Proof. done. Qed.
Lemma slots_ping : keeps_slots ping.
Proof. done. Qed.

Lemma slots_step {A B} (m : step_or_reply A) (f : A -> step_or_reply B) :
  keeps_slots m -> (forall a, keeps_slots (f a)) -> keeps_slots (m ≫= f).
Proof. intros Hm Hf. apply slots_bind; [done|]. by intros [rep|a]. Qed.
Lemma slots_lift {A} (m : handler A) : keeps_slots m -> keeps_slots (lift m).
Proof. intros Hm. by apply slots_bind. Qed.
Lemma slots_finish m : keeps_slots m -> keeps_slots (finish m).
Proof. intros Hm. apply slots_bind; [done|]. by intros [rep|rep]. Qed.
Lemma slots_reply_if b rep : keeps_slots (reply_if b rep).
Proof. by destruct b. Qed.

Ltac slots :=
  repeat first
    [ solve [auto 2 with slots] | simple apply slots_finish | simple apply slots_lift
    | simple apply slots_step; [|intros ?]
    | match goal with |- keeps_slots (match ?x with _ => _ end) => destruct x end
    | progress cbv zeta ].
#[local] Hint Resolve slots_return slots_invoke slots_now slots_entropy slots_ping slots_reply_if : slots.

Lemma slots_content t cs r : keeps_slots (json_content t cs r).
Proof. unfold json_content. slots. Qed.
Lemma slots_agent_content r : keeps_slots (agent_content r).
Proof. apply slots_content. Qed.
Lemma slots_read_json {T} `{Json T} n u r : keeps_slots (read_json (T := T) n u r).
Proof. unfold read_json, read_body. slots. Qed.
Lemma slots_uuid m s : keeps_slots (canonical_uuid m s).
Proof. unfold canonical_uuid. slots. Qed.
Lemma slots_method m r : keeps_slots (require_method m r).
Proof. apply slots_reply_if. Qed.
Lemma slots_permission p q : keeps_slots (require_permission p q).
Proof. apply slots_reply_if. Qed.
Lemma slots_authenticate r : keeps_slots (authenticateOperator r).
Proof. unfold authenticateOperator. slots. Qed.
Lemma slots_check_query known q : keeps_slots (check_query known q).
Proof. induction q as [|[k vals] q IH]; simpl; [done|]. slots. Qed.
Lemma slots_limit m r : keeps_slots (query_limit m r).
Proof. unfold query_limit. slots. Qed.
Lemma slots_key r : keeps_slots (idempotency_key r).
Proof. unfold idempotency_key. slots. Qed.
#[local] Hint Resolve slots_content slots_agent_content slots_read_json slots_uuid slots_method slots_permission
  slots_authenticate slots_check_query slots_limit slots_key : slots.

Lemma slots_create r p : keeps_slots (handleOperatorCreateJob r p).
Proof. unfold handleOperatorCreateJob. slots. Qed.
Lemma slots_list r p : keeps_slots (handleOperatorListJobs r p).
Proof. unfold handleOperatorListJobs, agent_filter, state_filter. slots. Qed.
Lemma slots_get r s p : keeps_slots (handleOperatorGetJobByID r s p).
Proof. unfold handleOperatorGetJobByID. slots. Qed.
Lemma slots_events r s p : keeps_slots (handleOperatorJobEvents r s p).
Proof. unfold handleOperatorJobEvents. slots. Qed.
#[local] Hint Resolve slots_create slots_list slots_get slots_events : slots.

Lemma slots_enroll r : keeps_slots (handleEnroll r).
Proof. unfold handleEnroll, decode_stream, decode_public_key. slots. Qed.

Lemma swp_acquire (Q : bool -> Ctl -> Prop) E c :
  (let '(l, ok) := TryAcquire (ctl_limiter c) in Q ok (mkCtl (interfere o c) l (S (ctl_step c)))) ->
  swp o (lift acquire_slot) Q E c.
Proof. unfold swp. simpl. by destruct (TryAcquire _). Qed.

Lemma swp_release (Q : unit -> Ctl -> Prop) E c :
  (forall db i, Q tt (mkCtl db (release (ctl_limiter c)) i)) -> swp o (lift release_slot) Q E c.
Proof. intros HQ. apply HQ. Qed.

(** What runs between acquiring and releasing a slot does not matter, as long
    as it leaves the limiter alone. *)
Lemma slots_guarded (m : handler Reply) busy :
  keeps_slots m ->
  keeps_slots (ok ← lift acquire_slot;
               reply_if (negb ok) busy ;;
               reply ← lift m;
               lift release_slot ;;
               mret reply : step_or_reply Reply).
Proof.
  intros Hm c.
  match goal with |- ctl_limiter (serve o ?h c).2 = _ =>
    assert (swp o h (fun _ c' => ctl_limiter c' = ctl_limiter c) (fun _ c' => ctl_limiter c' = ctl_limiter c) c) as Hs end.
  - apply swp_bind, swp_acquire. unfold TryAcquire.
    destruct (sem_len (ctl_limiter c) <? sem_cap (ctl_limiter c)); cbn [fst snd negb].
    + apply swp_bind, swp_ret. apply swp_bind, swp_lift. apply swp_bind, swp_release. intros db i. apply swp_ret.
      cbn [ctl_limiter].
      rewrite Hm. unfold release. destruct (ctl_limiter c). simpl. f_equal. lia.
    + by apply swp_bind, swp_reply.
  - unfold swp in Hs. by destruct (serve o _ c) as [[rep|rep] c'].
Qed.

Lemma slots_login r : keeps_slots (handleOperatorLogin r).
Proof.
  unfold handleOperatorLogin. apply slots_finish. apply slots_step; [slots|intros _].
  apply slots_step; [slots|intros _]. apply slots_step; [unfold read_login; slots|intros req].
  simple apply slots_guarded. unfold login_with_slot. slots.
Qed.

(** Whatever the request, whatever happens while it is served, every
    login slot taken for it is given back: the limiter of concurrent password
    derivations is left as it was found. *)
Theorem login_slot_released r c :
  ctl_limiter (serve o (newHandler r) c).2 = ctl_limiter c.
Proof.
  revert c. change (keeps_slots (newHandler r)). pose proof slots_login. pose proof slots_enroll.
  unfold newHandler, handleHealthz, handleReadyz, handleOperatorMe, handleOperatorLogout, handleOperatorAudit,
    handle_jobs, handle_job. slots.
Qed.
End limiter.
