(* ===== verification/Presence.v ===== *)
(** * The agent's daemon: src/internal/agent/presence.go

    The daemon talks to a world of its own: clocks, timers, a certificate
    signer, the host's sensors, the executor, and HTTP.  [AgentWorld] is the
    interface; the daemon's theorems hold for every world.  Everything the
    daemon does outwardly (requests with their replies, executions, waits) is
    appended to a log, oldest first.  [iteration] is the body of the loop of
    [runPresenceWithConfig], cut into the blocks it consists of; [run] repeats
    it a given number of times.  Only messages to the logger are left out; the
    flags that keep them from repeating are kept. *)

From Stdlib Require Import Floats.SpecFloat.
From S2P Require Import Prelude GoStrings Job Protocol Http JsonText JsonFacts JsonCoder Messages Backoff.

(** ** Errors *)

Definition ErrAuthRejected := sentinel "agent.ErrAuthRejected".
Definition ErrProtocolMismatch := sentinel "agent.ErrProtocolMismatch".
Definition ErrPermanentFailure := sentinel "agent.ErrPermanentFailure".
Definition ErrUnknownAction := sentinel "agent.ErrUnknownAction".

Definition IsPermanentError (err : option error) : bool :=
  match err with
  | None => false
  | Some e => errors_Is e ErrAuthRejected || errors_Is e ErrProtocolMismatch
              || errors_Is e ErrPermanentFailure
  end.

Definition permanent (msg : string) : error := wrapError msg ErrPermanentFailure.

(** ** executor.go *)

Definition Execute (action : string) : option error :=
  if negb (String.eqb action ActionAgentPing) then Some (wrapError "unknown action" ErrUnknownAction)
  else None.

(** ** Replies of the controller, one table per request *)

Section replies.
Context `{UuidText}.

(** The last two cases of every table: 5xx is transient, other 4xx permanent. *)
Definition other_status (code : Z) : error :=
  if (500 <=? code) && (code <=? 599) then errorString "controller error"
  else if (400 <=? code) && (code <=? 499) then permanent "unexpected client error"
  else errorString "unexpected response status".

(** The body of a 200 reply to a heartbeat. *)
Definition heartbeat_body (b : Body) : result (option JobAssignment) :=
  match ReadAllLimit 1025 b with
  | Err _ => Err (permanent "failed to read heartbeat response body")
  | Ok bodyBytes =>
      fail_if 1024 <? len bodyBytes with permanent "heartbeat response body too large" else
      fail_if negb (utf8_ValidString bodyBytes)
        with permanent "heartbeat response is not valid UTF-8" else
      match json_Decode bodyBytes with
      | Err _ => Err (permanent "malformed heartbeat response")
      | Ok (hbResp, rest) =>
          fail_if negb (decode_EOF rest) with permanent "trailing data in heartbeat response" else
          fail_if negb (HB_ProtocolVersion hbResp =? CurrentVersion) with ErrProtocolMismatch else
          fail_if is_null (HB_Job hbResp)
            with permanent "HTTP 200 heartbeat missing job assignment" else
          check ValidateJobAssignment (HB_Job hbResp) as err
            with permanent "invalid job assignment" else
          Ok (HB_Job hbResp)
      end
  end.

Definition heartbeat_reply (resp : Response) : result (option JobAssignment) :=
  let code := StatusCode resp in
  if code =? StatusNoContent then Ok None
  else if code =? StatusOK then heartbeat_body (resp_Body resp)
  else if code =? StatusUnauthorized then Err ErrAuthRejected
  else if code =? StatusConflict then Err ErrProtocolMismatch
  else if code =? StatusBadRequest then Err (permanent "request rejected by controller (400)")
  else if code =? StatusTooManyRequests then
    Err (errorString "heartbeat rate limited by controller (429)")
  else Err (other_status code).

(** Start and completion have the same table. *)
Definition job_reply (code : Z) : option error :=
  if code =? StatusNoContent then None
  else if code =? StatusUnauthorized then Some ErrAuthRejected
  else if code =? StatusConflict then Some ErrJobConflict
  else if code =? StatusTooManyRequests then Some (errorString "rate limited by controller (429)")
  else Some (other_status code).

(** Inventory and telemetry have the same table (inventory.go, telemetry.go). *)
Definition report_reply (code : Z) : option error :=
  if code =? StatusNoContent then None
  else if code =? StatusUnauthorized then Some ErrAuthRejected
  else if code =? StatusConflict then Some ErrProtocolMismatch
  else if code =? StatusBadRequest then Some (permanent "report rejected by controller (400)")
  else if code =? StatusTooManyRequests then Some (errorString "rate limited by controller (429)")
  else Some (other_status code).
End replies.

(** ** The world of a daemon and the daemon's monad *)

Class AgentWorld (W : Type) := {
  ctx_Err : W -> bool * W;                           (* ctx.Err() != nil *)
  time_Now : W -> Z * W;                             (* cfg.nowFunc *)
  rand_draw : W -> (Z -> option Z) * W;              (* rand.Int of one jitter *)
  cert_error : W -> option error * W;                (* key check, entropy, signing *)
  NewRequest_error : string -> option error;         (* http.NewRequestWithContext *)
  client_Do : HttpRequest -> W -> result Response * W;
  timer_fired : Z -> W -> bool * W;                  (* false: the context ended first *)
}.

Record presenceConfig (W : Type) := mkPresenceConfig {
  refreshMargin : Z;
  baseInterval : Z;
  maxBackoff : Z;
  inventoryInterval : Z;
  inventoryRetryInterval : Z;
  jitterFunc : option ((Z -> option Z) -> Z -> spec_float -> Z);
  collector : W -> result InventoryRequest * W;
  sampler : Z -> W -> (option TelemetryRequest * bool * option error) * W;
  executor : string -> W -> option error * W;
  resolve : string -> string;                        (* ctrlURL.ResolveReference(...).String() *)
}.
Arguments refreshMargin {W}. Arguments baseInterval {W}. Arguments maxBackoff {W}.
Arguments inventoryInterval {W}. Arguments inventoryRetryInterval {W}. Arguments jitterFunc {W}.
Arguments collector {W}. Arguments sampler {W}. Arguments executor {W}. Arguments resolve {W}.

Definition DefaultCertRefreshMargin : Z := 10 * Minute.
Definition DefaultCertLifetime : Z := 1 * Hour.
Definition DefaultInventoryInterval : Z := 1 * Hour.
Definition DefaultInventoryRetryInterval : Z := 1 * Minute.

(** The configuration the daemon runs with: [collect] and [sample] are the
    collector and the sampler of the host, [resolve_ref] resolves against the
    controller's address. *)
Definition defaultPresenceConfig {W} (collect : W -> result InventoryRequest * W)
    (sample : Z -> W -> (option TelemetryRequest * bool * option error) * W) (resolve_ref : string -> string) : presenceConfig W :=
  mkPresenceConfig W DefaultCertRefreshMargin DefaultHeartbeatInterval DefaultMaxBackoff DefaultInventoryInterval
    DefaultInventoryRetryInterval (Some defaultJitter) collect sample (fun action w => (Execute action, w)) resolve_ref.

(** What the daemon did, as its surroundings see it. *)
Inductive obs :=
| ObsHttp (rq : HttpRequest) (resp : result Response)
| ObsExecute (ja : JobAssignment) (err : option error)
| ObsWait (d : Z).

(** [certManager]: the client is known by the end of its certificate. *)
Record certManager := mkCertManager {
  client : option Z;
  certExpiresAt : Z;
  refreshAt : Z;
}.

(** The variables of the loop. *)
Record loop_state := mkLoopState {
  cm : certManager;
  consecutiveFailures : Z;
  loggedFailure : bool;
  nextInventoryAt : option Z;            (* None: the zero time *)
  inventoryFailureLogged : bool;
  telemetryFailureLogged : bool;
  pendingCompletion : option JobCompleteRequest;
}.

Record Daemon (W : Type) := mkDaemon { world : W; log : list obs; vars : loop_state }.
Arguments mkDaemon {W}. Arguments world {W}. Arguments log {W}. Arguments vars {W}.

(** A block of the loop: it goes on with a value ([inl]) or makes the function
    return ([inr]). *)
Definition D (W A : Type) : Type := Daemon W -> (A + option error) * Daemon W.

#[export] Instance D_ret {W} : MRet (D W) := fun A a s => (inl a, s).
#[export] Instance D_bind {W} : MBind (D W) := fun A B k m s =>
  match m s with
  | (inl a, s') => k a s'
  | (inr r, s') => (inr r, s')
  end.

Definition return_ {W A} (r : option error) : D W A := fun s => (inr r, s).
Definition ask {W A} (f : W -> A * W) : D W A := fun s =>
  let '(a, w) := f (world s) in (inl a, mkDaemon w (log s) (vars s)).
Definition observe {W} (o : obs) : D W unit := fun s =>
  (inl tt, mkDaemon (world s) (log s ++ [o]) (vars s)).
Definition get_vars {W} : D W loop_state := fun s => (inl (vars s), s).
Definition modify {W} (f : loop_state -> loop_state) : D W unit := fun s =>
  (inl tt, mkDaemon (world s) (log s) (f (vars s))).

Definition set_cm x (v : loop_state) : loop_state :=
  mkLoopState x (consecutiveFailures v) (loggedFailure v) (nextInventoryAt v)
    (inventoryFailureLogged v) (telemetryFailureLogged v) (pendingCompletion v).
Definition set_failures x y (v : loop_state) : loop_state :=
  mkLoopState (cm v) x y (nextInventoryAt v)
    (inventoryFailureLogged v) (telemetryFailureLogged v) (pendingCompletion v).
Definition set_inventory x y (v : loop_state) : loop_state :=
  mkLoopState (cm v) (consecutiveFailures v) (loggedFailure v) x y
    (telemetryFailureLogged v) (pendingCompletion v).
Definition set_telemetry_logged x (v : loop_state) : loop_state :=
  mkLoopState (cm v) (consecutiveFailures v) (loggedFailure v) (nextInventoryAt v)
    (inventoryFailureLogged v) x (pendingCompletion v).
Definition set_pending x (v : loop_state) : loop_state :=
  mkLoopState (cm v) (consecutiveFailures v) (loggedFailure v) (nextInventoryAt v)
    (inventoryFailureLogged v) (telemetryFailureLogged v) x.

(** ** The loop *)

Section loop.
Context `{UuidText}.
Context `{AgentWorld W} (cfg : presenceConfig W).

(** *** The client certificate *)

Definition newCertManager : certManager := mkCertManager None 0 0.

(** [newCertManager] replaces a margin that is not positive. *)
Definition refresh_margin : Z :=
  if refreshMargin cfg <=? 0 then DefaultCertRefreshMargin else refreshMargin cfg.

(** X.509 validity has whole seconds. *)
Definition buildCert (now : Z) : D W (result Z) :=
  failed ← ask cert_error;
  mret (match failed with
        | Some err => Err err
        | None => Ok ((now + DefaultCertLifetime) / Second * Second)
        end).

Definition getClient : D W (result Z) :=
  now ← ask time_Now;
  v ← get_vars;
  match client (cm v), now <? refreshAt (cm v) with
  | Some cl, true => mret (Ok cl)
  | _, _ =>
      built ← buildCert now;
      match built with
      | Err err => mret (Err err)
      | Ok expiresAt =>
          modify (set_cm (mkCertManager (Some expiresAt) expiresAt (expiresAt - refresh_margin))) ;;
          mret (Ok expiresAt)
      end
  end.

(** *** Requests *)

Definition Do (cl : Z) (method url body : string) (what : string) : D W (result Response) :=
  match NewRequest_error url with
  | Some _ => mret (Err (permanent what))
  | None =>
      let rq := mkHttpRequest method url body cl in
      r ← ask (client_Do rq);
      observe (ObsHttp rq r) ;;
      mret r
  end.

Definition sendHeartbeat (cl : Z) : D W (result (option JobAssignment)) :=
  r ← Do cl "POST" (resolve cfg HeartbeatEndpointPath) (json_Marshal (mkHeartbeatRequest CurrentVersion))
        "failed to construct heartbeat request";
  mret (match r with Err err => Err err | Ok resp => heartbeat_reply resp end).

Definition status_error (table : Z -> option error) (r : result Response) : option error :=
  match r with
  | Err err => Some err
  | Ok resp => table (StatusCode resp)
  end.

Definition sendJobStart (cl : Z) (jobID : string) (attempt : Z) : D W (option error) :=
  r ← Do cl "POST" (resolve cfg AgentJobStartEndpointPath)
        (json_Marshal (mkJobStartRequest CurrentVersion jobID attempt))
        "failed to construct start request";
  mret (status_error job_reply r).

Definition sendJobComplete (cl : Z) (req : JobCompleteRequest) : D W (option error) :=
  r ← Do cl "POST" (resolve cfg AgentJobCompleteEndpointPath) (json_Marshal req)
        "failed to construct complete request";
  mret (status_error job_reply r).

Definition sendInventory (cl : Z) (req : InventoryRequest) : D W (option error) :=
  r ← Do cl "PUT" (resolve cfg InventoryEndpointPath) (json_Marshal req)
        "failed to construct inventory request";
  mret (status_error report_reply r).

Definition sendTelemetry (cl : Z) (req : TelemetryRequest) : D W (option error) :=
  r ← Do cl "PUT" (resolve cfg TelemetryEndpointPath) (json_Marshal req)
        "failed to construct telemetry request";
  mret (status_error report_reply r).

(** *** Waiting *)

(** The jitter function of one call, with its random numbers. *)
Definition jitter_call : D W (option (Z -> spec_float -> Z)) :=
  match jitterFunc cfg with
  | None => mret None
  | Some f => draw ← ask rand_draw; mret (Some (f draw))
  end.

(** [cfg.jitterFunc(base, 0.10)], when there is one. *)
Definition jittered (base : Z) : D W Z :=
  jitter ← jitter_call;
  mret (match jitter with Some f => f base DefaultSuccessJitterPercent | None => base end).

Definition wait (d : Z) : D W unit :=
  observe (ObsWait d) ;;
  fired ← ask (timer_fired d);
  if fired : bool then mret tt else return_ None.

(** [if ctx.Err() != nil { return nil }] *)
Definition return_if_done : D W unit :=
  done ← ask ctx_Err;
  if done : bool then return_ None else mret tt.

(** *** The branch of a failed heartbeat *)

Definition heartbeat_failed (hbErr : error) : D W unit :=
  return_if_done ;;
  if IsPermanentError (Some hbErr) then return_ (Some hbErr)
  else
    v ← get_vars;
    let failures := consecutiveFailures v + 1 in
    modify (set_failures failures true) ;;
    jitter ← jitter_call;
    wait (computeBackoff failures (maxBackoff cfg) jitter).

(** *** Jobs *)

(** The completion kept from an earlier round, before any new work. *)
Definition flush_pending (cl : Z) : D W unit :=
  v ← get_vars;
  match pendingCompletion v with
  | None => mret tt
  | Some req =>
      compErr ← sendJobComplete cl req;
      match compErr with
      | None => modify (set_pending None)
      | Some err =>
          if IsPermanentError compErr then return_ compErr
          else if errors_Is err ErrJobConflict then modify (set_pending None)
          else mret tt
      end
  end.

Definition completion_of (ja : JobAssignment) (execErr : option error) : JobCompleteRequest :=
  mkJobCompleteRequest CurrentVersion (JA_JobID ja) (JA_Attempt ja)
    (if is_null execErr then "succeeded" else "failed")
    (if is_null execErr then "" else "executor_error").

(** After the start was granted: execute and report. *)
Definition execute_and_report (cl : Z) (ja : JobAssignment) : D W unit :=
  execErr ← ask (executor cfg (JA_Action ja));
  observe (ObsExecute ja execErr) ;;
  let completionReq := completion_of ja execErr in
  compErr ← sendJobComplete cl completionReq;
  match compErr with
  | None => mret tt
  | Some err =>
      if IsPermanentError compErr then return_ compErr
      else if errors_Is err ErrJobConflict then mret tt
      else modify (set_pending (Some completionReq))
  end.

Definition run_assignment (cl : Z) (assignment : option JobAssignment) : D W unit :=
  v ← get_vars;
  match pendingCompletion v, assignment with
  | None, Some ja =>
      match ValidateJobAssignment (Some ja) with
      | Some _ => return_ (Some (permanent "invalid job assignment"))
      | None =>
          startErr ← sendJobStart cl (JA_JobID ja) (JA_Attempt ja);
          match startErr with
          | Some _ => if IsPermanentError startErr then return_ startErr else mret tt
          | None => execute_and_report cl ja
          end
      end
  | _, _ => mret tt
  end.

(** *** Reports *)

(** A configured interval, or the default when it is not positive, jittered. *)
Definition interval_or (d default : Z) : D W Z := jittered (if d <=? 0 then default else d).

Definition report_inventory (cl : Z) : D W unit :=
  inventoryNow ← ask time_Now;
  v ← get_vars;
  let due := match nextInventoryAt v with None => true | Some t => negb (inventoryNow <? t) end in
  if negb due then mret tt
  else
    report ← ask (collector cfg);
    match report with
    | Err _ =>
        retryDur ← interval_or (inventoryRetryInterval cfg) DefaultInventoryRetryInterval;
        modify (set_inventory (Some (inventoryNow + retryDur)) true)
    | Ok invReport =>
        invErr ← sendInventory cl invReport;
        match invErr with
        | Some _ =>
            return_if_done ;;
            if IsPermanentError invErr then return_ invErr
            else
              retryDur ← interval_or (inventoryRetryInterval cfg) DefaultInventoryRetryInterval;
              modify (set_inventory (Some (inventoryNow + retryDur)) true)
        | None =>
            interval ← interval_or (inventoryInterval cfg) DefaultInventoryInterval;
            modify (set_inventory (Some (inventoryNow + interval)) false)
        end
    end.

Definition report_telemetry (cl : Z) : D W unit :=
  telemetryNow ← ask time_Now;
  sample ← ask (sampler cfg telemetryNow);
  let '(telemReport, ready, telemErr) := sample in
  match telemErr, telemReport, ready with
  | Some _, _, _ => modify (set_telemetry_logged true)
  | None, Some report, true =>
      sendErr ← sendTelemetry cl report;
      match sendErr with
      | Some _ =>
          return_if_done ;;
          if IsPermanentError sendErr then return_ sendErr else modify (set_telemetry_logged true)
      | None => modify (set_telemetry_logged false)
      end
  | None, _, _ => mret tt
  end.

(** *** One round, and the loop *)

Definition iteration : D W unit :=
  return_if_done ;;
  got ← getClient;
  match got with
  | Err _ => return_ (Some (permanent "failed to obtain client certificate"))
  | Ok cl =>
      hb ← sendHeartbeat cl;
      match hb with
      | Err hbErr => heartbeat_failed hbErr
      | Ok assignment =>
          modify (set_failures 0 false) ;;
          flush_pending cl ;;
          run_assignment cl assignment ;;
          report_inventory cl ;;
          report_telemetry cl ;;
          waitDur ← jittered (baseInterval cfg);
          wait waitDur
      end
  end.

Definition initial_state : loop_state := mkLoopState newCertManager 0 false None false false None.

(** [n] rounds: [inl] when the daemon is still running after them. *)
Fixpoint run (n : nat) : D W unit :=
  match n with
  | O => mret tt
  | S n' => iteration ;; run n'
  end.
End loop.
