(* ===== verification/Delivery.v ===== *)
(** * From the store to the agent

    The reply to a heartbeat, from the claim in the store over its text to
    what the agent takes it for. *)

From S2P Require Import Prelude GoStrings GoTime RuneFacts Numerals Job Operator Enrollment Protocol Postgres Schema JobStore JobSpec JobReconcile JobContracts AccountStore AccountContracts System Runs.
From S2P Require Import Http JsonText JsonFacts JsonCoder Messages Handlers Replies Controller ControllerOps ControllerSpec Backoff Presence.

(** ** The text of an assignment *)

Section assignment.
Context `{UuidTextLaws} `{Location}.

Definition ping_assignment (u : UUID) (attempt : Z) : JobAssignment := mkJobAssignment (uuid_String u) attempt ActionAgentPing.

Lemma ping_typed u attempt : 1 <= attempt <= MaxDispatchAttempts ->
  typed (mkHeartbeatResponse CurrentVersion (Some (ping_assignment u attempt))).
Proof.
  unfold MaxDispatchAttempts. intros Ha. split; [done|]. intros a [= <-]. split_and!; [apply uuid_text| |done].
  unfold in_int64, MaxInt64. cbn. lia.
Qed.

Lemma reply_text_assignment r : reply_text (AssignmentBody r) = json_Marshal r +:+ string_of [byte_of 10].
Proof.
  change (json_Marshal r) with (string_of (print compact 0 (emit heartbeat_response_coder r))). apply bytes_of_inj.
  rewrite (reply_text_value (AssignmentBody _) _ eq_refl). unfold encoded. by rewrite bytes_of_app, !bytes_of_string_of.
Qed.

Lemma decimal_length n : (n < 10)%N -> length (decimal n) = 1%nat.
Proof.
  intros Hn. assert (n ∈ [0; 1; 2; 3; 4; 5; 6; 7; 8; 9]%N) as Hin by (rewrite !elem_of_cons; lia).
  repeat (apply elem_of_cons in Hin as [-> | Hin]; [done|]). by apply elem_of_nil in Hin.
Qed.

Lemma assignment_length u attempt :
  len (uuid_String u) = 36 -> 1 <= attempt <= MaxDispatchAttempts ->
  len (reply_text (AssignmentBody (mkHeartbeatResponse CurrentVersion (Some (ping_assignment u attempt))))) <= 1024.
Proof.
  unfold len. intros Hl Ha. rewrite (reply_text_value (AssignmentBody _) _ eq_refl). unfold encoded. rewrite string_length_of, length_app. rewrite <- length_bytes_of in Hl.
  assert (length (FormatInt attempt) = 1)%nat as Hf.
  { unfold FormatInt, MaxDispatchAttempts in *. rewrite (proj2 (Z.ltb_ge attempt 0)) by lia. apply decimal_length. lia. }
  pose proof (print_size 0 (emit heartbeat_response_coder (mkHeartbeatResponse CurrentVersion (Some (ping_assignment u attempt))))) as Hs.
  assert (length (decimal 2) = 1)%nat as H2 by done. unfold bytes_of in Hl. cbn -[print] in Hs |- *. lia.
Qed.

(** The agent takes the reply for the assignment in it. *)
Lemma assignment_read u attempt :
  len (uuid_String u) = 36 -> 1 <= attempt <= MaxDispatchAttempts ->
  heartbeat_body (mkBody (reply_text (AssignmentBody (mkHeartbeatResponse CurrentVersion (Some (ping_assignment u attempt))))) None)
  = Ok (Some (ping_assignment u attempt)).
Proof.
  intros Hl Ha. pose proof (assignment_length u attempt Hl Ha) as Hn. pose proof (ping_typed u attempt Ha) as Ht.
  unfold heartbeat_body. rewrite ReadAllLimit_whole by lia. rewrite (proj2 (Z.ltb_ge 1024 _)) by lia.
  assert (utf8_ValidString (reply_text (AssignmentBody (mkHeartbeatResponse CurrentVersion (Some (ping_assignment u attempt))))) = true) as ->.
  { rewrite (reply_text_value (AssignmentBody _) _ eq_refl). unfold encoded. apply text_app; [|done]. apply (print_text compact 0 0 _ compact_spaced).
    apply struct_writable; [done| |done]. intros f Hf. by apply heartbeat_response_faithful. }
  rewrite reply_text_assignment. destruct messages_round_trip_all as (_ & Hr & _). rewrite Hr; [|done|done].
  cbn -[ValidateJobAssignment]. unfold ValidateJobAssignment, ValidateCanonicalUUID. cbn. rewrite uuid_parse_string, String.eqb_refl. cbn.
  rewrite (proj2 (Z.ltb_ge attempt 1)), (proj2 (Z.ltb_ge MaxDispatchAttempts attempt)) by lia. done.
Qed.
End assignment.

(** ** The reply to a heartbeat *)

Section heartbeat.
Context `{UuidTextLaws} `{UnicodeTables} `{Location} `{Sha256} `{Argon2} (o : Oracle).

(** What a client sees of a reply. *)
Definition response_of (rep : Reply) : Response :=
  mkResponse (rep_Status rep) (mkBody (match rep_Body rep with Some p => reply_text p | None => "" end) None).

(** The certificate of [r] is that of an agent enrolled in the store; a job
    dispatched to this agent is in the reply. *)
Definition handed_out (r : Request) (c : Ctl) (rep : Reply) (c' : Ctl) : Prop :=
  exists pubKey db0 id a u j, presented o c r pubKey /\ rtc called (ctl_db c) db0 /\ find_agent pubKey db0 = Some (id, a)
    /\ jobs (ctl_db c') !! u = Some j /\ AgentID j = id /\ JobState j = StateDispatched /\ 1 <= Attempt j <= MaxDispatchAttempts
    /\ rep_Body rep = Some (AssignmentBody (mkHeartbeatResponse CurrentVersion (Some (ping_assignment u (Attempt j))))).

Lemma claim_dispatches agentID e db a :
  reachable db -> result_of (ClaimNextAgentJob agentID) e db = Ok (Some a) ->
  let db' := tables_after (ClaimNextAgentJob agentID) e db in
  exists u j, a = ping_assignment u (Attempt j) /\ jobs db' !! u = Some j /\ AgentID j = agentID
    /\ JobState j = StateDispatched /\ 1 <= Attempt j <= MaxDispatchAttempts.
Proof.
  intros Hr Hok db'. pose proof (wfs_jobs _ (reachable_ok _ Hr)) as Hwf.
  apply (result_ok _ _ _ _ _ (ClaimNextAgentJob_ok _ _ _ _ Hwf)) in Hok. fold db' in Hok.
  inversion Hok as [| | |db1 j ts eid t Hrec Hb (Hj & Hc & Hmin) Hatt d' Hl E1 E2].
  pose proof (reconciled_wf _ _ _ _ Hwf Hrec) as Hwf1.
  pose proof (job_checks_states _ (wf_checks _ Hwf1 _ _ Hj)) as (_ & Ha & Hact & _).
  unfold claimable in Hc. apply andb_prop in Hc as [Hag Hst]. apply N.eqb_eq in Hag.
  exists (ID j), (dispatch_set (Attempt j + 1) ts j). split_and!; try done.
  - unfold assignment. by rewrite Hact.
  - apply lookup_insert_eq.
  - cbn. lia.
  - cbn. lia.
Qed.

Lemma heartbeat_agent k v e db rec hint :
  result_of (RecordAgentHeartbeat k v) e db = Ok (rec, hint) ->
  exists id a, find_agent k db = Some (id, a) /\ AgID rec = uuid_String id.
Proof.
  unfold result_of, RecordAgentHeartbeat, mbind, M_bind, require_pool. destruct (env_pool e); [|done].
  unfold PoolQueryRow, or_fail, pool_stmt, mbind, M_bind, heartbeat_stmt. simpl.
  destruct (env_fault e 0); [|done|];
    (destruct (negb (int4_param v)); [done|]; destruct (find_agent k db) as [[id a]|]; [|done];
     destruct (negb _); [done|]); simpl; [|done].
  intros [= <- _]. by exists id, a.
Qed.

Lemma heartbeat_reply_body r c :
  reachable (ctl_db c) -> rep_Status (serve o (handleHeartbeat r) c).1 = StatusOK ->
  handed_out r c (serve o (handleHeartbeat r) c).1 (serve o (handleHeartbeat r) c).2.
Proof.
  intros Hreach. apply (swp_finish o _ (fun rep c' => rep_Status rep = StatusOK -> handed_out r c rep c')).
  assert (forall c', refuses (fun rep c' => rep_Status rep = StatusOK -> handed_out r c rep c') c') as HE
    by (intros c' rep Hr Hs; unfold refusal, StatusOK in *; lia).
  apply swp_bind, swp_agent_request; [auto|]. intros pubKey c1 Hp [Hc1 _].
  apply swp_bind, swp_agent_content; [auto|].
  apply swp_bind, swp_read_json; [done|auto|]. intros req rest Hd.
  apply swp_bind, swp_check_version; [auto|]. intros _.
  apply swp_bind, swp_invoke. intros db0 e c2 Hdb0 Hc2 _.
  destruct (result_of _ e db0) as [[rec hint]|err] eqn:Er;
    [|apply swp_reply, HE; unfold lookup_reply, refusal; by destruct (errors_Is _ _)].
  apply heartbeat_agent in Er as (id & a & Hf & Hid).
  assert (rtc called db0 (ctl_db c2)) as Hl by (apply rtc_once; exists (CallRecordAgentHeartbeat pubKey (HR_ProtocolVersion req)), e; by rewrite Hc2).
  unfold claim_for. destruct hint; [|by apply swp_lift]. rewrite Hid, uuid_parse_string.
  apply swp_lift. unfold mbind. rewrite serve_bind. cbn [serve invoke].
  set (db1 := interfere o c2). assert (rtc called (ctl_db c2) db1) as Hdb1 by apply interfere_called.
  cbn [backend_method fst snd ctl_db]. destruct (result_of _ _ db1) as [[asg|]|err] eqn:Ec; [|done|done]. intros _.
  apply claim_dispatches in Ec as (u & j & -> & Hj & Ha & Hs & Hatt).
  2: { apply (called_reachable (ctl_db c)); [done|]. exact (transitivity Hc1 (transitivity Hdb0 (transitivity Hl Hdb1))). }
  exists pubKey, db0, id, a, u, j. split_and!; try done; [exact (transitivity Hc1 Hdb0)|apply Hatt..].
Qed.

(** C38: a heartbeat that is answered with 200 came with the certificate of an
    enrolled agent, and the agent takes the reply for the identifier and
    attempt of a job the store has dispatched to it: nothing is lost or changed
    on the way from the table through the JSON text. *)
Theorem assignment_delivered r c :
  let '(rep, c') := serve o (handleHeartbeat r) c in
  reachable (ctl_db c) -> rep_Status rep = StatusOK ->
  exists pubKey db0 id a u j,
    presented o c r pubKey /\ rtc called (ctl_db c) db0 /\ find_agent pubKey db0 = Some (id, a)
    /\ jobs (ctl_db c') !! u = Some j /\ AgentID j = id /\ JobState j = StateDispatched
    /\ (len (uuid_String u) = 36 ->
        heartbeat_reply (response_of rep) = Ok (Some (mkJobAssignment (uuid_String u) (Attempt j) ActionAgentPing))).
Proof.
  destruct (serve o (handleHeartbeat r) c) as [rep c'] eqn:E. intros Hr Hs.
  pose proof (heartbeat_reply_body r c Hr) as Hh. rewrite E in Hh. cbn [fst snd] in Hh. destruct (Hh Hs) as (pubKey & db0 & id & a & u & j & Hp & Hd & Hf & Hj & Ha & Hst & Hatt & Hb).
  exists pubKey, db0, id, a, u, j. split_and!; try done. intros Hl. unfold response_of, heartbeat_reply. cbn [StatusCode resp_Body].
  rewrite Hs, Hb. cbn [Z.eqb StatusOK StatusNoContent Pos.eqb]. by apply assignment_read.
Qed.
End heartbeat.
