(* ===== verification/PresenceSpec.v ===== *)
(** * What the agent's daemon guarantees

    A small program logic for the blocks of the loop, and the invariants of
    the daemon's log: what is executed was granted, what was executed is
    reported before anything else is started, and the daemon returns only when
    its context has ended, no certificate could be made or a request failed
    for good. *)

From Stdlib Require Import Floats.SpecFloat.
From S2P Require Import Prelude GoStrings Job Protocol Http JsonText JsonFacts JsonCoder Messages Backoff Presence.

(** ** Rules for blocks *)

(** From [s] the block goes on with a value and state in [Q], or makes the
    daemon return with a result and state in [E]. *)
Definition dwp {W A} (m : D W A) (Q : A -> Daemon W -> Prop) (E : option error -> Daemon W -> Prop)
    (s : Daemon W) : Prop :=
  match m s with
  | (inl a, s') => Q a s'
  | (inr r, s') => E r s'
  end.

Create HintDb exits.
Create HintDb follows.
Create HintDb built.

Section rules.
Context {W : Type}.
Implicit Types (s : Daemon W) (E : option error -> Daemon W -> Prop).

Lemma dwp_ret {A} (a : A) Q E s : Q a s -> dwp (mret a) Q E s.
Proof. done. Qed.
Lemma dwp_bind {A B} (m : D W A) (k : A -> D W B) Q E s :
  dwp m (fun a => dwp (k a) Q E) E s -> dwp (m ≫= k) Q E s.
Proof. unfold dwp, mbind, D_bind. by destruct (m s) as [[a|r] s']. Qed.
Lemma dwp_mono {A} (m : D W A) (Q Q' : A -> Daemon W -> Prop) (E E' : option error -> Daemon W -> Prop) s :
  dwp m Q E s -> (forall a s', Q a s' -> Q' a s') -> (forall r s', E r s' -> E' r s') -> dwp m Q' E' s.
Proof. unfold dwp. destruct (m s) as [[a|r] s']; auto. Qed.
Lemma dwp_return {A} r (Q : A -> Daemon W -> Prop) E s : E r s -> dwp (return_ r) Q E s.
Proof. done. Qed.
Lemma dwp_ask {A} (f : W -> A * W) Q E s :
  (forall a w, f (world s) = (a, w) -> Q a (mkDaemon w (log s) (vars s))) -> dwp (ask f) Q E s.
Proof. unfold dwp, ask. destruct (f (world s)) as [a w]. auto. Qed.
Lemma dwp_observe o Q E s :
  Q tt (mkDaemon (world s) (log s ++ [o]) (vars s)) -> dwp (observe o) Q E s.
Proof. done. Qed.
Lemma dwp_get_vars Q E s : Q (vars s) s -> dwp get_vars Q E s.
Proof. done. Qed.
Lemma dwp_modify f Q E s : Q tt (mkDaemon (world s) (log s) (f (vars s))) -> dwp (modify f) Q E s.
Proof. done. Qed.

Lemma dwp_run {A} (m : D W A) Q E s r s' :
  dwp m Q E s -> m s = (r, s') -> match r with inl a => Q a s' | inr x => E x s' end.
Proof. unfold dwp. intros H Hm. rewrite Hm in H. by destruct r. Qed.
End rules.

(** Steps through a block, one statement at a time. *)
Ltac dstep :=
  lazymatch goal with
  | |- dwp (mret _) _ _ _ => apply dwp_ret
  | |- dwp (_ ≫= _) _ _ _ => apply dwp_bind
  | |- dwp (return_ _) _ _ _ => apply dwp_return
  | |- dwp (ask _) _ _ _ => apply dwp_ask; intros ? ? ?
  | |- dwp (observe _) _ _ _ => apply dwp_observe
  | |- dwp get_vars _ _ _ => apply dwp_get_vars
  | |- dwp (modify _) _ _ _ => apply dwp_modify
  | |- dwp (match ?x with _ => _ end) _ _ _ => destruct x eqn:?
  | |- dwp (if ?x then _ else _) _ _ _ => destruct x eqn:?
  | |- dwp (let _ := _ in _) _ _ _ => cbv zeta
  end.
Ltac dsteps := repeat (dstep; cbn [world log vars]).

Section daemon.
Context `{UuidText}.
Context `{AgentWorld W} (cfg : presenceConfig W).
Implicit Types s : Daemon W.

(** An invariant of the state that every round keeps holds after any number
    of rounds, and a property every return establishes holds at the return. *)
Lemma run_invariant (I : Daemon W -> Prop) (E : option error -> Daemon W -> Prop) n s :
  (forall s, I s -> dwp (iteration cfg) (fun _ => I) E s) -> I s -> dwp (run cfg n) (fun _ => I) E s.
Proof.
  intros Hi. revert s. induction n as [|n IH]; intros s Hs; simpl.
  - by apply dwp_ret.
  - apply dwp_bind. eapply dwp_mono; [by apply Hi| |done]. intros ? s' Hs'. by apply IH.
Qed.

(** ** Why the daemon returns *)

(** A reply the daemon does not live with: to any request a 4xx other than 429,
    except the 409 of a job's endpoint, and to a heartbeat a 200 whose body is
    no assignment. *)
Definition fatal_status (rq : HttpRequest) (resp : Response) : Prop :=
  let code := StatusCode resp in
  (400 <= code <= 499 /\ code <> StatusTooManyRequests
   /\ (code = StatusConflict ->
       rq_URL rq ∈ resolve cfg <$> [HeartbeatEndpointPath; InventoryEndpointPath; TelemetryEndpointPath]))
  \/ (code = StatusOK /\ rq_URL rq = resolve cfg HeartbeatEndpointPath /\ is_Ok (heartbeat_body (resp_Body resp)) = false).

(** Why the loop is left: its context has ended, as the answer of the context
    or the end of the last wait said; or no certificate could be made, a
    request could not be built, or the last thing that happened is a request
    that failed for good or was answered fatally. *)
Inductive stops : option error -> Daemon W -> Prop :=
| stops_done w s : ctx_Err w = (true, world s) -> stops None s
| stops_waiting l d w s : log s = l ++ [ObsWait d] -> timer_fired d w = (false, world s) -> stops None s
| stops_certificate w err s :
    cert_error w = (Some err, world s) -> stops (Some (permanent "failed to obtain client certificate")) s
| stops_unbuilt url err what s : NewRequest_error url = Some err -> stops (Some (permanent what)) s
| stops_unsent l rq err s :
    log s = l ++ [ObsHttp rq (Err err)] -> IsPermanentError (Some err) = true -> stops (Some err) s
| stops_reply l rq resp err s :
    log s = l ++ [ObsHttp rq (Ok resp)] -> fatal_status rq resp -> IsPermanentError (Some err) = true -> stops (Some err) s.

(** The error a request has just ended with. *)
Inductive failed (s : Daemon W) : error -> Prop :=
| failed_unbuilt url err what : NewRequest_error url = Some err -> failed s (permanent what)
| failed_unsent l rq err : log s = l ++ [ObsHttp rq (Err err)] -> failed s err
| failed_reply l rq resp err :
    log s = l ++ [ObsHttp rq (Ok resp)] -> (IsPermanentError (Some err) = true -> fatal_status rq resp) -> failed s err.

Lemma failed_stops s err : failed s err -> IsPermanentError (Some err) = true -> stops (Some err) s.
Proof. intros [url e what Hn|l rq e Hl|l rq resp e Hl Hf] Hp; [by eapply stops_unbuilt|by eapply stops_unsent|eapply stops_reply; eauto]. Qed.

Lemma failed_log s s' err : log s' = log s -> failed s err -> failed s' err.
Proof. intros Hl [url e what Hn|l rq e Hs|l rq resp e Hs Hf]; [by eapply failed_unbuilt|eapply failed_unsent; by rewrite Hl|eapply failed_reply; [by rewrite Hl|done]]. Qed.

(** A block that returns, if it does, for one of these reasons. *)
Definition exits_well {A} (m : D W A) : Prop := forall s, dwp m (fun _ _ => True) stops s.

(** A request, and what may be done about its error. *)
Definition explains (m : D W (option error)) : Prop :=
  forall s, dwp m (fun r s' => forall err, r = Some err -> failed s' err) stops s.
Definition exits_after {A} (err : option error) (m : D W A) : Prop :=
  forall s, (forall e, err = Some e -> failed s e) -> dwp m (fun _ _ => True) stops s.

Lemma exits_bind {A B} (m : D W A) (k : A -> D W B) :
  exits_well m -> (forall a, exits_well (k a)) -> exits_well (m ≫= k).
Proof.
  intros Hm Hk s. apply dwp_bind. eapply dwp_mono; [apply Hm| |done]. intros a s' _. apply Hk.
Qed.
Lemma exits_request {A} (m : D W (option error)) (k : option error -> D W A) :
  explains m -> (forall err, exits_after err (k err)) -> exits_well (m ≫= k).
Proof. intros Hm Hk s. apply dwp_bind. eapply dwp_mono; [apply Hm| |done]. intros err s' He. by apply Hk. Qed.
Lemma exits_ret {A} (a : A) : exits_well (mret a).
Proof. done. Qed.
Lemma exits_ask {A} (f : W -> A * W) : exits_well (ask f).
Proof. intros s. by apply dwp_ask. Qed.
Lemma exits_observe o : exits_well (observe (W := W) o).
Proof. done. Qed.
Lemma exits_get : exits_well (get_vars (W := W)).
Proof. done. Qed.
Lemma exits_modify f : exits_well (modify (W := W) f).
Proof. done. Qed.
Lemma exits_done : exits_well return_if_done.
Proof.
  intros s. unfold return_if_done. apply dwp_bind, dwp_ask. intros [] w E; [|done]. apply dwp_return. by eapply stops_done.
Qed.
Lemma exits_wait d : exits_well (wait d).
Proof.
  intros s. unfold wait. apply dwp_bind, dwp_observe, dwp_bind, dwp_ask. intros [] w E; [done|].
  apply dwp_return. by eapply stops_waiting.
Qed.

(** An error that is permanent is returned; one that is not goes on. *)
Lemma after_settled {A} err (m : D W A) : exits_well m -> exits_after err m.
Proof. intros Hm s _. apply Hm. Qed.
Lemma after_permanent {A} err (m : D W A) :
  exits_after err m -> exits_after err (if IsPermanentError err then return_ err else m).
Proof.
  intros Hm s Hs. destruct (IsPermanentError err) eqn:E; [|by apply Hm].
  destruct err as [e|]; [|done]. apply dwp_return, failed_stops; auto.
Qed.
Lemma after_done {A} err (m : D W A) : exits_after err m -> exits_after err (return_if_done ;; m).
Proof.
  intros Hm s Hs. unfold return_if_done. apply dwp_bind, dwp_bind, dwp_ask. intros [] w E.
  - apply dwp_return. by eapply stops_done.
  - apply dwp_ret, Hm. intros e He. eapply failed_log; [|by apply Hs]. done.
Qed.

Ltac exits :=
  repeat first
    [ solve [eauto 1 with exits]
    | simple apply exits_request; [solve [eauto 1 with exits]|intros [?|]]
    | simple apply exits_bind; [|intros ?] | simple apply exits_ret | simple apply exits_ask
    | simple apply exits_observe | simple apply exits_get | simple apply exits_modify
    | simple apply after_done | simple apply after_permanent | simple apply after_settled
    | match goal with |- exits_well (match ?x with _ => _ end) => destruct x eqn:? end
    | progress cbv zeta ].
#[local] Hint Resolve exits_done exits_wait : exits.

Lemma exits_jitter : exits_well (jitter_call cfg).
Proof. unfold jitter_call. exits. Qed.
#[local] Hint Resolve exits_jitter : exits.
Lemma exits_jittered d : exits_well (jittered cfg d).
Proof. unfold jittered. exits. Qed.
#[local] Hint Resolve exits_jittered : exits.

(** A request is sent and logged, or not sent at all. *)
Lemma dwp_Do cl method url body what (Q : result Response -> Daemon W -> Prop) E s :
  (forall err, NewRequest_error url = Some err -> Q (Err (permanent what)) s) ->
  (forall r w, Q r (mkDaemon w (log s ++ [ObsHttp (mkHttpRequest method url body cl) r]) (vars s))) ->
  dwp (Do cl method url body what) Q E s.
Proof. intros HQ1 HQ2. unfold Do. destruct (NewRequest_error url) as [err|]; [by apply dwp_ret, (HQ1 err)|]. dsteps. auto. Qed.

Lemma other_status_fatal code :
  IsPermanentError (Some (other_status code)) = true -> 400 <= code <= 499.
Proof. unfold other_status. repeat case_match; bsplit; done || lia. Qed.

(** The two tables of replies without a body, for a request whose 409 is fatal
    or not. *)
Lemma job_reply_fatal rq resp err :
  job_reply (StatusCode resp) = Some err -> IsPermanentError (Some err) = true -> fatal_status rq resp.
Proof.
  unfold job_reply, fatal_status. intros Hj Hp. left.
  repeat case_match; simplify_eq; bsplit; try done; try (apply other_status_fatal in Hp);
    unfold StatusTooManyRequests, StatusConflict, StatusUnauthorized in *; split_and!; lia || (intros; lia).
Qed.

Lemma report_reply_fatal rq resp err :
  rq_URL rq ∈ resolve cfg <$> [HeartbeatEndpointPath; InventoryEndpointPath; TelemetryEndpointPath] ->
  report_reply (StatusCode resp) = Some err -> IsPermanentError (Some err) = true -> fatal_status rq resp.
Proof.
  unfold report_reply, fatal_status. intros Hu Hj Hp. left.
  repeat case_match; simplify_eq; bsplit; try done; try (apply other_status_fatal in Hp);
    unfold StatusTooManyRequests, StatusConflict, StatusUnauthorized, StatusBadRequest in *; split_and!; try done; lia.
Qed.

Lemma heartbeat_reply_fatal rq resp err :
  rq_URL rq = resolve cfg HeartbeatEndpointPath ->
  heartbeat_reply resp = Err err -> IsPermanentError (Some err) = true -> fatal_status rq resp.
Proof.
  unfold heartbeat_reply, fatal_status. intros Hu Hj Hp.
  assert (rq_URL rq ∈ resolve cfg <$> [HeartbeatEndpointPath; InventoryEndpointPath; TelemetryEndpointPath]) as Hin
    by (rewrite Hu; apply list_elem_of_here).
  destruct (StatusCode resp =? StatusNoContent); [done|].
  destruct (Z.eqb_spec (StatusCode resp) StatusOK); [right; by rewrite Hj|left].
  repeat case_match; simplify_eq; bsplit; try done; try (apply other_status_fatal in Hp);
    unfold StatusTooManyRequests, StatusConflict, StatusUnauthorized, StatusBadRequest in *; split_and!; try done; lia.
Qed.

Lemma explains_request cl method url body what (table : Z -> option error) :
  (forall rq resp err, rq_URL rq = url -> table (StatusCode resp) = Some err -> IsPermanentError (Some err) = true ->
    fatal_status rq resp) ->
  explains (r ← Do cl method url body what; mret (status_error table r)).
Proof.
  intros Ht s. apply dwp_bind, dwp_Do.
  - intros err Hn. apply dwp_ret. intros ? [= <-]. by eapply failed_unbuilt.
  - intros r w. apply dwp_ret. intros err He. destruct r as [resp|e]; simpl in He.
    + eapply failed_reply; [done|]. by apply Ht.
    + injection He as <-. by eapply failed_unsent.
Qed.

Lemma explains_start cl jobID attempt : explains (sendJobStart cfg cl jobID attempt).
Proof. apply explains_request. intros. by eapply job_reply_fatal. Qed.
Lemma explains_complete cl req : explains (sendJobComplete cfg cl req).
Proof. apply explains_request. intros. by eapply job_reply_fatal. Qed.
Lemma explains_inventory cl req : explains (sendInventory cfg cl req).
Proof. apply explains_request. intros rq resp err Hu. apply report_reply_fatal. rewrite Hu. set_solver. Qed.
Lemma explains_telemetry cl req : explains (sendTelemetry cfg cl req).
Proof. apply explains_request. intros rq resp err Hu. apply report_reply_fatal. rewrite Hu. set_solver. Qed.
#[local] Hint Resolve explains_start explains_complete explains_inventory explains_telemetry : exits.

Lemma exits_failed err : exits_after (Some err) (heartbeat_failed cfg err).
Proof. unfold heartbeat_failed. apply after_done, (after_permanent (Some err)), after_settled. exits. Qed.
Lemma exits_flush cl : exits_well (flush_pending cfg cl).
Proof. unfold flush_pending. exits. Qed.
Lemma exits_execute cl ja : exits_well (execute_and_report cfg cl ja).
Proof. unfold execute_and_report. exits. Qed.
#[local] Hint Resolve exits_flush exits_execute : exits.
Lemma exits_assignment cl a :
  (forall ja, a = Some ja -> ValidateJobAssignment (Some ja) = None) -> exits_well (run_assignment cfg cl a).
Proof.
  intros Ha. unfold run_assignment. apply exits_bind; [apply exits_get|]. intros v.
  destruct (pendingCompletion v), a as [ja|]; try apply exits_ret. rewrite (Ha ja) by done. exits.
Qed.
Lemma exits_inventory cl : exits_well (report_inventory cfg cl).
Proof. unfold report_inventory, interval_or. exits. Qed.
Lemma exits_telemetry cl : exits_well (report_telemetry cfg cl).
Proof. unfold report_telemetry. exits. Qed.
#[local] Hint Resolve exits_inventory exits_telemetry : exits.

(** An assignment that is taken from a reply is valid. *)
Lemma heartbeat_reply_valid resp ja :
  heartbeat_reply resp = Ok (Some ja) -> ValidateJobAssignment (Some ja) = None.
Proof.
  unfold heartbeat_reply, heartbeat_body. repeat case_match; try done. intros [= E].
  match goal with H : ValidateJobAssignment _ = None |- _ => by rewrite E in H end.
Qed.

Lemma client_made s :
  dwp (getClient cfg) (fun r s' => forall err, r = Err err -> exists w, cert_error w = (Some err, world s')) stops s.
Proof.
  unfold getClient, buildCert. apply dwp_bind, dwp_ask. intros now w _. apply dwp_bind, dwp_get_vars.
  assert (dwp (built ← (failed ← ask cert_error;
      mret (match failed with Some err => Err err | None => Ok ((now + DefaultCertLifetime) / Second * Second) end));
    match built with
    | Err err => mret (Err err)
    | Ok expiresAt =>
        modify (set_cm (mkCertManager (Some expiresAt) expiresAt (expiresAt - refresh_margin cfg))) ;; mret (Ok expiresAt)
    end) (fun r s' => forall err, r = Err err -> exists w, cert_error w = (Some err, world s')) stops
    (mkDaemon w (log s) (vars s))) as Hb.
  { apply dwp_bind, dwp_bind, dwp_ask. intros [err|] w' E; apply dwp_ret.
    - apply dwp_ret. intros ? [= <-]. eauto.
    - by apply dwp_bind, dwp_modify, dwp_ret. }
  destruct (client (cm _)) as [cl|]; [|exact Hb]. destruct (now <? _); [by apply dwp_ret|exact Hb].
Qed.

Lemma heartbeat_explained cl s :
  dwp (sendHeartbeat cfg cl) (fun r s' => match r with
    | Err err => failed s' err
    | Ok a => forall ja, a = Some ja -> ValidateJobAssignment (Some ja) = None
    end) stops s.
Proof.
  unfold sendHeartbeat. apply dwp_bind, dwp_Do.
  - intros err Hn. apply dwp_ret. by eapply failed_unbuilt.
  - intros [resp|err] w; apply dwp_ret; [|by eapply failed_unsent].
    destruct (heartbeat_reply resp) as [a|err] eqn:E; [intros ja ->; by eapply heartbeat_reply_valid|].
    eapply failed_reply; [done|]. by apply heartbeat_reply_fatal.
Qed.

Lemma iteration_exits : exits_well (iteration cfg).
Proof.
  unfold iteration. apply exits_bind; [apply exits_done|]. intros _ s.
  apply dwp_bind. eapply dwp_mono; [apply client_made| |done]. intros [cl|err] s1 Hc.
  2: { destruct (Hc err eq_refl) as [w Hw]. apply dwp_return. by eapply stops_certificate. }
  apply dwp_bind. eapply dwp_mono; [apply heartbeat_explained| |done]. intros [a|err] s2 Hh.
  - assert (exits_well (run_assignment cfg cl a)) as Hr by by apply exits_assignment.
    match goal with |- dwp ?m _ _ _ => enough (exits_well m) as Hm by apply Hm end. exits.
  - apply exits_failed. by intros e [= <-].
Qed.

(** ** The job protocol as the controller sees it

    Between any two observations the daemon has nothing on its hands, was just
    granted a start, or owes the report of an execution. *)

Inductive protocol_state :=
| Idle
| Granted (ja : JobAssignment)
| Owing (req : JobCompleteRequest).

Definition start_request (ja : JobAssignment) (rq : HttpRequest) : Prop :=
  rq_Method rq = "POST" /\ rq_URL rq = resolve cfg AgentJobStartEndpointPath
  /\ rq_Body rq = json_Marshal (mkJobStartRequest CurrentVersion (JA_JobID ja) (JA_Attempt ja)).

Definition complete_request (req : JobCompleteRequest) (rq : HttpRequest) : Prop :=
  rq_Method rq = "POST" /\ rq_URL rq = resolve cfg AgentJobCompleteEndpointPath
  /\ rq_Body rq = json_Marshal req.

Definition job_url (url : string) : Prop :=
  url = resolve cfg AgentJobStartEndpointPath \/ url = resolve cfg AgentJobCompleteEndpointPath.

(** A report is settled by 204 or 409. *)
Definition settles (r : result Response) : bool :=
  match status_error job_reply r with
  | None => true
  | Some err => negb (IsPermanentError (Some err)) && errors_Is err ErrJobConflict
  end.

Definition granted (r : result Response) : bool := is_null (status_error job_reply r).

Inductive protocol_step : protocol_state -> obs -> protocol_state -> Prop :=
| step_start ja rq r :
    start_request ja rq -> ValidateJobAssignment (Some ja) = None ->
    protocol_step Idle (ObsHttp rq r) (if granted r then Granted ja else Idle)
| step_execute ja err :
    protocol_step (Granted ja) (ObsExecute ja err) (Owing (completion_of ja err))
| step_complete req rq r :
    complete_request req rq ->
    protocol_step (Owing req) (ObsHttp rq r) (if settles r then Idle else Owing req)
| step_other st rq r :
    (forall ja, st <> Granted ja) -> ~ job_url (rq_URL rq) -> protocol_step st (ObsHttp rq r) st
| step_wait st d : (forall ja, st <> Granted ja) -> protocol_step st (ObsWait d) st.

(** Traces, growing at the end like the log. *)
Inductive protocol_trace : list obs -> protocol_state -> Prop :=
| trace_nil : protocol_trace [] Idle
| trace_snoc l o st st' : protocol_trace l st -> protocol_step st o st' -> protocol_trace (l ++ [o]) st'.

Definition pending_state (v : loop_state) : protocol_state :=
  match pendingCompletion v with None => Idle | Some req => Owing req end.

Definition in_protocol s : Prop := protocol_trace (log s) (pending_state (vars s)).
Definition left_protocol (r : option error) s : Prop := exists st, protocol_trace (log s) st.

(** A block that keeps to the protocol. *)
Definition follows {A} (m : D W A) : Prop :=
  forall s, in_protocol s -> dwp m (fun _ => in_protocol) left_protocol s.

Lemma pending_not_granted v ja : pending_state v <> Granted ja.
Proof. unfold pending_state. by destruct (pendingCompletion v). Qed.

Lemma follows_bind {A B} (m : D W A) (k : A -> D W B) :
  follows m -> (forall a, follows (k a)) -> follows (m ≫= k).
Proof.
  intros Hm Hk s Hs. apply dwp_bind. eapply dwp_mono; [by apply Hm| |done]. intros a s' Hs'. by apply Hk.
Qed.
Lemma follows_ret {A} (a : A) : follows (mret a).
Proof. intros s Hs. by apply dwp_ret. Qed.
Lemma follows_return {A} r : follows (return_ (A := A) r).
Proof. intros s Hs. apply dwp_return. by eexists. Qed.
Lemma follows_ask {A} (f : W -> A * W) : follows (ask f).
Proof. intros s Hs. apply dwp_ask. by intros a w _. Qed.
Lemma follows_wait_obs d : follows (observe (ObsWait d)).
Proof.
  intros s Hs. apply dwp_observe. unfold in_protocol. simpl.
  eapply trace_snoc; [exact Hs|]. apply step_wait. apply pending_not_granted.
Qed.
Lemma follows_get : follows get_vars.
Proof. intros s Hs. by apply dwp_get_vars. Qed.
Lemma follows_modify f : (forall v, pendingCompletion (f v) = pendingCompletion v) -> follows (modify f).
Proof.
  intros Hf s Hs. apply dwp_modify. unfold in_protocol, pending_state in *. simpl. by rewrite Hf.
Qed.
Lemma follows_Do cl method url body what : ~ job_url url -> follows (Do cl method url body what).
Proof.
  intros Hu s Hs. unfold Do. destruct (NewRequest_error url); [by apply dwp_ret|].
  dsteps. unfold in_protocol. simpl. eapply trace_snoc; [exact Hs|].
  apply step_other; [apply pending_not_granted|exact Hu].
Qed.
#[local] Hint Resolve follows_ret follows_return follows_ask follows_wait_obs follows_get follows_Do : follows.

Ltac follows :=
  repeat first
    [ simple apply follows_bind; [|intros ?]
    | simple apply follows_modify; intros ?; reflexivity
    | solve [eauto 2 with follows]
    | match goal with |- follows (match ?x with _ => _ end) => destruct x eqn:? end
    | progress cbv zeta ].

Lemma follows_done : follows return_if_done.
Proof. unfold return_if_done. follows. Qed.
Lemma follows_wait d : follows (wait d).
Proof. unfold wait. follows. Qed.
Lemma follows_jitter : follows (jitter_call cfg).
Proof. unfold jitter_call. follows. Qed.
#[local] Hint Resolve follows_done follows_wait follows_jitter : follows.
Lemma follows_jittered d : follows (jittered cfg d).
Proof. unfold jittered. follows. Qed.
#[local] Hint Resolve follows_jittered : follows.
Lemma follows_client : follows (getClient cfg).
Proof. unfold getClient, buildCert. follows. Qed.
Lemma follows_failed err : follows (heartbeat_failed cfg err).
Proof. unfold heartbeat_failed. follows. Qed.
#[local] Hint Resolve follows_client follows_failed : follows.

(** The five endpoints of the controller have different addresses. *)
Definition endpoints_distinct : Prop :=
  NoDup (resolve cfg <$> [HeartbeatEndpointPath; InventoryEndpointPath; TelemetryEndpointPath;
                          AgentJobStartEndpointPath; AgentJobCompleteEndpointPath]).

Lemma distinct_not_job path :
  endpoints_distinct -> path ∈ [HeartbeatEndpointPath; InventoryEndpointPath; TelemetryEndpointPath] ->
  ~ job_url (resolve cfg path).
Proof.
  unfold endpoints_distinct. simpl. rewrite !NoDup_cons. intros (Hn1 & Hn2 & Hn3 & Hn4 & _) Hp Hj.
  unfold job_url in Hj. set_solver.
Qed.

Lemma distinct_job_urls :
  endpoints_distinct -> resolve cfg AgentJobStartEndpointPath <> resolve cfg AgentJobCompleteEndpointPath.
Proof.
  unfold endpoints_distinct. simpl. rewrite !NoDup_cons. intros (_ & _ & _ & Hn & _) E.
  apply Hn. rewrite E. apply list_elem_of_here.
Qed.

(** ** The blocks that move jobs *)

(** What the daemon owes once a report was answered. *)
Definition after_report (req : JobCompleteRequest) (err : option error) : protocol_state :=
  match err with
  | None => Idle
  | Some e => if IsPermanentError err then Owing req
              else if errors_Is e ErrJobConflict then Idle else Owing req
  end.

Lemma settles_after_report req r :
  (if settles r then Idle else Owing req) = after_report req (status_error job_reply r).
Proof.
  unfold settles, after_report. destruct (status_error job_reply r) as [err|]; [|done].
  by destruct (IsPermanentError (Some err)).
Qed.

(** Reporting an execution the daemon owes. *)
Lemma dwp_sendJobComplete cl req s (Q : option error -> Daemon W -> Prop) E :
  protocol_trace (log s) (Owing req) ->
  (forall err s', vars s' = vars s -> protocol_trace (log s') (after_report req err) -> Q err s') ->
  dwp (sendJobComplete cfg cl req) Q E s.
Proof.
  intros Ht HQ. unfold sendJobComplete. apply dwp_bind, dwp_Do.
  - intros ? _. apply dwp_ret. by apply HQ.
  - intros r w. apply dwp_ret, HQ; [done|]. rewrite <- settles_after_report.
    eapply trace_snoc; [exact Ht|]. by apply step_complete.
Qed.

(** The error handling that follows a report, in both places. *)
Lemma dwp_after_report {A} req err s (unsettled : D W A) (settled : D W A) :
  protocol_trace (log s) (after_report req err) ->
  (protocol_trace (log s) Idle -> dwp settled (fun _ => in_protocol) left_protocol s) ->
  (protocol_trace (log s) (Owing req) -> dwp unsettled (fun _ => in_protocol) left_protocol s) ->
  dwp (match err with
       | None => settled
       | Some e => if IsPermanentError err then return_ err
                   else if errors_Is e ErrJobConflict then settled else unsettled
       end) (fun _ => in_protocol) left_protocol s.
Proof.
  unfold after_report. intros Ht H1' H2'. destruct err as [e|]; [|by apply H1'].
  destruct (IsPermanentError (Some e)); [apply dwp_return; by eexists|].
  destruct (errors_Is e ErrJobConflict); auto.
Qed.

Lemma follows_flush cl : follows (flush_pending cfg cl).
Proof.
  intros s Hs. unfold flush_pending. apply dwp_bind, dwp_get_vars.
  destruct (pendingCompletion (vars s)) as [req|] eqn:Hp; [|by apply dwp_ret].
  apply dwp_bind, (dwp_sendJobComplete cl req).
  { unfold in_protocol, pending_state in Hs. by rewrite Hp in Hs. }
  intros err s' Hv Ht. eapply dwp_after_report; [exact Ht| |].
  - intros Hi. by apply dwp_modify.
  - intros Ho. apply dwp_ret. unfold in_protocol, pending_state. by rewrite Hv, Hp.
Qed.

Lemma execute_follows cl ja s :
  protocol_trace (log s) (Granted ja) -> pendingCompletion (vars s) = None ->
  dwp (execute_and_report cfg cl ja) (fun _ => in_protocol) left_protocol s.
Proof.
  intros Ht Hp. unfold execute_and_report. apply dwp_bind, dwp_ask. intros execErr w _.
  apply dwp_bind, dwp_observe. cbv zeta. apply dwp_bind. cbn [world log vars].
  apply dwp_sendJobComplete with (req := completion_of ja execErr);
    [eapply trace_snoc; [exact Ht|apply step_execute]|].
  intros err s' Hv Hs'. simpl in Hv. eapply dwp_after_report; [exact Hs'| |].
  - intros Hi. apply dwp_ret. unfold in_protocol, pending_state. by rewrite Hv, Hp.
  - intros Ho. by apply dwp_modify.
Qed.

Lemma follows_assignment cl a : follows (run_assignment cfg cl a).
Proof.
  intros s Hs. unfold run_assignment. apply dwp_bind, dwp_get_vars.
  destruct (pendingCompletion (vars s)) eqn:Hp; [by apply dwp_ret|].
  destruct a as [ja|]; [|by apply dwp_ret].
  destruct (ValidateJobAssignment (Some ja)) eqn:Hv; [apply dwp_return; by eexists|].
  assert (protocol_trace (log s) Idle) as Ht by (unfold in_protocol, pending_state in Hs; by rewrite Hp in Hs).
  unfold sendJobStart. apply dwp_bind, dwp_bind, dwp_Do.
  - intros ? _. apply dwp_ret. simpl. apply dwp_return. by eexists.
  - intros r w. apply dwp_ret.
    eapply trace_snoc in Ht; [|by apply (step_start ja (mkHttpRequest "POST" (resolve cfg AgentJobStartEndpointPath)
      (json_Marshal (mkJobStartRequest CurrentVersion (JA_JobID ja) (JA_Attempt ja))) cl) r)].
    unfold granted in Ht. destruct (status_error job_reply r) as [err|]; simpl in Ht.
    + destruct (IsPermanentError (Some err)); [apply dwp_return; by eexists|].
      apply dwp_ret. unfold in_protocol, pending_state. simpl. by rewrite Hp.
    + by apply execute_follows.
Qed.
#[local] Hint Resolve follows_flush follows_assignment : follows.

Lemma follows_inventory cl : endpoints_distinct -> follows (report_inventory cfg cl).
Proof.
  intros Hd. assert (~ job_url (resolve cfg InventoryEndpointPath)) by (apply distinct_not_job; set_solver).
  unfold report_inventory, sendInventory, interval_or. follows.
Qed.
Lemma follows_telemetry cl : endpoints_distinct -> follows (report_telemetry cfg cl).
Proof.
  intros Hd. assert (~ job_url (resolve cfg TelemetryEndpointPath)) by (apply distinct_not_job; set_solver).
  unfold report_telemetry, sendTelemetry. follows.
Qed.
#[local] Hint Resolve follows_inventory follows_telemetry : follows.

Lemma iteration_follows : endpoints_distinct -> follows (iteration cfg).
Proof.
  intros Hd. assert (~ job_url (resolve cfg HeartbeatEndpointPath)) by (apply distinct_not_job; set_solver).
  unfold iteration, sendHeartbeat. follows.
Qed.

(** A trace determines its last state up to the job of a grant, and can be cut. *)
Lemma trace_snoc_inv l o st :
  protocol_trace (l ++ [o]) st -> exists st0, protocol_trace l st0 /\ protocol_step st0 o st.
Proof.
  intros Ht. inversion Ht as [E|l' o' st1 st2 Hl Hs E1 E2]; [by destruct l|].
  apply app_inj_tail in E1 as [-> ->]. by exists st1.
Qed.

Lemma trace_app_inv l1 l2 st : protocol_trace (l1 ++ l2) st -> exists st', protocol_trace l1 st'.
Proof.
  revert st. induction l2 as [|o l2 IH] using rev_ind; intros st Ht.
  - rewrite app_nil_r in Ht. by exists st.
  - rewrite app_assoc in Ht. apply trace_snoc_inv in Ht as (st0 & Ht & _). by eapply IH.
Qed.

(** In a trace an execution comes right after the reply that granted it. *)
Lemma trace_execute l1 ja err l2 st :
  protocol_trace (l1 ++ ObsExecute ja err :: l2) st -> protocol_trace l1 (Granted ja).
Proof.
  rewrite cons_middle, app_assoc. intros [st1 Ht]%trace_app_inv.
  apply trace_snoc_inv in Ht as (st0 & Ht & Hs). by inversion Hs; subst.
Qed.

Lemma trace_granted l ja :
  protocol_trace l (Granted ja) ->
  exists l0 rq r, l = l0 ++ [ObsHttp rq r] /\ start_request ja rq /\ granted r = true
    /\ ValidateJobAssignment (Some ja) = None /\ protocol_trace l0 Idle.
Proof.
  intros Ht. remember (Granted ja) as g eqn:Hg. destruct Ht as [|l0 o st st' Hl Hs]; [done|].
  destruct Hs as [ja' rq r Hr Hv|ja' err|req rq r Hr|st rq r Hn Hu|st d Hn]; try done.
  - destruct (granted r) eqn:Eg; [|done]. injection Hg as ->. by exists l0, rq, r.
  - by destruct (settles r).
  - by destruct (Hn ja).
  - by destruct (Hn ja).
Qed.

Lemma granted_204 r : granted r = true -> exists resp, r = Ok resp /\ StatusCode resp = StatusNoContent.
Proof.
  unfold granted, status_error, job_reply. destruct r as [resp|]; [|done]. exists resp. split; [done|].
  repeat case_match; bsplit; try done.
Qed.

(** ** What a round is made of

    Every block is composed of reading the world in one of the eight ways of
    the interface, requests, observations that are no requests, and changes of
    the daemon's variables.  An invariant of the world and the log that these
    keep is kept by any number of rounds. *)

Inductive world_read : forall A, (W -> A * W) -> Prop :=
| read_ctx : world_read _ ctx_Err
| read_now : world_read _ time_Now
| read_rand : world_read _ rand_draw
| read_cert : world_read _ cert_error
| read_timer d : world_read _ (timer_fired d)
| read_collector : world_read _ (collector cfg)
| read_sampler t : world_read _ (sampler cfg t)
| read_executor a : world_read _ (executor cfg a).

Inductive built : forall A, D W A -> Prop :=
| built_ret A (a : A) : built A (mret a)
| built_return A r : built A (return_ r)
| built_get : built _ get_vars
| built_modify f : built _ (modify f)
| built_ask A (f : W -> A * W) : world_read A f -> built A (ask f)
| built_execute ja err : built _ (observe (ObsExecute ja err))
| built_wait d : built _ (observe (ObsWait d))
| built_Do cl method url body what : built _ (Do cl method url body what)
| built_bind A B (m : D W A) (k : A -> D W B) : built A m -> (forall a, built B (k a)) -> built B (m ≫= k).

Ltac built :=
  repeat first
    [ simple apply built_bind; [|intros ?]
    | solve [simple apply built_ret | simple apply built_return | simple apply built_get
            | simple apply built_modify | simple apply built_execute | simple apply built_wait
            | simple apply built_Do | simple apply built_ask; constructor]
    | solve [auto 1 with built]
    | match goal with |- built _ (match ?x with _ => _ end) => destruct x end
    | progress cbv zeta ].

Lemma built_done : built _ return_if_done.
Proof. unfold return_if_done. built. Qed.
Lemma built_wait_for d : built _ (wait d).
Proof. unfold wait. built. Qed.
Lemma built_jitter : built _ (jitter_call cfg).
Proof. unfold jitter_call. built. Qed.
#[local] Hint Resolve built_done built_wait_for built_jitter : built.
Lemma built_jittered d : built _ (jittered cfg d).
Proof. unfold jittered. built. Qed.
Lemma built_complete cl req : built _ (sendJobComplete cfg cl req).
Proof. unfold sendJobComplete. built. Qed.
#[local] Hint Resolve built_jittered built_complete : built.
Lemma built_client : built _ (getClient cfg).
Proof. unfold getClient, buildCert. built. Qed.
Lemma built_failed err : built _ (heartbeat_failed cfg err).
Proof. unfold heartbeat_failed. built. Qed.
Lemma built_flush cl : built _ (flush_pending cfg cl).
Proof. unfold flush_pending. built. Qed.
Lemma built_assignment cl a : built _ (run_assignment cfg cl a).
Proof. unfold run_assignment, execute_and_report, sendJobStart. built. Qed.
Lemma built_inventory cl : built _ (report_inventory cfg cl).
Proof. unfold report_inventory, sendInventory, interval_or. built. Qed.
Lemma built_telemetry cl : built _ (report_telemetry cfg cl).
Proof. unfold report_telemetry, sendTelemetry. built. Qed.
#[local] Hint Resolve built_client built_failed built_flush built_assignment built_inventory built_telemetry : built.
Lemma iteration_built : built _ (iteration cfg).
Proof. unfold iteration, sendHeartbeat. built. Qed.
Lemma run_built n : built _ (run cfg n).
Proof. induction n as [|n IH]; simpl; [apply built_ret|]. apply built_bind; [apply iteration_built|done]. Qed.

Section invariant.
Variable I : W -> list obs -> Prop.
Hypothesis I_read : forall A (f : W -> A * W) w l, world_read A f -> I w l -> I (f w).2 l.
Hypothesis I_http : forall rq w l, I w l -> I (client_Do rq w).2 (l ++ [ObsHttp rq (client_Do rq w).1]).
Hypothesis I_execute : forall ja err w l, I w l -> I w (l ++ [ObsExecute ja err]).
Hypothesis I_wait : forall d w l, I w l -> I w (l ++ [ObsWait d]).

Lemma built_invariant {A} (m : D W A) s : built A m -> I (world s) (log s) -> I (world (m s).2) (log (m s).2).
Proof.
  intros Hm. revert s. induction Hm as [A a|A r| |f|A f Hf|ja err|d|cl me url body what|A B m k _ IHm _ IHk];
    intros s Hs; simpl; auto.
  - unfold ask. pose proof (I_read _ f (world s) (log s) Hf Hs) as Hr. by destruct (f (world s)).
  - unfold Do. destruct (NewRequest_error url); [done|].
    unfold mbind, D_bind, ask. pose proof (I_http (mkHttpRequest me url body cl) _ _ Hs) as Hr. simpl.
    by destruct (client_Do _ (world s)).
  - unfold mbind, D_bind. specialize (IHm s Hs). destruct (m s) as [[a|r] s']; [|done]. by apply IHk.
Qed.
End invariant.
End daemon.
