(* ===== verification/PresenceTheorems.v ===== *)
(** * Theorems about the agent's daemon

    Stated for the log of a daemon that ran any number of rounds in any world;
    each is followed by its instance at the run of a scripted world, where one
    job is assigned, granted and executed, its report is lost once, and the
    report is sent again in the next round. *)

From Stdlib Require Import Floats.SpecFloat.
From S2P Require Import Prelude GoStrings Job Protocol Http JsonText JsonFacts JsonCoder Messages Backoff Presence PresenceSpec UuidHex.

Section properties.
Context `{UuidText}.
Context `{AgentWorld W} (cfg : presenceConfig W).

(** A daemon started in world [w], after [n] rounds. *)
Definition daemon (n : nat) (w : W) : (unit + option error) * Daemon W :=
  run cfg n (mkDaemon w [] initial_state).

Lemma daemon_trace n w :
  endpoints_distinct cfg ->
  exists st, protocol_trace cfg (log (daemon n w).2) st
    /\ ((daemon n w).1 = inl tt -> st = pending_state (vars (daemon n w).2)).
Proof.
  intros Hd. pose proof (run_invariant cfg (in_protocol cfg) (left_protocol cfg) n
    (mkDaemon w [] initial_state) (iteration_follows cfg Hd) (trace_nil cfg)) as Hr.
  unfold dwp in Hr. unfold daemon. destruct (run cfg n _) as [[[]|r] s']; simpl.
  - eexists. split; [exact Hr|done].
  - destruct Hr as [st Hst]. by exists st.
Qed.

(** C14: whatever the controller, the network and the host answer, what the
    daemon does is a trace of the job protocol: start one assigned job at a
    time, execute it exactly when the start was granted, then report until the
    report is settled; while it runs it knows what it still owes. *)
Theorem daemon_follows_protocol n w :
  endpoints_distinct cfg ->
  exists st, protocol_trace cfg (log (daemon n w).2) st
    /\ ((daemon n w).1 = inl tt -> st = pending_state (vars (daemon n w).2)).
Proof. apply daemon_trace. Qed.

(** The daemon executes a job only right after the controller answered
    204 to a start request for that job and attempt. *)
Theorem execute_needs_grant n w l1 ja err l2 :
  endpoints_distinct cfg -> log (daemon n w).2 = l1 ++ ObsExecute ja err :: l2 ->
  exists l0 rq resp, l1 = l0 ++ [ObsHttp rq (Ok resp)] /\ StatusCode resp = StatusNoContent
    /\ start_request cfg ja rq /\ ValidateJobAssignment (Some ja) = None.
Proof.
  intros Hd Hl. destruct (daemon_trace n w Hd) as (st & Ht & _). rewrite Hl in Ht.
  apply trace_execute, trace_granted in Ht as (l0 & rq & r & -> & Hs & Hg & Hv & _).
  apply granted_204 in Hg as (resp & -> & Hc). by exists l0, rq, resp.
Qed.

(** What happens until a report is settled. *)
Lemma owing_until_settled l1 req l2 rq r l3 st :
  endpoints_distinct cfg ->
  (forall st', protocol_trace cfg l1 st' -> st' = Owing req) ->
  protocol_trace cfg (l1 ++ l2 ++ ObsHttp rq r :: l3) st ->
  rq_URL rq = resolve cfg AgentJobStartEndpointPath ->
  exists rq' r', ObsHttp rq' r' ∈ l2 /\ complete_request cfg req rq' /\ settles r' = true.
Proof.
  intros Hd Ht Hall Hu.
  assert (forall k st', protocol_trace cfg (l1 ++ k) st' ->
    st' = Owing req \/ exists rq' r', ObsHttp rq' r' ∈ k /\ complete_request cfg req rq' /\ settles r' = true) as Hk.
  { induction k as [|o k IH] using rev_ind; intros st' Hst.
    - left. rewrite app_nil_r in Hst. by apply Ht.
    - rewrite app_assoc in Hst. apply trace_snoc_inv in Hst as (st0 & Hst0 & Hs).
      destruct (IH _ Hst0) as [->|(rq' & r' & Hin & ?)]; [|right; exists rq', r'; set_solver].
      inversion Hs; subst; auto. destruct (settles _) eqn:Es; [|by left]. right. set_solver. }
  rewrite cons_middle, !app_assoc in Hall. apply trace_app_inv in Hall as [st1 Hall].
  apply trace_snoc_inv in Hall as (st0 & Hst0 & Hs).
  destruct (Hk _ _ Hst0) as [->|?]; [|done].
  exfalso. inversion Hs as [| |req' rq' r' (_ & Hc & _)|st' rq' r' Hn Hj|]; subst.
  - apply (distinct_job_urls cfg Hd). congruence.
  - apply Hj. by left.
Qed.

(** After an execution no further start is requested before the
    controller has settled, with 204 or 409, the report of that execution. *)
Theorem reports_before_next_start n w l1 ja err l2 rq r l3 :
  endpoints_distinct cfg ->
  log (daemon n w).2 = l1 ++ ObsExecute ja err :: l2 ++ ObsHttp rq r :: l3 ->
  rq_URL rq = resolve cfg AgentJobStartEndpointPath ->
  exists rq' r', ObsHttp rq' r' ∈ l2 /\ complete_request cfg (completion_of ja err) rq' /\ settles r' = true.
Proof.
  intros Hd Hl Hu. destruct (daemon_trace n w Hd) as (st & Ht & _). rewrite Hl in Ht.
  rewrite cons_middle, app_assoc in Ht.
  eapply owing_until_settled; [done| |exact Ht|done].
  intros st' (st0 & _ & Hs)%trace_snoc_inv. by inversion Hs.
Qed.

(** C15: the daemon returns without an error only when its context says it has
    ended, and with an error only for a permanent one: no certificate could be
    made, a request could not be built, or the last thing it did was a request
    answered with a 4xx other than 429 (and than the 409 of a job's endpoint)
    or with a malformed assignment.  Other failures of any request never stop
    it. *)
Theorem daemon_exit n w r :
  (daemon n w).1 = inr r -> stops cfg r (daemon n w).2.
Proof.
  intros Hr. pose proof (run_invariant cfg (fun _ => True) (stops cfg) n (mkDaemon w [] initial_state)
    (fun s _ => iteration_exits cfg s) I) as Hg.
  unfold dwp in Hg. unfold daemon in *. destruct (run cfg n _) as [[[]|r'] s']; [done|].
  simpl in Hr. by injection Hr as ->.
Qed.

(** Whenever a round obtains a client, the client's certificate is still
    valid for the refresh margin, or has just been issued for an hour (less
    the fraction of a second X.509 cannot express). *)
Theorem client_certificate_valid s cl s' :
  client (cm (vars s)) = None
  \/ refreshAt (cm (vars s)) = certExpiresAt (cm (vars s)) - refresh_margin cfg
     /\ client (cm (vars s)) = Some (certExpiresAt (cm (vars s))) ->
  getClient cfg s = (inl (Ok cl), s') ->
  let now := (time_Now (world s)).1 in
  now < cl - Z.min (refresh_margin cfg) (DefaultCertLifetime - Second)
  /\ client (cm (vars s')) = Some cl /\ certExpiresAt (cm (vars s')) = cl
  /\ refreshAt (cm (vars s')) = cl - refresh_margin cfg.
Proof.
  intros Hinv Hrun now.
  assert (dwp (getClient cfg) (fun r s' => forall cl, r = Ok cl ->
    now < cl - Z.min (refresh_margin cfg) (DefaultCertLifetime - Second)
    /\ client (cm (vars s')) = Some cl /\ certExpiresAt (cm (vars s')) = cl
    /\ refreshAt (cm (vars s')) = cl - refresh_margin cfg) (fun _ _ => True) s) as Hw.
  { unfold getClient, buildCert. apply dwp_bind, dwp_ask. intros t w Ht. apply dwp_bind, dwp_get_vars.
    assert (now = t) as -> by (unfold now; by rewrite Ht). simpl.
    assert (t < (t + DefaultCertLifetime) / Second * Second
                - Z.min (refresh_margin cfg) (DefaultCertLifetime - Second)) as Hnew.
    { pose proof (Z.div_mod (t + DefaultCertLifetime) Second ltac:(done)).
      pose proof (Z.mod_pos_bound (t + DefaultCertLifetime) Second ltac:(done)). lia. }
    destruct (client (cm (vars s))) as [cl0|] eqn:Ec; [destruct (t <? _) eqn:El|].
    - apply dwp_ret. intros cl' [= <-]. bsplit. destruct Hinv as [?|[Hre [= Hcl]]]; [done|].
      rewrite <- Hcl in *. repeat split; try done. lia.
    - dsteps; [|done]. intros cl' [= <-]. destruct a; simplify_eq. by repeat split.
    - dsteps; [|done]. intros cl' [= <-]. destruct a; simplify_eq. by repeat split. }
  unfold dwp in Hw. rewrite Hrun in Hw. by apply Hw.
Qed.
End properties.

(** ** Instances at a scripted run *)

(** A world that answers requests from a script, one second per clock read. *)
Record script := mkScript { script_clock : Z; script_replies : list (result Response) }.

#[local] Instance script_world : AgentWorld script := {|
  ctx_Err w := (false, w);
  time_Now w := (script_clock w, mkScript (script_clock w + Second) (script_replies w));
  rand_draw w := (demo_draw, w);
  cert_error w := (None, w);
  NewRequest_error _ := None;
  client_Do _ w :=
    match script_replies w with
    | r :: rs => (r, mkScript (script_clock w) rs)
    | [] => (Err (errorString "connection refused"), w)
    end;
  timer_fired d w := (true, mkScript (script_clock w + d) (script_replies w));
|}.

Definition demo_assignment : JobAssignment := mkJobAssignment (hex_String 4005%N) 1 ActionAgentPing.

Definition demo_inventory : InventoryRequest :=
  mkInventoryRequest 2 "web-1" "debian" "Debian GNU/Linux" "13" "6.12.0" "amd64" 4 8589934592.
Definition demo_config : presenceConfig script :=
  defaultPresenceConfig (fun w => (Ok demo_inventory, w)) (fun _ w => (None, false, None, w))
    (String.append "https://controller").

(** A reply that carries the assignment, as the controller spells it. *)
Definition demo_reply : string :=
  quoting ("{'protocol_version':2,'job':{'job_id':'" +:+ hex_String 4005%N +:+ "','attempt':1,'action':'agent.ping'}}").

Example demo_reply_text : json_Decode demo_reply = Ok (mkHeartbeatResponse 2 (Some demo_assignment), "").
Proof. vm_compute. reflexivity. Qed.

Definition reply (code : Z) (body : string) : result Response := Ok (mkResponse code (mkBody body None)).
Definition lost : result Response := Err (errorString "i/o timeout").

(** Assigned, granted, executed, the report lost; reported again; assigned
    once more and refused; and a controller that is away. *)
Definition demo_script : script := mkScript 1700000000000000000
  [reply 200 demo_reply; reply 204 ""; lost; reply 204 "";
   reply 204 ""; reply 204 "";
   reply 200 demo_reply; reply 409 ""; lost].

Lemma demo_distinct : endpoints_distinct demo_config.
Proof. apply (bool_decide_unpack (NoDup _)). vm_compute. exact I. Qed.

Definition demo_log (n : nat) : list obs := log (daemon demo_config n demo_script).2.

(** What a run looks like: requests by path with the status of the reply. *)
Definition obs_text (o : obs) : string :=
  match o with
  | ObsHttp rq (Ok resp) => strings_TrimPrefix (rq_URL rq) "https://controller/api/v1/agent/"
      +:+ (if StatusCode resp =? 204 then " 204" else if StatusCode resp =? 200 then " 200" else " refused")
  | ObsHttp rq (Err _) => strings_TrimPrefix (rq_URL rq) "https://controller/api/v1/agent/" +:+ " lost"
  | ObsExecute _ _ => "execute"
  | ObsWait _ => "wait"
  end.

Example demo_run :
  obs_text <$> demo_log 4 =
    ["heartbeat 200"; "job/start 204"; "execute"; "job/complete lost"; "inventory 204"; "wait";
     "heartbeat 204"; "job/complete 204"; "wait";
     "heartbeat 200"; "job/start refused"; "wait"; "heartbeat lost"; "wait"].
Proof. vm_compute. reflexivity. Qed.

Lemma daemon_follows_protocol_witness :
  exists st, protocol_trace demo_config (demo_log 4) st.
Proof.
  destruct (daemon_follows_protocol demo_config 4 demo_script demo_distinct) as (st & Ht & _).
  exists st. exact Ht.
Defined.

Lemma execute_needs_grant_witness :
  exists l0 rq resp, take 2 (demo_log 1) = l0 ++ [ObsHttp rq (Ok resp)] /\ StatusCode resp = StatusNoContent.
Proof.
  assert (demo_log 1 = take 2 (demo_log 1) ++ ObsExecute demo_assignment None :: drop 3 (demo_log 1)) as Hl
    by (vm_compute; reflexivity).
  destruct (execute_needs_grant demo_config 1 demo_script _ _ _ _ demo_distinct Hl)
    as (l0 & rq & resp & E & Hc & _).
  exists l0, rq, resp. split; [exact E|exact Hc].
Defined.

Definition start_rq (n : nat) : HttpRequest :=
  match drop n (demo_log 4) with ObsHttp rq _ :: _ => rq | _ => mkHttpRequest "" "" "" 0 end.

Lemma reports_before_next_start_witness :
  exists rq' r', ObsHttp rq' r' ∈ take 7 (drop 3 (demo_log 4)) /\ settles r' = true.
Proof.
  assert (demo_log 4 = take 2 (demo_log 4) ++ ObsExecute demo_assignment None
    :: take 7 (drop 3 (demo_log 4)) ++ ObsHttp (start_rq 10) (reply 409 "") :: drop 11 (demo_log 4)) as Hl
    by (vm_compute; reflexivity).
  assert (rq_URL (start_rq 10) = resolve demo_config AgentJobStartEndpointPath) as Hu by (vm_compute; reflexivity).
  destruct (reports_before_next_start demo_config 4 demo_script _ _ _ _ _ _ _ demo_distinct Hl Hu)
    as (rq' & r' & Hin & _ & Hs).
  exists rq', r'. split; [exact Hin|exact Hs].
Defined.

(** A controller that rejects the certificate. *)
Definition rejecting : script := mkScript 1700000000000000000 [reply 401 ""].

Lemma daemon_exit_witness :
  (daemon demo_config 3 rejecting).1 = inr (Some ErrAuthRejected)
  /\ stops demo_config (Some ErrAuthRejected) (daemon demo_config 3 rejecting).2.
Proof.
  assert ((daemon demo_config 3 rejecting).1 = inr (Some ErrAuthRejected)) as Hr by (vm_compute; reflexivity).
  split; [exact Hr|]. exact (daemon_exit demo_config 3 rejecting _ Hr).
Defined.

Lemma client_certificate_valid_witness :
  exists cl s', getClient demo_config (mkDaemon demo_script [] initial_state) = (inl (Ok cl), s')
    /\ script_clock demo_script < cl - 600 * Second.
Proof.
  set (s := mkDaemon demo_script [] initial_state).
  assert (getClient demo_config s = (inl (Ok 1700003600000000000), (getClient demo_config s).2)) as Hr
    by (vm_compute; reflexivity).
  eexists _, _. split; [exact Hr|].
  exact (proj1 (client_certificate_valid demo_config s _ _ (or_introl eq_refl) Hr)).
Defined.
