(* ===== verification/Inventory.v ===== *)
(** * The inventory collector (src/internal/agent/inventory.go)

    The parsers of os-release and /proc/meminfo and the collector that puts an
    inventory together.  [sendInventory] is in Presence.v. *)

From S2P Require Import Prelude GoStrings Http Protocol Files.

Definition maxOSReleaseBytes : Z := 64 * 1024.
Definition maxKernelReleaseBytes : Z := 4 * 1024.
Definition maxMeminfoBytes : Z := 128 * 1024.

Definition bufio_ErrTooLong : error := sentinel "bufio.ErrTooLong".

Definition quote : ascii := "034".
Definition apostrophe : ascii := "039".
Definition backslash : ascii := "092".

(** ** os-release *)

(** After a closing quote: nothing, or a comment. *)
Definition trailing_ok (rest : bytes) : bool :=
  let rest := strings_TrimSpace (string_of rest) in
  String.eqb rest "" || strings_HasPrefix rest "#".

Definition unclosed_double : error := errorString "unclosed double quote in os-release value".
Definition unclosed_single : error := errorString "unclosed single quote in os-release value".
Definition trailing_characters : error :=
  errorString "trailing characters after closing quote in os-release value".

(** The text after the opening quote. *)
Fixpoint double_quoted (l : bytes) (escaped : bool) : result bytes :=
  match l with
  | [] => Err unclosed_double
  | b :: l' =>
      if escaped then
        content ← double_quoted l' false;
        Ok (if Ascii.eqb b quote || Ascii.eqb b backslash then b :: content else backslash :: b :: content)
      else if Ascii.eqb b backslash then double_quoted l' true
      else if Ascii.eqb b quote then
        fail_if negb (trailing_ok l') with trailing_characters else Ok []
      else
        content ← double_quoted l' false;
        Ok (b :: content)
  end.

Definition single_quoted (l : bytes) : result bytes :=
  match IndexByte l apostrophe with
  | None => Err unclosed_single
  | Some fin =>
      fail_if negb (trailing_ok (drop (S fin) l)) with trailing_characters else Ok (take fin l)
  end.

Definition parseOSReleaseValue (raw : string) : result string :=
  let raw := strings_TrimSpace raw in
  match bytes_of raw with
  | [] => Ok ""
  | b :: l =>
      if Ascii.eqb b quote then
        fail_if len raw <? 2 with unclosed_double else
        content ← double_quoted l false; Ok (string_of content)
      else if Ascii.eqb b apostrophe then
        fail_if len raw <? 2 with unclosed_single else
        content ← single_quoted l; Ok (string_of content)
      else
        match IndexByte (b :: l) "#"%char with
        | Some idx => Ok (strings_TrimSpace (string_of (take idx (b :: l))))
        | None => Ok raw
        end
  end.

Record os_fields := mkOSFields { osID : string; osName : string; osVersion : string; versionFallback : string }.

Section inventory.
Context `{UnicodeTables}.

Definition assign_os_field (key val : string) (f : os_fields) : os_fields :=
  let v := strings_TrimSpace val in
  if String.eqb key "ID" then mkOSFields (strings_ToLower v) (osName f) (osVersion f) (versionFallback f)
  else if String.eqb key "NAME" then mkOSFields (osID f) v (osVersion f) (versionFallback f)
  else if String.eqb key "VERSION_ID" then mkOSFields (osID f) (osName f) v (versionFallback f)
  else if String.eqb key "VERSION" then mkOSFields (osID f) (osName f) (osVersion f) v
  else f.

Fixpoint scan_os_release (lines : list string) (f : os_fields) : result os_fields :=
  match lines with
  | [] => Ok f
  | text :: lines' =>
      let line := strings_TrimSpace text in
      if String.eqb line "" || strings_HasPrefix line "#" then scan_os_release lines' f else
      match cut_byte (bytes_of line) "="%char with
      | None => scan_os_release lines' f
      | Some (key, val) =>
          match parseOSReleaseValue (string_of val) with
          | Err pErr => Err (wrapError "failed to parse os-release key" pErr)
          | Ok parsedVal =>
              scan_os_release lines' (assign_os_field (strings_TrimSpace (string_of key)) parsedVal f)
          end
      end
  end.

Definition parseOSRelease (data : string) : result (string * string * string) :=
  let '(lines, ok) := scan_lines data in
  f ← scan_os_release lines (mkOSFields "" "" "" "");
  fail_if negb ok with bufio_ErrTooLong else
  let version := if String.eqb (osVersion f) "" then versionFallback f else osVersion f in
  fail_if String.eqb (osID f) "" with errorString "os-release missing ID field" else
  fail_if String.eqb (osName f) "" with errorString "os-release missing NAME field" else
  Ok (osID f, osName f, version).

(** The first of the files that exists. *)
Fixpoint first_existing (fs : FileSystem) (paths : list string) : result string :=
  match paths with
  | [] => Err (errorString "neither /etc/os-release nor fallback found")
  | p :: paths' =>
      match readBoundedFile fs p maxOSReleaseBytes with
      | Ok b => Ok b
      | Err rErr => if errors_Is rErr os_ErrNotExist then first_existing fs paths' else Err rErr
      end
  end.

Definition readOSRelease (fs : FileSystem) (paths : list string) : result (string * string * string) :=
  data ← first_existing fs paths; parseOSRelease data.

(** ** The kernel release and the memory *)

Definition readKernelRelease (fs : FileSystem) (path : string) : result string :=
  data ← readBoundedFile fs path maxKernelReleaseBytes;
  let release := strings_TrimSpace data in
  fail_if String.eqb release "" with errorString "kernel release is empty" else
  Ok release.

Definition memtotal_bytes (line : string) : result Z :=
  let fields := strings_Fields line in
  fail_if negb (length fields =? 3)%nat with errorString "invalid MemTotal line format" else
  fail_if negb (String.eqb (nth 2 fields "") "kB") with errorString "invalid MemTotal unit" else
  match strconv_ParseInt (nth 1 fields "") with
  | inr _ => Err (errorString "invalid MemTotal integer")
  | inl kb =>
      fail_if kb <=? 0 with errorString "invalid MemTotal value" else
      fail_if MaxInt64 / 1024 <? kb with errorString "MemTotal value causes int64 overflow" else
      Ok (int64 (kb * 1024))
  end.

(** The first MemTotal line decides; [ok] is how the scan of the lines ended. *)
Fixpoint scan_memtotal (lines : list string) (ok : bool) : result Z :=
  match lines with
  | [] => fail_if negb ok with bufio_ErrTooLong else Err (errorString "MemTotal not found in meminfo")
  | text :: lines' =>
      let line := strings_TrimSpace text in
      if strings_HasPrefix line "MemTotal:" then memtotal_bytes line else scan_memtotal lines' ok
  end.

Definition parseMeminfoTotal (data : string) : result Z :=
  let '(lines, ok) := scan_lines data in scan_memtotal lines ok.

Definition readMeminfoTotal (fs : FileSystem) (path : string) : result Z :=
  data ← readBoundedFile fs path maxMeminfoBytes; parseMeminfoTotal data.

(** ** The collector *)

Record inventoryCollectorConfig := mkCollectorConfig {
  osReleasePaths : list string;
  kernelReleasePath : string;
  inv_meminfoPath : string;
  hostnameFunc : result string;
  numCPUFunc : Z;
  arch : string;
}.

Definition defaultCollectorConfig (hostname : result string) (cpus : Z) (goarch : string) : inventoryCollectorConfig :=
  mkCollectorConfig ["/etc/os-release"; "/usr/lib/os-release"] "/proc/sys/kernel/osrelease" "/proc/meminfo"
    hostname cpus goarch.

(** [fmt.Errorf("...: %w", err)] around a call. *)
Definition wrapping {A} (msg : string) (r : result A) : result A :=
  match r with Ok a => Ok a | Err err => Err (wrapError msg err) end.

Definition collectInventoryWithConfig (fs : FileSystem) (cfg : inventoryCollectorConfig) : result InventoryRequest :=
  hostname ← wrapping "failed to collect hostname" (hostnameFunc cfg);
  fail_if String.eqb (strings_TrimSpace hostname) "" with errorString "hostname is empty" else
  let hostname := strings_TrimSpace hostname in
  os ← wrapping "failed to read os-release" (readOSRelease fs (osReleasePaths cfg));
  kernelRelease ← wrapping "failed to read kernel release" (readKernelRelease fs (kernelReleasePath cfg));
  memBytes ← wrapping "failed to read memory total" (readMeminfoTotal fs (inv_meminfoPath cfg));
  let cores := numCPUFunc cfg in
  fail_if cores <=? 0 with errorString "invalid cpu count: <= 0" else
  let arch := strings_TrimSpace (arch cfg) in
  fail_if String.eqb arch "" with errorString "architecture is empty" else
  let '(osID, osName, osVersion) := os in
  let req := mkInventoryRequest CurrentVersion hostname osID osName osVersion kernelRelease arch cores memBytes in
  check ValidateInventoryRequest (Some req) as err
    with wrapError "collected inventory violates wire invariants" err else
  Ok req.
End inventory.
