(* ===== verification/Telemetry.v ===== *)
(** * The telemetry sampler (src/internal/agent/telemetry_linux.go)

    The readers of /proc and of the root file system, with the counters at
    their width, and the sampler with its state.  One call of [Sample] reads
    each file at most once: its files are one [FileSystem]. *)

From S2P Require Import Prelude GoStrings Http Protocol Files Inventory GoFloat.

Definition maxCPUStatLineBytes : Z := 4 * 1024.
Definition maxLoadavgBytes : Z := 4 * 1024.
Definition maxUptimeBytes : Z := 4 * 1024.
Definition maxNetDevBytes : Z := 256 * 1024.

(** ** /proc/stat *)

Definition readCPUStatFirstLine (fs : FileSystem) (path : string) (maxLineBytes : Z) : result string :=
  match fs path with
  | Err err => Err err
  | Ok f =>
      match read_line_limit (maxLineBytes + 1) f with
      | Err err => Err err
      | Ok line =>
          fail_if maxLineBytes <? len line
            with errorString "aggregate cpu line exceeds maximum allowed size" else
          let trimmed := strings_TrimRight line (String "013" (String "010" "")) in
          fail_if String.eqb trimmed "" with errorString "empty /proc/stat file" else
          Ok trimmed
      end
  end.

(** The i-th counter of a line, which must be there ... *)
Definition counter (fields : list string) (i : nat) (msg : string) : result Z :=
  match strconv_ParseUint (nth i fields "") 10 64 with
  | inr _ => Err (errorString msg)
  | inl v => Ok v
  end.

(** ... or is zero when the line is shorter. *)
Definition optional_counter (fields : list string) (i : nat) (msg : string) : result Z :=
  if (i <? length fields)%nat then counter fields i msg else Ok 0.

(** [s := a + b] on uint64, an overflow being recognised by [s < low]. *)
Definition checked_sum (a b low : Z) (msg : string) : result Z :=
  let s := uint64 (a + b) in
  fail_if s <? low with errorString msg else Ok s.

Record cpu_counters := mkCPUCounters {
  cpu_user : Z;
  cpu_nice : Z;
  cpu_system : Z;
  cpu_idleVal : Z;
  cpu_iowait : Z;
  cpu_irq : Z;
  cpu_softirq : Z;
  cpu_steal : Z;
}.

Definition parse_cpu_line (line : string) : result cpu_counters :=
  fail_if negb (strings_HasPrefix line "cpu ")
    with errorString "aggregate cpu line not found in /proc/stat" else
  let fields := strings_Fields line in
  fail_if (length fields <? 5)%nat
    with errorString "malformed cpu line in /proc/stat: insufficient fields" else
  user ← counter fields 1 "invalid cpu user counter";
  nice ← counter fields 2 "invalid cpu nice counter";
  system ← counter fields 3 "invalid cpu system counter";
  idleVal ← counter fields 4 "invalid cpu idle counter";
  iowait ← optional_counter fields 5 "invalid cpu iowait counter";
  irq ← optional_counter fields 6 "invalid cpu irq counter";
  softirq ← optional_counter fields 7 "invalid cpu softirq counter";
  steal ← optional_counter fields 8 "invalid cpu steal counter";
  Ok (mkCPUCounters user nice system idleVal iowait irq softirq steal).

(** Total and idle time; the guest counters are part of user and nice. *)
Definition sum_cpu_counters (c : cpu_counters) : result (Z * Z) :=
  idleAll ← checked_sum (cpu_idleVal c) (cpu_iowait c) (cpu_idleVal c) "cpu idle counter overflow";
  nonIdle ← checked_sum (cpu_user c) (cpu_nice c) (cpu_user c) "cpu user/nice counter overflow";
  nonIdle ← checked_sum nonIdle (cpu_system c) (cpu_system c) "cpu system counter overflow";
  nonIdle ← checked_sum nonIdle (cpu_irq c) (cpu_irq c) "cpu irq counter overflow";
  nonIdle ← checked_sum nonIdle (cpu_softirq c) (cpu_softirq c) "cpu softirq counter overflow";
  nonIdle ← checked_sum nonIdle (cpu_steal c) (cpu_steal c) "cpu steal counter overflow";
  totalVal ← checked_sum idleAll nonIdle idleAll "cpu total counter overflow";
  Ok (totalVal, idleAll).

Definition readProcStatCPU (fs : FileSystem) (path : string) : result (Z * Z) :=
  line ← readCPUStatFirstLine fs path maxCPUStatLineBytes;
  counters ← parse_cpu_line line;
  sum_cpu_counters counters.

(** ** /proc/meminfo *)

(** The value of a [Key: n kB] line in bytes, at least [lowest] kB. *)
Definition meminfo_bytes (key : string) (lowest : Z) (line : string) : result Z :=
  let fields := strings_Fields line in
  fail_if negb (length fields =? 3)%nat || negb (String.eqb (nth 0 fields "") key)
          || negb (String.eqb (nth 2 fields "") "kB")
    with errorString "malformed line in /proc/meminfo" else
  match strconv_ParseInt (nth 1 fields "") with
  | inr _ => Err (errorString "invalid integer")
  | inl kb =>
      fail_if kb <? lowest with errorString "invalid value" else
      fail_if MaxInt64 / 1024 <? kb with errorString "value causes int64 overflow" else
      Ok (int64 (kb * 1024))
  end.

(** [hasTotal] and [totalBytes] are an option here, as are the other two. *)
Fixpoint scan_meminfo (lines : list string) (total avail : option Z) : result (option Z * option Z) :=
  match lines with
  | [] => Ok (total, avail)
  | line :: lines' =>
      if strings_HasPrefix line "MemTotal:" then
        bytes ← meminfo_bytes "MemTotal:" 1 line;
        scan_meminfo lines' (Some bytes) avail
      else if strings_HasPrefix line "MemAvailable:" then
        bytes ← meminfo_bytes "MemAvailable:" 0 line;
        scan_meminfo lines' total (Some bytes)
      else scan_meminfo lines' total avail
  end.

Definition readProcMeminfo (fs : FileSystem) (path : string) : result (Z * Z * Z) :=
  data ← readBoundedFile fs path maxMeminfoBytes;
  let '(lines, ok) := scan_lines data in
  scanned ← scan_meminfo lines None None;
  fail_if negb ok with bufio_ErrTooLong else
  match scanned with
  | (None, _) => Err (errorString "MemTotal not found in /proc/meminfo")
  | (_, None) => Err (errorString "MemAvailable not found in /proc/meminfo")
  | (Some totalBytes, Some availBytes) =>
      fail_if totalBytes <? availBytes
        with errorString "MemAvailable exceeds MemTotal in /proc/meminfo" else
      let usedBytes := int64 (totalBytes - availBytes) in
      Ok (totalBytes, usedBytes, availBytes)
  end.

(** ** /proc/loadavg and /proc/uptime *)

Section floats.
Context `{UnicodeTables}.

(** The checks before a number is parsed and after. *)
Definition unsigned_finite (s : string) : option error :=
  fail_if strings_Contains s "-" || strings_Contains s "+" with errorString "signed value";
  let lower := strings_ToLower s in
  fail_if strings_Contains lower "nan" || strings_Contains lower "inf" with errorString "non-finite value";
  None.

Definition out_of_bounds (f : float64) (limit : Z) : bool :=
  math_IsNaN f || math_IsInf f || negative f || exceeds limit f.

Definition parseLoadMilli (s : string) : result Z :=
  check unsigned_finite s as err with err else
  match strconv_ParseFloat s with
  | inr _ => Err (errorString "invalid load average format")
  | inl f =>
      fail_if out_of_bounds f 9223372036854000 with errorString "load average out of bounds" else
      let milli := int64_Round (float64_times 1000 f) in
      fail_if milli <? 0 with errorString "negative load average" else
      Ok milli
  end.

Definition readProcLoadavg (fs : FileSystem) (path : string) : result (Z * Z * Z) :=
  data ← readBoundedFile fs path maxLoadavgBytes;
  let fields := strings_Fields data in
  fail_if (length fields <? 3)%nat with errorString "insufficient fields in /proc/loadavg" else
  l1 ← parseLoadMilli (nth 0 fields "");
  l5 ← parseLoadMilli (nth 1 fields "");
  l15 ← parseLoadMilli (nth 2 fields "");
  Ok (l1, l5, l15).

Definition parse_uptime (token : string) : result Z :=
  check unsigned_finite token as err with err else
  match strconv_ParseFloat token with
  | inr _ => Err (errorString "invalid uptime format")
  | inl f =>
      fail_if out_of_bounds f 9223372036854774784 with errorString "uptime out of bounds" else
      let sec := int64_Floor f in
      fail_if sec <? 0 with errorString "negative uptime" else
      Ok sec
  end.

Definition readProcUptime (fs : FileSystem) (path : string) : result Z :=
  data ← readBoundedFile fs path maxUptimeBytes;
  match strings_Fields data with
  | [] => Err (errorString "empty /proc/uptime")
  | token :: _ => parse_uptime token
  end.
End floats.

(** ** The root file system *)

Record Statfs := mkStatfs { st_blocks : Z; st_bfree : Z; st_bavail : Z; st_bsize : Z }.

Definition readRootFS (statfs : result Statfs) : result (Z * Z * Z) :=
  match statfs with
  | Err err => Err (wrapError "statfs failed" err)
  | Ok (mkStatfs blocks bfree bavail bsize) =>
      fail_if bsize =? 0 with errorString "statfs returned zero block size" else
      fail_if blocks =? 0 with errorString "statfs returned zero total blocks" else
      fail_if MaxInt64 / bsize <? blocks with errorString "statfs total blocks overflow" else
      fail_if blocks <? bfree with errorString "statfs free blocks exceed total blocks" else
      fail_if bfree <? bavail with errorString "statfs available blocks exceed free blocks" else
      let totalBytes := int64 (uint64 (blocks * bsize)) in
      let freeBytes := int64 (uint64 (bfree * bsize)) in
      let availableBytes := int64 (uint64 (bavail * bsize)) in
      let usedBytes := int64 (totalBytes - freeBytes) in
      fail_if (totalBytes <=? 0) || (usedBytes <? 0) || (totalBytes <? usedBytes) || (availableBytes <? 0)
              || (int64 (totalBytes - usedBytes) <? availableBytes)
        with errorString "invalid filesystem byte calculations" else
      Ok (totalBytes, usedBytes, availableBytes)
  end.

(** ** /proc/net/dev *)

(** What a line adds: nothing without a colon or for the loopback. *)
Definition netdev_line (line : string) : result (option (Z * Z)) :=
  match cut_byte (bytes_of line) ":"%char with
  | None => Ok None
  | Some (iface, rest) =>
      if String.eqb (strings_TrimSpace (string_of iface)) "lo" then Ok None else
      let fields := strings_Fields (strings_TrimSpace (string_of rest)) in
      fail_if (length fields <? 9)%nat with errorString "malformed network statistics line" else
      rx ← counter fields 0 "invalid network receive counter";
      tx ← counter fields 8 "invalid network transmit counter";
      Ok (Some (rx, tx))
  end.

Fixpoint scan_netdev (lines : list string) (rxTotal txTotal : Z) : result (Z * Z) :=
  match lines with
  | [] => Ok (rxTotal, txTotal)
  | line :: lines' =>
      found ← netdev_line line;
      match found with
      | None => scan_netdev lines' rxTotal txTotal
      | Some (rx, tx) =>
          fail_if (uint64 (MaxInt64 - rxTotal) <? rx) || (uint64 (MaxInt64 - txTotal) <? tx)
            with errorString "network byte counter overflow" else
          scan_netdev lines' (uint64 (rxTotal + rx)) (uint64 (txTotal + tx))
      end
  end.

Definition readProcNetDev (fs : FileSystem) (path : string) : result (Z * Z) :=
  data ← readBoundedFile fs path maxNetDevBytes;
  let '(lines, ok) := scan_lines data in
  totals ← scan_netdev lines 0 0;
  fail_if negb ok with bufio_ErrTooLong else
  Ok (int64 totals.1, int64 totals.2).

(** ** The sampler *)

Record linuxSamplerConfig := mkSamplerConfig {
  statPath : string;
  meminfoPath : string;
  loadavgPath : string;
  uptimePath : string;
  netdevPath : string;
}.

Definition defaultLinuxSamplerConfig : linuxSamplerConfig :=
  mkSamplerConfig "/proc/stat" "/proc/meminfo" "/proc/loadavg" "/proc/uptime" "/proc/net/dev".

Record linuxSampler := mkSampler {
  hasCPUBaseline : bool;
  lastCPUTotal : Z;
  lastCPUIdle : Z;
  lastCPUTime : Z;
}.

Definition newLinuxSampler : linuxSampler := mkSampler false 0 0 0.

(** [now.Sub(t)] saturates. *)
Definition time_Sub (now t : Z) : Z := Z.max (- 2 ^ 63) (Z.min MaxInt64 (now - t)).
Definition Milliseconds (d : Z) : Z := Z.quot d Millisecond.

(** The share of busy time in basis points: the product is computed with
    arbitrary precision when it does not fit 64 bits. *)
Definition cpuBasisPoints (busyDelta totalDelta : Z) : Z :=
  let points :=
    if MaxUint64 / 10000 <? busyDelta then int64 (busyDelta * 10000 / totalDelta)
    else int64 (uint64 (busyDelta * 10000) / totalDelta) in
  let points := if points <? 0 then 0 else points in
  if 10000 <? points then 10000 else points.

Definition sampled : Type := option TelemetryRequest * bool * option error.
Definition no_sample : sampled := (None, false, None).
Definition sample_error (err : error) : sampled := (None, false, Some err).

Section sampler.
Context `{UnicodeTables}.

(** The rest of a sample, after the baseline has moved. *)
Definition collect (cfg : linuxSamplerConfig) (fs : FileSystem) (statfs : result Statfs)
    (cpu window : Z) : result TelemetryRequest :=
  mem ← readProcMeminfo fs (meminfoPath cfg);
  load ← readProcLoadavg fs (loadavgPath cfg);
  root ← readRootFS statfs;
  net ← readProcNetDev fs (netdevPath cfg);
  uptimeSec ← readProcUptime fs (uptimePath cfg);
  let '(memTotal, memUsed, memAvail) := mem in
  let '(load1, load5, load15) := load in
  let '(fsTotal, fsUsed, fsAvail) := root in
  let '(netRX, netTX) := net in
  let req := mkTelemetryRequest CurrentVersion cpu memTotal memUsed memAvail load1 load5 load15
               fsTotal fsUsed fsAvail netRX netTX uptimeSec window in
  check ValidateTelemetryRequest (Some req) as err with wrapError "local telemetry validation failed" err else
  Ok req.

Definition Sample (cfg : linuxSamplerConfig) (fs : FileSystem) (statfs : result Statfs)
    (s : linuxSampler) (now : Z) : sampled * linuxSampler :=
  match readProcStatCPU fs (statPath cfg) with
  | Err err => (sample_error err, s)
  | Ok (curTotal, curIdle) =>
      let baseline := mkSampler true curTotal curIdle now in
      if negb (hasCPUBaseline s) then (no_sample, baseline) else
      let sampleWindowMS := Milliseconds (time_Sub now (lastCPUTime s)) in
      if (sampleWindowMS <? 1) || (300000 <? sampleWindowMS) || (curTotal <? lastCPUTotal s)
         || (curIdle <? lastCPUIdle s) || (curTotal =? lastCPUTotal s)
      then (no_sample, baseline) else
      let totalDelta := uint64 (curTotal - lastCPUTotal s) in
      let idleDelta := uint64 (curIdle - lastCPUIdle s) in
      if totalDelta <? idleDelta then (no_sample, baseline) else
      let busyDelta := uint64 (totalDelta - idleDelta) in
      match collect cfg fs statfs (cpuBasisPoints busyDelta totalDelta) sampleWindowMS with
      | Err err => (sample_error err, baseline)
      | Ok req => ((Some req, true, None), baseline)
      end
  end.
End sampler.
