(* ===== verification/InventoryTheorems.v ===== *)
(** * What the inventory readers guarantee

    Values written with the quoting of os-release are read back, and the two
    readers of /proc/meminfo agree. *)

From S2P Require Import Prelude GoStrings RuneFacts Http Protocol Files Inventory GoFloat Telemetry.

(** ** Quoting of os-release values *)

(** The writer's side: a backslash before each quote and each backslash. *)
Definition escape (l : bytes) : bytes :=
  concat ((fun b => if Ascii.eqb b quote || Ascii.eqb b backslash then [backslash; b] else [b]) <$> l).

Definition quoted (s : string) : string := string_of (quote :: escape (bytes_of s) ++ [quote]).

Lemma os_escape_cons b l :
  escape (b :: l) = (if Ascii.eqb b quote || Ascii.eqb b backslash then [backslash; b] else [b]) ++ escape l.
Proof. done. Qed.

Lemma double_quoted_escape l rest :
  trailing_ok rest = true -> double_quoted (escape l ++ quote :: rest) false = Ok l.
Proof.
  intros Hr. induction l as [|b l IH]; [cbn; by rewrite Hr|]. rewrite os_escape_cons.
  destruct (Ascii.eqb b quote || Ascii.eqb b backslash) eqn:E; cbn [app double_quoted].
  - change (Ascii.eqb backslash backslash) with true. cbv iota. rewrite IH. cbn. by rewrite E.
  - apply orb_false_elim in E as [Eq Eb]. rewrite Eb, Eq, IH. done.
Qed.

Lemma quote_visible : byte_val quote < 128 /\ unicode_IsSpace (byte_val quote) = false.
Proof. by vm_compute. Qed.

Lemma parse_quoted s : parseOSReleaseValue (quoted s) = Ok s.
Proof.
  destruct quote_visible as [Ha Hs]. unfold parseOSReleaseValue, quoted.
  rewrite TrimSpace_between, bytes_of_string_of by done.
  change (Ascii.eqb quote quote) with true. cbv iota.
  assert ((len (string_of (quote :: escape (bytes_of s) ++ [quote])) <? 2) = false) as ->.
  { apply Z.ltb_ge. unfold len. rewrite string_length_of. cbn [length]. rewrite length_app. simpl. lia. }
  rewrite double_quoted_escape by done. simpl. by rewrite string_of_bytes_of.
Qed.

(** *** A file of quoted fields *)

Definition newline : string := String "010" "".

Definition field_line (key value : string) : string := key +:+ "=" +:+ quoted value.

Definition render_os_release (id name version : string) : string :=
  field_line "ID" id +:+ newline +:+ field_line "NAME" name +:+ newline
  +:+ field_line "VERSION_ID" version +:+ newline.

(** A value that can stand in a field: one line, not too long, trimmed. *)
Definition field_value (s : string) : Prop :=
  ("010"%char ∉ bytes_of s) /\ len s <= 16384 /\ strings_TrimSpace s = s.

Lemma escape_length l : (length (escape l) <= 2 * length l)%nat.
Proof.
  induction l as [|b l IH]; [done|]. rewrite os_escape_cons, length_app.
  destruct (_ || _); simpl in *; lia.
Qed.

Lemma escape_no_newline l : "010"%char ∉ l -> "010"%char ∉ escape l.
Proof.
  intros Hl Hin. apply list_elem_of_In in Hin. unfold escape in Hin. apply in_concat in Hin as (c & Hc & Hin).
  apply list_elem_of_In, list_elem_of_fmap in Hc as (b & -> & Hb).
  destruct (_ || _) eqn:E; simpl in Hin.
  - destruct Hin as [Hin|[Hin|[]]]; [discriminate|by subst b].
  - destruct Hin as [Hin|[]]. by subst b.
Qed.

Lemma quoted_bytes s : bytes_of (quoted s) = quote :: escape (bytes_of s) ++ [quote].
Proof. apply bytes_of_string_of. Qed.

Lemma quoted_line s : field_value s ->
  ("010"%char ∉ bytes_of (quoted s)) /\ Z.of_nat (length (bytes_of (quoted s))) <= 32770.
Proof.
  intros (Hn & Hl & _). split.
  - rewrite quoted_bytes. pose proof (escape_no_newline _ Hn). intros [Hq|[?|Hq]%elem_of_app]%elem_of_cons; [discriminate|done|].
    by apply list_elem_of_singleton in Hq.
  - pose proof (escape_length (bytes_of s)). unfold len in Hl. rewrite <- length_bytes_of in Hl.
    rewrite quoted_bytes. cbn [length]. rewrite length_app. cbn [length]. lia.
Qed.

Lemma drop_cr_quote l : drop_cr (l ++ [quote]) = l ++ [quote].
Proof. unfold drop_cr. by rewrite rev_app_distr. Qed.

(** The scanner and one line of the file. *)
Lemma split_byte_not_nil sep acc l : split_byte sep acc l <> [].
Proof. revert acc. induction l as [|b l IH]; intros acc; [done|]. simpl. by destruct (Ascii.eqb b sep). Qed.

Lemma scan_until_long_cons l ls :
  ls <> [] -> (length l < MaxScanTokenSize)%nat ->
  scan_until_long (l :: ls) = let '(rest, ok) := scan_until_long ls in (string_of (drop_cr l) :: rest, ok).
Proof.
  intros Hls Hl. simpl. destruct ls as [|l2 ls]; [done|]. by rewrite (proj2 (Nat.ltb_lt _ _) Hl).
Qed.

Lemma field_line_bytes key value :
  bytes_of (field_line key value) = bytes_of key ++ "="%char :: bytes_of (quoted value).
Proof. unfold field_line. by rewrite !bytes_of_app. Qed.

Lemma field_line_scans key value rest :
  field_value value -> "010"%char ∉ bytes_of key -> Z.of_nat (length (bytes_of key)) <= 100 ->
  scan_until_long (split_byte "010"%char [] (bytes_of (field_line key value +:+ newline) ++ rest))
  = let '(ls, ok) := scan_until_long (split_byte "010"%char [] rest) in (field_line key value :: ls, ok).
Proof.
  intros Hv Hk Hlen. destruct (quoted_line value Hv) as [Hq Hql].
  rewrite bytes_of_app, <- app_assoc. change (bytes_of newline ++ rest) with ("010"%char :: rest).
  rewrite split_byte_cons.
  2:{ rewrite field_line_bytes. intros [?|[?|?]%elem_of_cons]%elem_of_app; [done|discriminate|done]. }
  cbn [rev app]. rewrite scan_until_long_cons.
  - assert (string_of (drop_cr (bytes_of (field_line key value))) = field_line key value) as ->; [|done].
    rewrite field_line_bytes, quoted_bytes. rewrite !app_comm_cons, app_assoc, drop_cr_quote.
    rewrite <- app_assoc, <- !app_comm_cons, <- quoted_bytes, <- field_line_bytes. apply string_of_bytes_of.
  - apply split_byte_not_nil.
  - rewrite field_line_bytes, length_app. cbn [length]. unfold MaxScanTokenSize.
    apply Nat2Z.inj_lt. rewrite Z2Nat.id by lia. lia.
Qed.

(** One field of the file. *)
Lemma TrimSpace_field_line b key value :
  byte_val b < 128 -> unicode_IsSpace (byte_val b) = false ->
  strings_TrimSpace (field_line (String b key) value) = field_line (String b key) value.
Proof.
  intros Hb Hs. destruct quote_visible as [Hq1 Hq2].
  assert (field_line (String b key) value
          = string_of (b :: (bytes_of key ++ "="%char :: quote :: escape (bytes_of value)) ++ [quote])) as ->.
  { apply bytes_of_inj. rewrite bytes_of_string_of, field_line_bytes, quoted_bytes. cbn [bytes_of String.list_ascii_of_string].
    fold bytes_of. rewrite <- app_comm_cons. f_equal. by rewrite <- app_assoc, <- !app_comm_cons. }
  by apply TrimSpace_between.
Qed.

Lemma cut_field_line key value :
  "="%char ∉ bytes_of key ->
  cut_byte (bytes_of (field_line key value)) "="%char = Some (bytes_of key, bytes_of (quoted value)).
Proof.
  intros Hk. unfold cut_byte. rewrite field_line_bytes, index_of_byte_app by done. cbn [mbind option_bind].
  rewrite take_app_length. change (bytes_of key ++ "="%char :: bytes_of (quoted value))
    with (bytes_of key ++ ["="%char] ++ bytes_of (quoted value)).
  by rewrite app_assoc, drop_app_length' by (rewrite length_app; simpl; lia).
Qed.

Section round_trip.
Context `{UnicodeTables}.

Lemma scan_field_line b key value lines f :
  byte_val b < 128 -> unicode_IsSpace (byte_val b) = false -> b <> "#"%char ->
  "="%char ∉ bytes_of (String b key) -> strings_TrimSpace (String b key) = String b key ->
  field_value value ->
  scan_os_release (field_line (String b key) value :: lines) f
  = scan_os_release lines (assign_os_field (String b key) value f).
Proof.
  intros Hb Hs Hc Hk Ht (_ & _ & Hv). cbn [scan_os_release]. rewrite TrimSpace_field_line by done.
  change (field_line (String b key) value) with (String b (key +:+ "=" +:+ quoted value)) at 1 2.
  change (String.eqb (String b (key +:+ "=" +:+ quoted value)) "") with false. cbn [orb].
  assert (strings_HasPrefix (String b (key +:+ "=" +:+ quoted value)) "#" = false) as ->.
  { unfold strings_HasPrefix. cbn [bytes_of String.list_ascii_of_string has_prefix].
    by rewrite (proj2 (Ascii.eqb_neq "#"%char b)) by congruence. }
  cbv iota. rewrite cut_field_line by done. cbv iota beta. rewrite !string_of_bytes_of, parse_quoted, Ht.
  done.
Qed.

(** C30: a file of quoted fields is read back: whatever one-line values the
    identifier, name and version have, escaping quotes and backslashes and
    reading the file returns them. *)
Theorem os_release_round_trip id name version :
  field_value id -> field_value name -> field_value version ->
  strings_ToLower id = id -> id <> "" -> name <> "" ->
  parseOSRelease (render_os_release id name version) = Ok (id, name, version).
Proof.
  intros Hi Hn Hv Hl Hid Hname. unfold parseOSRelease, scan_lines.
  assert (bytes_of (render_os_release id name version)
          = bytes_of (field_line "ID" id +:+ newline) ++ bytes_of (field_line "NAME" name +:+ newline)
            ++ bytes_of (field_line "VERSION_ID" version +:+ newline) ++ []) as ->.
  { unfold render_os_release. rewrite !bytes_of_app, app_nil_r. by rewrite <- !app_assoc. }
  rewrite !field_line_scans by (done || (apply (bool_decide_unpack _); vm_compute; exact I)).
  cbn [split_byte scan_until_long rev]. cbv iota beta.
  rewrite !scan_field_line by (done || (apply (bool_decide_unpack _); vm_compute; exact I)).
  unfold assign_os_field. destruct Hi as (_ & _ & Ti), Hn as (_ & _ & Tn), Hv as (_ & _ & Tv).
  cbn. rewrite Ti, Tn, Tv, Hl. cbn.
  rewrite (proj2 (String.eqb_neq id "")), (proj2 (String.eqb_neq name "")) by done.
  destruct (String.eqb version "") eqn:E; [|done]. apply String.eqb_eq in E. by subst.
Qed.
End round_trip.

Definition ascii_tables : UnicodeTables := {| lower_rune r := r |}.
#[local] Existing Instance ascii_tables.

Definition demo_os_name : string := "Debian " +:+ String quote "GNU" +:+ String quote "/Linux".

Lemma os_release_round_trip_witness :
  String.length (render_os_release "debian" demo_os_name "12") = 56%nat
  /\ parseOSRelease (render_os_release "debian" demo_os_name "12") = Ok ("debian", demo_os_name, "12").
Proof.
  split; [vm_compute; reflexivity|].
  apply (os_release_round_trip "debian" demo_os_name "12"); try (vm_compute; discriminate || reflexivity);
    (split; [apply (bool_decide_unpack _); vm_compute; exact I|split; vm_compute; [discriminate|reflexivity]]).
Defined.

(** ** The two readers of /proc/meminfo *)

Definition is_memtotal (line : string) : bool := strings_HasPrefix (strings_TrimSpace line) "MemTotal:".

Lemma memtotal_prefix line : strings_HasPrefix line "MemTotal:" = true -> is_memtotal line = true.
Proof.
  unfold is_memtotal, strings_HasPrefix. intros Hp. apply HasPrefix_TrimSpace; [done| |exact Hp]. apply (bool_decide_unpack _). vm_compute. exact I.
Qed.

(** On one line they read the same number. *)
Lemma memtotal_bytes_agree line v :
  meminfo_bytes "MemTotal:" 1 line = Ok v -> memtotal_bytes (strings_TrimSpace line) = Ok v.
Proof.
  unfold meminfo_bytes, memtotal_bytes. rewrite Fields_TrimSpace.
  destruct (_ || _) eqn:E1; [done|]. apply orb_false_elim in E1 as [[-> _]%orb_false_elim ->]. destruct (strconv_ParseInt _) as [kb|]; [|done].
  destruct (kb <? 1) eqn:E; [done|]. bsplit.
  rewrite (proj2 (Z.leb_gt kb 0)) by lia. by destruct (_ <? kb).
Qed.

Lemma scan_meminfo_total lines total avail t a :
  scan_meminfo lines total avail = Ok (Some t, a) ->
  total = Some t \/ exists line, line ∈ lines /\ strings_HasPrefix line "MemTotal:" = true
                               /\ meminfo_bytes "MemTotal:" 1 line = Ok t.
Proof.
  revert total avail. induction lines as [|line lines IH]; intros total avail Hs; simpl in Hs.
  - left. congruence.
  - destruct (strings_HasPrefix line "MemTotal:") eqn:Ep.
    + destruct (meminfo_bytes "MemTotal:" 1 line) as [v|] eqn:Em; simpl in Hs; [|done].
      apply IH in Hs as [[= ->]|(l & Hl & H1 & H2)]; right.
      * exists line. by rewrite elem_of_cons; auto.
      * exists l. by rewrite elem_of_cons; auto.
    + destruct (strings_HasPrefix line "MemAvailable:").
      * destruct (meminfo_bytes "MemAvailable:" 0 line) as [v|]; simpl in Hs; [|done].
        apply IH in Hs as [?|(l & Hl & H1 & H2)]; [by left|right]. exists l. by rewrite elem_of_cons; auto.
      * apply IH in Hs as [?|(l & Hl & H1 & H2)]; [by left|right]. exists l. by rewrite elem_of_cons; auto.
Qed.

Lemma scan_memtotal_unique lines ok line :
  line ∈ lines -> is_memtotal line = true -> length (List.filter is_memtotal lines) = 1%nat ->
  scan_memtotal lines ok = memtotal_bytes (strings_TrimSpace line).
Proof.
  induction lines as [|l lines IH]; intros Hin Hm Hu; [by apply elem_of_nil in Hin|]. cbn [scan_memtotal].
  cbn [List.filter] in Hu. fold (is_memtotal l). destruct (is_memtotal l) eqn:El.
  - apply elem_of_cons in Hin as [->|Hin]; [done|]. exfalso. simpl in Hu. injection Hu as Hu.
    apply length_zero_iff_nil in Hu. assert (In line (List.filter is_memtotal lines)) as Hx.
    { apply filter_In. by rewrite <- list_elem_of_In. }
    by rewrite Hu in Hx.
  - apply elem_of_cons in Hin as [->|Hin]; [congruence|]. by apply IH.
Qed.

(** C31: the agent reads its memory twice, for the inventory and for telemetry,
    with different parsers: whenever telemetry accepts /proc/meminfo and the
    file has one MemTotal line, the inventory reads the same total from it. *)
Theorem memory_total_agrees fs path data total used avail :
  readBoundedFile fs path maxMeminfoBytes = Ok data ->
  length (List.filter is_memtotal (scan_lines data).1) = 1%nat ->
  readProcMeminfo fs path = Ok (total, used, avail) ->
  readMeminfoTotal fs path = Ok total.
Proof.
  unfold readProcMeminfo, readMeminfoTotal, parseMeminfoTotal. intros Hr Hu Hp. rewrite Hr in *. cbn in *.
  destruct (scan_lines data) as [lines ok]. simpl in Hu.
  destruct (scan_meminfo lines None None) as [[[t|] a]|] eqn:Es; simpl in Hp; [|by destruct ok|done].
  assert (t = total) as -> by (destruct ok, a as [a|]; simpl in Hp; try done; destruct (t <? a); congruence).
  apply scan_meminfo_total in Es as [?|(line & Hl & Hpre & Hb)]; [done|].
  rewrite (scan_memtotal_unique lines ok line); [by apply memtotal_bytes_agree|done|by apply memtotal_prefix|done].
Qed.

Definition meminfo_demo : string :=
  "MemTotal:       16318412 kB" +:+ newline +:+ "MemFree:         1204 kB" +:+ newline
  +:+ "MemAvailable:    8159206 kB" +:+ newline.

Definition demo_files (path : string) : result Body :=
  if String.eqb path "/proc/meminfo" then Ok (mkBody meminfo_demo None)
  else Err os_ErrNotExist.

Lemma memory_total_agrees_witness :
  readProcMeminfo demo_files "/proc/meminfo" = Ok (16710053888, 8355026944, 8355026944)
  /\ readMeminfoTotal demo_files "/proc/meminfo" = Ok 16710053888.
Proof.
  split; [vm_compute; reflexivity|].
  apply (memory_total_agrees demo_files "/proc/meminfo" meminfo_demo 16710053888 8355026944 8355026944);
    vm_compute; reflexivity.
Defined.
