(* ===== verification/TelemetryTheorems.v ===== *)
(** * What the telemetry sampler guarantees

    The counters are summed exactly and every overflow is noticed; the load
    averages the kernel prints are read exactly; the share of busy time is the
    exact quotient on both ways of computing it; and a sample whose files
    could be read is never refused by its own validation. *)

From S2P Require Import Prelude GoStrings Numerals Http Protocol Schema Files Inventory GoFloat Telemetry InventoryTheorems.

(** ** Numbers *)

Lemma counter_range fields i msg v : counter fields i msg = Ok v -> 0 <= v < 2 ^ 64.
Proof.
  unfold counter. destruct (strconv_ParseUint _ _ _) eqn:E; [|done]. intros [= ->]. by apply ParseUint_range in E.
Qed.

Lemma optional_counter_range fields i msg v : optional_counter fields i msg = Ok v -> 0 <= v < 2 ^ 64.
Proof.
  unfold optional_counter. destruct (_ <? _)%nat; [apply counter_range|]. intros [= <-]. lia.
Qed.

Lemma uint64_small z : 0 <= z < 2 ^ 64 -> uint64 z = z.
Proof. intros H. unfold uint64. apply Z.mod_small. lia. Qed.

Lemma int64_small z : 0 <= z < 2 ^ 63 -> int64 z = z.
Proof. intros H. apply int64_id. unfold in_int64, MaxInt64. lia. Qed.

(** An addition on uint64 overflows exactly when the sum is below an operand. *)
Lemma checked_sum_exact a b low msg :
  0 <= a < 2 ^ 64 -> 0 <= b < 2 ^ 64 -> low = a \/ low = b ->
  checked_sum a b low msg = if a + b <? 2 ^ 64 then Ok (a + b) else Err (errorString msg).
Proof.
  intros Ha Hb Hl. unfold checked_sum. destruct (a + b <? 2 ^ 64) eqn:E; bsplit.
  - rewrite uint64_small by lia. by rewrite (proj2 (Z.ltb_ge (a + b) low)) by lia.
  - assert (uint64 (a + b) = a + b - 2 ^ 64) as ->.
    { unfold uint64. symmetry. apply (Z.mod_unique _ _ 1); lia. }
    by rewrite (proj2 (Z.ltb_lt (a + b - 2 ^ 64) low)) by lia.
Qed.

(** A sum of checked additions fails when the rest fails on every sum that fits. *)
Lemma checked_sum_fails {A} a b low msg (k : Z -> result A) :
  0 <= a < 2 ^ 64 -> 0 <= b < 2 ^ 64 -> low = a \/ low = b ->
  (a + b < 2 ^ 64 -> is_Ok (k (a + b)) = false) -> is_Ok (checked_sum a b low msg ≫= k) = false.
Proof.
  intros Ha Hb Hl Hk. rewrite checked_sum_exact by done.
  destruct (_ <? _) eqn:E; bsplit; [by apply Hk|done].
Qed.

Ltac bind_ok :=
  match goal with
  | H : mbind _ ?r = Ok _ |- _ => destruct r eqn:?; simpl in H; [|discriminate]
  | H : Ok _ = Ok _ |- _ => injection H; clear H; intros; subst
  end.

(** ** CPU time *)

Definition cpu_total (c : cpu_counters) : Z :=
  cpu_user c + cpu_nice c + cpu_system c + cpu_idleVal c + cpu_iowait c + cpu_irq c + cpu_softirq c + cpu_steal c.

Definition counters_ok (c : cpu_counters) : Prop :=
  Forall (fun v => 0 <= v < 2 ^ 64)
    [cpu_user c; cpu_nice c; cpu_system c; cpu_idleVal c; cpu_iowait c; cpu_irq c; cpu_softirq c; cpu_steal c].

Lemma parse_cpu_line_ok line c : parse_cpu_line line = Ok c -> counters_ok c.
Proof.
  unfold parse_cpu_line. destruct (negb _); [done|]. destruct (_ <? _)%nat; [done|]. intros H.
  repeat bind_ok. repeat constructor; simpl; try (eapply counter_range; eassumption);
    try (eapply optional_counter_range; eassumption).
Qed.

Lemma cpu_sum c :
  counters_ok c ->
  if cpu_total c <? 2 ^ 64
  then sum_cpu_counters c = Ok (cpu_total c, cpu_idleVal c + cpu_iowait c)
  else is_Ok (sum_cpu_counters c) = false.
Proof.
  intros Hc. unfold counters_ok in Hc. rewrite !Forall_cons in Hc. destruct Hc as (H1 & H2 & H3 & H4 & H5 & H6 & H7 & H8 & _).
  unfold sum_cpu_counters, cpu_total. destruct c as [u n y i w q f t]. cbn [cpu_user cpu_nice cpu_system cpu_idleVal cpu_iowait cpu_irq cpu_softirq cpu_steal] in *.
  destruct (_ <? _) eqn:E; bsplit.
  - do 7 (rewrite checked_sum_exact by lia; rewrite (proj2 (Z.ltb_lt _ (2 ^ 64))) by lia; cbn [mbind result_bind]).
    do 2 f_equal; lia.
  - do 7 (apply checked_sum_fails; [lia|lia|auto|intros ?]). lia.
Qed.

(** The checks between the additions of the CPU counters are exact: the
    result is the sum of the eight counters when it fits 64 bits, and an
    overflow error in every other case. *)
Theorem cpu_sum_exact c :
  counters_ok c ->
  if cpu_total c <? 2 ^ 64
  then sum_cpu_counters c = Ok (cpu_total c, cpu_idleVal c + cpu_iowait c)
  else is_Ok (sum_cpu_counters c) = false.
Proof. apply cpu_sum. Qed.

Lemma cpu_sum_exact_witness :
  sum_cpu_counters (mkCPUCounters 1 2 3 4 5 6 7 8) = Ok (36, 9)
  /\ is_Ok (sum_cpu_counters (mkCPUCounters (2 ^ 64 - 1) 0 0 1 0 0 0 0)) = false.
Proof.
  split; [apply (cpu_sum_exact (mkCPUCounters 1 2 3 4 5 6 7 8))|apply (cpu_sum_exact (mkCPUCounters (2 ^ 64 - 1) 0 0 1 0 0 0 0))];
    repeat constructor; simpl; lia.
Defined.

Lemma cpu_points busy total :
  0 <= busy <= total -> 0 < total < 2 ^ 64 ->
  cpuBasisPoints busy total = busy * 10000 / total /\ 0 <= cpuBasisPoints busy total <= 10000.
Proof.
  intros Hb Ht. assert (0 <= busy * 10000 / total <= 10000) as Hq.
  { split; [apply Z.div_pos; lia|]. apply Z.div_le_upper_bound; lia. }
  assert (cpuBasisPoints busy total = busy * 10000 / total) as ->; [|done].
  unfold cpuBasisPoints, MaxUint64.
  assert ((if 18446744073709551615 / 10000 <? busy then int64 (busy * 10000 / total)
           else int64 (uint64 (busy * 10000) / total)) = busy * 10000 / total) as ->.
  { destruct (_ <? busy) eqn:E; bsplit; [apply int64_small; lia|].
    assert (18446744073709551615 / 10000 = 1844674407370955) as Hd by reflexivity. rewrite Hd in E.
    rewrite uint64_small by lia. apply int64_small. lia. }
  cbv zeta. rewrite (proj2 (Z.ltb_ge (busy * 10000 / total) 0)) by lia.
  by rewrite (proj2 (Z.ltb_ge 10000 _)) by lia.
Qed.

(** The share of busy time is the exact quotient, in basis points, whether
    the product fits 64 bits or is computed with arbitrary precision, and the
    final clamps never change it. *)
Theorem cpu_points_exact busy total :
  0 <= busy <= total -> 0 < total < 2 ^ 64 ->
  cpuBasisPoints busy total = busy * 10000 / total /\ 0 <= cpuBasisPoints busy total <= 10000.
Proof. apply cpu_points. Qed.

Lemma cpu_points_exact_witness :
  cpuBasisPoints 1 3 = 3333 /\ cpuBasisPoints (2 ^ 63) (2 ^ 64 - 1) = 5000.
Proof.
  split; [rewrite (proj1 (cpu_points_exact 1 3 ltac:(lia) ltac:(lia)))
         |rewrite (proj1 (cpu_points_exact (2 ^ 63) (2 ^ 64 - 1) ltac:(lia) ltac:(lia)))]; vm_compute; reflexivity.
Defined.

(** ** Network counters *)

Definition sum (l : list Z) : Z := foldr Z.add 0 l.

Lemma sum_cons v l : sum (v :: l) = v + sum l.
Proof. done. Qed.

Lemma sum_nonneg l : Forall (fun v => 0 <= v) l -> 0 <= sum l.
Proof. induction 1; simpl; lia. Qed.

Lemma netdev_line_range line rx tx :
  netdev_line line = Ok (Some (rx, tx)) -> (0 <= rx < 2 ^ 64) /\ (0 <= tx < 2 ^ 64).
Proof.
  unfold netdev_line. destruct (cut_byte _ _) as [[iface rest]|]; [|done].
  destruct (String.eqb _ _); [done|]. cbv zeta. destruct (_ <? _)%nat; [done|]. intros H. repeat bind_ok.
  split; eapply counter_range; eassumption.
Qed.

(** What the lines of all interfaces but the loopback report. *)
Definition interface_counters (lines : list string) (cs : list (Z * Z)) : Prop :=
  exists found, Forall2 (fun line c => netdev_line line = Ok c) lines found /\ cs = omap id found.

Lemma scan_netdev_sum lines found rx tx :
  Forall2 (fun line c => netdev_line line = Ok c) lines found ->
  0 <= rx <= MaxInt64 -> 0 <= tx <= MaxInt64 ->
  let cs := omap id found in
  Forall (fun v => 0 <= v) (fst <$> cs) /\ Forall (fun v => 0 <= v) (snd <$> cs) /\
  scan_netdev lines rx tx
  = if (rx + sum (fst <$> cs) <=? MaxInt64) && (tx + sum (snd <$> cs) <=? MaxInt64)
    then Ok (rx + sum (fst <$> cs), tx + sum (snd <$> cs))
    else Err (errorString "network byte counter overflow").
Proof.
  unfold MaxInt64. intros Hf. revert rx tx. induction Hf as [|line c lines found Hl _ IH]; intros rx tx Hrx Htx; cbv zeta.
  - simpl. rewrite !Z.add_0_r. rewrite (proj2 (Z.leb_le rx _)), (proj2 (Z.leb_le tx _)) by lia. done.
  - cbn [scan_netdev]. rewrite Hl. cbn [mbind result_bind]. destruct c as [[r t]|]; [|by apply IH].
    change (omap id (Some (r, t) :: found)) with ((r, t) :: omap id found). rewrite !fmap_cons. cbn [fst snd].
    rewrite !sum_cons.
    apply netdev_line_range in Hl as [Hr Ht].
    destruct (IH 0 0 ltac:(lia) ltac:(lia)) as (Hp1 & Hp2 & _).
    pose proof (sum_nonneg _ Hp1) as Hs1. pose proof (sum_nonneg _ Hp2) as Hs2.
    split_and!; [by constructor; [lia|]|by constructor; [lia|]|].
    unfold MaxInt64. rewrite !uint64_small by lia.
    destruct (_ || _) eqn:Eo.
    + assert (((rx + (r + sum (fst <$> omap id found)) <=? 9223372036854775807)
               && (tx + (t + sum (snd <$> omap id found)) <=? 9223372036854775807)) = false) as ->; [|done].
      apply andb_false_iff. apply orb_prop in Eo as [Eo|Eo]; [left|right]; apply Z.leb_gt; bsplit; lia.
    + bsplit. rewrite !uint64_small by lia. destruct (IH (rx + r) (tx + t) ltac:(lia) ltac:(lia)) as (_ & _ & ->).
      rewrite !Z.add_assoc. done.
Qed.

(** The network totals are the sums of the counters of all interfaces but
    the loopback, in any number, and an error exactly when a sum exceeds the
    largest int64; no partial sum overflows. *)
Theorem network_totals_exact lines cs :
  interface_counters lines cs ->
  scan_netdev lines 0 0
  = if (sum (fst <$> cs) <=? MaxInt64) && (sum (snd <$> cs) <=? MaxInt64)
    then Ok (sum (fst <$> cs), sum (snd <$> cs))
    else Err (errorString "network byte counter overflow").
Proof.
  intros (found & Hf & ->).
  exact (proj2 (proj2 (scan_netdev_sum lines found 0 0 Hf ltac:(unfold MaxInt64; lia) ltac:(unfold MaxInt64; lia)))).
Qed.

Definition netdev_demo : list string :=
  ["Inter-|   Receive                                                |  Transmit";
   "    lo: 900 9 0 0 0 0 0 0 900 9 0 0 0 0 0 0";
   "  eth0: 1500 12 0 0 0 0 0 0 700 8 0 0 0 0 0 0";
   " wlan0:40 1 0 0 0 0 0 0 2 1 0 0 0 0 0 0"].

Lemma network_totals_exact_witness :
  scan_netdev netdev_demo 0 0 = Ok (1540, 702).
Proof.
  rewrite (network_totals_exact netdev_demo [(1500, 700); (40, 2)]); [vm_compute; reflexivity|].
  exists [None; None; Some (1500, 700); Some (40, 2)]. split; [|reflexivity].
  repeat (constructor; [vm_compute; reflexivity|]). constructor.
Defined.

Lemma netdev_post lines rx tx :
  scan_netdev lines 0 0 = Ok (rx, tx) -> 0 <= rx <= MaxInt64 /\ 0 <= tx <= MaxInt64.
Proof.
  intros Hs. assert (exists found, Forall2 (fun line c => netdev_line line = Ok c) lines found) as [found Hf].
  { revert Hs. generalize 0 at 1 as a. generalize 0 as b. induction lines as [|line lines IH]; intros b a Hs; [by exists []|].
    cbn [scan_netdev] in Hs. destruct (netdev_line line) as [c|] eqn:El; [|done]. cbn [mbind result_bind] in Hs.
    destruct c as [[r t]|].
    - destruct (_ || _); [done|]. apply IH in Hs as [found Hf]. exists (Some (r, t) :: found). by constructor.
    - apply IH in Hs as [found Hf]. exists (None :: found). by constructor. }
  destruct (scan_netdev_sum lines found 0 0 Hf ltac:(unfold MaxInt64; lia) ltac:(unfold MaxInt64; lia)) as (H1 & H2 & E).
  rewrite E in Hs. pose proof (sum_nonneg _ H1). pose proof (sum_nonneg _ H2).
  destruct (_ && _) eqn:Eb; [|done]. injection Hs as <- <-. bsplit. lia.
Qed.

(** ** Load averages *)

Lemma digits_val_app base acc l1 l2 v :
  digits_val base acc (l1 ++ l2) = Some v ->
  exists v1, digits_val base acc l1 = Some v1 /\ digits_val base v1 l2 = Some v.
Proof.
  revert acc. induction l1 as [|b l1 IH]; intros acc Hv; simpl in *; [by exists acc|].
  destruct (digit_val base b) as [d|]; [|done]. by apply IH.
Qed.

(** A number without sign, exponent or prefix: digits, a point and digits. *)
Lemma readFloat_digits ip frac v :
  forallb is_digit ip = true -> forallb is_digit frac = true -> ip <> [] ->
  digits_val 10 0 (ip ++ frac) = Some v ->
  readFloat (ip ++ "."%char :: frac) = Some (false, v, false, - Z.of_nat (length frac)).
Proof.
  intros Hi Hf Hne Hv. unfold readFloat. destruct ip as [|b ip]; [done|].
  assert (is_digit b = true) as Hb by (simpl in Hi; by apply andb_prop in Hi as [? _]).
  assert (drop_sign ((b :: ip) ++ "."%char :: frac) = (false, (b :: ip) ++ "."%char :: frac)) as ->.
  { unfold drop_sign. cbn [app]. unfold is_digit in Hb. bsplit.
    rewrite (proj2 (Z.eqb_neq (byte_val b) 43) ltac:(lia) : is_byte 43 b = false).
    by rewrite (proj2 (Z.eqb_neq (byte_val b) 45) ltac:(lia) : is_byte 45 b = false). }
  assert (forall l, forallb is_digit l = true ->
            match l ++ "."%char :: frac with
            | b0 :: b1 :: _ :: _ => is_byte 48 b0 && is_byte 120 (lower_byte b1)
            | _ => false end = false) as Hhex.
  { intros [|b0 [|b1 l]] Hl; cbn [app]; [by destruct frac as [|? [|? ?]]|by destruct frac; [|apply andb_false_r]|].
    destruct (l ++ _); [done|]. simpl in Hl. bsplit. apply andb_false_iff. right. unfold is_digit in *. bsplit.
    apply Z.eqb_neq. unfold lower_byte, is_upper. rewrite (proj2 (Z.leb_gt 65 (byte_val b1))) by lia. simpl. lia. }
  rewrite (Hhex (b :: ip) Hi). cbv iota.
  destruct (digits_val_app 10 0 (b :: ip) frac v Hv) as (vi & Hvi & Hvf).
  rewrite (scan_digits 10 (b :: ip) false false 0 0 _ ltac:(lia) Hi vi Hvi). cbn [orb negb is_null head].
  cbn [scan_mantissa]. change (is_byte 95 "."%char) with false. change (is_byte 46 "."%char) with true. cbv iota.
  rewrite <- (app_nil_r frac) at 1. rewrite (scan_digits 10 frac true true vi 0 [] ltac:(lia) Hf v Hvf).
  cbn [scan_mantissa orb negb]. assert (existsb (is_byte 95) ((b :: ip) ++ "."%char :: frac) = false) as ->; [|done].
  apply not_true_is_false. intros Hex. apply existsb_exists in Hex as (x & Hin & Hx).
  apply in_app_iff in Hin as [Hin|[<-|Hin]]; [|done|];
    [eapply forallb_forall in Hi|eapply forallb_forall in Hf]; try exact Hin;
    unfold is_digit, is_byte in *; bsplit; lia.
Qed.

(** Rounding to float64, multiplying by 1000 there and rounding to an integer
    loses nothing on hundredths. *)
Lemma hundredths_exact n :
  0 <= n < 100 * 2 ^ 40 ->
  exists f, round64 false n 100 = f /\ out_of_bounds f 9223372036854000 = false
    /\ (forall neg, f <> Inf neg) /\ int64_Round (float64_times 1000 f) = 10 * n.
Proof.
  intros Hn. assert (n = 0 \/ 0 < n) as [->|Hpos] by lia; [by eexists|].
  destruct (round64_fraction false n 100 40) as (m & s & -> & Hm & Hs & He); [lia..|].
  eexists. split; [reflexivity|]. set (P := 2 ^ s).
  assert (8192 <= P) as HP by (unfold P; change 8192 with (2 ^ 13); apply Z.pow_le_mono_r; lia).
  fold P in He. assert (0 < m) as Hm0 by nia.
  assert (scaled m 1 (- s) = (m, P)) as Hsc.
  { unfold scaled. rewrite (proj2 (Z.leb_gt 0 (- s))) by lia. by rewrite Z.opp_involutive, Z.mul_1_l. }
  split; [|split; [done|]].
  - unfold out_of_bounds, exceeds, negative. cbn [math_IsNaN math_IsInf orb andb]. rewrite Hsc. apply Z.ltb_ge. nia.
  - unfold float64_times. rewrite Hsc.
    destruct (round64_fraction false (m * 1000) P 51) as (m2 & s2 & -> & Hm2 & Hs2 & He2); [nia|lia|lia|nia|].
    set (Q := 2 ^ s2) in *. assert (4 <= Q) as HQ by (unfold Q; change 4 with (2 ^ 2); apply Z.pow_le_mono_r; lia).
    unfold int64_Round. assert (scaled m2 1 (- s2) = (m2, Q)) as ->.
    { unfold scaled. rewrite (proj2 (Z.leb_gt 0 (- s2))) by lia. by rewrite Z.opp_involutive, Z.mul_1_l. }
    assert (Z.abs (m2 * P - 10 * n * Q * P) * 2 <= P + 1000 * Q) as Hd by nia.
    assert (2 * Z.abs (m2 - 10 * n * Q) < Q) as Hd2 by nia.
    symmetry. apply (Z.div_unique _ _ _ (2 * m2 + Q - 2 * Q * (10 * n))); [left|]; nia.
Qed.

Lemma index_of_absent x p l : x ∉ l -> index_of l (x :: p) = None.
Proof.
  induction l as [|y l IH]; intros Hx; [done|]. simpl.
  destruct (Ascii.eqb x y) eqn:E; [apply Ascii.eqb_eq in E; set_solver|]. simpl. rewrite IH by set_solver. done.
Qed.

(** Digits and a point. *)
Definition numeral_byte (b : ascii) : bool := is_digit b || is_byte 46 b.

Lemma numeral_range b : numeral_byte b = true -> byte_val b <= 57.
Proof. unfold numeral_byte, is_digit, is_byte. intros [Hb|Hb]%orb_prop; bsplit; lia. Qed.

Lemma lower_numeral b : numeral_byte b = true -> lower_byte b = b.
Proof.
  intros Hb%numeral_range. unfold lower_byte, is_upper. by rewrite (proj2 (Z.leb_gt 65 (byte_val b))) by lia.
Qed.

Section loads.
Context `{UnicodeTables}.

Lemma numeral_unsigned l : forallb numeral_byte l = true -> unsigned_finite (string_of l) = None.
Proof.
  intros Hl. assert (forall x, numeral_byte x = false -> x ∉ l) as Hno.
  { intros x Hx Hin. apply list_elem_of_In in Hin. eapply forallb_forall in Hl; [|exact Hin]. congruence. }
  assert (lower_byte <$> l = l) as Hlow.
  { clear Hno. induction l as [|b l IH]; [done|]. simpl in Hl. apply andb_prop in Hl as [Hb Hl]. cbn.
    f_equal; [by apply lower_numeral|by apply IH]. }
  unfold unsigned_finite, strings_Contains. rewrite bytes_of_string_of.
  assert (strings_ToLower (string_of l) = string_of l) as ->.
  { unfold strings_ToLower, all_bytes. rewrite bytes_of_string_of, Hlow.
    assert (forallb (fun b => byte_val b <? 128) l = true) as ->; [|done].
    apply forallb_forall. intros b Hb. eapply forallb_forall in Hl; [|exact Hb].
    apply Z.ltb_lt. apply numeral_range in Hl. lia. }
  rewrite bytes_of_string_of. cbn [bytes_of String.list_ascii_of_string].
  by rewrite !index_of_absent by (apply Hno; vm_compute; reflexivity).
Qed.

Lemma numeral_special b l : is_digit b = true -> special (b :: l) = None.
Proof.
  intros Hb.
  assert (lower_byte b = b) as Hl by (apply lower_numeral; unfold numeral_byte; by rewrite Hb).
  assert (forall c s, is_digit c = false -> equal_fold (b :: l) (String c s) = false) as Hf.
  { intros c s Hc. unfold equal_fold. cbn. rewrite Hl. by rewrite (proj2 (Ascii.eqb_neq b c)) by congruence. }
  unfold special. assert (drop_sign (b :: l) = (false, b :: l)) as ->.
  { unfold drop_sign. unfold is_digit in Hb. bsplit.
    rewrite (proj2 (Z.eqb_neq (byte_val b) 43) ltac:(lia) : is_byte 43 b = false).
    by rewrite (proj2 (Z.eqb_neq (byte_val b) 45) ltac:(lia) : is_byte 45 b = false). }
  by rewrite !Hf by (vm_compute; reflexivity).
Qed.

(** Load averages are read exactly: for every text of digits, a point and
    two digits, which is what the kernel writes, up to 2^40 the result is the
    number of thousandths, although it is computed with float64. *)
Theorem load_average_exact ip c1 c2 n :
  ip <> [] -> forallb is_digit ip = true -> is_digit c1 = true -> is_digit c2 = true ->
  digits_val 10 0 (ip ++ [c1; c2]) = Some n -> n < 100 * 2 ^ 40 ->
  parseLoadMilli (string_of (ip ++ ["."%char; c1; c2])) = Ok (10 * n).
Proof.
  intros Hne Hi H1 H2 Hv Hn. unfold parseLoadMilli.
  rewrite numeral_unsigned.
  2:{ rewrite forallb_app. cbn. unfold numeral_byte at 2 3 4. rewrite H1, H2. cbn. rewrite andb_true_r.
      apply forallb_forall. intros b Hb. unfold numeral_byte. by rewrite (proj1 (forallb_forall _ _) Hi b Hb). }
  assert (0 <= n) as Hn0 by (eapply digits_val_nonneg in Hv; lia).
  destruct (hundredths_exact n ltac:(lia)) as (f & Hf & Hb & Hni & Hr).
  assert (strconv_ParseFloat (string_of (ip ++ ["."%char; c1; c2])) = inl f) as ->.
  { unfold strconv_ParseFloat. rewrite bytes_of_string_of. destruct ip as [|b ip]; [done|].
    assert (is_digit b = true) by (simpl in Hi; by apply andb_prop in Hi as [? _]).
    cbn [app]. rewrite numeral_special by done. rewrite app_comm_cons.
    rewrite (readFloat_digits (b :: ip) [c1; c2] n) by (done || (cbn; by rewrite H1, H2)).
    change (- Z.of_nat (length [c1; c2])) with (-2). cbv zeta.
    change (if 0 <=? -2 then round64 false (n * 10 ^ (-2)) 1 else round64 false n (10 ^ (- -2)))
      with (round64 false n 100).
    rewrite Hf. destruct f; [done|by destruct (Hni neg)|done]. }
  rewrite Hb. rewrite Hr. by rewrite (proj2 (Z.ltb_ge (10 * n) 0)) by lia.
Qed.

(** *** Ranges: the conversions to int64 are of numbers in range *)

Lemma not_exceeding c m e :
  exceeds c (Finite false m e) = false -> let '(n, d) := scaled m 1 e in n <= c * d.
Proof. unfold exceeds. destruct (scaled m 1 e) as [n d]. intros E. bsplit. done. Qed.

Lemma scaled_den_pos m e : 0 < (scaled m 1 e).2.
Proof.
  unfold scaled. pose proof (Z.pow_pos_nonneg 2 (- e)). destruct (0 <=? e) eqn:E; bsplit; simpl; lia.
Qed.

Lemma negative_zero m e : negative (Finite true m e) = false -> m = 0.
Proof. simpl. intros Hn. by apply negb_false_iff, Z.eqb_eq in Hn. Qed.

Lemma scaled_zero e : (scaled 0 1 e).1 = 0.
Proof. unfold scaled. by destruct (0 <=? e). Qed.

Lemma load_range s m : parseLoadMilli s = Ok m -> 0 <= m <= MaxInt64.
Proof.
  unfold parseLoadMilli. destruct (unsigned_finite s); [done|].
  destruct (strconv_ParseFloat s) as [f|]; [|done]. destruct (out_of_bounds f _) eqn:Eb; [done|].
  destruct (_ <? 0) eqn:E0; [done|]. intros [= <-]. bsplit. split; [done|]. clear E0 s. unfold MaxInt64.
  unfold out_of_bounds in Eb. bsplit. destruct f as [neg m e|neg|]; [|done..].
  pose proof (scaled_den_pos m e) as Hd. unfold float64_times. destruct neg.
  - match goal with Hx : negative _ = false |- _ => apply negative_zero in Hx; subst m end. pose proof (scaled_zero e) as Hz.
    destruct (scaled 0 1 e) as [n d]. simpl in Hz. subst n. by vm_compute.
  - match goal with Hx : exceeds _ _ = false |- _ => apply not_exceeding in Hx; rename Hx into Hle end.
    destruct (scaled m 1 e) as [n d]. simpl in Hd.
    assert (n * 1000 <= 0 \/ 0 < n * 1000) as [Hn|Hn] by lia.
    { unfold round64. rewrite (proj2 (Z.leb_le (n * 1000) 0)) by done. by vm_compute. }
    destruct (round64_below false (n * 1000) d 63) as (m2 & e2 & -> & Hm2 & He2 & Herr); [lia|lia|lia|lia|].
    unfold int64_Round, scaled in *. destruct (0 <=? e2) eqn:Ee; bsplit.
    + assert (0 <= - e2 \/ e2 <> 0) as [Hz|Hz] by lia.
      * assert (e2 = 0) as -> by lia. simpl in Herr. apply Z.div_le_upper_bound; [lia|]. nia.
      * rewrite (proj2 (Z.leb_gt 0 (- e2))) in Herr by lia. rewrite Z.opp_involutive in Herr.
        assert (0 < 2 ^ e2 <= 1024) as Hp.
        { split; [apply Z.pow_pos_nonneg; lia|]. change 1024 with (2 ^ 10). apply Z.pow_le_mono_r; lia. }
        apply Z.div_le_upper_bound; [lia|]. set (q := 2 ^ e2) in *. clearbody q.
        assert (m2 * q * d <= 9223372036854000000 * d + 512 * d) by nia. nia.
    + rewrite (proj2 (Z.leb_le 0 (- e2))) in Herr by lia.
      assert (0 < 2 ^ (- e2)) as Hp by (apply Z.pow_pos_nonneg; lia).
      set (q := 2 ^ (- e2)) in *. clearbody q. apply Z.div_le_upper_bound; [lia|].
      assert (2 * m2 * d <= (2 * 9223372036854000000 * q + 1) * d) by nia.
      assert (2 * m2 <= 2 * 9223372036854000000 * q + 1) by nia. nia.
Qed.

Lemma uptime_range token sec : parse_uptime token = Ok sec -> 0 <= sec <= MaxInt64.
Proof.
  unfold parse_uptime. destruct (unsigned_finite token); [done|].
  destruct (strconv_ParseFloat token) as [f|]; [|done]. destruct (out_of_bounds f _) eqn:Eb; [done|].
  destruct (_ <? 0) eqn:E0; [done|]. intros [= <-]. bsplit. split; [done|]. clear E0 token. unfold MaxInt64.
  unfold out_of_bounds in Eb. bsplit. destruct f as [neg m e|neg|]; [|done..].
  pose proof (scaled_den_pos m e) as Hd. unfold int64_Floor. destruct neg.
  - match goal with Hx : negative _ = false |- _ => apply negative_zero in Hx; subst m end. pose proof (scaled_zero e) as Hz.
    destruct (scaled 0 1 e) as [n d]. simpl in *. subst n. by rewrite Z.div_0_l by lia.
  - match goal with Hx : exceeds _ _ = false |- _ => apply not_exceeding in Hx; rename Hx into Hle end.
    destruct (scaled m 1 e) as [n d]. simpl in Hd. apply Z.div_le_upper_bound; lia.
Qed.
End loads.

Lemma load_average_exact_witness :
  let _ := ascii_tables in parseLoadMilli "12.07" = Ok 12070.
Proof.
  apply (@load_average_exact ascii_tables ["1"%char; "2"%char] "0"%char "7"%char 1207); try reflexivity; discriminate.
Defined.

(** ** What the readers return *)

Section readers.
Context `{UnicodeTables}.

Lemma meminfo_bytes_range key lowest line v :
  0 <= lowest -> meminfo_bytes key lowest line = Ok v -> lowest * 1024 <= v <= MaxInt64.
Proof.
  unfold meminfo_bytes, MaxInt64. intros Hl. destruct (_ || _); [done|].
  destruct (strconv_ParseInt _) as [kb|]; [|done].
  destruct (kb <? lowest) eqn:E1; [done|]. destruct (_ <? kb) eqn:E2; [done|]. intros [= <-]. bsplit.
  assert (9223372036854775807 / 1024 = 9007199254740991) as Hd by reflexivity. rewrite Hd in E2.
  rewrite int64_small; lia.
Qed.

Lemma scan_meminfo_range lines total avail t a :
  scan_meminfo lines total avail = Ok (t, a) ->
  (forall x, total = Some x -> 1024 <= x <= MaxInt64) -> (forall x, avail = Some x -> 0 <= x <= MaxInt64) ->
  (forall x, t = Some x -> 1024 <= x <= MaxInt64) /\ (forall x, a = Some x -> 0 <= x <= MaxInt64).
Proof.
  revert total avail. induction lines as [|line lines IH]; intros total avail Hs Ht Ha; simpl in Hs.
  - injection Hs as <- <-. done.
  - destruct (strings_HasPrefix line "MemTotal:").
    + bind_ok. apply IH in Hs; [done| |done]. intros x [= <-].
      match goal with Hm : meminfo_bytes _ _ _ = Ok _ |- _ => apply meminfo_bytes_range in Hm; lia end.
    + destruct (strings_HasPrefix line "MemAvailable:"); [|by apply IH in Hs].
      bind_ok. apply IH in Hs; [done|done|]. intros x [= <-].
      match goal with Hm : meminfo_bytes _ _ _ = Ok _ |- _ => apply meminfo_bytes_range in Hm; lia end.
Qed.

Lemma meminfo_post fs path t u a :
  readProcMeminfo fs path = Ok (t, u, a) -> 1024 <= t <= MaxInt64 /\ 0 <= a <= t /\ u = t - a.
Proof.
  unfold readProcMeminfo. intros Hr. bind_ok. destruct (scan_lines _) as [lines ok]. bind_ok.
  destruct (negb ok); [done|]. match goal with p : option Z * option Z |- _ => destruct p as [[x|] [y|]]; try done end.
  destruct (x <? y) eqn:E; [done|]. injection Hr as <- <- <-. bsplit.
  match goal with Hs : scan_meminfo _ _ _ = Ok _ |- _ => apply scan_meminfo_range in Hs as [Hx Hy]; [|done|done] end.
  specialize (Hx x eq_refl). specialize (Hy y eq_refl). unfold MaxInt64 in *. rewrite int64_small by lia. lia.
Qed.

Lemma rootfs_post st t u a :
  readRootFS st = Ok (t, u, a) -> 0 < t <= MaxInt64 /\ 0 <= u <= t /\ 0 <= a <= t - u.
Proof.
  unfold readRootFS. destruct st as [[blocks bfree bavail bsize]|]; [|done].
  repeat (match goal with |- context [if ?c then Err _ else _] => destruct c eqn:?; [done|] end). cbv zeta.
  intros [= <- <- <-]. bsplit. pose proof (int64_range (uint64 (blocks * bsize))) as Hr. unfold in_int64 in Hr.
  rewrite (int64_small (_ - int64 _)) in * by (unfold MaxInt64 in *; lia). lia.
Qed.

Lemma uptime_post fs path sec : readProcUptime fs path = Ok sec -> 0 <= sec.
Proof.
  unfold readProcUptime. intros Hr. bind_ok. destruct (strings_Fields _) as [|token l]; [done|].
  apply uptime_range in Hr. lia.
Qed.

Lemma loadavg_post fs path l1 l5 l15 : readProcLoadavg fs path = Ok (l1, l5, l15) -> 0 <= l1 /\ 0 <= l5 /\ 0 <= l15.
Proof.
  unfold readProcLoadavg. intros Hr. bind_ok. destruct (_ <? _)%nat; [done|]. repeat bind_ok.
  repeat match goal with Hl : parseLoadMilli _ = Ok _ |- _ => apply load_range in Hl end. lia.
Qed.

Lemma netdev_file_post fs path rx tx : readProcNetDev fs path = Ok (rx, tx) -> 0 <= rx /\ 0 <= tx.
Proof.
  unfold readProcNetDev. intros Hr. bind_ok. destruct (scan_lines _) as [lines ok]. bind_ok.
  destruct (negb ok); [done|]. injection Hr as <- <-.
  match goal with Hs : scan_netdev _ _ _ = Ok ?p |- _ => destruct p as [x y]; apply netdev_post in Hs end.
  simpl. unfold MaxInt64 in *. rewrite !int64_small by lia. lia.
Qed.

(** Everything the readers return passes the validation of the protocol. *)
Lemma collect_outcome cfg fs statfs cpu window :
  0 <= cpu <= 10000 -> 1 <= window <= 300000 ->
  match collect cfg fs statfs cpu window with
  | Ok req => ValidateTelemetryRequest (Some req) = None
      /\ CPUUsageBasisPoints req = cpu /\ SampleWindowMS req = window
  | Err e => readProcMeminfo fs (meminfoPath cfg) = Err e \/ readProcLoadavg fs (loadavgPath cfg) = Err e
      \/ readRootFS statfs = Err e \/ readProcNetDev fs (netdevPath cfg) = Err e
      \/ readProcUptime fs (uptimePath cfg) = Err e
  end.
Proof.
  intros Hc Hw. unfold collect.
  destruct (readProcMeminfo _ _) as [[[mt mu] ma]|] eqn:Em; cbn [mbind result_bind]; [|by auto].
  destruct (readProcLoadavg _ _) as [[[l1 l5] l15]|] eqn:El; cbn [mbind result_bind]; [|by auto].
  destruct (readRootFS _) as [[[ft fu] fa]|] eqn:Ef; cbn [mbind result_bind]; [|by auto].
  destruct (readProcNetDev _ _) as [[rx tx]|] eqn:En; cbn [mbind result_bind]; [|by auto].
  destruct (readProcUptime _ _) as [up|] eqn:Eu; cbn [mbind result_bind]; [|by auto 6].
  apply meminfo_post in Em as (Hmt & Hma & ->). apply loadavg_post in El. apply rootfs_post in Ef.
  apply netdev_file_post in En. apply uptime_post in Eu. unfold MaxInt64 in *.
  assert (ValidateTelemetryRequest (Some (mkTelemetryRequest CurrentVersion cpu mt (mt - ma) ma l1 l5 l15 ft fu fa rx tx up window))
          = None) as HV; [|by rewrite HV].
  unfold ValidateTelemetryRequest, CurrentVersion. simpl. rewrite !int64_small by lia.
  repeat match goal with |- context [if ?c then Some _ else _] => destruct c eqn:?; [exfalso|] end; [..|done];
    repeat match goal with Hx : (_ || _) = true |- _ => apply orb_prop in Hx as [?|?] end; bsplit; lia.
Qed.
End readers.

(** ** The sampler *)

(** Between two calls: the counters are numbers of 64 bits. *)
Definition sampler_ok (s : linuxSampler) : Prop := 0 <= lastCPUIdle s < 2 ^ 64 /\ 0 <= lastCPUTotal s < 2 ^ 64.

Lemma stat_post fs path total idle :
  readProcStatCPU fs path = Ok (total, idle) -> 0 <= idle <= total /\ total < 2 ^ 64.
Proof.
  unfold readProcStatCPU. intros Hr. bind_ok. bind_ok.
  match goal with Hp : parse_cpu_line _ = Ok ?c |- _ => apply parse_cpu_line_ok in Hp; rename c into cs, Hp into Hc end.
  assert (if cpu_total cs <? 2 ^ 64 then Ok (cpu_total cs, cpu_idleVal cs + cpu_iowait cs) = sum_cpu_counters cs
          else is_Ok (sum_cpu_counters cs) = false) as Hs.
  { pose proof (cpu_sum cs Hc) as Hx. by destruct (_ <? _). }
  destruct (_ <? _) eqn:E; [|by rewrite Hr in Hs]. rewrite Hr in Hs. injection Hs as <- <-. bsplit.
  unfold counters_ok, cpu_total in *. rewrite !Forall_cons in Hc. lia.
Qed.

Section sampling.
Context `{UnicodeTables}.

(** The error of a call is the error of one of its readers. *)
Definition reader_error (cfg : linuxSamplerConfig) (fs : FileSystem) (statfs : result Statfs) (e : error) : Prop :=
  readProcStatCPU fs (statPath cfg) = Err e \/ readProcMeminfo fs (meminfoPath cfg) = Err e
  \/ readProcLoadavg fs (loadavgPath cfg) = Err e \/ readRootFS statfs = Err e
  \/ readProcNetDev fs (netdevPath cfg) = Err e \/ readProcUptime fs (uptimePath cfg) = Err e.

(** A sample covers the time since the last reading of /proc/stat. *)
Definition covers (s s' : linuxSampler) (now : Z) (req : TelemetryRequest) : Prop :=
  hasCPUBaseline s = true /\ lastCPUTotal s < lastCPUTotal s' /\ lastCPUIdle s <= lastCPUIdle s'
  /\ CPUUsageBasisPoints req =
       ((lastCPUTotal s' - lastCPUTotal s) - (lastCPUIdle s' - lastCPUIdle s)) * 10000
       / (lastCPUTotal s' - lastCPUTotal s)
  /\ SampleWindowMS req = Milliseconds (time_Sub now (lastCPUTime s)).

(** C29: whatever the files hold, a call of the sampler returns a sample the
    controller's validation accepts, whose CPU share and window are those of
    the time since the previous reading of /proc/stat, or no sample, or the
    error of one of its readers - never an error of its own validation; and
    every reading of /proc/stat becomes the new baseline. *)
Theorem sample_outcome cfg fs statfs s now :
  sampler_ok s ->
  let '((req, ok, err), s') := Sample cfg fs statfs s now in
  sampler_ok s'
  /\ (forall total idle, readProcStatCPU fs (statPath cfg) = Ok (total, idle) -> s' = mkSampler true total idle now)
  /\ match req with
     | Some r => ok = true /\ err = None /\ ValidateTelemetryRequest (Some r) = None /\ covers s s' now r
     | None => ok = false /\ (forall e, err = Some e -> reader_error cfg fs statfs e)
     end.
Proof.
  intros [Hi Ht]. unfold Sample. destruct (readProcStatCPU fs (statPath cfg)) as [[total idle]|e0] eqn:Es; cbn.
  2:{ split_and!; [done|done|done|]. intros e [= <-]. by left. }
  pose proof (stat_post _ _ _ _ Es) as Hst.
  assert (forall p : option TelemetryRequest * bool * option error,
    (match p.1.1 with
     | Some r => p.1.2 = true /\ p.2 = None /\ ValidateTelemetryRequest (Some r) = None
         /\ covers s (mkSampler true total idle now) now r
     | None => p.1.2 = false /\ (forall e, p.2 = Some e -> reader_error cfg fs statfs e) end) ->
    let '((req, ok, err), s') := (p, mkSampler true total idle now) in
    sampler_ok s' /\ (forall total0 idle0, Ok (total, idle) = Ok (total0, idle0) -> s' = mkSampler true total0 idle0 now)
    /\ match req with
       | Some r => ok = true /\ err = None /\ ValidateTelemetryRequest (Some r) = None /\ covers s s' now r
       | None => ok = false /\ (forall e, err = Some e -> reader_error cfg fs statfs e) end) as Hwrap.
  { intros [[req ok] err] Hp. split_and!; [split; simpl; lia|by intros ?? [= <- <-]|exact Hp]. }
  destruct (hasCPUBaseline s) eqn:Eb; [|by apply (Hwrap no_sample)]. cbn.
  destruct (_ || _) eqn:Eo; [by apply (Hwrap no_sample)|]. bsplit.
  rewrite !uint64_small by lia.
  destruct (_ <? _) eqn:Ed; [by apply (Hwrap no_sample)|]. bsplit. rewrite !uint64_small by lia.
  set (busy := total - lastCPUTotal s - (idle - lastCPUIdle s)) in *.
  destruct (cpu_points busy (total - lastCPUTotal s)) as [Hq Hr]; [lia|lia|].
  set (window := Milliseconds (time_Sub now (lastCPUTime s))) in *.
  pose proof (collect_outcome cfg fs statfs _ window Hr ltac:(lia)) as Hc.
  destruct (collect _ _ _ _ _) as [req|e].
  - apply (Hwrap (Some req, true, None)). destruct Hc as (Hv & Hcpu & Hwin). split_and!; [done..|].
    split_and!; simpl; [done|lia|lia| |done]. by rewrite Hcpu, Hq.
  - apply (Hwrap (sample_error e)). split; [done|]. intros e' [= <-]. right. exact Hc.
Qed.
End sampling.

(** A host with its files, half busy for thirty seconds. *)
Definition demo_proc (path : string) : result Body :=
  if String.eqb path "/proc/stat" then Ok (mkBody ("cpu  1500 0 500 3000 1000 0 0 0 0 0" +:+ newline) None)
  else if String.eqb path "/proc/meminfo" then Ok (mkBody meminfo_demo None)
  else if String.eqb path "/proc/loadavg" then Ok (mkBody ("0.52 1.07 12.30 1/512 4711" +:+ newline) None)
  else if String.eqb path "/proc/uptime" then Ok (mkBody ("350735.47 234388.90" +:+ newline) None)
  else if String.eqb path "/proc/net/dev"
  then Ok (mkBody (String.concat newline netdev_demo +:+ newline) None)
  else Err os_ErrNotExist.

Definition demo_statfs : result Statfs := Ok (mkStatfs 1000 600 500 4096).
Definition demo_sampler : linuxSampler := mkSampler true 3000 2500 (100 * Second).

Lemma sample_outcome_witness :
  let _ := ascii_tables in
  exists r, Sample defaultLinuxSamplerConfig demo_proc demo_statfs demo_sampler (130 * Second)
            = ((Some r, true, None), mkSampler true 6000 4000 (130 * Second))
  /\ CPUUsageBasisPoints r = 5000 /\ SampleWindowMS r = 30000 /\ Load15mMilli r = 12300
  /\ NetworkReceiveBytesTotal r = 1540 /\ ValidateTelemetryRequest (Some r) = None.
Proof.
  cbv zeta. eexists. split; [vm_compute; reflexivity|]. do 4 (split; [reflexivity|]).
  pose proof (@sample_outcome ascii_tables defaultLinuxSamplerConfig demo_proc demo_statfs demo_sampler (130 * Second)
    ltac:(split; simpl; lia)) as Hs.
  match type of Hs with context [Sample ?a ?b ?c ?d ?e] =>
    let v := eval vm_compute in (@Sample ascii_tables a b c d e) in
    change (@Sample ascii_tables a b c d e) with v in Hs end.
  exact (proj1 (proj2 (proj2 (proj2 (proj2 Hs))))).
Defined.
