(* ===== verification/Privilege.v ===== *)
(** * The privilege helper (src/internal/privilege)

    The packets of protocol.go, the file checks of stat_linux.go, the server
    and its connection handler (server.go), the client (client.go) and the
    hardening of hardening_linux.go, as programs over calls to the operating
    system.  The loop that accepts connections is one call here,
    [ServeConnections]; PrivilegeServer.v models it.  Packets are encoded and
    decoded by encoding/json: the coders go by the json tags. *)

From S2P Require Import Prelude GoStrings Http JsonText JsonFacts JsonCoder JsonSound Files Syscalls.

(** ** protocol.go *)

Definition ProtocolVersion : Z := 1.
Definition OpBoundaryPing : string := "boundary.ping".
Definition StatusOk : string := "ok".
Definition MaxPacketSize : Z := 1024.
Definition SocketFileName : string := "agent-helper.sock".
Definition DefaultTimeout : Z := 2 * Second.
Definition MaxConcurrentConnections : Z := 8.
Definition MaxSocketPathLen : Z := 107.

Record HelperRequest := mkHelperRequest { hq_Version : Z; hq_RequestID : string; hq_Operation : string }.
Record HelperResponse := mkHelperResponse { hs_Version : Z; hs_RequestID : string; hs_Status : string }.

Definition helper_request_fields : list (field HelperRequest) := [
  mkField "version" uint_coder hq_Version (fun x r => mkHelperRequest x (hq_RequestID r) (hq_Operation r)) false;
  mkField "request_id" string_coder hq_RequestID (fun x r => mkHelperRequest (hq_Version r) x (hq_Operation r)) false;
  mkField "operation" string_coder hq_Operation (fun x r => mkHelperRequest (hq_Version r) (hq_RequestID r) x) false].
#[export] Instance helper_request_json : Json HelperRequest :=
  message compact (struct_coder helper_request_fields (mkHelperRequest 0 "" "")).

Definition helper_response_fields : list (field HelperResponse) := [
  mkField "version" uint_coder hs_Version (fun x r => mkHelperResponse x (hs_RequestID r) (hs_Status r)) false;
  mkField "request_id" string_coder hs_RequestID (fun x r => mkHelperResponse (hs_Version r) x (hs_Status r)) false;
  mkField "status" string_coder hs_Status (fun x r => mkHelperResponse (hs_Version r) (hs_RequestID r) x) false].
#[export] Instance helper_response_json : Json HelperResponse :=
  message compact (struct_coder helper_response_fields (mkHelperResponse 0 "" "")).

Section protocol.
Context `{UuidText}.

Definition ValidateRequestID (id : string) : option error :=
  fail_if String.eqb id "" with errorString "request_id cannot be empty";
  match uuid_Parse id with
  | Some parsed =>
      fail_if negb (String.eqb (uuid_String parsed) id)
        with errorString "request_id must be a canonical lowercase UUID";
      None
  | None => Some (errorString "request_id must be a canonical lowercase UUID")
  end.

Definition validate_packet (version : Z) (id word expected : string) : option error :=
  fail_if negb (version =? ProtocolVersion) with errorString "unsupported protocol version";
  check ValidateRequestID id as err with err;
  fail_if negb (String.eqb word expected) with errorString "unsupported operation or status";
  None.

Definition encode_packet {T} `{Json T} (invalid : option error) (v : T) : result string :=
  check invalid as err with err else
  let data := json_Marshal v in
  fail_if MaxPacketSize <? len data with errorString "encoded packet exceeds maximum packet size" else
  Ok data.

(** One JSON value and nothing after it. *)
Definition decode_packet {T} `{Json T} (data : string) : result T :=
  fail_if len data =? 0 with errorString "payload is empty" else
  fail_if MaxPacketSize <? len data with errorString "payload exceeds maximum size" else
  fail_if negb (utf8_ValidString data) with errorString "payload contains invalid UTF-8" else
  match json_Decode data with
  | Err err => Err (wrapError "failed to decode JSON" err)
  | Ok (v, rest) =>
      fail_if negb (decode_EOF rest) with errorString "unexpected trailing content" else Ok v
  end.

Definition EncodeRequest (req : HelperRequest) : result string :=
  encode_packet (validate_packet (hq_Version req) (hq_RequestID req) (hq_Operation req) OpBoundaryPing) req.

Definition DecodeRequest (data : string) : result HelperRequest :=
  req ← decode_packet data;
  check validate_packet (hq_Version req) (hq_RequestID req) (hq_Operation req) OpBoundaryPing as err with err else
  Ok req.

Definition EncodeResponse (resp : HelperResponse) : result string :=
  encode_packet (validate_packet (hs_Version resp) (hs_RequestID resp) (hs_Status resp) StatusOk) resp.

Definition DecodeResponse (data : string) : result HelperResponse :=
  resp ← decode_packet data;
  check validate_packet (hs_Version resp) (hs_RequestID resp) (hs_Status resp) StatusOk as err with err else
  Ok resp.
End protocol.

(** ** Files: os.FileInfo and stat_linux.go *)

(** The permission bits are the low nine bits; [fi_Stat] is the owner and
    group when the file information carries them. *)
Record FileInfo := mkFileInfo {
  fi_Symlink : bool;
  fi_Dir : bool;
  fi_Socket : bool;
  fi_Perm : Z;
  fi_Stat : option (Z * Z);
  fi_Dev : Z;
  fi_Ino : Z;
}.

(** 0750 and 0660 *)
Definition dir_perm : Z := 488.
Definition socket_perm : Z := 432.

Definition getFileOwnership (fi : FileInfo) : result (Z * Z) :=
  match fi_Stat fi with
  | None => Err (errorString "failed to retrieve stat structure")
  | Some owner => Ok owner
  end.

Definition verifyOwnership (fi : FileInfo) (expectedUID expectedGID : Z) : option error :=
  match getFileOwnership fi with
  | Err err => Some err
  | Ok (uid, gid) =>
      fail_if negb (uid =? expectedUID)
        with errorString (if expectedUID =? 0 then "owner is not root" else "owner mismatch");
      fail_if negb (gid =? expectedGID) with errorString "group mismatch";
      None
  end.

(** [os.SameFile] compares device and inode. *)
Definition SameFile (fi1 fi2 : FileInfo) : bool :=
  (fi_Dev fi1 =? fi_Dev fi2) && (fi_Ino fi1 =? fi_Ino fi2).

Definition validateRuntimeDirFi (fi : FileInfo) (allowedGID : Z) : option error :=
  fail_if fi_Symlink fi with errorString "runtime directory is a symlink (must be regular directory)";
  fail_if negb (fi_Dir fi) with errorString "runtime directory is not a directory";
  fail_if negb (fi_Perm fi =? dir_perm) with errorString "runtime directory permissions (must be exactly 0750)";
  check verifyOwnership fi 0 allowedGID as err with wrapError "runtime directory ownership invalid" err;
  None.

(** ** Calls *)

Inductive os_call : Type -> Type :=
| Geteuid : os_call Z
| Lstat (path : string) : os_call (result FileInfo)
| Mkdir (path : string) (perm : Z) : os_call (option error)
| Chown (path : string) (uid gid : Z) : os_call (option error)
| Chmod (path : string) (perm : Z) : os_call (option error)
| Remove (path : string) : os_call (option error)
| ListenUnix (path : string) : os_call (option error)
| CloseListener : os_call unit
| ServeConnections : os_call (option error)     (* the accept loop, until it breaks *)
| WaitHandlers : os_call unit                   (* wg.Wait() *)
| AllThreadsNoNewPrivs : os_call Z              (* the errno *)
| PrctlNotDumpable : os_call (option error)
| ContextErr : os_call (option error)
| TimeNow : os_call Z
| NewUUID : os_call UUID
| Dial (path : string) (deadline : Z) : os_call (result bool)  (* whether it is a *net.UnixConn *)
| SetDeadline (t : Z) : os_call (option error)
| SetWriteDeadline (t : Z) : os_call (option error)
| SetReadDeadline (t : Z) : os_call (option error)
| PeerCred : os_call (result Z)
| ReadConn (size : Z) : os_call (result string)
| WriteConn (data : string) : os_call (option error)
| CloseConn : os_call unit.

(** ** hardening_linux.go *)

Definition ENOTSUP : Z := 95.

Definition hardenProcessWithInvokers : prog os_call (option error) :=
  body (
    errno ← ask AllThreadsNoNewPrivs;
    if negb (errno =? 0) then
      return_with (Some (errorString (if errno =? ENOTSUP
        then "process-wide hardening unsupported (cgo-linked runtime)"
        else "failed to set PR_SET_NO_NEW_PRIVS on all runtime threads")))
    else
      must PrctlNotDumpable (fun err => Some (wrapError "failed to set PR_SET_DUMPABLE" err)) ;;
      mret None).

Definition ValidateHelperEUID (euid : Z) : option error :=
  fail_if negb (euid =? 0) with errorString "stackpilot-agent-helper must be run as root (effective UID 0)";
  None.

(** ** The server *)

Record ServerConfig := mkServerConfig {
  RuntimeDir : string;
  AllowedUID : Z;
  AllowedGID : Z;
  Timeout : Z;
}.

Definition ValidateServerConfig (cfg : ServerConfig) : option error :=
  fail_if String.eqb (RuntimeDir cfg) "" with errorString "runtime directory is required";
  fail_if negb (filepath_IsAbs (RuntimeDir cfg)) with errorString "runtime directory must be an absolute path";
  fail_if negb (String.eqb (filepath_Clean (RuntimeDir cfg)) (RuntimeDir cfg))
    with errorString "runtime directory must be a canonical clean path";
  fail_if strings_Contains (RuntimeDir cfg) (String "000" "")
    with errorString "runtime directory path cannot contain NUL bytes";
  fail_if AllowedUID cfg =? 0 with errorString "allowed UID must be non-root (non-zero)";
  fail_if MaxSocketPathLen <? len (filepath_Join (RuntimeDir cfg) SocketFileName)
    with errorString "socket path exceeds maximum safe Unix domain path length";
  None.

Record Server := mkServer { srv_cfg : ServerConfig; socketPath : string }.

Definition newServerWithDeps (cfg : ServerConfig) : result Server :=
  check ValidateServerConfig cfg as err with err else
  let cfg := if Timeout cfg <=? 0
             then mkServerConfig (RuntimeDir cfg) (AllowedUID cfg) (AllowedGID cfg) DefaultTimeout else cfg in
  Ok (mkServer cfg (filepath_Join (RuntimeDir cfg) SocketFileName)).

(** *** Serve

    The result is a list of errors: [errors.Join] keeps both. *)
Section serve.
Context (s : Server).
Let dir := RuntimeDir (srv_cfg s).
Let gid := AllowedGID (srv_cfg s).
Let sock := socketPath s.

Definition failed (msg : string) (err : error) : list error := [wrapError msg err].

(** A missing directory is created; it is inspected either way. *)
Definition prepare_runtime_dir : or_return os_call (list error) unit :=
  fi ← ask (Lstat dir);
  match fi with
  | Err err =>
      if errors_Is err os_ErrNotExist then
        must (Mkdir dir dir_perm) (failed "failed to create runtime directory") ;;
        must (Chown dir 0 gid) (failed "failed to set runtime directory ownership") ;;
        must (Chmod dir dir_perm) (failed "failed to set runtime directory permissions") ;;
        createdDirFi ← must_get (Lstat dir) (failed "failed to inspect newly created runtime directory");
        ensure (validateRuntimeDirFi createdDirFi gid) (failed "newly created runtime directory verification failed")
      else return_with (failed "failed to inspect runtime directory" err)
  | Ok fi => ensure (validateRuntimeDirFi fi gid) (failed "runtime directory invalid")
  end.

Definition refuse_existing_socket : or_return os_call (list error) unit :=
  fi ← ask (Lstat sock);
  match fi with
  | Ok _ => return_with [errorString "helper socket already exists; refusing to start or unlink existing socket"]
  | Err err =>
      if errors_Is err os_ErrNotExist then mret tt
      else return_with (failed "failed to inspect socket path" err)
  end.

(** The socket as it should be before it is served. *)
Definition verify_socket (fi : FileInfo) : option error :=
  fail_if negb (fi_Socket fi) with errorString "created path is not a Unix domain socket";
  fail_if negb (fi_Perm fi =? socket_perm) with errorString "created socket permissions (must be exactly 0660)";
  check verifyOwnership fi 0 gid as err with wrapError "created socket ownership invalid" err;
  None.

(** From the bound socket to the end of the loop; whether the listener was
    closed on the way, and the errors so far. *)
Definition serve_bound : or_return os_call (bool * list error) (bool * list error) :=
  let fail msg err := (false, failed msg err) in
  must (Chown sock 0 gid) (fail "failed to set socket ownership") ;;
  must (Chmod sock socket_perm) (fail "failed to set socket permissions") ;;
  sockFi ← must_get (Lstat sock) (fail "failed to verify created socket");
  ensure (verify_socket sockFi) (fun err => (false, [err])) ;;
  hardened ← lift hardenProcessWithInvokers;
  ensure hardened (fail "failed to harden helper process") ;;
  ended ← ask ServeConnections;
  ask CloseListener ;;
  ask WaitHandlers ;;
  mret (true, match ended with Some err => failed "accept error" err | None => [] end).

Definition cleanupSocket (createdFi : FileInfo) : prog os_call (list error) :=
  body (
    dirFi ← must_get (Lstat dir) (failed "runtime directory cleanup verification failed");
    ensure (validateRuntimeDirFi dirFi gid) (failed "runtime directory invariant changed before cleanup") ;;
    currFi ← must_get (Lstat sock) (failed "failed to inspect socket path before cleanup");
    if negb (fi_Socket currFi) then return_with [errorString "socket path before cleanup is not a Unix domain socket"]
    else if negb (SameFile createdFi currFi) then
      return_with [errorString "socket file changed or was replaced before cleanup; refusing to unlink"]
    else
      must (Remove sock) (failed "failed to remove socket file") ;;
      mret []).

Definition Serve : prog os_call (list error) :=
  body (
    euid ← ask Geteuid;
    ensure (ValidateHelperEUID euid) (fun err => [err]) ;;
    prepare_runtime_dir ;;
    refuse_existing_socket ;;
    must (ListenUnix sock) (failed "failed to bind unixpacket listener") ;;
    created ← ask (Lstat sock);
    match created with
    | Err err => ask CloseListener ;; return_with (failed "failed to stat created socket instance" err)
    | Ok createdFi =>
        served ← lift (body serve_bound);
        let '(listenerClosed, retErr) := served in
        (if listenerClosed : bool then mret tt else ask CloseListener) ;;
        ask WaitHandlers ;;
        cleanupErr ← lift (cleanupSocket createdFi);
        mret (retErr ++ cleanupErr)
    end).
End serve.

(** *** handleConn *)

(** The deadline of a connection: that of the context if it is earlier. *)
Definition conn_deadline (now timeout : Z) (ctxDeadline : option Z) : Z :=
  let deadline := now + timeout in
  match ctxDeadline with
  | Some d => if d <? deadline then d else deadline
  | None => deadline
  end.

Section connections.
Context `{UuidText}.

(** Every [return] drops the connection without an answer. *)
Definition handleConn (cfg : ServerConfig) (ctxDeadline : option Z) : prog os_call unit :=
  body (
    now ← ask TimeNow;
    must (SetDeadline (conn_deadline now (Timeout cfg) ctxDeadline)) (fun _ => tt) ;;
    peerUID ← must_get PeerCred (fun _ => tt);
    if negb (peerUID =? AllowedUID cfg) then return_with tt else
    buf ← must_get (ReadConn (MaxPacketSize + 1)) (fun _ => tt);
    if (len buf =? 0) || (MaxPacketSize <? len buf) then return_with tt else
    match DecodeRequest buf with
    | Err _ => return_with tt
    | Ok req =>
        if negb (String.eqb (hq_Operation req) OpBoundaryPing) then return_with tt else
        match EncodeResponse (mkHelperResponse ProtocolVersion (hq_RequestID req) StatusOk) with
        | Err _ => return_with tt
        | Ok respBytes => ask (WriteConn respBytes) ;; mret tt
        end
    end).

(** ** The client *)

Record client := mkClient { runtimeDir : string; cl_socketPath : string; cl_timeout : Z }.

Definition newClientWithDeps (dir : string) (timeout : Z) : result client :=
  fail_if String.eqb dir "" with errorString "runtime directory is required" else
  fail_if negb (filepath_IsAbs dir) with errorString "runtime directory must be an absolute path" else
  fail_if negb (String.eqb (filepath_Clean dir) dir)
    with errorString "runtime directory must be a canonical clean path" else
  fail_if strings_Contains dir (String "000" "")
    with errorString "runtime directory path cannot contain NUL bytes" else
  let sockPath := filepath_Join dir SocketFileName in
  fail_if MaxSocketPathLen <? len sockPath
    with errorString "socket path exceeds maximum safe Unix domain path length" else
  Ok (mkClient dir sockPath (if timeout <=? 0 then DefaultTimeout else timeout)).

(** The runtime directory as the client wants it, and its group. *)
Definition client_dir_gid (fi : FileInfo) : result Z :=
  fail_if fi_Symlink fi with errorString "runtime directory is a symlink" else
  fail_if negb (fi_Dir fi) with errorString "runtime directory is not a directory" else
  fail_if negb (fi_Perm fi =? dir_perm) with errorString "runtime directory permissions (must be exactly 0750)" else
  match getFileOwnership fi with
  | Err err => Err (wrapError "failed to inspect runtime directory ownership" err)
  | Ok (dirUID, dirGID) =>
      fail_if negb (dirUID =? 0) with errorString "runtime directory owner is not root" else Ok dirGID
  end.

Definition client_socket_check (fi : FileInfo) (dirGID : Z) : option error :=
  fail_if negb (fi_Socket fi) with errorString "helper path is not a Unix domain socket";
  fail_if negb (fi_Perm fi =? socket_perm) with errorString "helper socket permissions (must be exactly 0660)";
  match getFileOwnership fi with
  | Err err => Some (wrapError "failed to inspect helper socket ownership" err)
  | Ok (sockUID, sockGID) =>
      fail_if negb (sockUID =? 0) with errorString "helper socket owner is not root";
      fail_if negb (sockGID =? dirGID) with errorString "helper socket group does not match runtime directory group";
      None
  end.

(** [if err := c(); err != nil { if ctx.Err() != nil { return ctx.Err() }; return wrapped }]:
    the error of a context stays what it is once it is set. *)
Definition or_ctx_error {A} (r : result A) (msg : string) : or_return os_call (option error) A :=
  match r with
  | Ok a => mret a
  | Err err =>
      ctxErr ← ask ContextErr;
      match ctxErr with
      | Some err => return_with (Some err)
      | None => return_with (Some (wrapError msg err))
      end
  end.

Definition nil_or {A} (a : A) (r : option error) : result A := match r with Some err => Err err | None => Ok a end.

Definition wrapped (msg : string) (err : error) : option error := Some (wrapError msg err).

(** The exchange on an open connection, which is closed at the end. *)
Definition exchange (deadline : Z) : or_return os_call (option error) (option error) :=
  must ContextErr Some ;;
  cred ← ask PeerCred;
  peerUID ← or_ctx_error cred "failed to verify helper peer credentials";
  if negb (peerUID =? 0) then return_with (Some (errorString "privilege helper peer is not root; connection rejected")) else
  id ← ask NewUUID;
  let reqID := uuid_String id in
  match EncodeRequest (mkHelperRequest ProtocolVersion reqID OpBoundaryPing) with
  | Err err => return_with (wrapped "failed to encode ping request" err)
  | Ok reqData =>
      must (SetWriteDeadline deadline) (wrapped "failed to set write deadline") ;;
      sent ← ask (WriteConn reqData);
      or_ctx_error (nil_or tt sent) "failed to send ping request" ;;
      must (SetReadDeadline deadline) (wrapped "failed to set read deadline") ;;
      got ← ask (ReadConn (MaxPacketSize + 1));
      respBuf ← or_ctx_error got "failed to read response from helper";
      if MaxPacketSize <? len respBuf then return_with (Some (errorString "response packet exceeds maximum size")) else
      match DecodeResponse respBuf with
      | Err err => return_with (wrapped "failed to parse helper response" err)
      | Ok resp =>
          mret (if negb (String.eqb (hs_RequestID resp) reqID)
                then Some (errorString "helper response request_id mismatch") else None)
      end
  end.

Definition Ping (c : client) (ctxDeadline : option Z) : prog os_call (option error) :=
  body (
    must ContextErr Some ;;
    dirFi ← must_get (Lstat (runtimeDir c)) (wrapped "cannot access runtime directory");
    match client_dir_gid dirFi with
    | Err err => return_with (Some err)
    | Ok dirGID =>
        sockFi ← must_get (Lstat (cl_socketPath c)) (wrapped "cannot access privilege helper socket");
        ensure (client_socket_check sockFi dirGID) Some ;;
        now ← ask TimeNow;
        let deadline := conn_deadline now (cl_timeout c) ctxDeadline in
        dialed ← ask (Dial (cl_socketPath c) deadline);
        unixConn ← or_ctx_error dialed "failed to connect to privilege helper socket";
        result ← lift (if negb unixConn then mret (Some (errorString "unexpected connection type"))
                       else body (exchange deadline));
        ask CloseConn ;;
        mret result
    end).
End connections.
