(* ===== verification/PrivilegeTheorems.v ===== *)
(** * What the privilege boundary guarantees

    Whatever the operating system answers: the helper serves only behind a
    verified directory and socket and after its process is hardened, unlinks
    nothing but the socket it made, and answers only the one allowed user;
    the client believes only a helper that runs as root. *)

From S2P Require Import Prelude GoStrings Http JsonText JsonFacts JsonCoder JsonSound Files Syscalls Privilege.

Lemma decode_request_ping `{UuidText} buf req :
  DecodeRequest buf = Ok req -> hq_Operation req = OpBoundaryPing.
Proof.
  unfold DecodeRequest. destruct (decode_packet buf) as [r|]; simpl; [|done].
  destruct (validate_packet _ _ _ _) eqn:E; [done|]. intros [= ->]. revert E.
  unfold validate_packet. destruct (negb _); [done|]. destruct (ValidateRequestID _); [done|].
  destruct (negb (String.eqb _ _)) eqn:E2; [done|]. bsplit. done.
Qed.

(** ** The server *)

Section server.
Context (s : Server).
Let dir := RuntimeDir (srv_cfg s).
Let gid := AllowedGID (srv_cfg s).
Let sock := socketPath s.

(** What must have happened before a connection is accepted: the helper is
    root, the runtime directory was seen to be root's with mode 0750, no socket
    was there, the socket was given to root and the group with mode 0660 and
    then seen to be so, and the process was hardened. *)
Definition secured (l : list (event os_call)) : Prop :=
  Event Geteuid 0 ∈ l
  /\ (exists fi, Event (Lstat dir) (Ok fi) ∈ l /\ validateRuntimeDirFi fi gid = None)
  /\ (exists err, Event (Lstat sock) (Err err) ∈ l /\ errors_Is err os_ErrNotExist = true)
  /\ (exists l1 fi l2, l = l1 ++ Event (Lstat sock) (Ok fi) :: l2 /\ verify_socket s fi = None
        /\ Event (ListenUnix sock) None ∈ l1 /\ Event (Chown sock 0 gid) None ∈ l1
        /\ Event (Chmod sock socket_perm) None ∈ l1)
  /\ Event AllThreadsNoNewPrivs 0 ∈ l /\ Event PrctlNotDumpable None ∈ l.

(** A path may be removed when it is the socket, the directory was just seen to
    be intact, and the socket was just seen to be the file that was there right
    after the listener was made. *)
Definition removable (l : list (event os_call)) (path : string) : Prop :=
  path = sock /\
  exists l1 created l2 dirFi curr,
    l = l1 ++ [Event (ListenUnix sock) None; Event (Lstat sock) (Ok created)] ++ l2
        ++ [Event (Lstat dir) (Ok dirFi); Event (Lstat sock) (Ok curr)]
    /\ validateRuntimeDirFi dirFi gid = None /\ fi_Socket curr = true /\ SameFile created curr = true
    /\ Event WaitHandlers tt ∈ l2.

Definition server_rule : allowed os_call := fun l e =>
  match e with
  | Event ServeConnections _ => secured l
  | Event (Remove path) _ => removable l path
  | _ => True
  end.

(** How [Serve] ends. *)
Definition server_end (r : list error) (l : list (event os_call)) : Prop :=
  r = [] -> secured l /\ exists l0, l = l0 ++ [Event (Remove sock) None].

Definition dir_seen (l : list (event os_call)) : Prop :=
  exists fi, Event (Lstat dir) (Ok fi) ∈ l /\ validateRuntimeDirFi fi gid = None.

Lemma prepare_safe l (Q : unit -> _ -> Prop) :
  (forall l0, dir_seen (l ++ l0) -> Q tt (l ++ l0)) -> rsafe (prepare_runtime_dir s) server_rule Q server_end l.
Proof.
  intros HQ. unfold prepare_runtime_dir. repeat rstep; rewrite <- ?app_assoc; try (intros ?; discriminate);
    apply HQ; eexists; (split; [rewrite ?app_assoc; seen|eassumption]).
Qed.

Definition socket_absent (l : list (event os_call)) : Prop :=
  exists err, Event (Lstat sock) (Err err) ∈ l /\ errors_Is err os_ErrNotExist = true.

Lemma refuse_safe l (Q : unit -> _ -> Prop) :
  (forall l0, socket_absent (l ++ l0) -> Q tt (l ++ l0)) -> rsafe (refuse_existing_socket s) server_rule Q server_end l.
Proof.
  intros HQ. unfold refuse_existing_socket. repeat rstep; try (intros ?; discriminate).
  apply HQ. eexists. split; [seen|eassumption].
Qed.

Lemma harden_safe l (Q : option error -> _ -> Prop) :
  (forall err l0, (err = None -> Event AllThreadsNoNewPrivs 0 ∈ l ++ l0 /\ Event PrctlNotDumpable None ∈ l ++ l0) ->
                  Q err (l ++ l0)) ->
  safe hardenProcessWithInvokers server_rule Q l.
Proof.
  intros HQ. unfold hardenProcessWithInvokers. repeat rstep; rewrite <- ?app_assoc; apply HQ; try discriminate.
  intros _. rewrite app_assoc. bsplit. subst. split; seen.
Qed.

(** The log so far when the listener has just been made. *)
Definition listening (l : list (event os_call)) : Prop :=
  Event Geteuid 0 ∈ l /\ dir_seen l /\ socket_absent l /\ Event (ListenUnix sock) None ∈ l.

Lemma seen_mono {A} (x : A) l1 l2 : x ∈ l1 -> x ∈ l1 ++ l2.
Proof. intros H. apply elem_of_app. by left. Qed.

Lemma secured_mono l l' : secured l -> secured (l ++ l').
Proof.
  intros (H1 & (fi & H2 & H3) & (err & H4 & H5) & (l1 & fi2 & l2 & -> & H6) & H7 & H8). unfold secured.
  split; [by apply seen_mono|]. split; [exists fi; split; [by apply seen_mono|done]|].
  split; [exists err; split; [by apply seen_mono|done]|]. split; [|split; by apply seen_mono].
  exists l1, fi2, (l2 ++ l'). split; [by rewrite <- app_assoc|done].
Qed.

(** After the socket was given away, inspected and the process hardened. *)
Lemma listening_secured l fi l0 :
  listening l -> verify_socket s fi = None ->
  let l' := (((l ++ [Event (Chown sock 0 gid) None]) ++ [Event (Chmod sock socket_perm) None])
             ++ [Event (Lstat sock) (Ok fi)]) ++ l0 in
  Event AllThreadsNoNewPrivs 0 ∈ l' -> Event PrctlNotDumpable None ∈ l' -> secured l'.
Proof.
  intros (H1 & (di & H2 & H3) & (err & H4 & H5) & Hl) Hv l' Ha Hp. unfold l' in *.
  split; [by do 4 apply seen_mono|]. split; [exists di; split; [by do 4 apply seen_mono|done]|].
  split; [exists err; split; [by do 4 apply seen_mono|done]|]. split; [|done].
  eexists (_ ++ _), fi, l0. rewrite <- app_assoc. split; [reflexivity|]. split; [done|].
  split_and!; seen.
Qed.

Lemma bound_safe l (Q : bool * list error -> _ -> Prop) :
  listening l -> (forall r l0, (r.2 = [] -> secured (l ++ l0)) -> Q r (l ++ l0)) ->
  safe (body (serve_bound s)) server_rule Q l.
Proof.
  intros Hlis HQ. unfold serve_bound.
  repeat (rstep; try (rewrite <- ?app_assoc; apply HQ; discriminate)).
  apply harden_safe. intros hardened l0 Hh. rstep.
  repeat (rstep; try (rewrite <- ?app_assoc; apply HQ; discriminate)).
  - destruct (Hh H0) as [Ha Hp]. by apply listening_secured.
  - destruct (Hh H0) as [Ha Hp].
    pose proof (listening_secured _ _ _ Hlis H Ha Hp) as Hs.
    rewrite <- ?app_assoc in *. apply HQ. intros _. rewrite ?app_assoc in *. do 3 apply secured_mono. exact Hs.
Qed.

(** The cleanup from a log in which the socket was made and the handlers ended. *)
Lemma cleanup_safe l1 created l2 (Q : list error -> _ -> Prop) :
  let l := l1 ++ [Event (ListenUnix sock) None; Event (Lstat sock) (Ok created)] ++ l2 in
  Event WaitHandlers tt ∈ l2 ->
  (forall r l0, (r = [] -> exists l3, l0 = l3 ++ [Event (Remove sock) None]) -> Q r (l ++ l0)) ->
  safe (cleanupSocket s created) server_rule Q l.
Proof.
  intros l Hw HQ. unfold cleanupSocket. repeat (rstep; try (rewrite <- ?app_assoc; apply HQ; discriminate)).
  - intros r. split; [done|]. exists l1, created, l2, a, a0. bsplit.
    split_and!; try done. unfold l. by rewrite <- !app_assoc.
  - rewrite <- !app_assoc. apply HQ. intros _. eexists [_; _]. reflexivity.
Qed.

(** From the end of the loop, whether the listener is closed or not. *)
Lemma cleanup_end l0 created l3 closed errs :
  let l := ((l0 ++ [Event (ListenUnix sock) None]) ++ [Event (Lstat sock) (Ok created)]) ++ l3 in
  (errs = [] -> secured l) ->
  rsafe ((if closed : bool then mret tt else ask CloseListener) ;;
         ask WaitHandlers ;;
         cleanupErr ← lift (cleanupSocket s created);
         mret (errs ++ cleanupErr)) server_rule server_end server_end l.
Proof.
  intros l Hs. rstep. assert (forall l4, let l' := (l ++ l4) ++ [Event WaitHandlers tt] in
    safe (cleanupSocket s created) server_rule
      (fun cleanupErr l'' => rsafe (mret (errs ++ cleanupErr)) server_rule server_end server_end l'') l') as Hc.
  { intros l4 l'. assert (l' = l0 ++ [Event (ListenUnix sock) None; Event (Lstat sock) (Ok created)]
                              ++ (l3 ++ l4 ++ [Event WaitHandlers tt])) as ->.
    { unfold l', l. by rewrite <- !app_assoc. }
    apply cleanup_safe; [rewrite app_assoc; seen|]. intros r l5 Hr. rstep. intros E.
    apply app_nil in E as [He ->]. destruct (Hr eq_refl) as [l6 ->]. split.
    - assert (secured ((l ++ l4 ++ [Event WaitHandlers tt] ++ l6 ++ [Event (Remove sock) None]))) as Hx
        by (apply secured_mono; auto).
      unfold l in Hx. rewrite <- !app_assoc in *. exact Hx.
    - eexists. by rewrite !app_assoc. }
  destruct closed; rstep; (do 4 rstep).
  - specialize (Hc []). rewrite app_nil_r in Hc. destruct a. exact Hc.
  - destruct a0, a. apply (Hc [Event CloseListener tt]).
Qed.

Lemma Serve_safe : safe (Serve s) server_rule server_end [].
Proof.
  unfold Serve. repeat (rstep; try (intros ?; discriminate)).
  apply prepare_safe. intros l1 Hd. rstep. apply refuse_safe. intros l2 Ha.
  repeat (lazymatch goal with |- safe (body (serve_bound _)) _ _ _ => fail | _ => rstep end;
          try (intros ?; discriminate)).
  match goal with Hv : ValidateHelperEUID ?e = None |- _ =>
    assert (e = 0) as -> by (unfold ValidateHelperEUID in Hv; destruct (e =? 0) eqn:?; [bsplit; done|done]) end.
  apply bound_safe.
  { split_and!; [do 4 apply seen_mono; seen| | |seen].
    - destruct Hd as (fi & H1 & H2). exists fi. split; [by do 3 apply seen_mono|done].
    - destruct Ha as (err & H1 & H2). exists err. split; [by do 2 apply seen_mono|done]. }
  intros [closed errs] l3 Hs. cbn [snd] in Hs. apply cleanup_end. exact Hs.
Qed.

(** C24: whatever the operating system answers, the helper accepts connections
    only once everything has been secured, removes nothing but the socket it
    made itself - after its handlers ended and with the directory and the file
    just inspected - and a run without an error secured the boundary and ends
    with that removal. *)
Theorem helper_boundary l r :
  runs (Serve s) l r ->
  (forall l1 ended l2, l = l1 ++ Event ServeConnections ended :: l2 -> secured l1)
  /\ (forall l1 path err l2, l = l1 ++ Event (Remove path) err :: l2 -> removable l1 path)
  /\ (r = [] -> secured l /\ exists l0, l = l0 ++ [Event (Remove sock) None]).
Proof.
  intros Hr. destruct (safe_runs _ _ _ _ _ _ Serve_safe Hr) as [HQ HP]. split_and!.
  - intros l1 ended l2 E. exact (HP _ _ _ E).
  - intros l1 path err l2 E. exact (HP _ _ _ E).
  - exact HQ.
Qed.
End server.

(** A machine on which everything goes well: a list of files, the calls
    changing it as they should. *)
Definition demo_dir_fi : FileInfo := mkFileInfo false true false dir_perm (Some (0, 990)) 1 10.
Definition demo_sock_fi (gid perm : Z) : FileInfo := mkFileInfo false false true perm (Some (0, gid)) 1 11.

Record machine := mkMachine { m_socket : option FileInfo }.

Definition machine_answer A (c : os_call A) (m : machine) : A * machine :=
  match c in os_call A return A * machine with
  | Geteuid => (0, m)
  | Lstat path =>
      (if String.eqb path "/run/stackpilot" then Ok demo_dir_fi
       else match m_socket m with Some fi => Ok fi | None => Err os_ErrNotExist end, m)
  | Mkdir _ _ => (None, m)
  | Chown _ _ gid => (None, mkMachine (fi ← m_socket m; Some (demo_sock_fi gid (fi_Perm fi))))
  | Chmod _ perm => (None, mkMachine (fi ← m_socket m; Some (demo_sock_fi 990 perm)))
  | Remove _ => (None, mkMachine None)
  | ListenUnix _ => (None, mkMachine (Some (demo_sock_fi 0 493)))
  | AllThreadsNoNewPrivs => (0, m)
  | TimeNow => (0, m)
  | NewUUID => (0%N, m)
  | Dial _ _ => (Ok true, m)
  | PeerCred => (Ok 0, m)
  | ReadConn _ => (Ok "", m)
  | ServeConnections | PrctlNotDumpable | ContextErr | SetDeadline _ | SetWriteDeadline _ | SetReadDeadline _
  | WriteConn _ => (None, m)
  | CloseListener | WaitHandlers | CloseConn => (tt, m)
  end.

Definition demo_server : Server :=
  mkServer (mkServerConfig "/run/stackpilot" 991 990 DefaultTimeout) "/run/stackpilot/agent-helper.sock".

Lemma helper_boundary_witness :
  newServerWithDeps (mkServerConfig "/run/stackpilot" 991 990 0) = Ok demo_server
  /\ (execute machine_answer (Serve demo_server) (mkMachine None)).1.1 = []
  /\ exists l0, (execute machine_answer (Serve demo_server) (mkMachine None)).1.2
                = l0 ++ [Event (Remove "/run/stackpilot/agent-helper.sock") None].
Proof.
  split; [vm_compute; reflexivity|]. split; [vm_compute; reflexivity|].
  refine (proj2 (proj2 (proj2 (helper_boundary demo_server _ _ (execute_runs machine_answer _ (mkMachine None)))) _)).
  vm_compute; reflexivity.
Defined.

(** ** One connection *)

Section connection.
Context `{UuidText}.
Context (cfg : ServerConfig).

(** Nothing is read before the kernel named the allowed user as the peer, and
    the one thing written answers a well-formed ping that was read. *)
Definition conn_rule : allowed os_call := fun l e =>
  match e with
  | Event (ReadConn _) _ => Event PeerCred (Ok (AllowedUID cfg)) ∈ l
  | Event (WriteConn data) _ =>
      Event PeerCred (Ok (AllowedUID cfg)) ∈ l
      /\ exists l0 n buf req, l = l0 ++ [Event (ReadConn n) (Ok buf)] /\ DecodeRequest buf = Ok req
           /\ EncodeResponse (mkHelperResponse ProtocolVersion (hq_RequestID req) StatusOk) = Ok data
  | _ => True
  end.

Lemma handleConn_safe ctxDeadline : safe (handleConn cfg ctxDeadline) conn_rule (fun _ _ => True) [].
Proof.
  unfold handleConn. repeat (rstep; try done).
  - intros r. bsplit. subst. cbn [conn_rule]. seen.
  - bsplit. subst. cbn [conn_rule]. split; [seen|]. repeat eexists; eassumption.
Qed.

(** The helper reads from no peer but the one whose kernel credentials are
    the allowed user's, and writes only the answer to a valid request. *)
Theorem only_agent_served ctxDeadline l :
  runs (handleConn cfg ctxDeadline) l tt ->
  (forall l1 n got l2, l = l1 ++ Event (ReadConn n) got :: l2 -> Event PeerCred (Ok (AllowedUID cfg)) ∈ l1)
  /\ (forall l1 data err l2, l = l1 ++ Event (WriteConn data) err :: l2 ->
        exists buf req n l0, l1 = l0 ++ [Event (ReadConn n) (Ok buf)] /\ DecodeRequest buf = Ok req
          /\ hq_Operation req = OpBoundaryPing
          /\ EncodeResponse (mkHelperResponse ProtocolVersion (hq_RequestID req) StatusOk) = Ok data).
Proof.
  intros Hr. destruct (safe_runs _ _ _ _ _ _ (handleConn_safe ctxDeadline) Hr) as [_ HP]. split.
  - intros l1 n got l2 E. exact (HP _ _ _ E).
  - intros l1 data err l2 E. pose proof (HP _ _ _ E) as Hw. cbn [app conn_rule] in Hw.
    destruct Hw as (_ & l0 & n & buf & req & -> & Hd & He).
    exists buf, req, n, l0. split_and!; try done. by apply decode_request_ping in Hd.
Qed.
End connection.

(** ** The client *)

Section client.
Context `{UuidText}.
Context (c : client).

(** The boundary as the client inspected it. *)
Definition boundary_seen (l : list (event os_call)) : Prop :=
  exists dirFi gid sockFi,
    Event (Lstat (runtimeDir c)) (Ok dirFi) ∈ l /\ client_dir_gid dirFi = Ok gid
    /\ Event (Lstat (cl_socketPath c)) (Ok sockFi) ∈ l /\ client_socket_check sockFi gid = None.

(** Nothing is sent before the boundary was inspected and the kernel named root
    as the peer. *)
Definition client_rule : allowed os_call := fun l e =>
  match e with
  | Event (WriteConn _) _ | Event (ReadConn _) _ => boundary_seen l /\ Event PeerCred (Ok 0) ∈ l
  | _ => True
  end.

Definition answered (l : list (event os_call)) : Prop :=
  exists id buf resp n,
    Event NewUUID id ∈ l /\ Event (ReadConn n) (Ok buf) ∈ l
    /\ DecodeResponse buf = Ok resp /\ hs_RequestID resp = uuid_String id.

Definition client_end (r : option error) (l : list (event os_call)) : Prop :=
  r = None -> boundary_seen l /\ Event PeerCred (Ok 0) ∈ l /\ answered l.

Lemma boundary_mono l l' : boundary_seen l -> boundary_seen (l ++ l').
Proof.
  intros (d & g & sk & H2 & H3 & H4 & H5). exists d, g, sk. split_and!; try done; by apply seen_mono.
Qed.

Lemma answered_mono l l' : answered l -> answered (l ++ l').
Proof.
  intros (id & buf & resp & n & H2 & H3 & H4 & H5). exists id, buf, resp, n. split_and!; try done; by apply seen_mono.
Qed.

Lemma or_ctx_safe {A} (r : result A) msg (Q : A -> _ -> Prop) E l :
  (forall a, r = Ok a -> Q a l) -> (forall err l0, E (Some err) (l ++ l0)) ->
  rsafe (or_ctx_error r msg) client_rule Q E l.
Proof. intros HQ HE. unfold or_ctx_error. repeat rstep; auto. Qed.

Lemma exchange_safe deadline l E :
  boundary_seen l ->
  (forall r l0, (r = None -> Event PeerCred (Ok 0) ∈ l ++ l0 /\ answered (l ++ l0)) -> E r (l ++ l0)) ->
  safe (body (exchange deadline)) client_rule E l.
Proof.
  intros Hb HE. unfold exchange.
  repeat (lazymatch goal with
          | |- rsafe (or_ctx_error _ _) _ _ _ _ => apply or_ctx_safe; [intros ? ?|intros ? ?]
          | _ => rstep
          end; try (rewrite <- ?app_assoc; apply HE; discriminate)).
  all: bsplit; subst.
  - cbn [client_rule]. split; [by repeat apply boundary_mono|seen].
  - cbn [client_rule]. split; [by repeat apply boundary_mono|seen].
  - rewrite <- ?app_assoc. apply HE. intros Hn. rewrite ?app_assoc. split; [seen|].
    destruct (negb (String.eqb _ _)) eqn:Hid; [done|]. bsplit. repeat eexists; try eassumption; seen.
Qed.

Lemma Ping_safe ctxDeadline : safe (Ping c ctxDeadline) client_rule client_end [].
Proof.
  unfold Ping.
  repeat (lazymatch goal with
          | |- rsafe (or_ctx_error _ _) _ _ _ _ => apply or_ctx_safe; [intros ? ?|intros ? ?]
          | |- safe (if _ then _ else _) _ _ _ => fail
          | _ => rstep
          end; try (intros ?; discriminate)).
  destruct (negb _).
  - do 4 rstep. intros ?; discriminate.
  - apply exchange_safe.
    + repeat eexists; try eassumption; seen.
    + intros r l0 Hr. do 3 rstep. intros ->. destruct (Hr eq_refl) as [Hp Ha].
      split; [repeat eexists; try eassumption; seen|].
      split; [by apply seen_mono|by apply answered_mono].
Qed.

(** C25: whatever happens, a ping that succeeds found the runtime directory and
    the socket to be root's with the right modes and one group, spoke to a
    process the kernel named as root, sent and read nothing before that, and
    got an answer with the identifier it made. *)
Theorem ping_authenticates ctxDeadline l r :
  runs (Ping c ctxDeadline) l r ->
  (forall l1 data err l2, l = l1 ++ Event (WriteConn data) err :: l2 -> boundary_seen l1 /\ Event PeerCred (Ok 0) ∈ l1)
  /\ (r = None -> boundary_seen l /\ Event PeerCred (Ok 0) ∈ l /\ answered l).
Proof.
  intros Hr. destruct (safe_runs _ _ _ _ _ _ (Ping_safe ctxDeadline) Hr) as [HQ HP]. split.
  - intros l1 data err l2 E. exact (HP _ _ _ E).
  - exact HQ.
Qed.
End client.
