(* ===== verification/PrivilegePing.v ===== *)
(** * Client and helper together

    The client's ping with the helper's connection handler at the other end of
    the socket, on a kernel that reports the credentials of the peers as they
    are.  Client and helper rely on [PacketLaw], which the coders satisfy. *)

From S2P Require Import Prelude GoStrings RuneFacts Http Numerals JsonText JsonFacts JsonCoder JsonSound Files Syscalls Privilege PrivilegeTheorems UuidHex.

(** A valid packet fits, is text, and is decoded to what was encoded. *)
Class PacketLaw (T : Type) `{Json T} (valid : T -> Prop) : Prop := {
  packet_decode : forall v, valid v -> exists rest, json_Decode (json_Marshal v) = Ok (v, rest) /\ decode_EOF rest = true;
  packet_size : forall v, valid v -> 0 < len (json_Marshal v) <= MaxPacketSize;
  packet_utf8 : forall v, valid v -> utf8_ValidString (json_Marshal v) = true;
}.

(** Packets with the identifier of a [uuid.UUID], which has 36 characters. *)
Definition valid_request `{UuidText} (r : HelperRequest) : Prop :=
  validate_packet (hq_Version r) (hq_RequestID r) (hq_Operation r) OpBoundaryPing = None /\ len (hq_RequestID r) = 36.
Definition valid_response `{UuidText} (r : HelperResponse) : Prop :=
  validate_packet (hs_Version r) (hs_RequestID r) (hs_Status r) StatusOk = None /\ len (hs_RequestID r) = 36.

(** ** The coders *)

Section coders.
Context `{UuidTextLaws}.

Lemma packet_fields version id word expected :
  validate_packet version id word expected = None ->
  version = ProtocolVersion /\ word = expected /\ exists u, uuid_String u = id.
Proof.
  unfold validate_packet, ValidateRequestID. destruct (negb (version =? _)) eqn:E1; [done|].
  destruct (String.eqb id ""); [done|]. destruct (uuid_Parse id) as [u|]; [|done].
  destruct (negb (String.eqb (uuid_String u) id)) eqn:E2; [done|].
  destruct (negb (String.eqb word expected)) eqn:E3; [done|]. intros _. bsplit. eauto.
Qed.

Lemma request_shape r :
  valid_request r -> exists u, r = mkHelperRequest ProtocolVersion (uuid_String u) OpBoundaryPing /\ len (uuid_String u) = 36.
Proof. destruct r as [v id w]. intros [Hv Hl]. apply packet_fields in Hv as (Hv & Hw & u & Hu). simpl in *. subst. eauto. Qed.

Lemma response_shape r :
  valid_response r -> exists u, r = mkHelperResponse ProtocolVersion (uuid_String u) StatusOk /\ len (uuid_String u) = 36.
Proof. destruct r as [v id w]. intros [Hv Hl]. apply packet_fields in Hv as (Hv & Hw & u & Hu). simpl in *. subst. eauto. Qed.

(** A packet fits: its text is at most six bytes for one. *)
Lemma packet_bound k1 k2 k3 n (a b : string) :
  6 * (Z.of_nat (length k1 + length k2 + length k3) + len a + len b) + Z.of_nat (length n) + 20 <= MaxPacketSize ->
  0 < len (string_of (print compact 0 (Obj [(k1, Number n); (k2, Str (bytes_of a)); (k3, Str (bytes_of b))]))) <= MaxPacketSize.
Proof.
  unfold len. rewrite string_length_of, <- !length_bytes_of.
  set (v := Obj [(k1, Number n); (k2, Str (bytes_of a)); (k3, Str (bytes_of b))]).
  assert (0 < length (print compact 0 v))%nat as Hp by (exact (proj1 (bracketed_length "{" "}" 0 (map _ _)))).
  pose proof (print_size 0 v) as Hs. assert (size v = 18 + 6 * (length k1 + length k2 + length k3 + length (bytes_of a) + length (bytes_of b)) + length n)%nat as E
    by (unfold v; cbn -[Nat.mul]; lia).
  lia.
Qed.

Lemma request_fields u f :
  f ∈ helper_request_fields -> faithful (f_coder f) 1 (f_get f (mkHelperRequest ProtocolVersion (uuid_String u) OpBoundaryPing)).
Proof. revert f. pose proof (uuid_text u). field_faithful. Qed.

Lemma response_fields u f :
  f ∈ helper_response_fields -> faithful (f_coder f) 1 (f_get f (mkHelperResponse ProtocolVersion (uuid_String u) StatusOk)).
Proof. revert f. pose proof (uuid_text u). field_faithful. Qed.

#[export] Instance request_law : PacketLaw HelperRequest valid_request.
Proof.
  split; intros r (u & -> & Hl)%request_shape.
  - exists "". split; [|done]. apply message_decoded; [done|done|apply request_fields|done].
  - apply (packet_bound (bytes_of "version") (bytes_of "request_id") (bytes_of "operation") (FormatInt ProtocolVersion) (uuid_String u) OpBoundaryPing). rewrite Hl. by vm_compute.
  - apply message_text; [done|done|apply request_fields].
Qed.

#[export] Instance response_law : PacketLaw HelperResponse valid_response.
Proof.
  split; intros r (u & -> & Hl)%response_shape.
  - exists "". split; [|done]. apply message_decoded; [done|done|apply response_fields|done].
  - apply (packet_bound (bytes_of "version") (bytes_of "request_id") (bytes_of "status") (FormatInt ProtocolVersion) (uuid_String u) StatusOk). rewrite Hl. by vm_compute.
  - apply message_text; [done|done|apply response_fields].
Qed.
End coders.

Section together.
Context `{UuidTextLaws}.
Lemma packet_round_trip {T} `{Json T} (valid : T -> Prop) `{!PacketLaw T valid} v :
  valid v -> decode_packet (json_Marshal v) = Ok v.
Proof.
  intros Hv. unfold decode_packet. pose proof (packet_size v Hv) as Hs.
  rewrite (proj2 (Z.eqb_neq _ 0)) by lia. rewrite (proj2 (Z.ltb_ge MaxPacketSize _)) by lia.
  rewrite (packet_utf8 v Hv). destruct (packet_decode v Hv) as (rest & -> & He). cbn. by rewrite He.
Qed.

Lemma request_encoded r : valid_request r -> EncodeRequest r = Ok (json_Marshal r).
Proof.
  intros Hv. unfold EncodeRequest, encode_packet. pose proof (packet_size r Hv). destruct Hv as [-> _].
  by rewrite (proj2 (Z.ltb_ge MaxPacketSize _)) by lia.
Qed.

Lemma response_encoded r : valid_response r -> EncodeResponse r = Ok (json_Marshal r).
Proof.
  intros Hv. unfold EncodeResponse, encode_packet. pose proof (packet_size r Hv). destruct Hv as [-> _].
  by rewrite (proj2 (Z.ltb_ge MaxPacketSize _)) by lia.
Qed.

Lemma request_decoded r : valid_request r -> DecodeRequest (json_Marshal r) = Ok r.
Proof. intros Hv. unfold DecodeRequest. rewrite (packet_round_trip valid_request r Hv). cbn. by rewrite (proj1 Hv). Qed.

Lemma response_decoded r : valid_response r -> DecodeResponse (json_Marshal r) = Ok r.
Proof. intros Hv. unfold DecodeResponse. rewrite (packet_round_trip valid_response r Hv). cbn. by rewrite (proj1 Hv). Qed.

(** ** The kernel between them *)

Context (cfg : ServerConfig) (c : client) (dirFi sockFi : FileInfo) (clock helperUID agentUID : Z) (id : UUID).

(** What the handler sees: its peer is the agent, its packet is [packet]; what
    it writes is kept. *)
Definition helper_answer (packet : string) A (call : os_call A) (out : option string) : A * option string :=
  match call in os_call A return A * option string with
  | TimeNow => (clock, out)
  | PeerCred => (Ok agentUID, out)
  | ReadConn _ => (Ok packet, out)
  | WriteConn data => (None, Some data)
  | Lstat _ => (Err os_ErrNotExist, out)
  | Geteuid | AllThreadsNoNewPrivs => (0, out)
  | Dial _ _ => (Ok true, out)
  | NewUUID => (0%N, out)
  | Mkdir _ _ | Chown _ _ _ | Chmod _ _ | Remove _ | ListenUnix _ | ServeConnections | PrctlNotDumpable
  | ContextErr | SetDeadline _ | SetWriteDeadline _ | SetReadDeadline _ => (None, out)
  | CloseListener | WaitHandlers | CloseConn => (tt, out)
  end.

(** The helper's answer to a packet, if it gives one. *)
Definition helper_reply (packet : string) : option string :=
  (execute (helper_answer packet) (handleConn cfg None) None).2.

(** What the client sees: the files, the user the helper runs as, and the
    helper's answer to what it sent; a dropped connection is an error. *)
Definition client_answer A (call : os_call A) (sent : option string) : A * option string :=
  match call in os_call A return A * option string with
  | Lstat path =>
      (if String.eqb path (runtimeDir c) then Ok dirFi
       else if String.eqb path (cl_socketPath c) then Ok sockFi else Err os_ErrNotExist, sent)
  | TimeNow => (clock, sent)
  | Dial _ _ => (Ok true, sent)
  | PeerCred => (Ok helperUID, sent)
  | NewUUID => (id, sent)
  | WriteConn data => (None, Some data)
  | ReadConn _ =>
      (match packet ← sent; helper_reply packet with
       | Some data => Ok data
       | None => Err (errorString "EOF")
       end, sent)
  | Geteuid | AllThreadsNoNewPrivs => (0, sent)
  | Mkdir _ _ | Chown _ _ _ | Chmod _ _ | Remove _ | ListenUnix _ | ServeConnections | PrctlNotDumpable
  | ContextErr | SetDeadline _ | SetWriteDeadline _ | SetReadDeadline _ => (None, sent)
  | CloseListener | WaitHandlers | CloseConn => (tt, sent)
  end.

Definition ping_result : option error := (execute client_answer (Ping c None) None).1.1.

Context (id_text : len (uuid_String id) = 36).

Lemma canonical_request_id : ValidateRequestID (uuid_String id) = None.
Proof.
  unfold ValidateRequestID. pose proof (uuid_parse_string id) as Hp.
  destruct (String.eqb (uuid_String id) "") eqn:E; [bsplit; by rewrite E in id_text|].
  by rewrite Hp, String.eqb_refl.
Qed.

Definition ping_request : HelperRequest := mkHelperRequest ProtocolVersion (uuid_String id) OpBoundaryPing.
Definition ping_response : HelperResponse := mkHelperResponse ProtocolVersion (uuid_String id) StatusOk.

Lemma ping_request_valid : valid_request ping_request.
Proof. split; [|exact id_text]. unfold validate_packet. cbn. by rewrite canonical_request_id. Qed.
Lemma ping_response_valid : valid_response ping_response.
Proof. split; [|exact id_text]. unfold validate_packet. cbn. by rewrite canonical_request_id. Qed.

(** The helper answers the ping of the allowed user and drops any other. *)
Lemma helper_reply_ping :
  helper_reply (json_Marshal ping_request)
  = if agentUID =? AllowedUID cfg then Some (json_Marshal ping_response) else None.
Proof.
  unfold helper_reply, handleConn. cbn. destruct (agentUID =? AllowedUID cfg); cbn; [|done].
  pose proof (packet_size _ ping_request_valid) as Hs.
  rewrite (proj2 (Z.eqb_neq (len _) 0)) by lia. rewrite (proj2 (Z.ltb_ge MaxPacketSize _)) by lia. cbn.
  rewrite (request_decoded _ ping_request_valid). cbn.
  fold ping_response.
  by rewrite (response_encoded _ ping_response_valid).
Qed.

(** The boundary as it has to be: a directory of root's that the agent's group
    may search, and in it a socket of root's that this group may use. *)
Definition boundary_intact : Prop :=
  exists gid,
    fi_Symlink dirFi = false /\ fi_Dir dirFi = true /\ fi_Perm dirFi = dir_perm /\ fi_Stat dirFi = Some (0, gid)
    /\ fi_Socket sockFi = true /\ fi_Perm sockFi = socket_perm /\ fi_Stat sockFi = Some (0, gid).

Lemma client_dir_exact gid :
  client_dir_gid dirFi = Ok gid
  <-> fi_Symlink dirFi = false /\ fi_Dir dirFi = true /\ fi_Perm dirFi = dir_perm /\ fi_Stat dirFi = Some (0, gid).
Proof.
  unfold client_dir_gid, getFileOwnership.
  destruct (fi_Symlink dirFi), (fi_Dir dirFi), (Z.eqb_spec (fi_Perm dirFi) dir_perm), (fi_Stat dirFi) as [[u g]|]; simpl;
    try (split; [done|naive_solver]).
  destruct (Z.eqb_spec u 0); simpl; naive_solver.
Qed.

Lemma client_socket_exact gid :
  client_socket_check sockFi gid = None
  <-> fi_Socket sockFi = true /\ fi_Perm sockFi = socket_perm /\ fi_Stat sockFi = Some (0, gid).
Proof.
  unfold client_socket_check, getFileOwnership.
  destruct (fi_Socket sockFi), (Z.eqb_spec (fi_Perm sockFi) socket_perm), (fi_Stat sockFi) as [[u g]|]; simpl;
    try (split; [done|naive_solver]).
  destruct (Z.eqb_spec u 0), (Z.eqb_spec g gid); simpl; naive_solver.
Qed.

Lemma boundary_checked :
  boundary_intact <-> exists gid, client_dir_gid dirFi = Ok gid /\ client_socket_check sockFi gid = None.
Proof. unfold boundary_intact. setoid_rewrite client_dir_exact. setoid_rewrite client_socket_exact. naive_solver. Qed.

(** C26: client and helper understand each other: the ping succeeds exactly when
    the directory and the socket are root's with the prescribed modes and one
    group, the helper runs as root, and the agent runs as the user the helper
    allows. *)
Theorem ping_succeeds_iff_allowed :
  runtimeDir c <> cl_socketPath c ->
  ping_result = None <-> boundary_intact /\ helperUID = 0 /\ agentUID = AllowedUID cfg.
Proof.
  intros Hne. rewrite boundary_checked. unfold ping_result, Ping. cbn. rewrite String.eqb_refl. cbn.
  destruct (client_dir_gid dirFi) as [gid|err] eqn:Ed; cbn; [|naive_solver].
  rewrite (proj2 (String.eqb_neq (cl_socketPath c) (runtimeDir c))) by congruence. rewrite String.eqb_refl. cbn.
  destruct (client_socket_check sockFi gid) as [err|] eqn:Es; cbn; [naive_solver|].
  destruct (Z.eqb_spec helperUID 0) as [->|Hh]; cbn; [|naive_solver].
  fold ping_request. rewrite (request_encoded _ ping_request_valid). cbn. fold ping_request.
  rewrite helper_reply_ping. destruct (Z.eqb_spec agentUID (AllowedUID cfg)) as [->|Ha]; cbn; [|naive_solver].
  pose proof (packet_size _ ping_response_valid) as Hz.
  rewrite (proj2 (Z.ltb_ge MaxPacketSize _)) by lia. rewrite (response_decoded _ ping_response_valid). cbn.
  rewrite String.eqb_refl. naive_solver.
Qed.
End together.

(** ** A run of the boundary *)

Definition demo_client : client :=
  mkClient "/run/stackpilot" "/run/stackpilot/agent-helper.sock" DefaultTimeout.
Definition demo_ping (perm helperUID agentUID : Z) : option error :=
  ping_result (srv_cfg demo_server) demo_client demo_dir_fi (demo_sock_fi 990 perm) 0 helperUID agentUID 0x1234%N.

Lemma demo_id_text : len (uuid_String 0x1234%N) = 36.
Proof. vm_compute. reflexivity. Qed.

(** It succeeds for the agent's user, and neither for another user nor with a
    socket everyone may use. *)
Lemma ping_succeeds_iff_allowed_witness :
  demo_ping socket_perm 0 991 = None /\ demo_ping socket_perm 0 1000 <> None /\ demo_ping 438 0 991 <> None.
Proof.
  pose proof (fun perm agentUID => ping_succeeds_iff_allowed (srv_cfg demo_server) demo_client demo_dir_fi
    (demo_sock_fi 990 perm) 0 0 agentUID 0x1234%N demo_id_text ltac:(discriminate)) as H.
  unfold demo_ping. split_and!.
  - apply H. split; [|split; reflexivity]. exists 990. repeat split; reflexivity.
  - intros Hn. apply H in Hn as (_ & _ & Ha). discriminate Ha.
  - intros Hn. apply H in Hn as ((gid & _ & _ & _ & _ & _ & Hp & _) & _). discriminate Hp.
Defined.

(** The logs of the two sides of that run. *)
Definition demo_client_run : option error * list (event os_call) :=
  (execute (client_answer (srv_cfg demo_server) demo_client demo_dir_fi (demo_sock_fi 990 socket_perm) 0 0 991 0x1234%N)
     (Ping demo_client None) None).1.

Lemma ping_authenticates_witness : demo_client_run.1 = None /\ answered demo_client_run.2.
Proof.
  assert (demo_client_run.1 = None) as E by (vm_compute; reflexivity). split; [exact E|].
  exact (proj2 (proj2 (proj2 (ping_authenticates demo_client None _ _ (execute_runs _ (Ping demo_client None) None)) E))).
Defined.

Definition demo_packet : string := json_Marshal (mkHelperRequest ProtocolVersion (hex_String 0x1234%N) OpBoundaryPing).
Definition demo_answer : string := json_Marshal (mkHelperResponse ProtocolVersion (hex_String 0x1234%N) StatusOk).

Definition demo_helper_run : unit * list (event os_call) :=
  (execute (helper_answer 0 991 demo_packet) (handleConn (srv_cfg demo_server) None) None).1.

Lemma only_agent_served_witness :
  length demo_helper_run.2 = 5%nat
  /\ exists data l1 buf req n l0, demo_helper_run.2 = l1 ++ [Event (WriteConn data) None]
       /\ l1 = l0 ++ [Event (ReadConn n) (Ok buf)] /\ DecodeRequest buf = Ok req.
Proof.
  split; [vm_compute; reflexivity|]. exists demo_answer.
  assert (runs (handleConn (srv_cfg demo_server) None) demo_helper_run.2 tt) as Hr.
  { pose proof (execute_runs (helper_answer 0 991 demo_packet) (handleConn (srv_cfg demo_server) None) None) as Hx.
    destruct ((execute (helper_answer 0 991 demo_packet) (handleConn (srv_cfg demo_server) None) None).1.1). exact Hx. }
  exists (take 4 demo_helper_run.2).
  destruct (proj2 (only_agent_served (srv_cfg demo_server) None _ Hr) (take 4 demo_helper_run.2) demo_answer None []
    ltac:(vm_compute; reflexivity))
    as (buf & req & n & l0 & H1 & H2 & _).
  exists buf, req, n, l0. split; [vm_compute; reflexivity|]. split; [exact H1|exact H2].
Defined.
