(* ===== verification/PrivilegeServer.v ===== *)
(** * The accept loop of the privilege helper (src/internal/privilege/server.go)

    The loop at the end of [Serve] with its handler goroutines: a semaphore of
    eight slots, a wait group, and a goroutine per accepted connection, whose
    deferred calls free the slot, leave the wait group and close the
    connection, in this order.  A step is one action of one goroutine. *)

From S2P Require Import Prelude Syscalls Privilege.

(** Where the goroutine of an accepted connection is. *)
Inductive phase := Handling | SlotFreed | LeftGroup | Closed.

#[export] Instance phase_eq_dec : EqDecision phase.
Proof. solve_decision. Defined.

Record loop_state := mkLoop {
  accepting : bool;             (* the loop has not broken *)
  conns : list phase;
  sem : Z;                      (* slots taken *)
  wg : Z;                       (* counter of the wait group *)
  retErr : option error;
  returned : bool;              (* wg.Wait() has returned *)
}.

Definition loop_start : loop_state := mkLoop true [] 0 0 None false.

Inductive loop_event :=
| AcceptUnix                              (* a *net.UnixConn *)
| AcceptOther                             (* any other connection *)
| AcceptFails (err : error) (ctxDone closed : bool)
| HandlerMoves (i : nat)                  (* handleConn ended, or one deferred call ran *)
| WaitReturns.

(** The goroutine of one connection, from the end of its handler. *)
Definition handler_moves (s : loop_state) (i : nat) (p : phase) : option loop_state :=
  let go q sem' wg' := Some (mkLoop (accepting s) (<[i := q]> (conns s)) sem' wg' (retErr s) (returned s)) in
  match p with
  | Handling => go SlotFreed (sem s - 1) (wg s)
  | SlotFreed => go LeftGroup (sem s) (wg s - 1)
  | LeftGroup => go Closed (sem s) (wg s)
  | Closed => None
  end.

Definition loop_step (s : loop_state) (e : loop_event) : option loop_state :=
  match e with
  | AcceptUnix =>
      if negb (accepting s) then None
      else if sem s <? MaxConcurrentConnections
      then Some (mkLoop true (conns s ++ [Handling]) (sem s + 1) (wg s + 1) (retErr s) (returned s))
      else Some s
  | AcceptOther => if accepting s then Some s else None
  | AcceptFails err ctxDone closed =>
      if negb (accepting s) then None
      else Some (mkLoop false (conns s) (sem s) (wg s)
                   (if ctxDone || closed then retErr s else Some (wrapError "accept error" err)) (returned s))
  | HandlerMoves i => p ← conns s !! i; handler_moves s i p
  | WaitReturns =>
      if accepting s || negb (wg s =? 0) then None
      else Some (mkLoop false (conns s) (sem s) (wg s) (retErr s) true)
  end.

(** ** Reachable states *)

Definition steps_to (s s' : loop_state) : Prop := exists e, loop_step s e = Some s'.
Definition loop_reachable (s : loop_state) : Prop := rtc steps_to loop_start s.

Definition in_phases (ps : list phase) (l : list phase) : Z := Z.of_nat (length (filter (fun p => p ∈ ps) l)).

Definition running (s : loop_state) : Z := in_phases [Handling] (conns s).

(** The counters count goroutines. *)
Definition loop_ok (s : loop_state) : Prop :=
  sem s = in_phases [Handling] (conns s)
  /\ wg s = in_phases [Handling; SlotFreed] (conns s)
  /\ sem s <= MaxConcurrentConnections
  /\ (returned s = true -> accepting s = false /\ wg s = 0).

Lemma in_phases_snoc ps l p : in_phases ps (l ++ [p]) = in_phases ps l + (if decide (p ∈ ps) then 1 else 0).
Proof.
  unfold in_phases. rewrite filter_app, length_app. cbn. destruct (decide (p ∈ ps)); simpl; lia.
Qed.

Lemma in_phases_insert ps l i p q :
  l !! i = Some p ->
  in_phases ps (<[i := q]> l)
  = in_phases ps l - (if decide (p ∈ ps) then 1 else 0) + (if decide (q ∈ ps) then 1 else 0).
Proof.
  unfold in_phases. revert i. induction l as [|x l IH]; intros [|i] Hi; simplify_eq/=.
  - rewrite !filter_cons. destruct (decide (p ∈ ps)), (decide (q ∈ ps)); simpl; lia.
  - rewrite !filter_cons. specialize (IH i Hi). destruct (decide (x ∈ ps)); simpl; lia.
Qed.

Lemma in_phases_nonneg ps l : 0 <= in_phases ps l.
Proof. unfold in_phases. lia. Qed.

Lemma loop_step_ok s e s' : loop_ok s -> loop_step s e = Some s' -> loop_ok s'.
Proof.
  unfold loop_ok, MaxConcurrentConnections. intros (Hs & Hw & Hm & Hret) Hst.
  destruct e as [| |err cd cl|i|]; simpl in Hst.
  - destruct (accepting s) eqn:Ea; [|done]. simpl in Hst. destruct (_ <? _) eqn:E; simplify_eq/=; [|by rewrite Ea in *].
    bsplit. rewrite !in_phases_snoc. simpl. unfold MaxConcurrentConnections in *.
    split_and!; [lia|lia|lia|]. intros Hr. by destruct (Hret Hr).
  - destruct (accepting s) eqn:Ea; simplify_eq; by rewrite Ea in *.
  - destruct (accepting s) eqn:Ea; simplify_eq/=. split_and!; try done. intros Hr. by destruct (Hret Hr).
  - destruct (conns s !! i) as [p|] eqn:Ei; [|done]. simpl in Hst. unfold handler_moves in Hst.
    assert (forall q, in_phases [Handling] (<[i := q]> (conns s)) = _) as H1 by (intros q; by apply in_phases_insert).
    assert (forall q, in_phases [Handling; SlotFreed] (<[i := q]> (conns s)) = _) as H2 by (intros q; by apply in_phases_insert).
    assert (forall q, 0 <= in_phases [Handling; SlotFreed] (<[i := q]> (conns s))) as H3 by (intros q; apply in_phases_nonneg).
    assert (forall p, wg s = 0 -> p ∈ [Handling; SlotFreed] -> conns s !! i <> Some p) as H4.
    { intros p' Hz Hp' Hi. pose proof (in_phases_insert [Handling; SlotFreed] _ _ _ Closed Hi) as Hx.
      rewrite decide_True in Hx by done. pose proof (in_phases_nonneg [Handling; SlotFreed] (<[i := Closed]> (conns s))).
      simpl in Hx. lia. }
    destruct p; simplify_eq/=; rewrite H1, H2; simpl; (split_and!; [lia|lia|lia|]); intros Hr;
      destruct (Hret Hr) as [Ha Hz]; (split; [done|]); try lia; exfalso; by apply (H4 _ Hz) in Ei; [|set_solver].
  - destruct (accepting s || negb (wg s =? 0)) eqn:E; [done|]. apply orb_false_elim in E as [Ea Ez].
    simplify_eq/=. bsplit. done.
Qed.

Lemma loop_reachable_ok s : loop_reachable s -> loop_ok s.
Proof.
  unfold loop_reachable. revert s. apply rtc_ind_r.
  - split_and!; done || discriminate.
  - intros y z _ [e He] Hy. by eapply loop_step_ok.
Qed.

(** C27: at most eight connections are handled at once, a connection is turned
    away only while eight are handled, and when [wg.Wait] has returned no
    handler is running and none will. *)
Theorem handlers_bounded s :
  loop_reachable s ->
  running s <= MaxConcurrentConnections
  /\ (accepting s = true -> loop_step s AcceptUnix = Some s -> running s = MaxConcurrentConnections)
  /\ (returned s = true -> running s = 0 /\ loop_step s AcceptUnix = None).
Proof.
  intros Hr. destruct (loop_reachable_ok s Hr) as (Hs & Hw & Hm & Hret). unfold running. split_and!; [lia| |].
  - intros Ha Hst. simpl in Hst. rewrite Ha in Hst. simpl in Hst.
    destruct (_ <? _) eqn:E; bsplit; [|lia]. injection Hst as Hst. apply (f_equal sem) in Hst. simpl in Hst. lia.
  - intros Hx. destruct (Hret Hx) as [Ha Hz]. split; [|simpl; by rewrite Ha].
    pose proof (in_phases_nonneg [Handling] (conns s)).
    assert (in_phases [Handling] (conns s) <= in_phases [Handling; SlotFreed] (conns s)) as Hle; [|lia].
    clear. unfold in_phases. induction (conns s) as [|p l IH]; [done|]. rewrite !filter_cons.
    destruct p; simpl; lia.
Qed.

(** ** Shutting down *)

(** What is left to do once the loop has broken: three moves for each handler
    and the return of [wg.Wait]. *)
Definition moves_left (p : phase) : nat :=
  match p with Handling => 3 | SlotFreed => 2 | LeftGroup => 1 | Closed => 0 end.
Definition work_left (s : loop_state) : nat :=
  sum_list_with moves_left (conns s) + (if returned s then 0 else 1).

Lemma work_insert l i p q :
  l !! i = Some p ->
  (sum_list_with moves_left (<[i := q]> l) + moves_left p = sum_list_with moves_left l + moves_left q)%nat.
Proof. revert i. induction l as [|x l IH]; intros [|i] Hi; simplify_eq/=; [lia|]. specialize (IH i Hi). lia. Qed.

Definition shutdown_step (s s' : loop_state) : Prop :=
  accepting s = false /\ exists e, (e = WaitReturns -> returned s = false) /\ loop_step s e = Some s'.

Lemma shutdown_decreases s s' : shutdown_step s s' -> (S (work_left s') = work_left s)%nat /\ accepting s' = false.
Proof.
  intros (Ha & e & He & Hst). unfold work_left. destruct e as [| |err cd cl|i|]; simpl in Hst; rewrite ?Ha in Hst; try done.
  - destruct (conns s !! i) as [p|] eqn:Ei; [|done]. simpl in Hst. pose proof (fun q => work_insert _ _ _ q Ei) as Hw.
    destruct p; simplify_eq/=; (split; [|done]);
      [specialize (Hw SlotFreed)|specialize (Hw LeftGroup)|specialize (Hw Closed)]; simpl in Hw; lia.
  - simpl in Hst. destruct (negb _); simplify_eq/=. rewrite (He eq_refl). split; [lia|done].
Qed.

Lemma shutdown_enabled s :
  loop_ok s -> accepting s = false -> work_left s <> 0%nat -> exists s', shutdown_step s s'.
Proof.
  intros (_ & Hw & _) Ha Hl. destruct (decide (Forall (fun p => p = Closed) (conns s))) as [Hc|Hc].
  - exists (mkLoop false (conns s) (sem s) (wg s) (retErr s) true). split; [done|]. exists WaitReturns. split.
    + intros _. unfold work_left in Hl. destruct (returned s); [|done]. exfalso. apply Hl.
      assert (sum_list_with moves_left (conns s) = 0%nat) as ->; [|done]. clear -Hc. induction Hc as [|p l -> _ IH]; [done|exact IH].
    + simpl. rewrite Ha. assert (wg s = 0) as ->; [|done]. rewrite Hw. unfold in_phases.
      clear -Hc. induction Hc as [|p l -> _ IH]; [done|]. rewrite filter_cons. simpl. exact IH.
  - apply not_Forall_Exists in Hc; [|apply _]. apply Exists_exists in Hc as (p & Hin & Hp).
    apply list_elem_of_lookup in Hin as [i Hi]. simpl in Hp.
    assert (exists s', handler_moves s i p = Some s') as [s' Hm] by (destruct p; [by eexists..|done]).
    exists s'. split; [done|]. exists (HandlerMoves i). split; [discriminate|]. simpl. by rewrite Hi.
Qed.

(** C28: the server stops: once the loop has broken every run of the remaining
    goroutines has exactly [work_left] steps, none gets stuck before, and at
    its end [wg.Wait] has returned and every connection is closed. *)
Theorem shutdown_terminates s :
  loop_reachable s -> accepting s = false ->
  (exists s', nsteps shutdown_step (work_left s) s s')
  /\ (forall n s', nsteps shutdown_step n s s' -> (n <= work_left s)%nat)
  /\ (forall s', nsteps shutdown_step (work_left s) s s' ->
        returned s' = true /\ Forall (fun p => p = Closed) (conns s')).
Proof.
  intros Hr Ha.
  assert (forall n s s', nsteps shutdown_step n s s' -> (n + work_left s' = work_left s)%nat) as Hcount.
  { intros n x y Hn. induction Hn as [x|n x y z Hxy _ IH]; [done|]. destruct (shutdown_decreases _ _ Hxy). lia. }
  split_and!.
  - apply loop_reachable_ok in Hr. remember (work_left s) as n eqn:E. revert s Hr Ha E.
    induction n as [|n IH]; intros s Hr Ha E; [exists s; constructor|].
    destruct (shutdown_enabled s Hr Ha) as [s1 Hs]; [lia|]. destruct (shutdown_decreases _ _ Hs) as [Hd Ha1].
    destruct Hs as (H0 & e & He & Hst). destruct (IH s1) as [s2 H2]; [by eapply loop_step_ok|done|lia|].
    exists s2. econstructor; [|exact H2]. split; [done|]. by exists e.
  - intros n s' Hn. apply Hcount in Hn. lia.
  - intros s' Hn. apply Hcount in Hn. assert (work_left s' = 0%nat) as Hz by lia. unfold work_left in Hz.
    destruct (returned s'); [|lia]. split; [done|]. clear -Hz. induction (conns s') as [|p l IH]; [constructor|].
    simpl in Hz. constructor; [destruct p; simpl in Hz; lia || done|apply IH; lia].
Qed.

(** Ten clients connect, the last two are turned away, and the listener fails. *)
Definition crowded : loop_state := mkLoop false (replicate 8 Handling) 8 8 (Some (wrapError "accept error" (errorString "EMFILE"))) false.

Lemma crowded_reachable : loop_reachable crowded.
Proof.
  unfold loop_reachable. do 10 (eapply rtc_l; [exists AcceptUnix; vm_compute; reflexivity|]).
  eapply rtc_l; [exists (AcceptFails (errorString "EMFILE") false false); vm_compute; reflexivity|]. apply rtc_refl.
Qed.

Lemma handlers_bounded_witness : running crowded = 8 /\ running crowded <= MaxConcurrentConnections.
Proof. split; [reflexivity|]. exact (proj1 (handlers_bounded crowded crowded_reachable)). Defined.

Lemma shutdown_terminates_witness : work_left crowded = 25%nat /\ exists s', nsteps shutdown_step 25 crowded s'.
Proof. split; [reflexivity|]. exact (proj1 (shutdown_terminates crowded crowded_reachable eq_refl)). Defined.
