(* ===== verification/PeerCred.v ===== *)
(** * Who is at the other end (src/internal/privilege/cred_linux.go)

    [DefaultPeerCredReader], which answers the call [PeerCred] of server and
    client (Privilege.v), over the calls of net and x/sys/unix.  [Control] runs
    its function on the descriptor before it returns; the function may not
    have been run when it fails. *)

From S2P Require Import Prelude Syscalls.

(** What the closure left in [cred] and [credErr]: [None] if it was not run. *)
Inductive cred_call : Type -> Type :=
| SyscallConn : cred_call (option error)
| Control : cred_call (option (option Z * option error) * option error).

Definition DefaultPeerCredReader (connected : bool) : prog cred_call (result Z) :=
  body (
    if negb connected then return_with (Err (errorString "connection is nil")) else
    must SyscallConn (fun err => Err (wrapError "failed to obtain raw socket control" err)) ;;
    controlled ← ask Control;
    let '(cred, credErr) := default (None, None) controlled.1 in
    ensure controlled.2 (fun err => Err (wrapError "failed to control socket for peer credentials" err)) ;;
    ensure credErr (fun err => Err (wrapError "SO_PEERCRED failed" err)) ;;
    match cred with
    | None => return_with (Err (errorString "SO_PEERCRED returned nil credentials"))
    | Some uid => mret (Ok uid)
    end).

Definition control_answer (l : list (event cred_call)) : option (option (option Z * option error) * option error) :=
  match l with
  | [_; Event c a] => match c in cred_call A return A -> _ with Control => Some | SyscallConn => fun _ => None end a
  | _ => None
  end.

(** The kernel was asked on a socket, and named the user. *)
Definition kernel_named (connected : bool) (l : list (event cred_call)) (uid : Z) : Prop :=
  connected = true /\ l = [Event SyscallConn None; Event Control (Some (Some uid, None), None)].

Definition named_by_kernel (connected : bool) (r : result Z) (l : list (event cred_call)) : Prop :=
  match r with
  | Ok uid => kernel_named connected l uid
  | Err _ => forall uid, ~ kernel_named connected l uid
  end.

(** The reader names a user only when the kernel did: it answers with the uid
    of an SO_PEERCRED query that succeeded on this socket, and is an error on
    every other path. *)
Theorem peer_uid_from_kernel connected l r :
  runs (DefaultPeerCredReader connected) l r -> named_by_kernel connected r l.
Proof.
  intros Hr. unfold named_by_kernel, kernel_named.
  enough (safe (DefaultPeerCredReader connected) (fun _ _ => True) (named_by_kernel connected) []) as Hs by exact (proj1 (safe_runs _ _ _ _ _ _ Hs Hr)).
  destruct connected; [|by intros uid [? _]]. intros [err|]; (split; [done|]); [by intros uid [_ E%(f_equal length)]|].
  intros [[[cred [err|]]|] [cerr|]]; (split; [done|]); try by intros uid [_ E%(f_equal control_answer)].
  destruct cred as [uid|]; [done|by intros uid [_ E%(f_equal control_answer)]].
Qed.

Lemma peer_uid_from_kernel_witness :
  let l := [Event SyscallConn None; Event Control (Some (Some 1000, None), None)] in
  runs (DefaultPeerCredReader true) l (Ok 1000) /\ true = true.
Proof.
  assert (runs (DefaultPeerCredReader true) [Event SyscallConn None; Event Control (Some (Some 1000, None), None)] (Ok 1000)) as Hr
    by (repeat econstructor).
  split; [exact Hr|]. exact (proj1 (peer_uid_from_kernel true _ (Ok 1000) Hr)).
Defined.
