(* ===== verification/Capabilities.v ===== *)
(** * The agent's own privileges (src/internal/agent/privilege_linux.go)

    Before it starts, the agent checks that it does not run as root and that
    none of its threads holds a capability, from the status files under
    /proc/self/task, and hardens its process with [HardenProcess] of the
    privilege package. *)

From S2P Require Import Prelude GoStrings Http Files Syscalls Privilege PrivilegeTheorems.

(** ** Capability masks *)

Inductive cap_field := CapInh | CapPrm | CapEff | CapBnd | CapAmb.

#[export] Instance cap_field_eq_dec : EqDecision cap_field.
Proof. solve_decision. Defined.

(** The cases of the switch. *)
Definition cap_case (key : string) : option cap_field :=
  if String.eqb key "CapInh" then Some CapInh
  else if String.eqb key "CapPrm" then Some CapPrm
  else if String.eqb key "CapEff" then Some CapEff
  else if String.eqb key "CapBnd" then Some CapBnd
  else if String.eqb key "CapAmb" then Some CapAmb
  else None.

Record CapabilitySet := mkCaps { Inh : Z; Prm : Z; Eff : Z; Bnd : Z; Amb : Z }.

(** The masks during the scan: [None] while the field's [seen] flag is false. *)
Record seen_caps := mkSeen {
  seenInh : option Z;
  seenPrm : option Z;
  seenEff : option Z;
  seenBnd : option Z;
  seenAmb : option Z;
}.

Definition no_caps : seen_caps := mkSeen None None None None None.

Definition set_cap (f : cap_field) (v : Z) (s : seen_caps) : seen_caps :=
  let '(mkSeen i p e b a) := s in
  match f with
  | CapInh => mkSeen (Some v) p e b a
  | CapPrm => mkSeen i (Some v) e b a
  | CapEff => mkSeen i p (Some v) b a
  | CapBnd => mkSeen i p e (Some v) a
  | CapAmb => mkSeen i p e b (Some v)
  end.

(** The key and the value of a line with a colon. *)
Definition status_field (line : string) : option (string * string) :=
  '(key, val) ← cut_byte (bytes_of (strings_TrimSpace line)) ":"%char;
  Some (strings_TrimSpace (string_of key), strings_TrimSpace (string_of val)).

Fixpoint scan_caps (lines : list string) (s : seen_caps) : result seen_caps :=
  match lines with
  | [] => Ok s
  | line :: lines' =>
      match status_field line with
      | None => scan_caps lines' s
      | Some (key, val) =>
          match cap_case key with
          | None => scan_caps lines' s
          | Some f =>
              match strconv_ParseUint val 16 64 with
              | inr _ => Err (errorString "malformed capability field")
              | inl v => scan_caps lines' (set_cap f v s)
              end
          end
      end
  end.

Definition parseCapabilities (content : string) : result CapabilitySet :=
  let '(lines, ok) := scan_lines content in
  s ← scan_caps lines no_caps;
  fail_if negb ok with errorString "error reading status lines" else
  match s with
  | mkSeen (Some inh) (Some prm) (Some eff) (Some bnd) (Some amb) =>
      fail_if negb (inh =? 0) || negb (prm =? 0) || negb (eff =? 0) || negb (amb =? 0)
        with errorString "thread retains unauthorized Linux capabilities" else
      Ok (mkCaps inh prm eff bnd amb)
  | _ => Err (errorString "missing required Linux capability fields in thread status")
  end.

(** ** The checks at the start of the agent *)

(** The calls of this file, beside those of the privilege package. *)
Inductive daemon_call : Type -> Type :=
| ReadDir (path : string) : daemon_call (result (list string))
| ReadFile (path : string) : daemon_call (result string)
| Kernel {A} (c : os_call A) : daemon_call A.

Definition on_kernel {R} (h : prog os_call R) : prog daemon_call R := through (@Kernel) h.

Definition status_path (taskDir tid : string) : string := filepath_Join taskDir (tid +:+ "/status").

(** The number of threads verified. *)
Fixpoint check_threads (taskDir : string) (entries : list string) (verifiedThreads : Z) :
    or_return daemon_call (option error) Z :=
  match entries with
  | [] => mret verifiedThreads
  | tid :: entries' =>
      got ← ask (ReadFile (status_path taskDir tid));
      match got with
      | Err err =>
          if errors_Is err os_ErrNotExist then check_threads taskDir entries' verifiedThreads
          else return_with (Some (wrapError "failed to read thread status" err))
      | Ok data =>
          match parseCapabilities data with
          | Err err => return_with (Some (wrapError "capability check failed on thread" err))
          | Ok _ => check_threads taskDir entries' (verifiedThreads + 1)
          end
      end
  end.

Definition checkAllThreadsCapabilities (taskDir : string) : prog daemon_call (option error) :=
  body (
    entries ← must_get (ReadDir taskDir) (fun err => Some (wrapError "failed to enumerate task directory" err));
    verifiedThreads ← check_threads taskDir entries 0;
    mret (if verifiedThreads =? 0 then Some (errorString "no active threads found to validate") else None)).

Definition validateAgentEUID (euid : Z) : option error :=
  fail_if euid =? 0 with errorString "stackpilot-agent daemon must not run as root (effective UID 0)";
  None.

Definition EnforceDaemonSecurity : prog daemon_call (option error) :=
  body (
    euid ← ask (Kernel Geteuid);
    ensure (validateAgentEUID euid) Some ;;
    threads ← lift (checkAllThreadsCapabilities "/proc/self/task");
    ensure threads (fun err => Some (wrapError "capability boundary violation" err)) ;;
    hardened ← lift (on_kernel hardenProcessWithInvokers);
    ensure hardened (fun err => Some (wrapError "process hardening failed" err)) ;;
    mret None).

(** ** What a status file says *)

Definition field_of (s : seen_caps) (f : cap_field) : option Z :=
  match f with
  | CapInh => seenInh s | CapPrm => seenPrm s | CapEff => seenEff s | CapBnd => seenBnd s | CapAmb => seenAmb s
  end.

(** The values the lines give a field, in order. *)
Definition values_of (f : cap_field) (lines : list string) : list string :=
  omap (fun line => '(key, val) ← status_field line;
                    if decide (cap_case key = Some f) then Some val else None) lines.

Definition reads_as (val : string) (v : Z) : Prop := strconv_ParseUint val 16 64 = inl v.

(** Every line of a field is a mask, each field is there, and the last line of
    each of the four sets that count says none. *)
Definition powerless (content : string) : Prop :=
  exists lines, scan_lines content = (lines, true)
  /\ (forall f val, val ∈ values_of f lines -> exists v, reads_as val v)
  /\ (forall f, exists val, last (values_of f lines) = Some val /\ (f = CapBnd \/ reads_as val 0)).

Lemma field_of_set s f v g : field_of (set_cap f v s) g = if decide (f = g) then Some v else field_of s g.
Proof. by destruct s, f, g. Qed.

Definition scanned (lines : list string) (s s' : seen_caps) : Prop :=
  forall f, match last (values_of f lines) with
            | None => field_of s' f = field_of s f
            | Some val => exists v, reads_as val v /\ field_of s' f = Some v
            end.

Lemma seen_ext s s' : (forall f, field_of s f = field_of s' f) -> s = s'.
Proof.
  intros H. destruct s as [i p e b a], s' as [i' p' e' b' a'].
  pose proof (H CapInh). pose proof (H CapPrm). pose proof (H CapEff). pose proof (H CapBnd). pose proof (H CapAmb).
  simpl in *. congruence.
Qed.

Lemma values_skip f line lines :
  (forall key val, status_field line = Some (key, val) -> cap_case key = None) ->
  values_of f (line :: lines) = values_of f lines.
Proof.
  intros H. unfold values_of. simpl. destruct (status_field line) as [[key val]|]; [|done]. simpl.
  by rewrite (H _ _ eq_refl).
Qed.

Lemma values_hit g line lines key val f :
  status_field line = Some (key, val) -> cap_case key = Some f ->
  values_of g (line :: lines) = (if decide (f = g) then [val] else []) ++ values_of g lines.
Proof.
  intros Hl Hk. unfold values_of. simpl. rewrite Hl. simpl. rewrite Hk.
  destruct (decide (f = g)) as [->|]; [by rewrite decide_True|rewrite decide_False by congruence; done].
Qed.

(** The scan keeps the last mask of each field, or finds a bad one. *)
Lemma scan_caps_spec lines s s' :
  scan_caps lines s = Ok s' <->
  (forall f val, val ∈ values_of f lines -> exists v, reads_as val v) /\ scanned lines s s'.
Proof.
  revert s. induction lines as [|line lines IH]; intros s; cbn [scan_caps].
  { unfold scanned. simpl. split; [intros [= ->]; split; [by intros ?? ?%elem_of_nil|done]|].
    intros [_ H]. f_equal. by apply seen_ext. }
  assert ((forall key val, status_field line = Some (key, val) -> cap_case key = None) ->
          scan_caps lines s = Ok s' <->
          (forall f val, val ∈ values_of f (line :: lines) -> exists v, reads_as val v) /\ scanned (line :: lines) s s') as Hskip.
  { intros H. rewrite IH. unfold scanned. split; intros [H1 H2]; (split; intros f; specialize (H1 f); specialize (H2 f));
      rewrite values_skip in * by done; done. }
  destruct (status_field line) as [[key val]|] eqn:El; [|by apply Hskip].
  destruct (cap_case key) as [f|] eqn:Ek; [clear Hskip|by apply Hskip; intros ?? [= <- <-]].
  pose proof (fun g => values_hit g line lines key val f El Ek) as Hv.
  destruct (strconv_ParseUint val 16 64) as [v|] eqn:Ev.
  - rewrite IH. unfold scanned. split; intros [H1 H2]; (split; intros g; specialize (H1 g); specialize (H2 g));
      rewrite Hv in *.
    + intros w [Hw|Hw]%elem_of_app; [|by apply H1]. destruct (decide (f = g)); [|by apply elem_of_nil in Hw].
      apply list_elem_of_singleton in Hw as ->. by exists v.
    + rewrite last_app. destruct (last (values_of g lines)) as [w|]; [done|]. rewrite H2, field_of_set.
      destruct (decide (f = g)); simpl; [by exists v|done].
    + intros w Hw. apply H1, elem_of_app. by right.
    + rewrite last_app in H2. destruct (last (values_of g lines)) as [w|]; [done|]. rewrite field_of_set.
      destruct (decide (f = g)); simpl in H2; [|done]. destruct H2 as (v' & Hr & ->). unfold reads_as in Hr. congruence.
  - split; [done|]. intros [H1 _]. specialize (H1 f val). rewrite Hv, decide_True in H1 by done.
    destruct H1 as [v Hr]; [apply elem_of_app; left; by apply list_elem_of_singleton|]. unfold reads_as in Hr. congruence.
Qed.

Lemma parse_powerless content : powerless content <-> exists caps, parseCapabilities content = Ok caps.
Proof.
  unfold powerless, parseCapabilities. destruct (scan_lines content) as [lines ok]. split.
  - intros (_ & [= <- ->] & Hall & Hlast).
    assert (exists s, forall f, exists val v, last (values_of f lines) = Some val /\ reads_as val v /\ field_of s f = Some v)
      as [s Hs].
    { assert (forall f, exists v, exists val, last (values_of f lines) = Some val /\ reads_as val v) as H.
      { intros f. destruct (Hlast f) as (val & Hl & _). destruct (Hall f val) as [v Hv]; [|by exists v, val].
        by apply last_Some_elem_of. }
      destruct (H CapInh) as (i & vi & ? & ?), (H CapPrm) as (p & vp & ? & ?), (H CapEff) as (e & ve & ? & ?),
        (H CapBnd) as (b & vb & ? & ?), (H CapAmb) as (a & va & ? & ?).
      exists (mkSeen (Some i) (Some p) (Some e) (Some b) (Some a)). intros []; simpl; eauto. }
    assert (scan_caps lines no_caps = Ok s) as ->.
    { apply scan_caps_spec. split; [done|]. intros f. destruct (Hs f) as (val & v & -> & ? & ?). by exists v. }
    simpl. assert (forall f, f <> CapBnd -> field_of s f = Some 0) as Hz.
    { intros f Hf. destruct (Hs f) as (val & v & Hl & Hr & ->), (Hlast f) as (val' & Hl' & [?|Hr']); [done|].
      unfold reads_as in *. congruence. }
    destruct (Hs CapBnd) as (_ & b & _ & _ & Hb). pose proof (Hz CapInh ltac:(done)). pose proof (Hz CapPrm ltac:(done)).
    pose proof (Hz CapEff ltac:(done)). pose proof (Hz CapAmb ltac:(done)). destruct s. simpl in *. simplify_eq. by eexists.
  - intros [caps H]. destruct (scan_caps lines no_caps) as [s|] eqn:E; [|done]. simpl in H.
    destruct ok; [|done]. simpl in H. apply scan_caps_spec in E as [Hall Hs].
    exists lines. split; [done|]. split; [done|]. intros f. specialize (Hs f).
    destruct (last (values_of f lines)) as [val|].
    + destruct Hs as (v & Hr & Hf). exists val. split; [done|]. destruct (decide (f = CapBnd)) as [|Hb]; [by left|right].
      assert (v = 0) as ->; [|done].
      destruct s as [[i|] [p|] [e|] [b|] [a|]]; try done.
      destruct (_ || _) eqn:Ez in H; [done|]. bsplit. destruct f; simplify_eq/=; done.
    + exfalso. destruct s as [[i|] [p|] [e|] [b|] [a|]]; try done; by destruct f.
Qed.

(** ** The agent starts only without privileges *)

(** What reading a thread's status may have answered: that the thread is gone,
    or that it is powerless. *)
Definition harmless (r : result string) : Prop :=
  match r with Err err => errors_Is err os_ErrNotExist = true | Ok data => powerless data end.

Definition status_read (taskDir tid : string) (r : result string) : event daemon_call :=
  Event (ReadFile (status_path taskDir tid)) r.

Definition reads (taskDir : string) (entries : list string) (answers : list (result string)) : list (event daemon_call) :=
  zip_with (status_read taskDir) entries answers.

Definition verified (answers : list (result string)) : Z :=
  Z.of_nat (length (filter (fun r => match r with Ok _ => true | Err _ => false end = true) answers)).

Lemma check_threads_safe taskDir entries n P (Q : Z -> _ -> Prop) (E : option error -> _ -> Prop) l :
  (forall l e, P l e) -> (forall err l', E (Some err) l') ->
  (forall answers, length answers = length entries -> Forall harmless answers ->
     Q (n + verified answers) (l ++ reads taskDir entries answers)) ->
  rsafe (check_threads taskDir entries n) P Q E l.
Proof.
  intros HP HE. revert n l. induction entries as [|tid entries IH]; intros n l HQ; cbn [check_threads].
  { rstep. specialize (HQ [] eq_refl ltac:(constructor)). by rewrite Z.add_0_r, app_nil_r in HQ. }
  rstep. apply rsafe_ask. intros got. split; [apply HP|].
  assert (forall n', harmless got -> n' = n + verified [got] ->
    rsafe (check_threads taskDir entries n') P Q E
      (l ++ [Event (ReadFile (status_path taskDir tid)) got])) as Hgo.
  { intros n' Hg ->. apply IH. intros answers Hlen Hall.
    specialize (HQ (got :: answers) ltac:(simpl; lia) ltac:(by constructor)). rewrite <- app_assoc. simpl.
    replace (n + verified [got] + verified answers) with (n + verified (got :: answers)); [exact HQ|].
    unfold verified. rewrite !filter_cons. destruct got; simpl; lia. }
  destruct got as [data|err].
  - destruct (parseCapabilities data) as [caps|] eqn:Ep; [|apply rsafe_return, HE]. apply Hgo; [|done].
    apply parse_powerless. by exists caps.
  - destruct (errors_Is err os_ErrNotExist) eqn:Ep; [|apply rsafe_return, HE]. apply Hgo; [done|]. unfold verified. simpl. lia.
Qed.

Lemma check_all_safe taskDir P (Q : option error -> _ -> Prop) l :
  (forall l e, P l e) -> (forall err l', Q (Some err) l') ->
  (forall entries answers, length answers = length entries -> Forall harmless answers -> 1 <= verified answers ->
     Q None (l ++ Event (ReadDir taskDir) (Ok entries) :: reads taskDir entries answers)) ->
  safe (checkAllThreadsCapabilities taskDir) P Q l.
Proof.
  intros HP HE HQ. unfold checkAllThreadsCapabilities. rstep. rstep. rstep; [by intros; apply HP|apply HE|].
  rename a into entries. rstep. apply check_threads_safe; [done..|]. intros answers Hlen Hall. rstep.
  destruct (0 + verified answers =? 0) eqn:E; [apply HE|]. bsplit. rewrite <- app_assoc. apply HQ; [done..|].
  unfold verified in *. lia.
Qed.

Lemma harden_kernel_safe P (Q : option error -> _ -> Prop) l :
  (forall l e, P l e) -> (forall err l', Q (Some err) l') ->
  Q None (l ++ [Event (Kernel AllThreadsNoNewPrivs) 0; Event (Kernel PrctlNotDumpable) None]) ->
  safe (on_kernel hardenProcessWithInvokers) P Q l.
Proof.
  intros HP HE HQ. simpl. intros errno. split; [apply HP|]. destruct (errno =? 0) eqn:E; [|apply HE].
  bsplit. subst. simpl. intros [err|]; (split; [apply HP|]); [apply HE|]. by rewrite <- app_assoc.
Qed.

(** The calls of a successful check. *)
Definition enforced (l : list (event daemon_call)) : Prop :=
  exists euid entries answers,
    l = Event (Kernel Geteuid) euid :: Event (ReadDir "/proc/self/task") (Ok entries)
        :: reads "/proc/self/task" entries answers
        ++ [Event (Kernel AllThreadsNoNewPrivs) 0; Event (Kernel PrctlNotDumpable) None]
    /\ euid <> 0 /\ length answers = length entries /\ Forall harmless answers /\ 1 <= verified answers.

(** When [EnforceDaemonSecurity] succeeds, whatever it was answered, the
    agent is not root, the status of every thread of /proc/self/task was read,
    each is gone or its last capability lines are four empty sets, at least one
    is there, and only then no-new-privs and not-dumpable were set. *)
Theorem agent_starts_powerless l :
  runs EnforceDaemonSecurity l None -> enforced l.
Proof.
  intros Hr. enough (safe EnforceDaemonSecurity (fun _ _ => True) (fun r l => r = None -> enforced l) []) as Hs.
  { by apply (safe_runs _ _ _ _ _ _ Hs Hr). }
  unfold EnforceDaemonSecurity. rstep. rstep. rstep. rename a into euid.
  rstep. rstep; [done|]. assert (euid <> 0) as Heuid by (intros ->; discriminate H).
  rstep. rstep. apply check_all_safe; [done..|]. intros entries answers Hlen Hall Hver.
  repeat (rstep; try done). apply harden_kernel_safe; [done..|]. repeat rstep; [done|].
  exists euid, entries, answers. split_and!; [by rewrite <- !app_assoc|done..].
Qed.

(** Three threads: one without capabilities, one that is gone, and the first again. *)
Definition tab : string := String "009"%char "".
Definition lf : string := String "010"%char "".
Definition cap_line (key mask : string) : string := key +:+ ":" +:+ tab +:+ mask +:+ lf.
Definition status_demo : string :=
  "Name:" +:+ tab +:+ "agent" +:+ lf
  +:+ cap_line "CapInh" "0000000000000000" +:+ cap_line "CapPrm" "0000000000000000"
  +:+ cap_line "CapEff" "0000000000000000" +:+ cap_line "CapBnd" "000001ffffffffff"
  +:+ cap_line "CapAmb" "0000000000000000".

Definition daemon_answer A (c : daemon_call A) (k : machine) : A * machine :=
  match c in daemon_call A return A * machine with
  | ReadDir _ => (Ok ["41"; "42"; "43"], k)
  | ReadFile path => (if String.eqb path "/proc/self/task/42/status" then Err os_ErrNotExist else Ok status_demo, k)
  | Kernel c =>
      match c in os_call A return A * machine with
      | Geteuid => (990, k)
      | c => machine_answer _ c k
      end
  end.

Definition daemon_start : option error * list (event daemon_call) :=
  (execute daemon_answer EnforceDaemonSecurity (mkMachine None)).1.

Lemma agent_starts_powerless_witness : length daemon_start.2 = 7%nat /\ enforced daemon_start.2.
Proof.
  split; [vm_compute; reflexivity|]. apply (agent_starts_powerless daemon_start.2).
  assert (daemon_start.1 = None) as E by (vm_compute; reflexivity). rewrite <- E. exact (execute_runs daemon_answer EnforceDaemonSecurity (mkMachine None)).
Defined.

(** A single effective capability, or a mask that is not one, is refused. *)
Example capability_refused :
  parseCapabilities (status_demo +:+ cap_line "CapEff" "0000000000000400")
  = Err (errorString "thread retains unauthorized Linux capabilities")
  /\ parseCapabilities (cap_line "CapInh" "0x0") = Err (errorString "malformed capability field").
Proof. split; vm_compute; reflexivity. Qed.
