(* ===== verification/Identity.v ===== *)
(** * The agent's identity (src/internal/agent/identity.go)

    The key and metadata files in the agent's state directory, the validators
    of identifiers and controller addresses (the latter from enroll.go), and
    the calls to the operating system the agent makes for its identity.  A file
    that is open is named by the path it was opened by.  URLs are parsed by
    net/url, keys are coded by crypto/x509 and encoding/pem: their results are
    interfaces. *)

From S2P Require Import Prelude GoStrings Base64 Network Http JsonText JsonFacts JsonCoder JsonSound Files Syscalls.

Definition IdentityKeyFileName : string := "identity.key".
Definition IdentityJSONFileName : string := "identity.json".
Definition PEMBlockType : string := "PRIVATE KEY".

Definition ErrAlreadyEnrolled := sentinel "agent.ErrAlreadyEnrolled".
Definition ErrInvalidPrivateKey := sentinel "agent.ErrInvalidPrivateKey".
Definition ErrInsecurePermissions := sentinel "agent.ErrInsecurePermissions".

Record IdentityMetadata := mkIdentityMetadata {
  im_Version : Z;
  im_AgentID : string;
  im_ControllerURL : string;
  im_PublicKey : string;
}.

Definition identity_fields : list (field IdentityMetadata) := [
  mkField "version" int_coder im_Version
    (fun x r => mkIdentityMetadata x (im_AgentID r) (im_ControllerURL r) (im_PublicKey r)) false;
  mkField "agent_id" string_coder im_AgentID
    (fun x r => mkIdentityMetadata (im_Version r) x (im_ControllerURL r) (im_PublicKey r)) false;
  mkField "controller_url" string_coder im_ControllerURL
    (fun x r => mkIdentityMetadata (im_Version r) (im_AgentID r) x (im_PublicKey r)) false;
  mkField "public_key" string_coder im_PublicKey
    (fun x r => mkIdentityMetadata (im_Version r) (im_AgentID r) (im_ControllerURL r) x) false].

(** Metadata is written with [json.MarshalIndent]. *)
#[export] Instance identity_json : Json IdentityMetadata := message indented (struct_coder identity_fields (mkIdentityMetadata 0 "" "" "")).

(** ** ValidateUUIDv7 *)

Definition byte_within (lo hi : ascii) (c : ascii) : bool := (byte_val lo <=? byte_val c) && (byte_val c <=? byte_val hi).

Definition uuid_byte (i : nat) (c : ascii) : option error :=
  if bool_decide (i ∈ [8; 13; 18; 23]%nat) then
    fail_if negb (Ascii.eqb c "-") with errorString "invalid UUID format: missing hyphen"; None
  else if (i =? 14)%nat then
    fail_if negb (Ascii.eqb c "7") with errorString "invalid UUID version: expected version 7"; None
  else if (i =? 19)%nat then
    fail_if negb (byte_within "8" "9" c || byte_within "a" "b" c || byte_within "A" "B" c)
      with errorString "invalid UUID variant: expected RFC variant"; None
  else
    fail_if negb (byte_within "0" "9" c || byte_within "a" "f" c || byte_within "A" "F" c)
      with errorString "invalid UUID character"; None.

Fixpoint uuid_bytes (i : nat) (l : bytes) : option error :=
  match l with
  | [] => None
  | c :: l' => check uuid_byte i c as err with err; uuid_bytes (S i) l'
  end.

Definition ValidateUUIDv7 (s : string) : option error :=
  fail_if negb (len s =? 36) with errorString "invalid UUID length";
  uuid_bytes 0 (bytes_of s).

(** ** ValidateControllerURL *)

Section urls.
Context `{NetURL}.

Definition valid_port (portStr : string) : bool :=
  match strconv_Atoi portStr with
  | inl port => negb ((port <=? 0) || (65535 <? port))
  | inr _ => false
  end.

Definition ValidateControllerURL (rawURL : string) : result URL :=
  fail_if String.eqb rawURL "" with errorString "controller URL is required" else
  match url_Parse rawURL with
  | Err _ => Err (errorString "invalid controller URL")
  | Ok u =>
      fail_if negb (String.eqb (u_Scheme u) "http") && negb (String.eqb (u_Scheme u) "https")
        with errorString "controller URL scheme must be http or https" else
      fail_if u_User u with errorString "controller URL must not contain credentials" else
      fail_if negb (String.eqb (u_RawQuery u) "") || negb (String.eqb (u_Fragment u) "")
        with errorString "controller URL must not contain query or fragment" else
      fail_if negb (String.eqb (u_Path u) "") && negb (String.eqb (u_Path u) "/")
        with errorString "controller URL must not contain path" else
      fail_if String.eqb (u_Hostname u) "" with errorString "controller URL missing host" else
      fail_if String.eqb (u_Port u) "" with errorString "controller URL must specify a port" else
      fail_if negb (valid_port (u_Port u)) with errorString "controller URL port is invalid" else
      if String.eqb (u_Scheme u) "http" then
        match netip_ParseAddr (u_Hostname u) with
        | Err _ => Err (errorString "controller URL host must be a literal loopback IP address")
        | Ok ip =>
            fail_if negb (IsLoopback ip) with errorString "controller URL host must be a loopback IP address" else
            Ok u
        end
      else
        match netip_ParseAddr (u_Hostname u) with
        | Ok ip => fail_if IsUnspecified ip with errorString "controller URL host cannot be unspecified IP address" else Ok u
        | Err _ => Ok u
        end
  end.
End urls.

(** ** Keys

    An Ed25519 private key is the seed and the public key derived from it. *)

Definition PublicKeySize : Z := 32.
Definition PrivateKeySize : Z := 64.

Class Ed25519 := { ed25519_derive : string -> string }.
Class Ed25519Laws `{Ed25519} : Prop := { derive_size : forall seed, len (ed25519_derive seed) = PublicKeySize }.

Definition NewKeyFromSeed `{Ed25519} (seed : string) : string := seed +:+ ed25519_derive seed.
Definition Public (priv : string) : string := string_of (drop 32 (bytes_of priv)).

(** PKCS #8 of an [ed25519.PrivateKey], the parse giving [None] for a key of
    another kind; a PEM block is its type and its bytes. *)
Class KeyCoding := {
  x509_MarshalPKCS8PrivateKey : string -> result string;
  x509_ParsePKCS8PrivateKey : string -> result (option string);
  pem_EncodeToMemory : string * string -> string;
  pem_Decode : string -> option (string * string) * string;
}.

(** ** What the files of the agent look like *)

Inductive file_type := Regular | Directory | Symlink | OtherFile.

#[export] Instance file_type_eq_dec : EqDecision file_type.
Proof. solve_decision. Defined.

Record FileMode := mkFileMode { fm_Type : file_type; fm_Perm : Z }.

(** 0700 and 0600 *)
Definition state_dir_perm : Z := 448.
Definition private_perm : Z := 384.

(** The checks of a file that must be the agent's own. *)
Definition private_file (what : string) (fi : FileMode) : option error :=
  fail_if bool_decide (fm_Type fi = Symlink) with wrapError (what +:+ " cannot be a symlink") ErrInsecurePermissions;
  fail_if negb (bool_decide (fm_Type fi = Regular))
    with wrapError (what +:+ " must be a regular file") ErrInsecurePermissions;
  fail_if negb (fm_Perm fi =? private_perm) with wrapError (what +:+ " mode must be 0600") ErrInsecurePermissions;
  None.

Definition check_state_dir (info : FileMode) : option error :=
  fail_if bool_decide (fm_Type info = Symlink)
    with wrapError "state directory cannot be a symlink" ErrInsecurePermissions;
  fail_if negb (bool_decide (fm_Type info = Directory)) with errorString "state directory path is not a directory";
  fail_if negb (fm_Perm info =? state_dir_perm) with wrapError "state directory mode must be 0700" ErrInsecurePermissions;
  None.

(** ** Calls *)

(** An [http.Client] of BuildAgentHTTPClient: the roots it trusts (nil: those
    of the system) and its certificate. *)
Record http_client := mkHttpClient { hc_RootCAs : option (list string); hc_Certificate : option string }.

Record AgentRequest := mkAgentRequest { ar_Method : string; ar_URL : string; ar_Body : string }.
Record AgentResponse := mkAgentResponse { as_Status : Z; as_ContentType : string; as_Body : Body }.

(** The fields of the template of a client certificate that vary. *)
Record cert_template := mkTemplate { SerialNumber : Z; NotBefore : Z; NotAfter : Z }.

Inductive agent_call : Type -> Type :=
| StatMode (path : string) : agent_call (result FileMode)                   (* os.Lstat *)
| MkdirAll (path : string) (perm : Z) : agent_call (option error)
| ReadWhole (path : string) : agent_call (result string)                    (* os.ReadFile *)
| OpenNew (path : string) (perm : Z) : agent_call (option error)            (* O_WRONLY|O_CREATE|O_EXCL *)
| OpenRead (path : string) : agent_call (option error)
| StatOpen (path : string) : agent_call (result FileMode)                   (* f.Stat() *)
| ReadOpen (path : string) : agent_call Body
| CreateTemp (dir prefix suffix : string) : agent_call (result string)
| ChmodOpen (path : string) (perm : Z) : agent_call (option error)
| WriteOpen (path data : string) : agent_call (option error)
| SyncOpen (path : string) : agent_call (option error)
| CloseFile (path : string) : agent_call (option error)
| Rename (oldpath newpath : string) : agent_call (option error)
| RemoveFile (path : string) : agent_call (option error)
| ReadSeed : agent_call (result string)                                     (* 32 bytes of entropy *)
| RandInt (limit : Z) : agent_call (result Z)
| Now : agent_call Z
| CreateCertificate (t : cert_template) (pub priv : string) : agent_call (result string)
| SystemCertPool : agent_call (result (option (list string)))
| ReadToken : agent_call Body                                               (* opts.TokenReader *)
| NewRequest (rq : AgentRequest) : agent_call (option error)
| Do (c : http_client) (rq : AgentRequest) : agent_call (result AgentResponse).

Definition wrap_result {A} (msg : string) : error -> result A := fun err => Err (wrapError msg err).
Definition wrap_option (msg : string) : error -> option error := fun err => Some (wrapError msg err).

Section identity.
Context `{Ed25519} `{KeyCoding} `{NetURL}.

Definition GenerateKey : prog agent_call (result (string * string)) :=
  body (
    seed ← must_get ReadSeed (wrap_result "failed to generate ed25519 key");
    let priv := NewKeyFromSeed seed in
    mret (Ok (Public priv, priv))).

Definition EncodePrivateKeyPKCS8PEM (priv : string) : result string :=
  fail_if negb (len priv =? PrivateKeySize) with ErrInvalidPrivateKey else
  match x509_MarshalPKCS8PrivateKey priv with
  | Err err => Err (wrapError "failed to marshal pkcs8 private key" err)
  | Ok pkcs8Bytes => Ok (pem_EncodeToMemory (PEMBlockType, pkcs8Bytes))
  end.

Definition ParsePrivateKeyPKCS8PEM (pemBytes : string) : result string :=
  match (pem_Decode pemBytes).1 with
  | None => Err ErrInvalidPrivateKey
  | Some (ty, data) =>
      fail_if negb (String.eqb ty PEMBlockType) with ErrInvalidPrivateKey else
      match x509_ParsePKCS8PrivateKey data with
      | Ok (Some privKey) => fail_if negb (len privKey =? PrivateKeySize) with ErrInvalidPrivateKey else Ok privKey
      | _ => Err ErrInvalidPrivateKey
      end
  end.

Definition validateExistingStateDir (stateDir : string) : prog agent_call (option error) :=
  body (
    info ← must_get (StatMode stateDir) (wrap_option "failed to stat state directory");
    mret (check_state_dir info)).

Definition EnsureStateDir (stateDir : string) : prog agent_call (option error) :=
  body (
    info ← ask (StatMode stateDir);
    match info with
    | Err err =>
        if errors_Is err os_ErrNotExist then
          must (MkdirAll stateDir state_dir_perm) Some ;;
          lift (validateExistingStateDir stateDir)
        else return_with (wrap_option "failed to stat state directory" err)
    | Ok _ => lift (validateExistingStateDir stateDir)
    end).

Definition loadExistingPrivateKey (stateDir : string) : prog agent_call (result string) :=
  body (
    let keyPath := filepath_Join stateDir IdentityKeyFileName in
    fi ← must_get (StatMode keyPath) Err;
    ensure (private_file "identity key" fi) Err ;;
    data ← must_get (ReadWhole keyPath) (wrap_result "failed to read identity key");
    match ParsePrivateKeyPKCS8PEM data with
    | Err err => return_with (wrap_result "failed to parse existing identity key" err)
    | Ok priv => mret (Ok priv)
    end).

(** A missing key is generated and written to a file of its own. *)
Definition generate_and_persist (stateDir : string) : or_return agent_call (result (string * string)) (result (string * string)) :=
  '(pub, priv) ← must_run GenerateKey Err;
  match EncodePrivateKeyPKCS8PEM priv with
  | Err err => return_with (Err err)
  | Ok pemBytes =>
      let keyPath := filepath_Join stateDir IdentityKeyFileName in
      must (OpenNew keyPath private_perm) (wrap_result "failed to create identity key file") ;;
      written ← lift (body (
        must (WriteOpen keyPath pemBytes) (wrap_result "failed to write identity key file") ;;
        must (SyncOpen keyPath) (wrap_result "failed to sync identity key file") ;;
        mret (Ok (pub, priv))));
      ask (CloseFile keyPath) ;;
      mret written
  end.

Definition LoadOrGenerateKey (stateDir : string) : prog agent_call (result (string * string)) :=
  body (
    must_do (EnsureStateDir stateDir) Err ;;
    existing ← lift (loadExistingPrivateKey stateDir);
    match existing with
    | Ok priv => mret (Ok (Public priv, priv))
    | Err err => if negb (errors_Is err os_ErrNotExist) then return_with (Err err) else generate_and_persist stateDir
    end).

(** ** Metadata *)

(** The fields, and the public key they name. *)
Definition check_metadata (meta : IdentityMetadata) : result string :=
  fail_if negb (im_Version meta =? 1) with errorString "unsupported identity metadata version" else
  check ValidateUUIDv7 (im_AgentID meta) as err with wrapError "invalid agent_id in identity metadata" err else
  match ValidateControllerURL (im_ControllerURL meta) with
  | Err err => Err (wrapError "invalid controller_url in identity metadata" err)
  | Ok _ =>
      match DecodeString URLAlphabet false (im_PublicKey meta) with
      | None => Err (errorString "invalid public_key in identity metadata")
      | Some pubBytes =>
          fail_if negb (Z.of_nat (length pubBytes) =? PublicKeySize)
            with errorString "invalid public_key in identity metadata" else
          Ok (string_of pubBytes)
      end
  end.

Definition parse_metadata (data : string) : result IdentityMetadata :=
  match json_Decode data with
  | Err err => Err (wrapError "failed to parse identity metadata" err)
  | Ok (meta, rest) =>
      fail_if decoder_More rest with errorString "identity metadata contains trailing data" else Ok meta
  end.

Definition LoadIdentityMetadata (stateDir : string) : prog agent_call (result IdentityMetadata) :=
  body (
    must_do (validateExistingStateDir stateDir) Err ;;
    let metaPath := filepath_Join stateDir IdentityJSONFileName in
    fi ← must_get (StatMode metaPath) Err;
    ensure (private_file "identity metadata" fi) Err ;;
    data ← must_get (ReadWhole metaPath) Err;
    match parse_metadata data with
    | Err err => return_with (Err err)
    | Ok meta =>
        match check_metadata meta with
        | Err err => return_with (Err err)
        | Ok pubBytes =>
            priv ← must_run (loadExistingPrivateKey stateDir) (wrap_result "identity metadata requires valid identity.key");
            if negb (String.eqb (Public priv) pubBytes)
            then return_with (Err (errorString "agent identity consistency error: public key mismatch"))
            else mret (Ok meta)
        end
    end).

(** One step on an open temporary file, which is closed when the step fails. *)
Definition temp_step (c : agent_call (option error)) (tempPath msg : string) : or_return agent_call (option error) unit :=
  r ← ask c;
  match r with
  | None => mret tt
  | Some err => ask (CloseFile tempPath) ;; return_with (wrap_option msg err)
  end.

(** A file is written under a temporary name, which is removed at the end if
    it is still there, and renamed when it is complete; [file] and [what] name
    it and its contents in the errors. *)
Definition write_atomically (stateDir prefix target data file what : string) : prog agent_call (option error) :=
  body (
    tempPath ← must_get (CreateTemp stateDir prefix ".tmp") (wrap_option ("failed to create temp " +:+ file));
    result ← lift (body (
      temp_step (ChmodOpen tempPath private_perm) tempPath ("failed to set " +:+ file +:+ " permissions") ;;
      temp_step (WriteOpen tempPath data) tempPath ("failed to write " +:+ what) ;;
      temp_step (SyncOpen tempPath) tempPath ("failed to sync " +:+ what) ;;
      must (CloseFile tempPath) (wrap_option ("failed to close temp " +:+ file)) ;;
      must (Rename tempPath target) (wrap_option ("failed to atomically rename " +:+ file)) ;;
      mret None));
    ask (RemoveFile tempPath) ;;
    mret result).

(** [json.MarshalIndent] cannot fail on a struct of an integer and strings. *)
Definition WriteIdentityMetadata (stateDir : string) (meta : IdentityMetadata) : prog agent_call (option error) :=
  body (
    must_do (EnsureStateDir stateDir) Some ;;
    let data := json_Marshal meta in
    lift (write_atomically stateDir "identity-" (filepath_Join stateDir IdentityJSONFileName) data
            "metadata file" "identity metadata")).

Definition FormatPublicKeyBase64RawURL (pub : string) : string := EncodeToString URLAlphabet (bytes_of pub).
End identity.
