(* ===== verification/Transport.v ===== *)
(** * The agent's transport (src/internal/agent/transport.go)

    Trust roots of the controller in the state directory, the short-lived
    client certificate, and the transport check.  Certificates are their DER
    bytes. *)

From S2P Require Import Prelude GoStrings Mime Network Http JsonText JsonFacts JsonCoder JsonSound Files Syscalls Identity.

Definition ControllerCAPEMFileName : string := "controller-ca.pem".
Definition MaxCAPEMBytes : Z := 1024 * 1024.
Definition SelfEndpointPath : string := "/api/v1/agent/self".
Definition MaxHTTPResponseBody : Z := 4096.
Definition pemBeginCertificate : string := "-----BEGIN CERTIFICATE-----".

(** [x509.ParseCertificate]: whether it parses, and the end of its validity. *)
Class X509 := { x509_ParseCertificate : string -> result Z }.

Definition ca_space : string :=
  string_of [" "%char; "009"%char; "013"%char; "010"%char].

(** ** CA files *)

Section ca.
Context `{KeyCoding} `{X509}.

(** One round of the loop per block: [fuel] bounds the blocks. *)
Fixpoint ca_blocks (fuel : nat) (certs : list string) (rest : string) : result (list string) :=
  let rest := string_of (drop_any (bytes_of ca_space) (bytes_of rest)) in
  if len rest =? 0 then Ok certs else
  fail_if negb (strings_HasPrefix rest pemBeginCertificate)
    with errorString "CA file contains non-CERTIFICATE block or invalid inter-block data" else
  match fuel with
  | O => Err (errorString "out of fuel")
  | S fuel =>
      match pem_Decode rest with
      | (None, _) => Err (errorString "failed to decode certificate PEM block")
      | (Some (ty, der), rest) =>
          fail_if negb (String.eqb ty "CERTIFICATE") with errorString "CA file contains non-CERTIFICATE block" else
          match x509_ParseCertificate der with
          | Err _ => Err (errorString "CA file contains malformed certificate block")
          | Ok _ => ca_blocks fuel (certs ++ [der]) rest
          end
      end
  end.

Definition validateAndParseCAPEM (caBytes : string) : result (list string) :=
  fail_if len (strings_TrimSpace caBytes) =? 0 with errorString "CA file is empty" else
  certs ← ca_blocks (String.length caBytes) [] caBytes;
  fail_if (length certs =? 0)%nat with errorString "CA file contains no valid certificates" else
  Ok certs.

(** A file read up to the limit. *)
Definition read_ca (b : Body) (too_large : string) : result string :=
  match ReadAllLimit (MaxCAPEMBytes + 1) b with
  | Err err => Err (wrapError "failed to read CA file" err)
  | Ok caBytes => fail_if MaxCAPEMBytes <? len caBytes with errorString too_large else Ok caBytes
  end.

(** The destination as it is: [Some r] ends the function. *)
Definition existing_ca (caDestPath caBytes : string) : or_return agent_call (option error) unit :=
  fi ← ask (StatMode caDestPath);
  match fi with
  | Ok fi =>
      ensure (private_file "existing controller CA file" fi) Some ;;
      existingBytes ← must_get (ReadWhole caDestPath) (wrap_option "failed to read existing controller CA file");
      return_with (if negb (String.eqb existingBytes caBytes)
                   then Some (errorString "existing controller CA file contents differ from requested CA file") else None)
  | Err err =>
      if errors_Is err os_ErrNotExist then mret tt
      else return_with (wrap_option "failed to inspect existing controller CA file" err)
  end.

(** From the open source file to the end. *)
Definition persist_ca (stateDir caFilePath : string) : or_return agent_call (option error) (option error) :=
  sourceFi ← must_get (StatOpen caFilePath) (wrap_option "failed to stat source CA file");
  if negb (bool_decide (fm_Type sourceFi = Regular))
  then return_with (Some (errorString "source CA file must be a regular file")) else
  b ← ask (ReadOpen caFilePath);
  match read_ca b "CA file exceeds maximum allowed size of 1 MiB" with
  | Err err => return_with (Some err)
  | Ok caBytes =>
      match validateAndParseCAPEM caBytes with
      | Err err => return_with (Some err)
      | Ok _ =>
          let caDestPath := filepath_Join stateDir ControllerCAPEMFileName in
          existing_ca caDestPath caBytes ;;
          lift (write_atomically stateDir "ca-" caDestPath caBytes "CA file" "CA file")
      end
  end.

Definition ValidateAndPersistCAFile (stateDir caFilePath : string) : prog agent_call (option error) :=
  body (
    must_do (EnsureStateDir stateDir) Some ;;
    must (OpenRead caFilePath) (wrap_option "failed to open CA file") ;;
    result ← lift (body (persist_ca stateDir caFilePath));
    ask (CloseFile caFilePath) ;;
    mret result).

(** From the open file of the state directory to the pool. *)
Definition load_ca (caPath : string) : or_return agent_call (result (option (list string))) (result (option (list string))) :=
  b ← ask (ReadOpen caPath);
  match read_ca b "controller CA file exceeds maximum allowed size of 1 MiB" with
  | Err err => return_with (Err err)
  | Ok caBytes =>
      match validateAndParseCAPEM caBytes with
      | Err err => return_with (wrap_result "invalid controller CA file" err)
      | Ok certs =>
          pool ← ask SystemCertPool;
          let pool := match pool with Ok (Some pool) => pool | _ => [] end in
          mret (Ok (Some (pool ++ certs)))
      end
  end.

(** [Ok None]: no CA file, the roots of the system are used. *)
Definition LoadControllerTrustRoots (stateDir : string) : prog agent_call (result (option (list string))) :=
  body (
    let caPath := filepath_Join stateDir ControllerCAPEMFileName in
    fi ← ask (StatMode caPath);
    match fi with
    | Err err =>
        if errors_Is err os_ErrNotExist then return_with (Ok None)
        else return_with (wrap_result "failed to stat controller CA file" err)
    | Ok fi =>
        ensure (private_file "controller CA file" fi) Err ;;
        must (OpenRead caPath) (wrap_result "failed to open controller CA file") ;;
        result ← lift (body (load_ca caPath));
        ask (CloseFile caPath) ;;
        mret result
    end).

(** ** The client certificate *)

Definition serial_limit : Z := Z.shiftl 1 128 - 1.

Definition buildEphemeralClientCertWithSource (priv : string) : prog agent_call (result string) :=
  body (
    if negb (len priv =? PrivateKeySize) then return_with (Err ErrInvalidPrivateKey) else
    let pub := Public priv in
    if negb (len pub =? PublicKeySize) then return_with (Err ErrInvalidPrivateKey) else
    n ← must_get (RandInt serial_limit) (wrap_result "failed to generate certificate serial number");
    let serial := n + 1 in
    let serial := if serial <=? 0 then 1 else serial in
    now ← ask Now;
    derBytes ← must_get (CreateCertificate (mkTemplate serial (now - 5 * Minute) (now + 1 * Hour)) pub priv)
                 (wrap_result "failed to create client certificate");
    match x509_ParseCertificate derBytes with
    | Err err => return_with (wrap_result "failed to parse client certificate" err)
    | Ok _ => mret (Ok derBytes)
    end).
End ca.

(** ** Answers of the controller *)

(** The body of a reply of status 200 or 201. *)
Record enrollResponse := mkEnrollResponse { es_AgentID : string }.

Definition enroll_response_fields : list (field enrollResponse) := [
  mkField "agent_id" string_coder es_AgentID (fun x _ => mkEnrollResponse x) false].
#[export] Instance enroll_response_json : Json enrollResponse := message compact (struct_coder enroll_response_fields (mkEnrollResponse "")).

Section transport.
Context `{Ed25519} `{KeyCoding} `{X509} `{NetURL} `{UnicodeTables}.

(** The replies to an enrollment and to a transport check are checked alike;
    [what] names them in the errors. *)
Definition json_response (what ct : string) : option error :=
  fail_if String.eqb ct "" with errorString ("controller returned missing Content-Type in " +:+ what);
  match ParseMediaType ct with
  | Err _ => Some (errorString ("controller returned malformed Content-Type in " +:+ what))
  | Ok (mediaType, params) =>
      fail_if negb (String.eqb mediaType "application/json")
        with errorString ("controller returned invalid Content-Type in " +:+ what);
      fail_if charset_refused params
        with errorString ("controller returned unsupported charset in " +:+ what);
      None
  end.

(** One object with an [agent_id], which is an identifier; nothing after it. *)
Definition agent_id_response (what bodyBytes : string) : result string :=
  match json_Decode bodyBytes with
  | Err _ => Err (errorString ("controller returned malformed JSON in " +:+ what))
  | Ok (respData, rest) =>
      let agentID := es_AgentID respData in
      fail_if decoder_More rest with errorString ("controller returned trailing data in " +:+ what) else
      fail_if negb (decode_EOF rest) with errorString ("controller returned additional JSON documents in " +:+ what) else
      fail_if String.eqb agentID "" with errorString ("controller returned empty agent_id in " +:+ what) else
      check ValidateUUIDv7 agentID as err
        with errorString ("controller returned invalid agent_id format in " +:+ what) else
      Ok agentID
  end.

Definition read_response (reply what : string) (b : Body) : result string :=
  match ReadAllLimit (MaxHTTPResponseBody + 1) b with
  | Err _ => Err (errorString ("failed to read " +:+ reply +:+ "response"))
  | Ok bodyBytes =>
      fail_if MaxHTTPResponseBody <? len bodyBytes with errorString ("controller " +:+ what +:+ " exceeds maximum allowed size") else
      Ok bodyBytes
  end.

Definition self_response (meta : IdentityMetadata) (resp : AgentResponse) : result string :=
  bodyBytes ← read_response "transport check " "response" (as_Body resp);
  fail_if as_Status resp =? StatusUnauthorized with errorString "agent authentication rejected by controller" else
  fail_if negb (as_Status resp =? StatusOK) with errorString "controller returned unexpected status" else
  check json_response "response" (as_ContentType resp) as err with err else
  agentID ← agent_id_response "response" bodyBytes;
  fail_if negb (String.eqb agentID (im_AgentID meta)) with errorString "controller returned unexpected agent ID" else
  Ok agentID.

(** What the transport check and the daemon read before they talk to the
    controller: the identity, an https address, the roots, the key. *)
Definition load_enrolled (stateDir plain_http : string) :
    or_return agent_call (result (IdentityMetadata * URL * option (list string) * string))
      (IdentityMetadata * URL * option (list string) * string) :=
  if String.eqb stateDir "" then return_with (Err (errorString "state directory is required")) else
  meta ← must_run (LoadIdentityMetadata stateDir) (wrap_result "failed to load agent identity");
  match ValidateControllerURL (im_ControllerURL meta) with
  | Err err => return_with (wrap_result "invalid controller URL in identity" err)
  | Ok ctrlURL =>
      if negb (String.eqb (u_Scheme ctrlURL) "https") then return_with (Err (errorString plain_http)) else
      rootCAs ← must_run (LoadControllerTrustRoots stateDir) (wrap_result "failed to load controller trust roots");
      privKey ← must_run (loadExistingPrivateKey stateDir) (wrap_result "failed to load agent private key");
      mret (meta, ctrlURL, rootCAs, privKey)
  end.

Definition TransportCheck (stateDir : string) : prog agent_call (result string) :=
  body (
    loaded ← must_run (body (
        r ← load_enrolled stateDir "transport check requires HTTPS controller URL; found HTTP loopback identity";
        mret (Ok r))) Err;
    let '(meta, ctrlURL, rootCAs, privKey) := loaded in
    clientCert ← must_run (buildEphemeralClientCertWithSource privKey) (wrap_result "failed to create ephemeral client certificate");
    let client := mkHttpClient rootCAs (Some clientCert) in
    let rq := mkAgentRequest "GET" (url_Resolve ctrlURL SelfEndpointPath) "" in
    must (NewRequest rq) (fun _ => Err (errorString "failed to construct transport check request")) ;;
    resp ← must_get (Do client rq) (wrap_result "transport check connection failed");
    mret (self_response meta resp)).
End transport.

(** ** The start of the daemon

    runPresenceWithConfig (presence.go) up to its loop: what the loop is given. *)

Section presence.
Context `{Ed25519} `{KeyCoding} `{X509} `{NetURL}.

Definition presence_start (stateDir : string) :
    prog agent_call (result (IdentityMetadata * URL * option (list string) * string)) :=
  body (
    r ← load_enrolled stateDir "agent presence requires HTTPS controller URL; found HTTP loopback identity";
    mret (Ok r)).
End presence.
