(* ===== verification/Enroll.v ===== *)
(** * Enrollment of the agent (src/internal/agent/enroll.go)

    The token on standard input and the whole of [Enroll].  The address of the
    controller is validated in Identity.v, the checks of the reply that the
    transport check shares are in Transport.v. *)

From S2P Require Import Prelude GoStrings Base64 Job Enrollment Network Http JsonText JsonFacts JsonCoder JsonSound Files Syscalls Identity Transport.

Definition MaxStdinTokenBytes : Z := 128.
Definition EnrollmentEndpointPath : string := "/api/v1/agent/enroll".

Definition CR : ascii := "013".
Definition LF : ascii := "010".

Definition ReadAndValidateTokenFromStdin (r : Body) : result string :=
  match ReadAllLimit (MaxStdinTokenBytes + 1) r with
  | Err _ => Err (errorString "failed to read enrollment token from stdin")
  | Ok raw =>
      fail_if MaxStdinTokenBytes <? len raw
        with errorString "enrollment token input exceeds maximum allowed size" else
      fail_if len raw =? 0 with errorString "empty enrollment token from stdin" else
      let token :=
        if strings_HasSuffix raw (string_of [CR; LF]) then string_of (take (String.length raw - 2) (bytes_of raw))
        else if strings_HasSuffix raw (string_of [LF]) then string_of (take (String.length raw - 1) (bytes_of raw))
        else raw in
      fail_if len token =? 0 with errorString "empty enrollment token from stdin" else
      fail_if strings_ContainsAny token (string_of [CR; LF])
        with errorString "stdin contains multiple lines or embedded newline" else
      fail_if strings_ContainsAny token (string_of [" "%char; "009"%char; "011"%char; "012"%char])
        with errorString "enrollment token contains invalid whitespace characters" else
      check ValidateToken token as err with wrapError "invalid enrollment token" err else
      Ok token
  end.

(** [TokenReader] says whether there is one. *)
Record EnrollOptions := mkEnrollOptions {
  eo_ControllerURL : string;
  eo_StateDir : string;
  eo_CAFile : string;
  eo_TokenReader : bool;
}.

Record enroll_request := mkEnrollRequest { en_Token : string; en_PublicKey : string }.

Definition enroll_request_fields : list (field enroll_request) := [
  mkField "token" string_coder en_Token (fun x r => mkEnrollRequest x (en_PublicKey r)) false;
  mkField "public_key" string_coder en_PublicKey (fun x r => mkEnrollRequest (en_Token r) x) false].
#[export] Instance enroll_request_json : Json enroll_request := message compact (struct_coder enroll_request_fields (mkEnrollRequest "" "")).

Section enroll.
Context `{Ed25519} `{KeyCoding} `{X509} `{NetURL} `{UnicodeTables}.

(** The identifier in the reply to an enrollment, or why there is none. *)
Definition enrolled_id (resp : AgentResponse) : result string :=
  bodyBytes ← read_response "enrollment " "enrollment response" (as_Body resp);
  let code := as_Status resp in
  if (code =? StatusCreated) || (code =? StatusOK) then
    check json_response "enrollment response" (as_ContentType resp) as err with err else
    agent_id_response "enrollment response" bodyBytes
  else if code =? StatusUnauthorized then Err (errorString "enrollment rejected by controller")
  else if code =? StatusConflict then Err (errorString "agent identity conflict")
  else if code =? StatusBadRequest then Err (errorString "controller rejected enrollment request")
  else Err (errorString "controller enrollment failed").

Definition refuse_enrolled (stateDir : string) : or_return agent_call (result string) unit :=
  fi ← ask (StatMode (filepath_Join stateDir IdentityJSONFileName));
  match fi with
  | Ok _ =>
      loaded ← lift (LoadIdentityMetadata stateDir);
      match loaded with
      | Ok _ => return_with (Err ErrAlreadyEnrolled)
      | Err loadErr => return_with (wrap_result "existing agent identity metadata is invalid" loadErr)
      end
  | Err err =>
      if errors_Is err os_ErrNotExist then mret tt
      else return_with (wrap_result "failed to inspect existing agent identity metadata" err)
  end.

Definition enroll_http (url token pubKeyStr : string) : AgentRequest :=
  mkAgentRequest "POST" url (json_Marshal (mkEnrollRequest token pubKeyStr)).

(** The request and what becomes of its reply. *)
Definition request_enrollment (opts : EnrollOptions) (ctrlURL : URL) (rootCAs : option (list string))
    (token pubKeyStr : string) : or_return agent_call (result string) (result string) :=
  let httpReq := enroll_http (url_Resolve ctrlURL EnrollmentEndpointPath) token pubKeyStr in
  must (NewRequest httpReq) (fun _ => Err (errorString "failed to construct enrollment request")) ;;
  resp ← must_get (Do (mkHttpClient rootCAs None) httpReq) (fun _ => Err (errorString "enrollment request failed"));
  match enrolled_id resp with
  | Err err => return_with (Err err)
  | Ok agentID =>
      must_do (WriteIdentityMetadata (eo_StateDir opts) (mkIdentityMetadata 1 agentID (eo_ControllerURL opts) pubKeyStr))
        (wrap_result "failed to persist agent identity metadata") ;;
      mret (Ok agentID)
  end.

Definition check_options (opts : EnrollOptions) : result URL :=
  ctrlURL ← ValidateControllerURL (eo_ControllerURL opts);
  fail_if String.eqb (eo_StateDir opts) "" with errorString "state directory is required" else
  fail_if negb (eo_TokenReader opts) with errorString "token reader is required" else
  fail_if negb (String.eqb (eo_CAFile opts) "") && negb (String.eqb (u_Scheme ctrlURL) "https")
    with errorString "--ca-file is permitted only with HTTPS controller URL" else
  Ok ctrlURL.

Definition Enroll (opts : EnrollOptions) : prog agent_call (result string) :=
  body (
    match check_options opts with
    | Err err => return_with (Err err)
    | Ok ctrlURL =>
        let stateDir := eo_StateDir opts in
        refuse_enrolled stateDir ;;
        (if String.eqb (eo_CAFile opts) "" then mret tt
         else must_do (ValidateAndPersistCAFile stateDir (eo_CAFile opts)) (wrap_result "failed to process CA file")) ;;
        input ← ask ReadToken;
        match ReadAndValidateTokenFromStdin input with
        | Err err => return_with (Err err)
        | Ok token =>
            '(pub, _) ← must_run (LoadOrGenerateKey stateDir) (wrap_result "failed to prepare agent identity");
            rootCAs ← must_run (LoadControllerTrustRoots stateDir) (wrap_result "failed to load controller trust roots");
            request_enrollment opts ctrlURL rootCAs token (FormatPublicKeyBase64RawURL pub)
        end
    end).
End enroll.
