(* ===== verification/StateDir.v ===== *)
(** * The agent's machine

    A machine the calls of Identity.v can be run on: the files of the agent,
    and for everything else - failing calls, partial writes, entropy, names of
    temporary files, the network - the whims of an environment, one per call.
    A program may be cut off after any number of calls, as by a crash; nobody
    else writes to the agent's state directory meanwhile. *)

From S2P Require Import Prelude GoStrings Network Http Files Syscalls Identity.

Inductive node := Dir (perm : Z) | File (content : string) (perm : Z) | Special (ty : file_type).

(** What decides one call: whether it fails ([Some n]: a write fails after [n]
    bytes), and what comes from outside. *)
Record Whim := mkWhim {
  wh_fault : option nat;
  wh_seed : string;
  wh_int : Z;
  wh_now : Z;
  wh_temp : string;
  wh_stdin : Body;
  wh_request : option error;
  wh_reply : result AgentResponse;
  wh_cert : result string;
  wh_pool : result (option (list string));
}.

Record Host := mkHost {
  disk : gmap string node;
  calls : nat;
  exchanges : list (AgentRequest * result AgentResponse);   (* oldest first *)
}.

Definition os_ErrExist : error := sentinel "os.ErrExist".
Definition io_error : error := errorString "input/output error".

Definition mode_of (n : node) : FileMode :=
  match n with
  | Dir perm => mkFileMode Directory perm
  | File _ perm => mkFileMode Regular perm
  | Special ty => mkFileMode ty 0
  end.

Definition content_of (n : option node) : result string :=
  match n with
  | None => Err os_ErrNotExist
  | Some (File content _) => Ok content
  | Some _ => Err io_error
  end.

Section machine.
Context (whims : nat -> Whim).

(** A call on a file: it fails as the whim has it, or has its effect. *)
Definition file_op (h : Host) (effect : option error * gmap string node) : option error * Host :=
  match wh_fault (whims (calls h)) with
  | Some _ => (Some io_error, mkHost (disk h) (S (calls h)) (exchanges h))
  | None => (effect.1, mkHost effect.2 (S (calls h)) (exchanges h))
  end.

Definition file_query {A} (h : Host) (r : result A) : result A * Host :=
  (match wh_fault (whims (calls h)) with Some _ => Err io_error | None => r end,
   mkHost (disk h) (S (calls h)) (exchanges h)).

Definition append_file (path data : string) (d : gmap string node) : option error * gmap string node :=
  match d !! path with
  | Some (File content perm) => (None, <[path := File (content +:+ data) perm]> d)
  | _ => (Some io_error, d)
  end.

(** The name [os.CreateTemp] makes in [dir]. *)
Definition temp_path (dir prefix suffix random : string) : string := dir +:+ "/" +:+ prefix +:+ random +:+ suffix.

Definition create_file (path : string) (perm : Z) (d : gmap string node) : option error * gmap string node :=
  match d !! path with
  | Some _ => (Some os_ErrExist, d)
  | None => (None, <[path := File "" perm]> d)
  end.

Definition answer A (c : agent_call A) (h : Host) : A * Host :=
  let w := whims (calls h) in
  let h' := mkHost (disk h) (S (calls h)) (exchanges h) in
  match c in agent_call A return A * Host with
  | StatMode p => file_query h (match disk h !! p with None => Err os_ErrNotExist | Some n => Ok (mode_of n) end)
  | MkdirAll p perm =>
      file_op h (match disk h !! p with
                 | None => (None, <[p := Dir perm]> (disk h))
                 | Some (Dir _) => (None, disk h)
                 | Some _ => (Some io_error, disk h)
                 end)
  | ReadWhole p => file_query h (content_of (disk h !! p))
  | OpenNew p perm => file_op h (create_file p perm (disk h))
  | OpenRead p => file_op h (match disk h !! p with None => Some os_ErrNotExist | Some _ => None end, disk h)
  | StatOpen p => file_query h (match disk h !! p with None => Err io_error | Some n => Ok (mode_of n) end)
  | ReadOpen p =>
      (match wh_fault w, content_of (disk h !! p) with
       | None, Ok content => mkBody content None
       | Some n, Ok content => mkBody (bytes_take n content) (Some io_error)
       | _, Err err => mkBody "" (Some err)
       end, h')
  | CreateTemp dir prefix suffix =>
      let p := temp_path dir prefix suffix (wh_temp w) in
      match file_op h (create_file p private_perm (disk h)) with
      | (None, h1) => (Ok p, h1)
      | (Some err, h1) => (Err err, h1)
      end
  | ChmodOpen p perm =>
      file_op h (match disk h !! p with
                 | Some (File content _) => (None, <[p := File content perm]> (disk h))
                 | _ => (Some io_error, disk h)
                 end)
  | WriteOpen p data =>
      match wh_fault w with
      | None => file_op h (append_file p data (disk h))
      | Some n => (Some io_error, mkHost (append_file p (bytes_take n data) (disk h)).2 (S (calls h)) (exchanges h))
      end
  | SyncOpen _ | CloseFile _ => file_op h (None, disk h)
  | Rename a b =>
      file_op h (match disk h !! a with
                 | Some n => (None, <[b := n]> (delete a (disk h)))
                 | None => (Some os_ErrNotExist, disk h)
                 end)
  | RemoveFile p =>
      file_op h (match disk h !! p with
                 | Some (File _ _) => (None, delete p (disk h))
                 | Some _ => (Some io_error, disk h)
                 | None => (Some os_ErrNotExist, disk h)
                 end)
  | ReadSeed => (match wh_fault w with Some _ => Err io_error | None => Ok (wh_seed w) end, h')
  | RandInt _ => (match wh_fault w with Some _ => Err io_error | None => Ok (wh_int w) end, h')
  | Now => (wh_now w, h')
  | CreateCertificate _ _ _ => (wh_cert w, h')
  | SystemCertPool => (wh_pool w, h')
  | ReadToken => (wh_stdin w, h')
  | NewRequest _ => (wh_request w, h')
  | Do _ rq => (wh_reply w, mkHost (disk h) (S (calls h)) (exchanges h ++ [(rq, wh_reply w)]))
  end.

(** The machine after at most [n] calls of a program. *)
Fixpoint run_for {R} (n : nat) (m : prog agent_call R) (h : Host) : Host :=
  match n, m with
  | S n, Call c f => let '(a, h') := answer _ c h in run_for n (f a) h'
  | _, _ => h
  end.

Definition outcome {R} (m : prog agent_call R) (h : Host) : R * Host :=
  let '(r, _, h') := execute answer m h in (r, h').

(** ** Rules

    [wp m I Q h]: run from [h], every state on the way satisfies [I], and the
    program ends in [Q]. *)
Fixpoint wp {R} (m : prog agent_call R) (I : Host -> Prop) (Q : R -> Host -> Prop) (h : Host) : Prop :=
  I h /\ match m with
         | Return r => Q r h
         | Call c f => wp (f (answer _ c h).1) I Q (answer _ c h).2
         end.

Lemma wp_run_for {R} (m : prog agent_call R) I Q h n : wp m I Q h -> I (run_for n m h).
Proof.
  revert n h. induction m as [r|A c f IH]; intros [|n] h [Hi Hw]; simpl; try done.
  destruct (answer A c h) as [a h']. by apply IH.
Qed.

Lemma host_outcome {R} (m : prog agent_call R) I Q h : wp m I Q h -> Q (outcome m h).1 (outcome m h).2.
Proof.
  unfold outcome. revert h. induction m as [r|A c f IH]; intros h [Hi Hw]; [done|]. cbn [execute].
  destruct (answer A c h) as [a h']. specialize (IH a h' Hw). by destruct (execute answer (f a) h') as [[r l] h''].
Qed.

Lemma host_mono {R} (m : prog agent_call R) (I I' : Host -> Prop) (Q Q' : R -> Host -> Prop) h :
  wp m I Q h -> (forall h, I h -> I' h) -> (forall r h, Q r h -> Q' r h) -> wp m I' Q' h.
Proof.
  intros Hw HI HQ. revert h Hw. induction m as [r|A c f IH]; intros h [Hi Hw]; (split; [by apply HI|]); [by apply HQ|].
  by apply IH.
Qed.

Lemma wp_here {R} (m : prog agent_call R) I Q h : wp m I Q h -> wp m I (fun r h' => I h' /\ Q r h') h.
Proof. revert h. induction m as [r|A c f IH]; intros h [Hi Hw]; (split; [done|]); [done|by apply IH]. Qed.

Lemma host_bind {A B} (f : A -> prog agent_call B) (m : prog agent_call A) I Q h :
  wp m I (fun a h' => I h' -> wp (f a) I Q h') h -> wp (prog_bind _ _ f m) I Q h.
Proof.
  revert h. induction m as [r|X c k IH]; intros h [Hi Hw]; [by apply Hw|]. split; [done|]. by apply IH.
Qed.

Definition rwp {R A} (m : or_return agent_call R A) (I : Host -> Prop) (Q : A -> Host -> Prop) (E : R -> Host -> Prop)
    (h : Host) : Prop :=
  wp m I (fun r h' => match r with inl x => E x h' | inr a => Q a h' end) h.

Section rules.
Context {R : Type} (I : Host -> Prop) (E : R -> Host -> Prop).

Lemma rwp_bind {A B} (m : or_return agent_call R A) (k : A -> or_return agent_call R B) Q h :
  rwp m I (fun a h' => rwp (k a) I Q E h') E h -> rwp (m ≫= k) I Q E h.
Proof. intros Hm. apply host_bind. eapply host_mono; [exact Hm|done|]. by intros [x|a] h' Hx. Qed.
Lemma rwp_ret {A} (a : A) Q h : I h -> Q a h -> rwp (mret a) I Q E h.
Proof. done. Qed.
Lemma rwp_return {A} r (Q : A -> Host -> Prop) h : I h -> E r h -> rwp (return_with r) I Q E h.
Proof. done. Qed.
Lemma rwp_ask {A} (c : agent_call A) Q h :
  I h -> (forall a h', answer _ c h = (a, h') -> I h' /\ Q a h') -> rwp (ask c) I Q E h.
Proof.
  intros Hi Hq. destruct (answer A c h) as [a h'] eqn:Ea. specialize (Hq a h' eq_refl). unfold rwp, ask. simpl.
  by rewrite Ea.
Qed.
Lemma rwp_must (c : agent_call (option error)) f Q h :
  I h -> (forall a h', answer _ c h = (a, h') -> I h' /\ match a with Some err => E (f err) h' | None => Q tt h' end) ->
  rwp (must c f) I Q E h.
Proof.
  intros Hi Hq. destruct (answer _ c h) as [a h'] eqn:Ea. specialize (Hq a h' eq_refl). unfold rwp, must. simpl.
  rewrite Ea. by destruct a.
Qed.
Lemma rwp_must_get {A} (c : agent_call (result A)) f Q h :
  I h -> (forall a h', answer _ c h = (a, h') -> I h' /\ match a with Err err => E (f err) h' | Ok a => Q a h' end) ->
  rwp (must_get c f) I Q E h.
Proof.
  intros Hi Hq. destruct (answer _ c h) as [a h'] eqn:Ea. specialize (Hq a h' eq_refl). unfold rwp, must_get. simpl.
  rewrite Ea. by destruct a.
Qed.
Lemma rwp_ensure err f Q h :
  I h -> match err with Some e => E (f e) h | None => Q tt h end -> rwp (ensure err f) I Q E h.
Proof. by destruct err. Qed.
Lemma rwp_lift {A} (m : prog agent_call A) Q h : wp m I Q h -> rwp (lift m) I Q E h.
Proof. intros Hm. apply host_bind. eapply host_mono; [exact Hm|done|]. done. Qed.
Lemma rwp_must_run {A} (m : prog agent_call (result A)) f Q h :
  wp m I (fun r h' => match r with Err err => E (f err) h' | Ok a => Q a h' end) h -> rwp (must_run m f) I Q E h.
Proof. intros Hm. apply host_bind. eapply host_mono; [exact Hm|done|]. by intros [a|err] h' Hq. Qed.
Lemma rwp_must_do (m : prog agent_call (option error)) f Q h :
  wp m I (fun r h' => match r with Some err => E (f err) h' | None => Q tt h' end) h -> rwp (must_do m f) I Q E h.
Proof. intros Hm. apply host_bind. eapply host_mono; [exact Hm|done|]. by intros [err|] h' Hq. Qed.
End rules.

Lemma wp_body {R} (m : or_return agent_call R R) I Q h : rwp m I Q Q h -> wp (body m) I Q h.
Proof. intros Hm. apply host_bind. eapply host_mono; [exact Hm|done|]. by intros [x|x] h' Hx. Qed.
End machine.

(** One statement. *)
Ltac wstep :=
  lazymatch goal with
  | |- wp _ (body _) _ _ _ => apply wp_body
  | |- rwp _ (mret _) _ _ _ _ => apply rwp_ret
  | |- rwp _ (_ ≫= _) _ _ _ _ => apply rwp_bind
  | |- rwp _ (return_with _) _ _ _ _ => apply rwp_return
  | |- rwp _ (ask _) _ _ _ _ => apply rwp_ask; [|intros ? ? ?]
  | |- rwp _ (must _ _) _ _ _ _ => apply rwp_must; [|intros ? ? ?]
  | |- rwp _ (must_get _ _) _ _ _ _ => apply rwp_must_get; [|intros ? ? ?]
  | |- rwp _ (ensure _ _) _ _ _ _ => apply rwp_ensure
  | |- rwp _ (lift _) _ _ _ _ => apply rwp_lift
  | |- rwp _ (must_run _ _) _ _ _ _ => apply rwp_must_run
  | |- rwp _ (must_do _ _) _ _ _ _ => apply rwp_must_do
  | |- rwp _ (let _ := _ in _) _ _ _ _ => cbv zeta
  end.
