(* ===== verification/WireTheorems.v ===== *)
(** * What crosses the wire

    Every message of the program as JSON: what one side writes the other side
    reads.  The enrollment request and its reply are declared twice in the source,
    by the agent and by the controller; the two declarations fit.  A report that
    the controller accepts fits the table it is stored in. *)

From S2P Require Import Prelude GoStrings GoTime RuneFacts Job Protocol Http JsonText JsonFacts JsonCoder JsonSound Messages Handlers Replies.
From S2P Require Import Postgres Schema JobStore AccountStore.
From S2P Require Import Files Syscalls Privilege Network Identity Transport.
From S2P Require Controller Enroll.

#[local] Existing Instances Enroll.enroll_request_json Controller.enrollRequest_json.

#[export] Instance helper_request_typed : WireType HelperRequest := {|
  typed r := in_uint64 (hq_Version r) /\ is_text (hq_RequestID r) /\ is_text (hq_Operation r) |}.
#[export] Instance helper_response_typed : WireType HelperResponse := {|
  typed r := in_uint64 (hs_Version r) /\ is_text (hs_RequestID r) /\ is_text (hs_Status r) |}.
#[export] Instance identity_typed : WireType IdentityMetadata := {|
  typed m := in_int64 (im_Version m) /\ is_text (im_AgentID m) /\ is_text (im_ControllerURL m) /\ is_text (im_PublicKey m) |}.
#[export] Instance enroll_response_typed : WireType enrollResponse := {| typed r := is_text (es_AgentID r) |}.
#[export] Instance enroll_request_typed : WireType Enroll.enroll_request := {|
  typed r := is_text (Enroll.en_Token r) /\ is_text (Enroll.en_PublicKey r) |}.
#[export] Instance enrollRequest_typed : WireType Controller.enrollRequest := {|
  typed r := is_text (Controller.en_Token r) /\ is_text (Controller.en_PublicKey r) |}.

Ltac flat_round_trip := intros r rest Ht Hr; unfold typed, is_text in Ht; simpl in Ht; destruct_and?;
  (apply message_round_trip; [done|first [done | apply indented_spaced]|field_faithful|by destruct r|done]).

Lemma local_round_trips :
  @round_trips HelperRequest _ _ /\ @round_trips HelperResponse _ _ /\ @round_trips IdentityMetadata _ _
  /\ @round_trips enrollResponse _ _ /\ @round_trips Enroll.enroll_request _ _.
Proof. split_and!; flat_round_trip. Qed.

(** What the controller makes of the agent's request to enroll, and the agent
    of the reply. *)
Definition enrollment_fits : Prop :=
  (forall r rest, typed r -> number_end (bytes_of rest) ->
    json_Decode (json_Marshal r +:+ rest) = Ok (Controller.mkEnrollRequest (Enroll.en_Token r) (Enroll.en_PublicKey r), rest))
  /\ forall (zone : Location) id, is_text id -> json_Decode (reply_text (AgentIDBody id)) = Ok (mkEnrollResponse id, string_of [byte_of 10]).

Lemma enroll_request_round_trips : @round_trips Controller.enrollRequest _ _.
Proof. flat_round_trip. Qed.

Lemma enroll_response_round_trips : @round_trips enrollResponse _ _.
Proof. flat_round_trip. Qed.

Lemma enrollment_understood : enrollment_fits.
Proof.
  pose proof enroll_request_round_trips as Hc. pose proof enroll_response_round_trips as Hs. split.
  - intros r rest Ht Hr. exact (Hc (Controller.mkEnrollRequest (Enroll.en_Token r) (Enroll.en_PublicKey r)) rest Ht Hr).
  - intros zone id Ht. rewrite <- (Hs (mkEnrollResponse id) (string_of [byte_of 10]) Ht ltac:(done)). f_equal. apply bytes_of_inj.
    rewrite (reply_text_value (AgentIDBody _) _ eq_refl). unfold encoded, json_Marshal, enroll_response_json, message. rewrite bytes_of_app, !bytes_of_string_of.
    f_equal.
Qed.

(** ** Reports and their tables *)

(** A value of a text column. *)
Definition text_value (s : string) : Prop := utf8_ValidString s = true /\ byte_of 0 ∉ bytes_of s.

(** The columns of agent_inventory. *)
Definition inventory_fits (r : InventoryRequest) : Prop :=
  Forall text_value [Hostname r; OSID r; OSName r; OSVersion r; KernelRelease r; Architecture r]
  /\ int4_param (CPULogicalCores r) = true /\ in_int64 (Inv_MemoryTotalBytes r)
  /\ inventory_checks r = true.

(** The columns of agent_telemetry, and the two differences its CHECKs take. *)
Definition telemetry_fits (r : TelemetryRequest) : Prop :=
  int4_param (CPUUsageBasisPoints r) = true
  /\ Forall in_int64 [MemoryTotalBytes r; MemoryUsedBytes r; MemoryAvailableBytes r; Load1mMilli r; Load5mMilli r; Load15mMilli r;
       RootFilesystemTotalBytes r; RootFilesystemUsedBytes r; RootFilesystemAvailableBytes r; NetworkReceiveBytesTotal r;
       NetworkTransmitBytesTotal r; UptimeSeconds r; SampleWindowMS r]
  /\ telemetry_checks r = true
  /\ in_int64 (MemoryTotalBytes r - MemoryAvailableBytes r)
  /\ in_int64 (RootFilesystemTotalBytes r - RootFilesystemUsedBytes r).

Lemma inventory_string_text s lo hi : ValidateInventoryString s lo hi = None -> text_value s.
Proof.
  intros Hv. split; [by apply ValidateInventoryString_ok in Hv as [? _]|]. intros Hb.
  pose proof (ascii_byte_rune _ _ Hb ltac:(done)) as Hin. revert Hv. unfold ValidateInventoryString.
  repeat case_match; try done. intros _. enough (existsb (fun r => (r =? 0) || unicode_IsControl r) (range_runes s) = true) by congruence.
  apply existsb_exists. exists 0. split; [apply list_elem_of_In; unfold range_runes; by rewrite runes_bytes|done].
Qed.

Lemma inventory_fits_columns r : typed r -> ValidateInventoryRequest (Some r) = None -> inventory_fits r.
Proof.
  intros (_ & _ & _ & Hm) Hv. pose proof (inventory_valid_fits_schema r Hv) as Hc. split_and!; try done.
  - revert Hv. unfold ValidateInventoryRequest, ValidateOSID. repeat case_match; try done. intros _.
    repeat constructor; by eapply inventory_string_text.
  - unfold inventory_checks in Hc. unfold int4_param. bsplit. apply andb_true_intro; split; [apply Z.leb_le|apply Z.ltb_lt]; lia.
Qed.

Lemma telemetry_fits_columns r : typed r -> ValidateTelemetryRequest (Some r) = None -> telemetry_fits r.
Proof.
  intros Ht Hv. unfold typed, telemetry_typed, telemetry_list in Ht. rewrite !Forall_cons in Ht. destruct_and! Ht.
  pose proof (valid_telemetry_checks r Hv ltac:(done) ltac:(done)) as Hc. split_and!; try done.
  - unfold telemetry_checks in Hc. unfold int4_param. bsplit. apply andb_true_intro; split; [apply Z.leb_le|apply Z.ltb_lt]; lia.
  - by rewrite !Forall_cons.
  - unfold telemetry_checks, in_int64, MaxInt64 in *. bsplit. lia.
  - unfold telemetry_checks, in_int64, MaxInt64 in *. bsplit. lia.
Qed.

Lemma inventory_fits_checks r : inventory_fits r -> inventory_checks r = true.
Proof. by intros (_ & _ & _ & ?). Qed.

Lemma telemetry_fits_checks r : telemetry_fits r -> telemetry_checks r = true.
Proof. by intros (_ & _ & ? & _). Qed.

(** C39: every message that agent, controller and helper exchange, and the agent's
    metadata in its file, is read as it was written: for all values of Go's
    types whose strings are UTF-8, whatever stands behind the message, and also
    where the two sides declare the message each for itself. *)
Theorem messages_round_trip :
  (@round_trips HeartbeatRequest _ _ /\ @round_trips HeartbeatResponse _ _ /\ @round_trips JobStartRequest _ _
   /\ @round_trips JobCompleteRequest _ _ /\ @round_trips InventoryRequest _ _ /\ @round_trips TelemetryRequest _ _)
  /\ (@round_trips HelperRequest _ _ /\ @round_trips HelperResponse _ _ /\ @round_trips IdentityMetadata _ _
      /\ @round_trips enrollResponse _ _ /\ @round_trips Enroll.enroll_request _ _)
  /\ enrollment_fits.
Proof. split; [exact messages_round_trip_all|]. split; [exact local_round_trips|exact enrollment_understood]. Qed.

(** C40: a report that is read from whatever text arrives, and passes the wire
    validation, fits the table it is stored in: each value is one of its
    column's type (text is UTF-8 without a NUL, integers have the column's
    width), every CHECK holds and no subtraction in a CHECK overflows.  So for an
    enrolled agent the statement stores the report as it was read, for any other
    key it finds no row, and the server never refuses it for its values. *)
Theorem reports_fit_tables `{UuidText} s rest :
  (forall r, json_Decode s = Ok (r, rest) -> ValidateInventoryRequest (Some r) = None ->
     inventory_fits r
     /\ forall key cx db, upsert_inventory key r cx db =
          match find_agent key db with
          | None => inl ErrNoRows
          | Some (id, _) => inr (uuid_String id, with_inventory (<[id := mkInventoryRow r (cx_now cx)]> (agent_inventory db)) db)
          end)
  /\ (forall r, json_Decode s = Ok (r, rest) -> ValidateTelemetryRequest (Some r) = None ->
     telemetry_fits r
     /\ forall key cx db, upsert_telemetry key r cx db =
          match find_agent key db with
          | None => inl ErrNoRows
          | Some (id, _) => inr (uuid_String id, with_telemetry (<[id := mkTelemetryRow r (cx_now cx)]> (agent_telemetry db)) db)
          end).
Proof.
  destruct messages_well_typed_all as (_ & _ & _ & _ & Hi & Ht). split; intros r Hd Hv.
  - pose proof (inventory_fits_columns r (Hi _ _ _ Hd) Hv) as Hf. split; [done|]. intros key cx db.
    unfold upsert_inventory. by rewrite (inventory_fits_checks r Hf).
  - pose proof (telemetry_fits_columns r (Ht _ _ _ Hd) Hv) as Hf. split; [done|]. intros key cx db.
    unfold upsert_telemetry. by rewrite (telemetry_fits_checks r Hf).
Qed.

(** A completion that says what a message may say, and the end of a body. *)
Definition demo_completion : JobCompleteRequest := mkJobCompleteRequest 2 "018f6b5e-7c1e-7000-8000-000000000001" 3 "failed" "executor_error".

Lemma messages_round_trip_witness :
  json_Decode (json_Marshal demo_completion +:+ "}") = Ok (demo_completion, "}")
  /\ json_Marshal demo_completion
     = quoting "{'protocol_version':2,'job_id':'018f6b5e-7c1e-7000-8000-000000000001','attempt':3,'outcome':'failed','failure_code':'executor_error'}".
Proof.
  split; [|vm_compute; reflexivity].
  exact (proj1 (proj2 (proj2 (proj2 (proj1 messages_round_trip)))) demo_completion "}"
    ltac:(repeat split; vm_compute; reflexivity || discriminate) ltac:(vm_compute; repeat split; reflexivity)).
Defined.
