(* ===== verification/EnrollTheorems.v ===== *)
(** * What enrollment keeps in the state directory

    Over any number of attempts to enroll, each cut off anywhere and with any
    failures, partial writes and replies: one directory stands for one key,
    and its metadata is absent or complete. *)

From S2P Require Import Prelude GoStrings RuneFacts Base64 Job Enrollment Network Http JsonText JsonFacts JsonCoder JsonSound Files Syscalls Identity Transport Enroll StateDir.

(** A key is read back as it was written. *)
Class KeyCodingLaws `{Ed25519} `{KeyCoding} : Prop := {
  pem_round_trip : forall der, (pem_Decode (pem_EncodeToMemory (PEMBlockType, der))).1 = Some (PEMBlockType, der);
  pkcs8_round_trip : forall seed der,
    x509_MarshalPKCS8PrivateKey (NewKeyFromSeed seed) = Ok der -> len (NewKeyFromSeed seed) = PrivateKeySize ->
    x509_ParsePKCS8PrivateKey der = Ok (Some (NewKeyFromSeed seed));
}.

(** Metadata of Go's types that is text is read back as it was written. *)
Definition metadata_text (m : IdentityMetadata) : Prop :=
  in_int64 (im_Version m) /\ utf8_ValidString (im_AgentID m) = true /\ utf8_ValidString (im_ControllerURL m) = true
  /\ utf8_ValidString (im_PublicKey m) = true.

Lemma identity_round_trip m : metadata_text m -> json_Decode (json_Marshal m) = Ok (m, "").
Proof.
  intros (Hv & Ha & Hu & Hp). apply message_decoded; [done|apply indented_spaced|field_faithful|by destruct m].
Qed.

Section directory.
Context `{Ed25519Laws} `{KeyCoding} `{!KeyCodingLaws} `{X509} `{NetURL} `{UnicodeTables}.
Context (dir : string) (dir_clean : clean_dir dir).

Definition key_path : string := filepath_Join dir IdentityKeyFileName.
Definition json_path : string := filepath_Join dir IdentityJSONFileName.
Definition ca_path : string := filepath_Join dir ControllerCAPEMFileName.

(** ** Paths *)

Lemma path_of name : file_name name -> filepath_Join dir name = dir +:+ "/" +:+ name.
Proof. by apply filepath_Join_clean. Qed.

Lemma append_longer (a b : string) : b <> "" -> a +:+ b <> a.
Proof. intros Hb Heq. assert (len (a +:+ b) = len a) as Hl by congruence. rewrite len_app in Hl. destruct b; [done|]. unfold len in Hl. simpl in Hl. lia. Qed.

(** Paths the invariant does not look at. *)
Definition other (p : string) : Prop := p <> key_path /\ p <> json_path /\ p <> dir.

Lemma temp_other prefix suffix random :
  prefix = "identity-" \/ prefix = "ca-" -> other (temp_path dir prefix suffix random).
Proof.
  unfold other, key_path, json_path, temp_path, IdentityKeyFileName, IdentityJSONFileName.
  intros Hp. rewrite !path_of by (apply (bool_decide_unpack _); vm_compute; exact I).
  split_and!; [intros Heq|intros Heq|apply append_longer; by destruct Hp as [->| ->]];
    apply (inj (String.append dir)), (inj (String.append "/")) in Heq; by destruct Hp as [->| ->].
Qed.

Lemma ca_other : other ca_path.
Proof.
  unfold other, ca_path, key_path, json_path, IdentityKeyFileName, IdentityJSONFileName, ControllerCAPEMFileName.
  rewrite !path_of by (apply (bool_decide_unpack _); vm_compute; exact I).
  split_and!; [intros Heq|intros Heq|by apply append_longer];
    apply (inj (String.append dir)), (inj (String.append "/")) in Heq; done.
Qed.

Lemma paths_differ : key_path <> json_path /\ key_path <> dir /\ json_path <> dir.
Proof.
  unfold key_path, json_path, IdentityKeyFileName, IdentityJSONFileName.
  rewrite !path_of by (apply (bool_decide_unpack _); vm_compute; exact I).
  split_and!; [intros Heq|by apply append_longer|by apply append_longer].
  apply (inj (String.append dir)), (inj (String.append "/")) in Heq. done.
Qed.

(** ** What a call leaves alone *)

Definition kept (h h' : Host) : Prop :=
  disk h' !! key_path = disk h !! key_path /\ disk h' !! json_path = disk h !! json_path
  /\ exchanges h' = exchanges h
  /\ (disk h !! dir = Some (Dir state_dir_perm) -> disk h' !! dir = Some (Dir state_dir_perm)).

#[local] Instance kept_preorder : PreOrder kept.
Proof.
  split; [by intros h|]. intros h1 h2 h3 (K1 & J1 & E1 & D1) (K2 & J2 & E2 & D2). unfold kept.
  rewrite K2, J2, E2. split_and!; auto.
Qed.

(** Calls that keep: no request, and files written only at other paths. *)
Definition harmless {A} (c : agent_call A) : Prop :=
  match c with
  | MkdirAll p _ => p = dir
  | OpenNew p _ | ChmodOpen p _ | WriteOpen p _ | RemoveFile p => other p
  | Rename a b => other a /\ other b
  | CreateTemp d prefix _ => d = dir /\ (prefix = "identity-" \/ prefix = "ca-")
  | Do _ _ => False
  | _ => True
  end.

Lemma kept_insert h p n c es :
  other p -> es = exchanges h -> kept h (mkHost (<[p := n]> (disk h)) c es).
Proof. intros (Hk & Hj & Hd) ->. unfold kept. cbn. by rewrite !lookup_insert_ne. Qed.

Lemma kept_delete h p c es : other p -> es = exchanges h -> kept h (mkHost (delete p (disk h)) c es).
Proof. intros (Hk & Hj & Hd) ->. unfold kept. cbn. by rewrite !lookup_delete_ne. Qed.

Lemma kept_mkdir h perm c es :
  disk h !! dir = None -> es = exchanges h -> kept h (mkHost (<[dir := Dir perm]> (disk h)) c es).
Proof.
  intros Hd ->. destruct paths_differ as (_ & Hk & Hj). unfold kept. cbn. rewrite !lookup_insert_ne by done.
  split_and!; try done. by rewrite Hd.
Qed.

Lemma kept_append h p data c es :
  other p -> es = exchanges h -> kept h (mkHost (append_file p data (disk h)).2 c es).
Proof.
  intros Hp Hes. unfold append_file. destruct (disk h !! p) as [[]|]; simpl; try (subst; done). by apply kept_insert.
Qed.

Lemma kept_tick h c : kept h (mkHost (disk h) c (exchanges h)).
Proof. done. Qed.

Lemma kept_op whims h eff :
  kept h (mkHost eff.2 (S (calls h)) (exchanges h)) -> kept h (file_op whims h eff).2.
Proof. intros Hk. unfold file_op. destruct (wh_fault _); [done|exact Hk]. Qed.

Lemma answer_kept whims A (c : agent_call A) h : harmless c -> kept h (answer whims A c h).2.
Proof.
  destruct c; cbn [answer harmless]; intros Hc; try done; try apply kept_tick; try apply kept_op; cbn [snd]; try apply kept_tick.
  - subst. destruct (disk h !! dir) as [[]|] eqn:E; try apply kept_tick. by apply kept_mkdir.
  - unfold create_file. destruct (disk h !! path); [apply kept_tick|]. by apply kept_insert.
  - destruct Hc as [-> Hp]. pose proof (fun suf => temp_other _ suf (wh_temp (whims (calls h))) Hp) as Ho.
    destruct (file_op _ _ _) as [r h1] eqn:E. assert (kept h h1) as Hk; [|by destruct r].
    change h1 with (r, h1).2. rewrite <- E. apply kept_op. unfold create_file.
    destruct (_ !! _); [apply kept_tick|]. by apply kept_insert.
  - destruct (disk h !! path) as [[]|]; try apply kept_tick. by apply kept_insert.
  - destruct (wh_fault (whims (calls h))); [|apply kept_op]; by apply kept_append.
  - destruct Hc as [(Ha1 & Ha2 & Ha3) (Hb1 & Hb2 & Hb3)]. destruct (disk h !! oldpath); [|apply kept_tick].
    unfold kept. cbn. by rewrite !lookup_insert_ne, !lookup_delete_ne.
  - destruct (disk h !! path) as [[]|]; try apply kept_tick. by apply kept_delete.
Qed.

(** ** Programs that keep *)

Section keep.
Context (whims : nat -> Whim) (P : Host -> Prop) (closed : forall h h', kept h h' -> P h -> P h').
Context {R : Type} (E : R -> Host -> Prop).

Lemma ask_kept {A} (c : agent_call A) Q h :
  harmless c -> P h -> (forall a h', answer whims _ c h = (a, h') -> kept h h' -> Q a h') -> rwp whims (ask c) P Q E h.
Proof.
  intros Hc Hp Hq. apply rwp_ask; [done|]. intros a h' Ha. pose proof (answer_kept whims _ c h Hc) as Hk.
  rewrite Ha in Hk. split; [by eapply closed|by apply Hq].
Qed.

Lemma must_kept (c : agent_call (option error)) f Q h :
  harmless c -> P h ->
  (forall a h', answer whims _ c h = (a, h') -> kept h h' -> match a with Some err => E (f err) h' | None => Q tt h' end) ->
  rwp whims (must c f) P Q E h.
Proof.
  intros Hc Hp Hq. apply rwp_must; [done|]. intros a h' Ha. pose proof (answer_kept whims _ c h Hc) as Hk.
  rewrite Ha in Hk. split; [by eapply closed|by apply Hq].
Qed.

Lemma must_get_kept {A} (c : agent_call (result A)) f Q h :
  harmless c -> P h ->
  (forall a h', answer whims _ c h = (a, h') -> kept h h' -> match a with Err err => E (f err) h' | Ok a => Q a h' end) ->
  rwp whims (must_get c f) P Q E h.
Proof.
  intros Hc Hp Hq. apply rwp_must_get; [done|]. intros a h' Ha. pose proof (answer_kept whims _ c h Hc) as Hk.
  rewrite Ha in Hk. split; [by eapply closed|by apply Hq].
Qed.
End keep.

Lemma stat_found whims p h fi h' :
  answer whims _ (StatMode p) h = (Ok fi, h') -> exists n, disk h !! p = Some n /\ mode_of n = fi.
Proof.
  simpl. unfold file_query. destruct (wh_fault _); [done|]. destruct (disk h !! p) as [n|]; [|done].
  intros [= <- _]. by exists n.
Qed.

Lemma read_found whims p h data h' :
  answer whims _ (ReadWhole p) h = (Ok data, h') -> exists perm, disk h !! p = Some (File data perm).
Proof.
  simpl. unfold file_query. destruct (wh_fault _); [done|]. destruct (disk h !! p) as [[| |]|]; simpl; try done.
  intros [= <- _]. by eexists.
Qed.

Lemma private_regular what n : private_file what (mode_of n) = None -> exists content, n = File content private_perm.
Proof.
  unfold private_file. destruct n as [perm|content perm|ty]; simpl.
  - done.
  - destruct (perm =? private_perm) eqn:Ep; [|done]. bsplit. subst. by exists content.
  - by destruct ty.
Qed.

Lemma dir_found n : check_state_dir (mode_of n) = None -> n = Dir state_dir_perm.
Proof.
  unfold check_state_dir. destruct n as [perm|content perm|ty]; simpl.
  - destruct (perm =? state_dir_perm) eqn:Ep; [|done]. bsplit. by subst.
  - done.
  - by destruct ty.
Qed.

Definition dir_ready (h : Host) : Prop := disk h !! dir = Some (Dir state_dir_perm).

Section reading.
Context (whims : nat -> Whim) (P : Host -> Prop) (closed : forall h h', kept h h' -> P h -> P h').

Lemma validate_dir_wp h :
  P h -> wp whims (validateExistingStateDir dir) P (fun r h' => kept h h' /\ (r = None -> dir_ready h')) h.
Proof.
  intros Hp. unfold validateExistingStateDir. wstep. wstep. apply must_get_kept; [done..|]. intros [fi|err] h1 Ha Hk.
  2:{ split; [done|discriminate]. }
  wstep; [by eapply closed|]. split; [done|]. intros Hc. apply stat_found in Ha as (n & Hn & <-).
  apply dir_found in Hc. subst. by apply Hk.
Qed.

Lemma ensure_dir_wp h :
  P h -> wp whims (EnsureStateDir dir) P (fun r h' => kept h h' /\ (r = None -> dir_ready h')) h.
Proof.
  intros Hp. unfold EnsureStateDir. wstep. wstep. apply ask_kept; [done..|]. intros info h1 _ Hk.
  assert (P h1) as Hp1 by (by eapply closed).
  assert (forall h2, kept h h2 -> P h2 -> rwp whims (lift (validateExistingStateDir dir)) P
            (fun r h' => kept h h' /\ (r = None -> dir_ready h')) (fun (r : option error) h' => kept h h' /\ (r = None -> dir_ready h')) h2) as Hv.
  { intros h2 Hk2 Hp2. wstep. eapply host_mono; [by apply validate_dir_wp|done|].
    intros r h3 [Hk3 Hd]. split; [by etrans|done]. }
  destruct info as [fi|err]; [by apply Hv|].
  destruct (errors_Is err os_ErrNotExist).
  - wstep. apply must_kept; [done..|]. intros [err'|] h2 _ Hk2; [split; [by etrans|discriminate]|].
    apply Hv; [by etrans|by eapply closed].
  - wstep; [done|]. split; [done|discriminate].
Qed.

(** ** The key *)

Definition holds_key (h : Host) (priv : string) : Prop :=
  exists content, disk h !! key_path = Some (File content private_perm) /\ ParsePrivateKeyPKCS8PEM content = Ok priv.

Lemma holds_key_kept h h' priv : kept h h' -> holds_key h priv -> holds_key h' priv.
Proof. intros (Hk & _) (content & Hc & Hp). exists content. by rewrite Hk. Qed.

Lemma holds_key_unique h priv priv' : holds_key h priv -> holds_key h priv' -> priv = priv'.
Proof. intros (c & Hc & Hp) (c' & Hc' & Hp'). congruence. Qed.

Lemma load_key_wp h :
  P h ->
  wp whims (loadExistingPrivateKey dir) P (fun r h' => kept h h' /\ (forall priv, r = Ok priv -> holds_key h' priv)) h.
Proof.
  intros Hp. unfold loadExistingPrivateKey. wstep. cbv zeta. fold key_path. wstep. apply must_get_kept; [done..|].
  intros [fi|err] h1 Ha Hk1; [|split; [done|discriminate]]. wstep. wstep; [by eapply closed|].
  destruct (private_file _ fi) eqn:Ef; [split; [done|discriminate]|].
  apply stat_found in Ha as (n & Hn & <-). apply private_regular in Ef as [content ->].
  wstep. apply must_get_kept; [done|done|by eapply closed|]. intros [data|err] h2 Hr Hk2;
    [|split; [by etrans|discriminate]].
  assert (kept h h2) as Hk by (by etrans). assert (P h2) as Hp2 by (by eapply closed).
  destruct (ParsePrivateKeyPKCS8PEM data) as [priv|] eqn:Ed; (wstep; [done|]); [|split; [done|discriminate]].
  split; [done|]. intros ? [= <-]. apply read_found in Hr as [perm Hr].
  exists content. split; [rewrite (proj1 Hk); exact Hn|]. rewrite (proj1 Hk1), Hn in Hr. by simplify_eq.
Qed.
End reading.

(** ** The invariant *)

Definition asked (h : Host) (pub : string) : Prop :=
  forall rq resp, (rq, resp) ∈ exchanges h -> exists url token, rq = enroll_http url token pub.

(** Metadata the agent writes for a key after a reply. *)
Definition justified (meta : IdentityMetadata) (priv : string) (es : list (AgentRequest * result AgentResponse)) : Prop :=
  im_PublicKey meta = FormatPublicKeyBase64RawURL (Public priv)
  /\ check_metadata meta = Ok (Public priv) /\ metadata_text meta
  /\ exists rq resp, (rq, Ok resp) ∈ es /\ enrolled_id resp = Ok (im_AgentID meta).

Definition complete (h : Host) (priv : string) : Prop :=
  exists meta, disk h !! json_path = Some (File (json_Marshal meta) private_perm) /\ dir_ready h
    /\ justified meta priv (exchanges h).

(** Nothing was sent, or everything was sent for the stored key. *)
Definition fresh (h : Host) : Prop := exchanges h = [] /\ disk h !! json_path = None.
Definition keyed (priv : string) (h : Host) : Prop :=
  holds_key h priv /\ asked h (FormatPublicKeyBase64RawURL (Public priv))
  /\ (disk h !! json_path = None \/ complete h priv).
Definition Inv (h : Host) : Prop := fresh h \/ exists priv, keyed priv h.

Lemma fresh_kept h h' : kept h h' -> fresh h -> fresh h'.
Proof. intros (_ & Hj & He & _) [Hf1 Hf2]. split; congruence. Qed.

Lemma keyed_kept priv h h' : kept h h' -> keyed priv h -> keyed priv h'.
Proof.
  intros Hk (Hh & Ha & Hj). split; [by eapply holds_key_kept|]. destruct Hk as (Hk & Hjs & He & Hd).
  split; [unfold asked; by rewrite He|]. rewrite Hjs. destruct Hj as [|(m & Hm & Hr & Hrest)]; [by left|right].
  exists m. rewrite Hjs, He. split; [done|]. split; [by apply Hd|done].
Qed.

Lemma Inv_kept h h' : kept h h' -> Inv h -> Inv h'.
Proof.
  intros Hk [Hf|[priv Hp]]; [left; by eapply fresh_kept|right; exists priv; by eapply keyed_kept].
Qed.

Lemma Inv_keyed h priv : Inv h -> holds_key h priv -> keyed priv h.
Proof.
  intros [[He Hj]|[priv' Hk]] Hh.
  - split; [done|]. split; [|by left]. intros rq resp Hin. rewrite He in Hin. by apply elem_of_nil in Hin.
  - by rewrite (holds_key_unique h priv priv' Hh (proj1 Hk)).
Qed.

Lemma fresh_without_key h : Inv h -> disk h !! key_path = None -> fresh h.
Proof. intros [Hf|[priv [(c & Hc & _) _]]] Hn; [done|congruence]. Qed.

Lemma fresh_key h n c es : fresh h -> es = exchanges h -> fresh (mkHost (<[key_path := n]> (disk h)) c es).
Proof.
  intros [He Hj] ->. split; [done|]. cbn. destruct paths_differ as (Hd & _). by rewrite lookup_insert_ne.
Qed.

(** ** Making the key *)

Lemma open_new_answer whims p perm h a h' :
  answer whims _ (OpenNew p perm) h = (a, h') ->
  exchanges h' = exchanges h /\
  match a with
  | None => disk h !! p = None /\ disk h' = <[p := File "" perm]> (disk h)
  | Some _ => disk h' = disk h
  end.
Proof.
  simpl. unfold file_op, create_file. destruct (wh_fault _); [by intros [= <- <-]|].
  destruct (disk h !! p) eqn:E; by intros [= <- <-].
Qed.

Lemma write_answer whims p data h content perm a h' :
  answer whims _ (WriteOpen p data) h = (a, h') -> disk h !! p = Some (File content perm) ->
  exchanges h' = exchanges h /\ exists content', disk h' = <[p := File content' perm]> (disk h)
  /\ (a = None -> content' = content +:+ data).
Proof.
  simpl. intros Ha Hp. destruct (wh_fault (whims (calls h))) as [n|] eqn:Ef.
  - injection Ha as <- <-. unfold append_file. rewrite Hp. simpl. split; [done|]. eexists. split; [done|discriminate].
  - unfold file_op in Ha. rewrite Ef in Ha. unfold append_file in Ha. rewrite Hp in Ha. injection Ha as <- <-.
    split; [done|]. eexists. split; [done|done].
Qed.

Lemma key_round_trip seed pem :
  EncodePrivateKeyPKCS8PEM (NewKeyFromSeed seed) = Ok pem -> ParsePrivateKeyPKCS8PEM pem = Ok (NewKeyFromSeed seed).
Proof.
  unfold EncodePrivateKeyPKCS8PEM, ParsePrivateKeyPKCS8PEM. destruct (len _ =? PrivateKeySize) eqn:El; [|done]. simpl.
  destruct (x509_MarshalPKCS8PrivateKey _) as [der|] eqn:Ed; [|done]. intros [= <-].
  rewrite pem_round_trip. simpl. bsplit. rewrite (pkcs8_round_trip seed der) by done. rewrite El. done.
Qed.

Definition made_key (r : result (string * string)) (h : Host) : Prop :=
  forall pub priv, r = Ok (pub, priv) -> pub = Public priv /\ holds_key h priv.

Lemma generate_wp whims h :
  Inv h -> rwp whims (generate_and_persist dir) Inv made_key made_key h.
Proof.
  intros Hi. unfold generate_and_persist, GenerateKey. wstep. wstep. wstep. wstep.
  apply must_get_kept; [exact Inv_kept|done|done|]. intros [seed|err] h1 _ Hk1; [|done]. cbv zeta. wstep; [by eapply Inv_kept|].
  assert (Inv h1) as Hi1 by (by eapply Inv_kept).
  destruct (EncodePrivateKeyPKCS8PEM (NewKeyFromSeed seed)) as [pem|err] eqn:Ep; [|by wstep].
  cbv zeta. fold key_path. wstep. apply rwp_must; [done|]. intros a h2 Ha. apply open_new_answer in Ha as [He Ha].
  destruct a as [err|].
  { split; [|done]. destruct h1, h2. simpl in *. subst. eapply Inv_kept; [|exact Hi1]. done. }
  destruct Ha as [Hn Hd]. assert (fresh h2) as Hf2.
  { destruct h2 as [d c es]. simpl in *. subst. apply fresh_key; [by apply fresh_without_key|done]. }
  split; [by left|]. wstep. wstep. wstep. wstep. apply rwp_must; [by left|]. intros a h3 Ha.
  assert (disk h2 !! key_path = Some (File "" private_perm)) as Hk2 by (by rewrite Hd, lookup_insert_eq).
  apply (write_answer _ _ _ _ "" private_perm) in Ha as (He3 & content & Hd3 & Hc); [|done].
  assert (Inv h3) as Hi3.
  { left. destruct h3 as [d c es]. simpl in *. subst d. by apply fresh_key. }
  assert (forall r h, made_key r h -> Inv h -> rwp whims (ask (CloseFile key_path) ;; mret r) Inv made_key made_key h) as Hclose.
  { intros r h4 Hm Hi4. wstep. apply ask_kept; [exact Inv_kept|done|done|]. intros _ h5 _ Hk5.
    wstep; [by eapply Inv_kept|]. intros pub priv ->. destruct (Hm pub priv eq_refl) as [-> Hh].
    split; [done|by eapply holds_key_kept]. }
  destruct a as [err|]; (split; [done|]); [by apply Hclose|].
  wstep. apply must_kept; [exact Inv_kept|done|done|]. intros [err|] h4 _ Hk4; [apply Hclose; [done|by eapply Inv_kept]|].
  wstep; [by eapply Inv_kept|]. apply Hclose; [|by eapply Inv_kept]. intros pub priv [= <- <-]. split; [done|].
  eapply holds_key_kept; [exact Hk4|]. exists pem. split; [|by apply key_round_trip].
  rewrite Hd3, lookup_insert_eq, Hc by done. done.
Qed.

Lemma key_wp whims h : Inv h -> wp whims (LoadOrGenerateKey dir) Inv made_key h.
Proof.
  intros Hi. unfold LoadOrGenerateKey. wstep. wstep. wstep.
  eapply host_mono; [apply (ensure_dir_wp whims Inv Inv_kept h Hi)|done|]. intros [err|] h1 [Hk1 _]; [done|].
  wstep. wstep. eapply host_mono; [apply (load_key_wp whims Inv Inv_kept h1); by eapply Inv_kept|done|].
  intros [priv|err] h2 [Hk2 Hp].
  - wstep; [by do 2 (eapply Inv_kept; [done|])|]. intros pub priv' [= <- <-]. split; [done|by apply Hp].
  - assert (Inv h2) as Hi2 by (by do 2 (eapply Inv_kept; [done|])).
    destruct (negb _); [by wstep|by apply generate_wp].
Qed.

(** ** Writing a file at once *)

Lemma temp_answer whims prefix h t h' :
  answer whims _ (CreateTemp dir prefix ".tmp") h = (Ok t, h') ->
  (exists x, t = temp_path dir prefix ".tmp" x) /\ disk h' !! t = Some (File "" private_perm).
Proof.
  simpl. unfold file_op, create_file. destruct (wh_fault _); [done|]. destruct (disk h !! _); [done|].
  intros [= <- <-]. split; [by eexists|]. cbn. by rewrite lookup_insert_eq.
Qed.

Lemma chmod_answer whims p h content perm perm' h' :
  answer whims _ (ChmodOpen p perm') h = (None, h') -> disk h !! p = Some (File content perm) ->
  disk h' !! p = Some (File content perm').
Proof.
  simpl. unfold file_op. intros Ha Hp. rewrite Hp in Ha. destruct (wh_fault _); [done|]. injection Ha as <-.
  cbn. by rewrite lookup_insert_eq.
Qed.

Lemma write_all_answer whims p data h perm h' :
  answer whims _ (WriteOpen p data) h = (None, h') -> disk h !! p = Some (File "" perm) ->
  disk h' !! p = Some (File data perm).
Proof.
  intros Ha Hp. apply (write_answer _ _ _ _ "" perm) in Ha as (_ & c & -> & Hc); [|done].
  by rewrite lookup_insert_eq, Hc.
Qed.

Lemma sync_close_answer whims (c : agent_call (option error)) h a h' p :
  (exists q, c = SyncOpen q \/ c = CloseFile q) -> answer whims _ c h = (a, h') -> disk h' !! p = disk h !! p.
Proof.
  intros [q [-> | ->]]; simpl; unfold file_op; destruct (wh_fault _); by intros [= <- <-].
Qed.

Lemma rename_answer whims a b h r h' :
  answer whims _ (Rename a b) h = (r, h') ->
  exchanges h' = exchanges h /\
  match r with
  | None => exists n, disk h !! a = Some n /\ disk h' = <[b := n]> (delete a (disk h))
  | Some _ => disk h' = disk h
  end.
Proof.
  simpl. unfold file_op. destruct (wh_fault _); [by intros [= <- <-]|].
  destruct (disk h !! a) as [n|] eqn:E; intros [= <- <-]; (split; [done|]); [by exists n|done].
Qed.

Lemma remove_answer whims p q h r h' : answer whims _ (RemoveFile p) h = (r, h') -> p <> q -> disk h' !! q = disk h !! q.
Proof.
  simpl. unfold file_op. intros Ha Hpq. destruct (wh_fault _); [by injection Ha as <- <-|].
  destruct (disk h !! p) as [[| |]|]; injection Ha as <- <-; cbn; by rewrite ?lookup_delete_ne.
Qed.

Section write.
Context (whims : nat -> Whim) (P : Host -> Prop) (closed : forall h h', kept h h' -> P h -> P h').
Context (prefix target data : string) (prefix_ok : prefix = "identity-" \/ prefix = "ca-").
Context (h0 : Host) (distinct : forall x, temp_path dir prefix ".tmp" x <> target).

(** What makes the renamed file fit [P]. *)
Context (renamed : forall h t c, P h -> kept h0 h -> other t -> disk h !! t = Some (File data private_perm) ->
           P (mkHost (<[target := File data private_perm]> (delete t (disk h))) c (exchanges h))).

Definition written (r : option error) (h : Host) : Prop :=
  r = None -> disk h !! target = Some (File data private_perm).

Lemma temp_step_wp c t msg Q h :
  harmless c -> P h -> kept h0 h -> (forall h', answer whims _ c h = (None, h') -> kept h0 h' -> P h' -> Q tt h') ->
  rwp whims (temp_step c t msg) P Q written h.
Proof.
  intros Hc Hp Hk Hq. unfold temp_step. wstep. apply ask_kept; [done..|]. intros [err|] h1 Ha Hk1.
  - wstep. apply ask_kept; [done|done|by eapply closed|]. intros _ h2 _ Hk2.
    wstep; [by do 2 (eapply closed; [done|])|done].
  - wstep; [by eapply closed|]. apply Hq; [done|by etrans|by eapply closed].
Qed.

Lemma write_atomically_wp file what : P h0 -> wp whims (write_atomically dir prefix target data file what) P written h0.
Proof.
  intros Hp. unfold write_atomically. wstep. wstep. apply must_get_kept; [done|by split|done|].
  intros [t|err] h1 Ha Hk1; [|done]. apply temp_answer in Ha as [[x Ht] Hc1].
  assert (other t) as Ho by (subst t; by apply temp_other). assert (t <> target) as Hne by (subst t; apply distinct).
  assert (P h1) as Hp1 by (by eapply closed).
  assert (forall r h2, P h2 -> written r h2 -> rwp whims (ask (RemoveFile t) ;; mret r) P written written h2) as Hend.
  { intros r h2 Hp2 Hw. wstep. apply ask_kept; [done..|]. intros a h3 Hr Hk3. wstep; [by eapply closed|].
    intros ->. rewrite (remove_answer _ _ target _ _ _ Hr) by done. by apply Hw. }
  wstep. wstep. eapply host_mono; [apply wp_here|done|intros r h2 [Hp2 Hw]; by apply Hend].
  wstep. wstep. apply temp_step_wp; [done..|]. intros h2 Ha2 Hk2 Hp2. eapply chmod_answer in Ha2; [|done].
  wstep. apply temp_step_wp; [done..|]. intros h3 Ha3 Hk3 Hp3. eapply write_all_answer in Ha3; [|done].
  wstep. apply temp_step_wp; [done..|]. intros h4 Ha4 Hk4 Hp4.
  eapply (sync_close_answer _ _ _ _ _ t) in Ha4; [|by eexists; left]. rewrite Ha3 in Ha4.
  wstep. apply must_kept; [done..|]. intros [err|] h5 Ha5 Hk5; [done|].
  eapply (sync_close_answer _ _ _ _ _ t) in Ha5; [|by eexists; right]. rewrite Ha4 in Ha5.
  assert (P h5) as Hp5 by (by eapply closed). assert (kept h0 h5) as Hk5' by (by etrans).
  wstep. apply rwp_must; [done|]. intros r h6 Ha6. apply rename_answer in Ha6 as [He6 Ha6].
  destruct h6 as [d6 c6 es6]. simpl in He6, Ha6. subst es6. destruct r as [err|].
  - subst d6. split; [by apply (closed h5)|done].
  - destruct Ha6 as (n & Hn & ->). rewrite Ha5 in Hn. injection Hn as <-.
    assert (P (mkHost (<[target := File data private_perm]> (delete t (disk h5))) c6 (exchanges h5))) as Hp6 by (by apply renamed).
    split; [done|]. wstep; [done|]. intros _. cbn. by rewrite lookup_insert_eq.
Qed.
End write.

(** ** The other functions of the state directory *)

Lemma kept_closed h0 h h' : kept h h' -> kept h0 h -> kept h0 h'.
Proof. intros Hk H0'. by etrans. Qed.

Definition harmless_event (e : event agent_call) : Prop := match e with Event c _ => harmless c end.

Lemma harmless_keeps {R} whims (m : prog agent_call R) (Q : R -> Prop) h l :
  safe m (fun _ => harmless_event) (fun r _ => Q r) l -> wp whims m (kept h) (fun r h' => kept h h' /\ Q r) h.
Proof.
  assert (forall h1 l, kept h h1 -> safe m (fun _ => harmless_event) (fun r _ => Q r) l ->
            wp whims m (kept h) (fun r h' => kept h h' /\ Q r) h1) as Hind; [|by apply Hind].
  induction m as [r|A c f IH]; intros h1 l1 Hk Hs; (split; [done|]); [done|].
  eapply IH; [|by apply Hs]. etrans; [done|]. apply answer_kept. by destruct (Hs (answer whims A c h1).1).
Qed.

Lemma trust_roots_wp whims h :
  wp whims (LoadControllerTrustRoots dir) (kept h) (fun _ h' => kept h h') h.
Proof.
  eapply host_mono; [apply (harmless_keeps _ _ (fun _ => True) _ [])|done|by intros r h' []].
  unfold LoadControllerTrustRoots, load_ca. repeat rstep; exact I.
Qed.

Lemma existing_ca_wp whims h0 data h (Q : unit -> Host -> Prop) (E : option error -> Host -> Prop) :
  kept h0 h -> (forall r h', kept h0 h' -> E r h') -> (forall h', kept h0 h' -> Q tt h') ->
  rwp whims (existing_ca ca_path data) (kept h0) Q E h.
Proof.
  intros Hk HE HQ. unfold existing_ca. wstep. apply ask_kept; [apply kept_closed|done|done|]. intros [fi|err] h1 _ Hk1.
  - assert (kept h0 h1) as Hk01 by (by etrans). wstep. wstep; [done|]. destruct (private_file _ _); [by apply HE|].
    wstep. apply must_get_kept; [apply kept_closed|done|done|]. intros [content|err] h2 _ Hk2; [|apply HE; by etrans].
    wstep; [by etrans|]. apply HE. by etrans.
  - destruct (errors_Is err os_ErrNotExist); wstep; try (by etrans); [apply HQ|apply HE]; by etrans.
Qed.

Lemma persist_ca_wp whims h0 src h :
  kept h0 h -> wp whims (body (persist_ca dir src)) (kept h0) (fun _ h' => kept h0 h') h.
Proof.
  intros Hk. unfold persist_ca. wstep. wstep. apply must_get_kept; [apply kept_closed|done|done|].
  intros [fi|err] h1 _ Hk1; [|by etrans]. assert (kept h0 h1) as Hk01 by (by etrans).
  destruct (negb _); [by wstep|]. wstep. apply ask_kept; [apply kept_closed|done|done|]. intros b h2 _ Hk2.
  assert (kept h0 h2) as Hk02 by (by etrans). destruct (read_ca b _) as [data|]; [|by wstep].
  destruct (validateAndParseCAPEM data) as [certs|]; [|by wstep]. cbv zeta. fold ca_path. wstep.
  apply existing_ca_wp; [done|done|]. intros h3 Hk3. wstep.
  eapply host_mono; [apply wp_here, (write_atomically_wp whims (kept h0) (kept_closed h0) "ca-" ca_path data (or_intror eq_refl))|done|by intros r h4 [Hh _]].
  - intros x. unfold temp_path, ca_path, ControllerCAPEMFileName.
    rewrite path_of by (apply (bool_decide_unpack _); vm_compute; exact I).
    intros Heq. by apply (inj (String.append dir)), (inj (String.append "/")) in Heq.
  - intros h4 t c Hk4 _ (Ht1 & Ht2 & Ht3) _. etrans; [exact Hk4|]. destruct ca_other as (Hc1 & Hc2 & Hc3).
    unfold kept. cbn. by rewrite !lookup_insert_ne, !lookup_delete_ne.
  - done.
Qed.

Lemma persist_ca_file_wp whims src h :
  wp whims (ValidateAndPersistCAFile dir src) (kept h) (fun _ h' => kept h h') h.
Proof.
  unfold ValidateAndPersistCAFile. wstep. wstep. wstep.
  eapply host_mono; [apply (ensure_dir_wp whims (kept h) (kept_closed h)); reflexivity|done|].
  intros [err|] h1 [Hk1 _]; [done|]. wstep. apply must_kept; [apply kept_closed|done|done|].
  intros [err|] h2 _ Hk2; [by etrans|]. wstep. wstep.
  eapply host_mono; [apply (persist_ca_wp whims h); by etrans|done|]. intros r h3 Hk3.
  wstep. apply ask_kept; [apply kept_closed|done|done|]. intros _ h4 _ Hk4. wstep; (etrans; [exact Hk3|done]).
Qed.

(** ** Metadata *)

Lemma keyed_renamed priv meta h t c :
  keyed priv h -> dir_ready h -> justified meta priv (exchanges h) -> other t ->
  keyed priv (mkHost (<[json_path := File (json_Marshal meta) private_perm]> (delete t (disk h))) c (exchanges h)).
Proof.
  intros ((content & Hc & Hp) & Ha & _) Hd Hj (Ht1 & Ht2 & Ht3). destruct paths_differ as (Hkj & _ & Hjd).
  split_and!; [|done|right].
  - exists content. cbn. by rewrite lookup_insert_ne, lookup_delete_ne.
  - exists meta. unfold dir_ready in *. cbn. by rewrite lookup_insert_eq, lookup_insert_ne, lookup_delete_ne.
Qed.

Lemma write_metadata_wp whims priv meta h :
  keyed priv h -> justified meta priv (exchanges h) ->
  wp whims (WriteIdentityMetadata dir meta) (keyed priv)
    (fun r h' => r = None -> disk h' !! json_path = Some (File (json_Marshal meta) private_perm)) h.
Proof.
  intros Hk Hj. unfold WriteIdentityMetadata. wstep. wstep. wstep.
  eapply host_mono; [apply wp_here, (ensure_dir_wp whims (keyed priv) (keyed_kept priv) h Hk)|done|].
  intros [err|] h1 (Hk1 & Hkept & Hd); [done|]. cbv zeta. wstep. fold json_path.
  assert (exchanges h1 = exchanges h) as He by apply Hkept. rewrite <- He in Hj.
  apply (write_atomically_wp whims (keyed priv) (keyed_kept priv) "identity-" json_path (json_Marshal meta) (or_introl eq_refl)); [| |done].
  - intros x. by destruct (temp_other "identity-" ".tmp" x (or_introl eq_refl)) as (_ & Hne & _).
  - intros h2 t c Hk2 Hkept2 Ho _. apply keyed_renamed; [done|by apply Hkept2, Hd| |done].
    by rewrite (proj1 (proj2 (proj2 Hkept2))).
Qed.

(** ** Enroll *)

Lemma enrolled_id_valid resp id : enrolled_id resp = Ok id -> ValidateUUIDv7 id = None.
Proof.
  unfold enrolled_id, agent_id_response. destruct (read_response _ _ _) as [data|]; [|done]. simpl.
  repeat case_match; try done. intros [= <-]. done.
Qed.
Lemma within_ascii lo hi c : byte_within lo hi c = true -> byte_val hi < 128 -> byte_val c < 128.
Proof. unfold byte_within. intros Hw Hh. bsplit. lia. Qed.

Lemma uuid_byte_ascii i c : uuid_byte i c = None -> byte_val c < 128.
Proof.
  assert (forall x, Ascii.eqb c x = true -> byte_val x < 128 -> byte_val c < 128) as Heq.
  { by intros x ->%Ascii.eqb_eq. }
  unfold uuid_byte. destruct (bool_decide _); [|destruct (i =? 14)%nat; [|destruct (i =? 19)%nat]];
    (destruct (negb _) eqn:E; [done|]); intros _; apply negb_false_iff in E; try (by eapply Heq; [exact E|vm_compute]);
    apply orb_prop in E as [E|E]; try (apply orb_prop in E as [E|E]); eapply within_ascii; try exact E; by vm_compute.
Qed.

Lemma uuid_bytes_ascii i l : uuid_bytes i l = None -> Forall (fun b => byte_val b < 128) l.
Proof.
  revert i. induction l as [|c l IH]; intros i; [constructor|]. simpl.
  destruct (uuid_byte i c) eqn:Ec; [done|]. intros Hl. constructor; [by eapply uuid_byte_ascii|by eapply IH].
Qed.

Lemma encoded_ascii a l : Forall (fun b => byte_val b < 128) (bytes_of (EncodeToString a l)).
Proof.
  unfold EncodeToString. rewrite bytes_of_string_of. apply Forall_fmap. eapply Forall_impl; [apply enc_digits_range|].
  intros v Hv. apply Z.ltb_lt. revert v Hv. apply (digit_cases (fun v => byte_val (enc_char a v) <? 128)).
  destruct a; vm_compute; reflexivity.
Qed.

Lemma made_justified url id priv u es rq resp :
  ValidateControllerURL url = Ok u -> utf8_ValidString url = true -> len (Public priv) = PublicKeySize ->
  (rq, Ok resp) ∈ es -> enrolled_id resp = Ok id ->
  justified (mkIdentityMetadata 1 id url (FormatPublicKeyBase64RawURL (Public priv))) priv es.
Proof.
  intros Hu Ht Hl Hin Hid. pose proof (enrolled_id_valid _ _ Hid) as Hv. split; [done|]. split; [|split].
  - unfold check_metadata. cbn [im_Version im_AgentID im_ControllerURL im_PublicKey]. rewrite Hv, Hu. unfold FormatPublicKeyBase64RawURL. rewrite decode_encode.
    rewrite length_bytes_of. fold (len (Public priv)). rewrite Hl, string_of_bytes_of. reflexivity.
  - split_and!; [done| |done|]; cbn.
    + rewrite <- (string_of_bytes_of id). apply utf8_ascii. unfold ValidateUUIDv7 in Hv.
      destruct (negb _); [done|]. by eapply uuid_bytes_ascii.
    + unfold FormatPublicKeyBase64RawURL. rewrite <- (string_of_bytes_of (EncodeToString _ _)).
      apply utf8_ascii, encoded_ascii.
  - by exists rq, resp.
Qed.

Lemma stored_key_size h priv : holds_key h priv -> len (Public priv) = PublicKeySize.
Proof.
  intros (content & _ & Hp). assert (len priv = PrivateKeySize) as Hl.
  { revert Hp. unfold ParsePrivateKeyPKCS8PEM. repeat case_match; try done. intros [= <-]. by bsplit. }
  unfold Public, len in *. rewrite <- length_bytes_of in *. rewrite bytes_of_string_of, length_drop.
  unfold PrivateKeySize, PublicKeySize in *. lia.
Qed.

(** The result of an enrollment: an identifier that is now on the disk. *)
Definition enrolled (opts : EnrollOptions) (r : result string) (h : Host) : Prop :=
  forall id, r = Ok id -> exists meta, disk h !! json_path = Some (File (json_Marshal meta) private_perm)
    /\ im_AgentID meta = id /\ im_ControllerURL meta = eo_ControllerURL opts.

Lemma keyed_exchange priv h url token resp c :
  keyed priv h ->
  keyed priv (mkHost (disk h) c (exchanges h ++ [(enroll_http url token (FormatPublicKeyBase64RawURL (Public priv)), resp)])).
Proof.
  intros (Hh & Ha & Hj). split; [exact Hh|]. split.
  - intros rq r [Hin|Hin]%elem_of_app; [by eapply Ha|]. apply list_elem_of_singleton in Hin as [= -> ->]. by exists url, token.
  - destruct Hj as [|(m & Hm & Hd & H1' & H2' & H3' & rq & r & Hin & Hid)]; [by left|right].
    exists m. unfold justified. split_and!; [done..|]. exists rq, r. split; [apply elem_of_app; by left|done].
Qed.

Lemma request_wp whims opts u roots token priv h :
  eo_StateDir opts = dir -> ValidateControllerURL (eo_ControllerURL opts) = Ok u ->
  utf8_ValidString (eo_ControllerURL opts) = true -> keyed priv h ->
  rwp whims (request_enrollment opts u roots token (FormatPublicKeyBase64RawURL (Public priv))) (keyed priv)
    (enrolled opts) (enrolled opts) h.
Proof.
  intros Hdir Hu Ht Hk. unfold request_enrollment. cbv zeta. wstep.
  apply must_kept; [apply keyed_kept|done|done|]. intros [err|] h1 _ Hk1; [done|].
  assert (keyed priv h1) as Hy1 by (by eapply keyed_kept). wstep. apply rwp_must_get; [done|]. intros a h2 [= <- <-].
  set (h2 := mkHost _ _ _). assert (keyed priv h2) as Hy2 by (by apply keyed_exchange). split; [done|].
  destruct (wh_reply (whims (calls h1))) as [resp|err] eqn:Er; [|done].
  assert (exists rq, (rq, Ok resp) ∈ exchanges h2) as [rq Hin].
  { eexists. unfold h2. cbn. rewrite ?Er. apply elem_of_app. right. by apply list_elem_of_singleton. }
  destruct (enrolled_id resp) as [id|] eqn:Eid; [|by wstep]. wstep. wstep. rewrite Hdir.
  eapply host_mono; [apply wp_here, (write_metadata_wp whims priv); [done|]|done|].
  - eapply (made_justified _ _ _ _ _ _ resp); [done|done|eapply stored_key_size, Hk|done|done].
  - intros [err|] h3 [Hy3 Hw]; [done|]. wstep; [done|]. intros ? [= <-]. eexists. split; [by apply Hw|done].
Qed.

Lemma keyed_Inv priv h : keyed priv h -> Inv h.
Proof. intros Hk. right. by exists priv. Qed.

Lemma load_metadata_wp whims h : wp whims (LoadIdentityMetadata dir) (kept h) (fun _ h' => kept h h') h.
Proof.
  eapply host_mono; [apply (harmless_keeps _ _ (fun _ => True) _ [])|done|by intros r h' []].
  unfold LoadIdentityMetadata, validateExistingStateDir, loadExistingPrivateKey.
  repeat first [exact I | rstep | case_match].
Qed.

Lemma stat_absent whims p h err h' :
  answer whims _ (StatMode p) h = (Err err, h') -> errors_Is err os_ErrNotExist = true -> disk h !! p = None.
Proof.
  simpl. unfold file_query. destruct (wh_fault _); [by intros [= <- _]|]. by destruct (disk h !! p).
Qed.

(** Only without metadata does the function go on. *)
Lemma refuse_wp whims h :
  rwp whims (refuse_enrolled dir) (kept h) (fun _ h' => kept h h' /\ disk h !! json_path = None)
    (fun r _ => forall id, r <> Ok id) h.
Proof.
  unfold refuse_enrolled. fold json_path. wstep. apply ask_kept; [apply kept_closed|done|done|].
  intros [fi|err] h1 Ha Hk1.
  - wstep. wstep. eapply host_mono; [apply load_metadata_wp|intros h2 Hk2; by etrans|].
    intros [meta|err] h2 Hk2; wstep; try done; by etrans.
  - destruct (errors_Is err os_ErrNotExist) eqn:E; wstep; try done. split; [done|]. by eapply stat_absent.
Qed.

Lemma check_options_url opts u : check_options opts = Ok u -> ValidateControllerURL (eo_ControllerURL opts) = Ok u.
Proof.
  unfold check_options. destruct (ValidateControllerURL _) as [u'|]; [|done]. simpl. repeat case_match; try done.
Qed.

Lemma Enroll_wp whims opts h :
  eo_StateDir opts = dir -> utf8_ValidString (eo_ControllerURL opts) = true -> Inv h ->
  wp whims (Enroll opts) Inv (enrolled opts) h.
Proof.
  intros Hdir Ht Hi. unfold Enroll. wstep. destruct (check_options opts) as [u|] eqn:Eo; [|by wstep].
  apply check_options_url in Eo. cbv zeta. rewrite Hdir. wstep.
  eapply host_mono; [apply refuse_wp|by intros; eapply Inv_kept|]. intros [r|[]] h1; [by intros Hr id ->; destruct (Hr id)|].
  intros [Hk1 _]. assert (Inv h1) as Hi1 by (by eapply Inv_kept). wstep.
  eapply (host_mono _ _ Inv _ (fun r h' => match r with inl x => enrolled opts x h' | inr _ => Inv h' end)); [|done|].
  { destruct (String.eqb (eo_CAFile opts) ""); [done|].
    change (rwp whims (must_do (ValidateAndPersistCAFile dir (eo_CAFile opts)) (wrap_result "failed to process CA file"))
              Inv (fun _ h' => Inv h') (enrolled opts) h1). wstep.
    eapply host_mono; [apply persist_ca_file_wp|by intros; eapply Inv_kept|]. intros [err|] h2 Hk2; [done|by eapply Inv_kept]. }
  intros [r|[]] h2 Hi2; [done|]. wstep. apply ask_kept; [exact Inv_kept|done|done|]. intros input h3 _ Hk3.
  assert (Inv h3) as Hi3 by (by eapply Inv_kept).
  destruct (ReadAndValidateTokenFromStdin input) as [token|]; [|by wstep]. wstep. wstep.
  eapply host_mono; [apply wp_here, key_wp, Hi3|done|]. intros [[pub priv]|err] h4 [Hi4 Hm]; [|done].
  destruct (Hm pub priv eq_refl) as [-> Hh]. pose proof (Inv_keyed h4 priv Hi4 Hh) as Hy. wstep. wstep.
  eapply host_mono; [apply trust_roots_wp|by intros; eapply Inv_kept|]. intros [roots|err] h5 Hk5; [|done].
  eapply host_mono; [apply (request_wp _ _ _ _ _ priv); [done|done|done|by eapply keyed_kept]|apply keyed_Inv|done].
Qed.

(** ** Any number of attempts *)

(** The machine after some attempts to enroll into the directory, each with
    its own options and whims and cut off after some number of calls. *)
Inductive attempts : Host -> Prop :=
| attempts_none d c : d !! key_path = None -> d !! json_path = None -> attempts (mkHost d c [])
| attempts_more h whims opts n :
    attempts h -> eo_StateDir opts = dir -> utf8_ValidString (eo_ControllerURL opts) = true ->
    attempts (run_for whims n (Enroll opts) h).

Lemma attempts_Inv h : attempts h -> Inv h.
Proof.
  induction 1 as [d c Hk Hj|h whims opts n _ IH Hd Ht]; [by left|]. eapply wp_run_for, (Enroll_wp _ _ _ Hd Ht IH).
Qed.

(** C19: one state directory stands for one key: in whatever way earlier
    attempts ended, every enrollment request ever made from it carries the
    public key of the key file that is stored now. *)
Theorem one_key_per_directory h :
  attempts h ->
  forall rq resp, (rq, resp) ∈ exchanges h ->
  exists priv url token, holds_key h priv
    /\ rq = enroll_http url token (FormatPublicKeyBase64RawURL (Public priv)).
Proof.
  intros Ha rq resp Hin. destruct (attempts_Inv h Ha) as [[He _]|(priv & Hh & Hask & _)].
  - rewrite He in Hin. by apply elem_of_nil in Hin.
  - destruct (Hask rq resp Hin) as (url & token & ->). by exists priv, url, token.
Qed.

(** ** Reading the metadata back *)

Definition healthy (whims : nat -> Whim) : Prop := forall i, wh_fault (whims i) = None.

Lemma stat_healthy whims p n h : healthy whims -> disk h !! p = Some n ->
  answer whims _ (StatMode p) h = (Ok (mode_of n), mkHost (disk h) (S (calls h)) (exchanges h)).
Proof. intros Hw Hp. simpl. unfold file_query. by rewrite Hw, Hp. Qed.

Lemma read_healthy whims p content perm h : healthy whims -> disk h !! p = Some (File content perm) ->
  answer whims _ (ReadWhole p) h = (Ok content, mkHost (disk h) (S (calls h)) (exchanges h)).
Proof. intros Hw Hp. simpl. unfold file_query. by rewrite Hw, Hp. Qed.

Lemma private_ok what content : private_file what (mode_of (File content private_perm)) = None.
Proof. reflexivity. Qed.

Section load.
Context (whims : nat -> Whim) (whims_healthy : healthy whims) (d : gmap string node).
Let same (h : Host) : Prop := disk h = d.

Lemma must_stat {R} p n f (Q : FileMode -> Host -> Prop) (E : R -> Host -> Prop) h :
  same h -> d !! p = Some n -> (forall h', same h' -> Q (mode_of n) h') -> rwp whims (must_get (StatMode p) f) same Q E h.
Proof.
  intros Hs Hp HQ. apply rwp_must_get; [done|]. intros a h' Ha.
  rewrite (stat_healthy _ _ n) in Ha by (done || by rewrite Hs). injection Ha as <- <-. split; [done|by apply HQ].
Qed.

Lemma must_read {R} p content perm f (Q : string -> Host -> Prop) (E : R -> Host -> Prop) h :
  same h -> d !! p = Some (File content perm) -> (forall h', same h' -> Q content h') ->
  rwp whims (must_get (ReadWhole p) f) same Q E h.
Proof.
  intros Hs Hp HQ. apply rwp_must_get; [done|]. intros a h' Ha.
  rewrite (read_healthy _ _ content perm) in Ha by (done || by rewrite Hs). injection Ha as <- <-. split; [done|by apply HQ].
Qed.

Lemma load_key_healthy content priv h :
  same h -> d !! key_path = Some (File content private_perm) -> ParsePrivateKeyPKCS8PEM content = Ok priv ->
  wp whims (loadExistingPrivateKey dir) same (fun r _ => r = Ok priv) h.
Proof.
  intros Hs Hd Hp. unfold loadExistingPrivateKey. wstep. cbv zeta. fold key_path. wstep.
  eapply must_stat; [done|done|]. intros h1 Hs1. wstep. wstep; [done|]. rewrite private_ok. wstep.
  eapply must_read; [done|done|]. intros h2 Hs2. rewrite Hp. cbv iota beta. by wstep.
Qed.

Lemma load_metadata_healthy meta priv h :
  same h -> complete h priv -> holds_key h priv -> d !! json_path = Some (File (json_Marshal meta) private_perm) ->
  justified meta priv (exchanges h) ->
  wp whims (LoadIdentityMetadata dir) same (fun r _ => r = Ok meta) h.
Proof.
  intros Hs (_ & _ & Hd & _) (content & Hk & Hpk) Hm (Hpub & Hc & Ht & _). unfold dir_ready in Hd. rewrite Hs in Hd, Hk.
  unfold LoadIdentityMetadata, validateExistingStateDir. wstep. wstep. wstep. wstep. wstep.
  eapply must_stat; [done|done|]. intros h1 Hs1. wstep; [done|]. change (check_state_dir (mode_of (Dir state_dir_perm))) with (@None error). cbv iota zeta.
  fold json_path.
  wstep. eapply must_stat; [done|done|]. intros h2 Hs2. wstep. wstep; [done|]. rewrite private_ok. wstep.
  eapply must_read; [done|done|]. intros h3 Hs3. unfold parse_metadata.
  rewrite (identity_round_trip meta Ht). change (decoder_More ("" : string)) with false. cbv iota beta. rewrite Hc. cbv iota beta. wstep. wstep.
  eapply host_mono; [apply wp_here; by apply (load_key_healthy content priv)|done|]. intros r h4 [Hs4 ->]. cbv iota beta.
  rewrite String.eqb_refl. change (negb true) with false. cbv iota. by wstep.
Qed.
End load.

(** C20: in whatever way the attempts to enroll ended, metadata that is in the
    directory is whole: the agent reads it back, it is for the key that is
    stored, and its identifier is one the controller gave in a reply. *)
Theorem metadata_is_complete h n whims :
  attempts h -> disk h !! json_path = Some n -> healthy whims ->
  exists meta priv, (outcome whims (LoadIdentityMetadata dir) h).1 = Ok meta
    /\ holds_key h priv /\ im_PublicKey meta = FormatPublicKeyBase64RawURL (Public priv)
    /\ exists rq resp, (rq, Ok resp) ∈ exchanges h /\ enrolled_id resp = Ok (im_AgentID meta).
Proof.
  intros Ha Hj Hw. destruct (attempts_Inv h Ha) as [[_ Hn]|(priv & Hh & _ & [Hn|Hc])]; [congruence|congruence|].
  pose proof Hc as (meta & Hm & Hd & Hjust). exists meta, priv. split.
  - apply (host_outcome whims _ (fun h' => disk h' = disk h) (fun r _ => r = Ok meta)).
    by apply (load_metadata_healthy whims Hw (disk h) meta priv).
  - split; [done|]. destruct Hjust as (Hp & _ & _ & Hex). by split.
Qed.

(** C21: enrollment happens once: an attempt that succeeded left the identifier
    it returned in the directory, and as long as there is metadata no attempt
    succeeds, sends anything or touches the identity. *)
Theorem enrolled_once h whims opts :
  attempts h -> eo_StateDir opts = dir -> utf8_ValidString (eo_ControllerURL opts) = true ->
  enrolled opts (outcome whims (Enroll opts) h).1 (outcome whims (Enroll opts) h).2
  /\ (disk h !! json_path <> None ->
      (forall id, (outcome whims (Enroll opts) h).1 <> Ok id)
      /\ forall n, kept h (run_for whims n (Enroll opts) h)).
Proof.
  intros Ha Hd Ht. split; [apply (host_outcome _ _ Inv), Enroll_wp; [done|done|by apply attempts_Inv]|]. intros Hj.
  assert (wp whims (Enroll opts) (kept h) (fun r _ => forall id, r <> Ok id) h) as Hwp.
  { unfold Enroll. wstep. destruct (check_options opts) as [u|]; [|by wstep]. cbv zeta. rewrite Hd. wstep.
    eapply host_mono; [apply refuse_wp|done|]. intros [r|[]] h1; [done|by intros [_ Hn]]. }
  split; [exact (host_outcome _ _ _ _ _ Hwp)|]. intros n. exact (wp_run_for _ _ _ _ _ n Hwp).
Qed.
End directory.
