(* ===== verification/EnrollInput.v ===== *)
(** * What the agent accepts from outside

    The token on standard input, identifiers and the CA bundle: the accepted
    texts are described without reference to the code that checks them. *)

From S2P Require Import Prelude GoStrings RuneFacts Base64 Job Enrollment Network Http Files Syscalls Identity Transport Enroll.

(** ** The token on standard input *)

Lemma token_byte_visible rp raw b :
  DecodeString URLAlphabet false rp = Some raw -> (3 * length (bytes_of rp) < 4 * length raw + 3)%nat ->
  b ∈ bytes_of rp -> 33 <= byte_val b.
Proof.
  intros Hd Hl Hb. pose proof (strict_no_newline _ _ _ _ Hd Hl b Hb) as Hn. unfold DecodeString in Hd.
  destruct (mapM _ _) as [ds|] eqn:Hm; [|done]. apply mapM_dec_inv in Hm as [Hr He].
  assert (b ∈ enc_char URLAlphabet <$> ds) as Hi.
  { rewrite He. apply list_elem_of_In, filter_In. split; [by apply list_elem_of_In|by rewrite Hn]. }
  apply list_elem_of_fmap in Hi as (v & -> & Hv). rewrite Forall_forall in Hr. specialize (Hr v Hv).
  apply Z.leb_le. revert v Hr Hv Hb Hn. intros v Hr _ _ _. revert v Hr. apply (digit_cases (fun v => 33 <=? byte_val (enc_char URLAlphabet v))).
  vm_compute. reflexivity.
Qed.

Lemma valid_token_visible t : ValidateToken t = None -> len t = 53 /\ forall b, b ∈ bytes_of t -> 33 <= byte_val b.
Proof.
  unfold ValidateToken. destruct (negb (len t =? _)) eqn:E1; [done|].
  destruct (negb (strings_HasPrefix t TokenPrefix)) eqn:E2; [done|].
  destruct (strings_Contains _ "=") eqn:E3; [done|].
  destruct (DecodeString _ _ _) as [raw|] eqn:E4; [|done].
  destruct (negb (_ =? TokenEntropyBytes)) eqn:E5; [done|]. intros _. bsplit. split; [done|].
  unfold strings_HasPrefix in E2. pose proof (has_prefix_inv _ _ E2) as Hp.
  unfold strings_TrimPrefix in E4. unfold strings_HasPrefix in E4. rewrite E2 in E4.
  assert (len t = 53) as Hlen by (rewrite E1; reflexivity).
  intros b Hb. rewrite Hp in Hb. apply elem_of_app in Hb as [Hb|Hb].
  - assert (Forall (fun b => 33 <= byte_val b) (bytes_of TokenPrefix)) as HF by (apply (bool_decide_unpack _); vm_compute; exact I).
    rewrite Forall_forall in HF. by apply HF.
  - eapply token_byte_visible; [exact E4| |].
    + rewrite bytes_of_string_of, length_drop, length_bytes_of. unfold len, TokenEntropyBytes in *.
      change (String.length TokenPrefix) with 10%nat. lia.
    + by rewrite bytes_of_string_of.
Qed.

(** A suffix whose last byte is not visible is no suffix of a visible text. *)
Lemma HasSuffix_hidden s p b :
  (forall c, c ∈ bytes_of s -> 33 <= byte_val c) -> b ∈ bytes_of p -> byte_val b < 33 -> strings_HasSuffix s p = false.
Proof.
  intros Hs Hb Hv. destruct (strings_HasSuffix s p) eqn:E; [|done]. apply HasSuffix_inv in E as [s' ->].
  assert (33 <= byte_val b); [|lia]. apply Hs. rewrite bytes_of_app. apply elem_of_app. by right.
Qed.

Lemma ContainsAny_hidden s cs :
  (forall c, c ∈ bytes_of s -> 33 <= byte_val c) -> (forall c, c ∈ bytes_of cs -> byte_val c < 33) ->
  strings_ContainsAny s cs = false.
Proof.
  intros Hs Hc. unfold strings_ContainsAny. destruct (existsb _ _) eqn:E; [|done].
  apply existsb_exists in E as (b & Hb & E). apply existsb_exists in E as (c & Hcin & E). apply Ascii.eqb_eq in E as ->.
  apply list_elem_of_In in Hb, Hcin. specialize (Hs _ Hb). specialize (Hc _ Hcin). lia.
Qed.

Definition newline_bytes : string := string_of [LF].
Definition crlf_bytes : string := string_of [CR; LF].

(** C22: standard input is taken exactly when it is a valid token, alone or
    followed by one line end, and the token is what was meant. *)
Theorem stdin_token_exact s t :
  ReadAndValidateTokenFromStdin (mkBody s None) = Ok t <->
  ValidateToken t = None /\ (s = t \/ s = t +:+ newline_bytes \/ s = t +:+ crlf_bytes).
Proof.
  unfold ReadAndValidateTokenFromStdin, MaxStdinTokenBytes. fold newline_bytes crlf_bytes. split.
  - unfold ReadAllLimit. cbn [body_bytes body_err]. destruct (128 + 1 <=? len s) eqn:El.
    { replace (128 <? len (bytes_take (Z.to_nat (128 + 1)) s)) with true; [done|]. symmetry. bsplit.
      apply Z.ltb_lt. unfold bytes_take, len in *. rewrite string_length_of, length_take, length_bytes_of. lia. }
    destruct (128 <? len s); [done|]. destruct (len s =? 0); [done|]. cbv zeta.
    set (tok := if strings_HasSuffix s crlf_bytes then _ else _).
    assert (s = tok \/ s = tok +:+ newline_bytes \/ s = tok +:+ crlf_bytes) as Htok.
    { unfold tok. destruct (strings_HasSuffix s crlf_bytes) eqn:E1.
      - right. right. apply HasSuffix_inv in E1 as [s' ->]. change 2%nat with (String.length crlf_bytes) at 1.
        by rewrite take_before.
      - destruct (strings_HasSuffix s newline_bytes) eqn:E2; [|by left]. right. left.
        apply HasSuffix_inv in E2 as [s' ->]. change 1%nat with (String.length newline_bytes) at 1. by rewrite take_before. }
    clearbody tok. destruct (len tok =? 0); [done|]. destruct (strings_ContainsAny tok crlf_bytes); [done|].
    destruct (strings_ContainsAny tok _); [done|]. destruct (ValidateToken tok) eqn:Ev; [done|]. intros [= <-]. done.
  - intros [Hv Hs]. destruct (valid_token_visible t Hv) as [Hl Hvis].
    assert (len s <= 55) as Hls by (destruct Hs as [-> | [-> | ->]]; rewrite ?len_app, ?Hl; vm_compute; discriminate).
    assert (53 <= len s) as Hls' by (destruct Hs as [-> | [-> | ->]]; rewrite ?len_app, ?Hl; vm_compute; discriminate).
    assert (byte_val LF < 33) as HL by (by vm_compute).
    assert (LF ∈ bytes_of crlf_bytes) as HL1 by (apply elem_of_cons; right; apply elem_of_cons; by left).
    assert (LF ∈ bytes_of newline_bytes) as HL2 by (apply elem_of_cons; by left).
    rewrite ReadAllLimit_whole by lia. rewrite (proj2 (Z.ltb_ge _ _)) by lia. rewrite (proj2 (Z.eqb_neq _ _)) by lia. cbv zeta.
    match goal with |- context [if strings_HasSuffix s crlf_bytes then ?a else ?b] =>
      assert ((if strings_HasSuffix s crlf_bytes then a else b) = t) as -> end.
    { destruct Hs as [-> | [-> | ->]].
      - by rewrite (HasSuffix_hidden t crlf_bytes LF Hvis HL1 HL), (HasSuffix_hidden t newline_bytes LF Hvis HL2 HL).
      - rewrite HasSuffix_app. destruct (strings_HasSuffix (t +:+ newline_bytes) crlf_bytes) eqn:E.
        + apply HasSuffix_inv in E as [s' E]. assert (33 <= byte_val CR) as Hc; [|by vm_compute in Hc].
          apply Hvis. apply (f_equal bytes_of) in E. rewrite !bytes_of_app in E.
          change (bytes_of crlf_bytes) with ([CR] ++ [LF]) in E. rewrite app_assoc in E.
          apply app_inj_tail in E as [-> _]. apply elem_of_app. right. by apply list_elem_of_singleton.
        + change 1%nat with (String.length newline_bytes) at 1. apply take_before.
      - rewrite HasSuffix_app. change 2%nat with (String.length crlf_bytes) at 1. apply take_before. }
    rewrite (proj2 (Z.eqb_neq _ _)) by lia.
    rewrite !ContainsAny_hidden by (exact Hvis || (apply Forall_forall, (bool_decide_unpack _); vm_compute; exact I)).
    by rewrite Hv.
Qed.

(** ** The CA bundle *)

(** [pem.Decode] consumes the block it returns. *)
Class PemConsumes `{KeyCoding} : Prop := {
  pem_shorter : forall s block rest, pem_Decode s = (Some block, rest) -> (String.length rest < String.length s)%nat;
}.

Lemma drop_any_split cutset l :
  exists sp, l = sp ++ drop_any cutset l /\ Forall (fun b => existsb (Ascii.eqb b) cutset = true) sp.
Proof.
  induction l as [|b l (sp & E & Hsp)]; [by exists []|]. simpl. destruct (existsb (Ascii.eqb b) cutset) eqn:Eb; [|by exists []].
  exists (b :: sp). split; [simpl; by f_equal|by constructor].
Qed.

Lemma drop_any_stop cutset sp b l :
  Forall (fun b => existsb (Ascii.eqb b) cutset = true) sp -> existsb (Ascii.eqb b) cutset = false ->
  drop_any cutset (sp ++ b :: l) = b :: l.
Proof. intros Hsp Hb. induction Hsp as [|x sp Hx _ IH]; simpl; [by rewrite Hb|]. by rewrite Hx. Qed.

Section bundle.
Context `{PemConsumes} `{X509}.

Definition blank (b : ascii) : Prop := existsb (Ascii.eqb b) (bytes_of ca_space) = true.

(** Certificates with nothing but blanks around them. *)
Inductive bundle : bytes -> list string -> Prop :=
| bundle_end sp : Forall blank sp -> bundle sp []
| bundle_block sp text der rest v certs :
    Forall blank sp -> strings_HasPrefix text pemBeginCertificate = true ->
    pem_Decode text = (Some ("CERTIFICATE", der), rest) -> x509_ParseCertificate der = Ok v ->
    bundle (bytes_of rest) certs -> bundle (sp ++ bytes_of text) (der :: certs).

Lemma begins_dash text : strings_HasPrefix text pemBeginCertificate = true -> exists l, bytes_of text = "-"%char :: l.
Proof. intros Hp%has_prefix_inv. rewrite Hp. by eexists. Qed.

Lemma trimmed_text sp text :
  Forall blank sp -> strings_HasPrefix text pemBeginCertificate = true ->
  string_of (drop_any (bytes_of ca_space) (sp ++ bytes_of text)) = text.
Proof.
  intros Hsp Hp. destruct (begins_dash _ Hp) as [l Hl]. rewrite Hl, drop_any_stop by done.
  by rewrite <- Hl, string_of_bytes_of.
Qed.

Lemma len_nonzero s : (len s =? 0) = false <-> s <> "".
Proof. rewrite Z.eqb_neq. unfold len. destruct s; simpl; split; intros; try done; lia. Qed.

Lemma ca_blocks_sound fuel acc s r :
  ca_blocks fuel acc s = Ok r -> exists certs, r = acc ++ certs /\ bundle (bytes_of s) certs.
Proof.
  revert acc s. induction fuel as [|fuel IH]; intros acc s; cbn [ca_blocks];
    destruct (drop_any_split (bytes_of ca_space) (bytes_of s)) as (sp & E & Hsp);
    set (rest := string_of (drop_any _ _)) in *; assert (bytes_of s = sp ++ bytes_of rest) as E' by (by unfold rest; rewrite bytes_of_string_of);
    (destruct (len rest =? 0) eqn:E0; [intros [= <-]; exists []; rewrite app_nil_r; split; [done|]; rewrite E';
       destruct rest; [rewrite app_nil_r; by constructor|by apply Z.eqb_eq in E0]|]);
    (destruct (strings_HasPrefix rest pemBeginCertificate) eqn:Ep; simpl; [|done]); [done|].
  destruct (pem_Decode rest) as [[[ty der]|] rest'] eqn:Ed; [|done].
  destruct (String.eqb ty "CERTIFICATE") eqn:Et; simpl; [|done]. apply String.eqb_eq in Et as ->.
  destruct (x509_ParseCertificate der) as [v|] eqn:Ex; [|done]. intros Hr.
  apply IH in Hr as (certs & -> & Hb). exists (der :: certs). split; [by rewrite <- app_assoc|].
  rewrite E'. by eapply bundle_block.
Qed.

Lemma ca_blocks_complete fuel acc s certs :
  bundle (bytes_of s) certs -> (String.length s <= fuel)%nat -> ca_blocks fuel acc s = Ok (acc ++ certs).
Proof.
  remember (bytes_of s) as l eqn:El. intros Hb. revert fuel acc s El.
  induction Hb as [sp Hsp|sp text der rest v certs Hsp Hp Hd Hx Hb IH]; intros fuel acc s El Hf.
  - assert (string_of (drop_any (bytes_of ca_space) (bytes_of s)) = "") as E.
    { rewrite <- El. clear -Hsp. induction Hsp as [|b sp Hb _ IH]; [done|]. cbn [drop_any]. by rewrite (Hb : existsb _ _ = true). }
    rewrite app_nil_r. destruct fuel; cbn [ca_blocks]; by rewrite E.
  - pose proof (trimmed_text sp text Hsp Hp) as E. rewrite El in E.
    assert (text <> "") as Hne by (by intros ->). pose proof (pem_shorter _ _ _ Hd) as Hs.
    assert (String.length text <= String.length s)%nat as Hts.
    { rewrite <- !length_bytes_of, <- El, length_app. lia. }
    destruct fuel as [|fuel]; [lia|]. cbn [ca_blocks]. rewrite E, (proj2 (len_nonzero text)) by done.
    rewrite Hp. cbn [negb]. rewrite Hd. rewrite String.eqb_refl. cbn [negb]. rewrite Hx.
    rewrite (IH fuel (acc ++ [der]) rest eq_refl) by lia. by rewrite <- app_assoc.
Qed.

Lemma ca_blocks_fuel fuel acc s :
  (String.length s <= fuel)%nat -> ca_blocks fuel acc s <> Err (errorString "out of fuel").
Proof.
  revert acc s. induction fuel as [|fuel IH]; intros acc s Hf; cbn [ca_blocks].
  - destruct s; [discriminate|simpl in Hf; lia].
  - destruct (drop_any_split (bytes_of ca_space) (bytes_of s)) as (sp & E & _). set (rest := string_of (drop_any _ _)).
    assert (String.length rest <= String.length s)%nat as Hr.
    { unfold rest. rewrite string_length_of, <- (length_bytes_of s). rewrite E at 2. rewrite length_app. lia. }
    destruct (len rest =? 0); [done|]. destruct (negb _); [done|].
    destruct (pem_Decode rest) as [[[ty der]|] rest'] eqn:Ed; [|done]. apply pem_shorter in Ed.
    destruct (negb _); [done|]. destruct (x509_ParseCertificate der); [|done]. apply IH. lia.
Qed.

(** A bundle with a certificate is not blank. *)
Lemma bundle_not_blank s certs : bundle (bytes_of s) certs -> certs <> [] -> (len (strings_TrimSpace s) =? 0) = false.
Proof.
  intros Hb Hc. apply len_nonzero. intros He. pose proof (runes_TrimSpace s) as Hr. rewrite He in Hr.
  change (runes "") with (@nil (Z * bool * bytes)) in Hr.
  destruct (trim_runes_split (runes s)) as (sp1 & sp2 & E & H1' & H2'). rewrite <- Hr in E. cbn [app] in E.
  assert (Forall (fun r => unicode_IsSpace r.1.1 = true) (runes s)) as Hall by (rewrite E; by apply Forall_app).
  rewrite runes_bytes in Hall. remember (bytes_of s) as l eqn:El. destruct Hb as [|sp text der rest v certs Hsp Hp _ _ _]; [done|].
  destruct (begins_dash _ Hp) as [l' Hl']. rewrite Hl' in Hall. rewrite byte_runes_ascii_app in Hall.
  - apply Forall_app in Hall as [_ Hall]. rewrite byte_runes_ascii_cons in Hall by (by vm_compute).
    apply Forall_cons in Hall as [Hd _]. by vm_compute in Hd.
  - eapply Forall_impl; [exact Hsp|]. intros b Hbl. unfold blank in Hbl. apply existsb_exists in Hbl as (c & Hc' & Heq).
    apply Ascii.eqb_eq in Heq as ->. revert Hc'. simpl. intuition subst; by vm_compute.
Qed.

(** C23: a CA file is accepted exactly when it consists of certificates that
    parse, with nothing but blanks around them, and there is one; the loop
    over the blocks ends within as many rounds as the file has bytes. *)
Theorem ca_bundle_exact caBytes :
  (forall certs, validateAndParseCAPEM caBytes = Ok certs <-> bundle (bytes_of caBytes) certs /\ certs <> [])
  /\ validateAndParseCAPEM caBytes <> Err (errorString "out of fuel").
Proof.
  unfold validateAndParseCAPEM. split.
  - intros certs. split.
    + destruct (len _ =? 0); [done|]. destruct (ca_blocks _ _ _) as [r|] eqn:E; [|done]. simpl.
      apply ca_blocks_sound in E as (certs' & -> & Hb). simpl. destruct certs'; [done|]. by intros [= <-].
    + intros [Hb Hc]. rewrite (bundle_not_blank _ _ Hb Hc).
      rewrite (ca_blocks_complete _ [] _ _ Hb) by done. simpl. by destruct certs.
  - destruct (len _ =? 0); [done|]. pose proof (ca_blocks_fuel (String.length caBytes) [] caBytes ltac:(done)) as Hf.
    destruct (ca_blocks _ _ _) as [r|e]; simpl; [by destruct (_ =? _)%nat|congruence].
Qed.
End bundle.

(** Two certificates, a blank line between them; blocks are empty. *)
#[local] Instance marker_coding : KeyCoding := {|
  x509_MarshalPKCS8PrivateKey := Ok;
  x509_ParsePKCS8PrivateKey der := Ok (Some der);
  pem_EncodeToMemory block := pemBeginCertificate;
  pem_Decode text :=
    if strings_HasPrefix text pemBeginCertificate
    then (Some ("CERTIFICATE", ""), string_of (drop (String.length pemBeginCertificate) (bytes_of text)))
    else (None, text);
|}.
#[local] Instance marker_consumes : PemConsumes.
Proof.
  split. intros s block rest. unfold pem_Decode, marker_coding. destruct (strings_HasPrefix s _) eqn:E; [|done].
  intros [= _ <-]. destruct (begins_dash _ E) as [l Hl].
  rewrite string_length_of, length_drop, <- (length_bytes_of s), Hl. simpl. lia.
Qed.
#[local] Instance marker_x509 : X509 := {| x509_ParseCertificate := fun _ => Ok 0 |}.

Definition demo_bundle : string := pemBeginCertificate +:+ newline_bytes +:+ newline_bytes +:+ pemBeginCertificate +:+ newline_bytes.

Lemma ca_bundle_exact_witness :
  bundle (bytes_of demo_bundle) [""; ""] /\ ~ exists certs, certs <> [] /\ bundle (bytes_of (demo_bundle +:+ "x")) certs.
Proof.
  split.
  - apply (proj1 (ca_bundle_exact demo_bundle)). vm_compute. reflexivity.
  - intros (certs & Hc & Hb). pose proof (proj2 (proj1 (ca_bundle_exact (demo_bundle +:+ "x")) certs) (conj Hb Hc)) as Hv.
    vm_compute in Hv. discriminate.
Defined.
