(* ===== verification/AgentMain.v ===== *)
(** * The agent's command (src/cmd/agent/main.go, src/internal/agent/agent.go)

    The command line, and each command as a program over the calls of the
    parts it runs.  The loop of the daemon is one call here; Presence.v is what
    it does. *)

From S2P Require Import Prelude GoStrings Base64 Job Enrollment Network Http Files Syscalls Flags.
From S2P Require Import Privilege PrivilegeTheorems Capabilities Identity Transport Enroll.

(** What the daemon's loop is given: the identity, the controller, the roots
    it trusts, the key. *)
Abbreviation presence_data := (IdentityMetadata * URL * option (list string) * string)%type.

Inductive main_call : Type -> Type :=
| OnAgent {A} (c : agent_call A) : main_call A
| OnDaemon {A} (c : daemon_call A) : main_call A
| OnHelper {A} (c : os_call A) : main_call A
| PresenceLoop (d : presence_data) : main_call (option error)
| Stdout (s : string) : main_call unit.

Section main.
Context `{UuidText}.
Context `{Ed25519} `{KeyCoding} `{X509} `{NetURL} `{UnicodeTables}.

(** ** agent.Run *)

(** [agent.Run]: the security check, then RunPresence. *)
Definition runWithSecurity (stateDir : string) : prog main_call (option error) :=
  body (
    must_do (through (@OnDaemon) EnforceDaemonSecurity) Some ;;
    start ← must_run (through (@OnAgent) (presence_start stateDir)) Some;
    ended ← ask (PresenceLoop start);
    mret ended).

(** ** The commands *)

Definition daemon_args (args : list string) : result string :=
  values ← parse_args ["state-dir"] args "unexpected positional arguments";
  required values "state-dir".

Definition runAgentDaemon (args : list string) : prog main_call (option error) :=
  match daemon_args args with
  | Err err => mret (Some err)
  | Ok stateDir => runWithSecurity stateDir
  end.

Definition enroll_args (args : list string) : result EnrollOptions :=
  values ← parse_args ["controller"; "state-dir"; "ca-file"] args
             "unexpected positional arguments; enrollment token must be provided via stdin";
  controllerURL ← required values "controller";
  stateDir ← required values "state-dir";
  Ok (mkEnrollOptions controllerURL stateDir (flag_value values "ca-file") true).

Definition runEnroll (args : list string) : prog main_call (option error) :=
  body (
    match enroll_args args with
    | Err err => return_with (Some err)
    | Ok opts =>
        agentID ← must_run (through (@OnAgent) (Enroll opts)) Some;
        ask (Stdout ("Agent enrolled successfully: " +:+ agentID +:+ String "010" "")) ;;
        mret None
    end).

Definition runTransportCheck (args : list string) : prog main_call (option error) :=
  body (
    match daemon_args args with
    | Err err => return_with (Some err)
    | Ok stateDir =>
        agentID ← must_run (through (@OnAgent) (TransportCheck stateDir)) Some;
        ask (Stdout ("Secure transport verified: " +:+ agentID +:+ String "010" "")) ;;
        mret None
    end).

Definition privilege_args (args : list string) : result string :=
  values ← parse_args ["runtime-dir"] args "unexpected positional arguments";
  required values "runtime-dir".

Definition runPrivilegeCheck (args : list string) : prog main_call (option error) :=
  body (
    match privilege_args args with
    | Err err => return_with (Some err)
    | Ok runtimeDir =>
        match newClientWithDeps runtimeDir 0 with
        | Err err => return_with (Some err)
        | Ok cl =>
            must_do (through (@OnHelper) (Ping cl None)) Some ;;
            ask (Stdout ("Privilege boundary verified" +:+ String "010" "")) ;;
            mret None
        end
    end).

Definition run (args : list string) : prog main_call (option error) :=
  match args with
  | [] => runAgentDaemon args
  | cmd :: rest =>
      if strings_HasPrefix cmd "-" then runAgentDaemon args
      else if String.eqb cmd "enroll" then runEnroll rest
      else if String.eqb cmd "transport-check" then runTransportCheck rest
      else if String.eqb cmd "privilege-check" then runPrivilegeCheck rest
      else mret (Some (errorString "unknown command (supported: enroll, transport-check, privilege-check)"))
  end.

(** The exit status. *)
Definition main (args : list string) : prog main_call Z :=
  err ← run args; mret (match err with Some _ => 1 | None => 0 end).

(** ** The daemon's loop is entered only behind its checks *)

Definition loop_of (e : event main_call) : option (presence_data * option error) :=
  match e with
  | Event c a => match c in main_call A return A -> option (presence_data * option error) with
                 | PresenceLoop d => fun ended => Some (d, ended)
                 | _ => fun _ => None
                 end a
  end.

Definition not_loop (e : event main_call) : Prop := loop_of e = None.

Lemma presence_start_https dir l meta url roots key :
  runs (presence_start dir) l (Ok (meta, url, roots, key)) ->
  u_Scheme url = "https" /\ ValidateControllerURL (im_ControllerURL meta) = Ok url.
Proof.
  intros Hr. pose (good := fun (r : result presence_data) (_ : list (event agent_call)) =>
    match r with Ok (m, u, _, _) => u_Scheme u = "https" /\ ValidateControllerURL (im_ControllerURL m) = Ok u | Err _ => True end).
  enough (safe (presence_start dir) (fun _ _ => True) good []) as Hs by exact (proj1 (safe_runs _ _ _ _ _ _ Hs Hr)).
  unfold presence_start, load_enrolled. rstep. rstep. destruct (String.eqb dir ""); [done|]. rstep. rstep.
  apply safe_always; [done|]. intros [m|err] l1; [|done]. destruct (ValidateControllerURL _) as [u|] eqn:Eu; [|done].
  destruct (String.eqb_spec (u_Scheme u) "https") as [Hh|]; [|done]. simpl negb. cbv iota. rstep. rstep.
  apply safe_always; [done|]. intros [rs|err] l2; [|done]. rstep. rstep. apply safe_always; [done|].
  intros [k|err] l3; [|done]. by repeat rstep.
Qed.

Lemma other_commands_no_loop args :
  safe (runEnroll args) (fun _ => not_loop) (fun _ _ => True) []
  /\ safe (runTransportCheck args) (fun _ => not_loop) (fun _ _ => True) []
  /\ safe (runPrivilegeCheck args) (fun _ => not_loop) (fun _ _ => True) [].
Proof.
  split_and!; [unfold runEnroll|unfold runTransportCheck|unfold runPrivilegeCheck]; rstep;
    repeat first [ exact I | intros ?; reflexivity | reflexivity | apply safe_through; [by intros ? []|intros [] ?] | rstep
                 | match goal with |- safe (match ?x with _ => _ end) _ _ _ => destruct x end ].
Qed.

(** What has happened when the loop is entered. *)
Definition guarded (args : list string) (l : list (event main_call)) (d : presence_data) (ended : option error) : Prop :=
  exists dir checks reads,
    daemon_args args = Ok dir
    /\ l = (event_through (@OnDaemon) <$> checks) ++ (event_through (@OnAgent) <$> reads) ++ [Event (PresenceLoop d) ended]
    /\ enforced checks
    /\ runs (presence_start dir) reads (Ok d)
    /\ u_Scheme d.1.1.2 = "https" /\ ValidateControllerURL (im_ControllerURL d.1.1.1) = Ok d.1.1.2.

Lemma loop_event_else {C} (f : forall A, C A -> main_call A) (l : list (event C)) d ended :
  (forall A (c : C A) a, not_loop (Event (f A c) a)) -> Event (PresenceLoop d) ended ∉ event_through f <$> l.
Proof. intros Hf ([A c a] & E & _)%list_elem_of_fmap. pose proof (Hf A c a) as Hn. simpl in E. by rewrite <- E in Hn. Qed.

Lemma security_guards dir l r d ended args :
  daemon_args args = Ok dir -> runs (runWithSecurity dir) l r -> Event (PresenceLoop d) ended ∈ l ->
  guarded args l d ended /\ r = ended.
Proof.
  intros Ha Hr Hin. assert (exists x, runs (must_do (through (@OnDaemon) EnforceDaemonSecurity) Some ;;
    start ← must_run (through (@OnAgent) (presence_start dir)) Some; ended ← ask (PresenceLoop start); mret ended) l x
    /\ match x with inl r' => r = r' | inr r' => r = r' end) as (x & Hx & Hr').
  { apply runs_body in Hr as [Hr|Hr]; by eexists. }
  apply runs_seq in Hx as (l1 & y & l2 & -> & (r1 & Hsec & ->)%runs_must_do & Hx).
  apply runs_through in Hsec as (checks & -> & Hsec). destruct r1 as [err|].
  { destruct Hx as [-> ->]. rewrite app_nil_r in Hin. by apply loop_event_else in Hin. }
  apply runs_seq in Hx as (l3 & y & l4 & -> & (r2 & Hst & ->)%runs_must_run & Hx).
  apply runs_through in Hst as (reads & -> & Hst). destruct r2 as [start|err].
  2:{ destruct Hx as [-> ->]. rewrite app_nil_r in Hin. by apply elem_of_app in Hin as [Hin|Hin]; apply loop_event_else in Hin. }
  apply runs_inv in Hx as (e & l5 & -> & [-> ->]%runs_inv). rewrite !elem_of_app in Hin.
  destruct Hin as [Hin|[Hin|Hin]]; [by apply loop_event_else in Hin..|]. apply list_elem_of_singleton in Hin.
  apply (f_equal loop_of) in Hin. injection Hin as -> ->. split; [|done]. destruct start as [[[meta url] roots] key].
  exists dir, checks, reads. split_and!; try done; [by apply agent_starts_powerless|by apply (presence_start_https _ _ _ _ _ _ Hst)..].
Qed.

(** C32: the daemon talks to a controller only as an unprivileged, hardened
    process with a loaded identity: if the loop is ever entered then by the
    daemon command, after the security check went through for every thread,
    after it read whole metadata, roots and key, and only over https; what the
    loop returns is what the command returns. *)
Theorem daemon_loop_guarded args l r d ended :
  runs (run args) l r -> Event (PresenceLoop d) ended ∈ l -> guarded args l d ended /\ r = ended.
Proof.
  intros Hr Hin. assert (forall h, safe h (fun _ => not_loop) (fun _ _ => True) [] -> runs h l r -> False) as Hother.
  { intros h Hs Hh. apply list_elem_of_split in Hin as (l1 & l2 & ->).
    by destruct (safe_runs _ _ _ _ _ _ Hs Hh) as [_ Hp]; specialize (Hp l1 _ l2 eq_refl). }
  assert (runs (runAgentDaemon args) l r -> guarded args l d ended /\ r = ended) as Hdaemon.
  { unfold runAgentDaemon. destruct (daemon_args args) as [dir|err] eqn:Ea; [by intros ?; eapply security_guards|].
    intros [-> _]%runs_inv. by apply elem_of_nil in Hin. }
  unfold run in Hr. destruct args as [|cmd rest]; [by apply Hdaemon|].
  destruct (other_commands_no_loop rest) as (He & Ht & Hp).
  destruct (strings_HasPrefix cmd "-"); [by apply Hdaemon|].
  destruct (String.eqb cmd "enroll"); [by destruct (Hother _ He Hr)|].
  destruct (String.eqb cmd "transport-check"); [by destruct (Hother _ Ht Hr)|].
  destruct (String.eqb cmd "privilege-check"); [by destruct (Hother _ Hp Hr)|].
  apply runs_inv in Hr as [-> _]. by apply elem_of_nil in Hin.
Qed.
End main.
