(* ===== verification/EnrollDemo.v ===== *)
(** * An agent that enrolls in two attempts

    Instances of the interfaces of Identity.v, Transport.v and Enroll.v, and a
    machine on which the reply to the first request is lost, a second attempt
    is cut off in the middle of its work, and a third succeeds. *)

From S2P Require Import Prelude GoStrings Base64 Job UuidHex Enrollment Network Http JsonText JsonFacts JsonCoder JsonSound Files Syscalls Flags Privilege PrivilegeTheorems.
From S2P Require Import Capabilities Identity Transport Enroll StateDir EnrollTheorems AgentMain.

#[local] Instance demo_ed25519 : Ed25519 := {| ed25519_derive := fun _ => string_of (replicate 32 "P"%char) |}.
#[local] Instance demo_ed25519_laws : Ed25519Laws.
Proof. done. Qed.

(** Keys are stored as they are, behind the type of the block. *)
#[local] Instance demo_keys : KeyCoding := {|
  x509_MarshalPKCS8PrivateKey := Ok;
  x509_ParsePKCS8PrivateKey der := Ok (Some der);
  pem_EncodeToMemory block := block.1 +:+ ":" +:+ block.2;
  pem_Decode text :=
    match cut_byte (bytes_of text) ":"%char with
    | Some (ty, der) => (Some (string_of ty, string_of der), "")
    | None => (None, text)
    end;
|}.

#[local] Instance demo_x509 : X509 := {| x509_ParseCertificate := fun _ => Ok 0 |}.
#[local] Instance demo_url : NetURL := {|
  url_Parse := fun _ => Ok (mkURL "https" false "controller.example" "7443" "" "" "");
  url_Resolve := fun _ p => "https://controller.example:7443" +:+ p;
|}.
#[local] Instance demo_tables : UnicodeTables := {| lower_rune := fun r => r |}.

#[local] Instance demo_keys_laws : KeyCodingLaws.
Proof.
  split.
  - intros der. unfold pem_Decode, pem_EncodeToMemory, demo_keys, cut_byte. cbn [fst snd]. rewrite !bytes_of_app.
    change (bytes_of ":" ++ bytes_of der) with (":"%char :: bytes_of der).
    rewrite index_of_byte_app by (apply (bool_decide_unpack _); vm_compute; exact I). cbn -[bytes_of PEMBlockType].
    rewrite take_app_length. change (S (length (bytes_of PEMBlockType))) with (length (bytes_of (PEMBlockType +:+ ":"))).
    change (bytes_of PEMBlockType ++ ":"%char :: bytes_of der) with (bytes_of (PEMBlockType +:+ ":") ++ bytes_of der).
    by rewrite drop_app_length, !string_of_bytes_of.
  - by intros seed der [= <-].
Qed.

Definition demo_dir : string := "/var/lib/stackpilot-agent".
Definition demo_options : EnrollOptions := mkEnrollOptions "https://controller.example:7443" demo_dir "" true.
Definition demo_token : string := TokenPrefix +:+ EncodeToString URLAlphabet (replicate 32 "t"%char).
Definition demo_agent_id : string := "01890a5d-ac96-774b-bcce-b302099a8057".

Definition whim (random : string) (reply : result AgentResponse) (i : nat) : Whim :=
  mkWhim None (string_of (replicate 32 "s"%char)) 0 0 random (mkBody (demo_token +:+ string_of [LF]) None) None reply (Ok "") (Ok None).

Definition demo_reply : AgentResponse :=
  mkAgentResponse StatusCreated "application/json" (mkBody (quoting ("{'agent_id':'" +:+ demo_agent_id +:+ "'}")) None).

(** The reply is lost; then the attempt ends before the metadata is renamed;
    then all goes well. *)
Definition demo_host0 : Host := mkHost ∅ 0 [].
Definition demo_host1 : Host := run_for (whim "1" (Err (errorString "timeout"))) 100 (Enroll demo_options) demo_host0.
Definition demo_host2 : Host := run_for (whim "2" (Ok demo_reply)) 12 (Enroll demo_options) demo_host1.
Definition demo_host3 : Host := run_for (whim "3" (Ok demo_reply)) 100 (Enroll demo_options) demo_host2.

Lemma demo_clean : clean_dir demo_dir.
Proof. by vm_compute. Qed.

Lemma demo_attempts1 : attempts demo_dir demo_host1.
Proof. apply attempts_more; [by apply attempts_none|done|by vm_compute]. Qed.
Lemma demo_attempts2 : attempts demo_dir demo_host2.
Proof. apply attempts_more; [exact demo_attempts1|done|by vm_compute]. Qed.
Lemma demo_attempts3 : attempts demo_dir demo_host3.
Proof. apply attempts_more; [exact demo_attempts2|done|by vm_compute]. Qed.

(** The temporary file of the second attempt is all it left behind. *)
Example demo_files :
  fst <$> map_to_list (disk demo_host2)
  = ["/var/lib/stackpilot-agent/identity-2.tmp"; "/var/lib/stackpilot-agent/identity.key"; "/var/lib/stackpilot-agent"].
Proof. vm_compute. reflexivity. Qed.

Definition demo_request : AgentRequest :=
  enroll_http "https://controller.example:7443/api/v1/agent/enroll" demo_token
    (FormatPublicKeyBase64RawURL (string_of (replicate 32 "P"%char))).

Lemma one_key_per_directory_witness :
  exchanges demo_host1 = [(demo_request, Err (errorString "timeout"))]
  /\ exists priv url token, holds_key demo_dir demo_host3 priv
       /\ demo_request = enroll_http url token (FormatPublicKeyBase64RawURL (Public priv)).
Proof.
  split; [vm_compute; reflexivity|].
  apply (one_key_per_directory demo_dir demo_clean demo_host3 demo_attempts3 demo_request (Err (errorString "timeout"))).
  assert (exchanges demo_host3 = (demo_request, Err (errorString "timeout")) :: tl (exchanges demo_host3)) as ->
    by (vm_compute; reflexivity).
  left.
Defined.

Lemma metadata_is_complete_witness :
  exists meta priv,
    (outcome (whim "4" (Err (errorString "none"))) (LoadIdentityMetadata demo_dir) demo_host3).1 = Ok meta
    /\ holds_key demo_dir demo_host3 priv /\ im_AgentID meta = demo_agent_id.
Proof.
  destruct (metadata_is_complete demo_dir demo_clean demo_host3 (default (Dir 0) (disk demo_host3 !! json_path demo_dir))
    (whim "4" (Err (errorString "none"))) demo_attempts3) as (meta & priv & Hl & Hh & _);
    [vm_compute; reflexivity|done|].
  exists meta, priv. split; [exact Hl|]. split; [exact Hh|].
  assert ((outcome (whim "4" (Err (errorString "none"))) (LoadIdentityMetadata demo_dir) demo_host3).1
          = Ok (mkIdentityMetadata 1 demo_agent_id "https://controller.example:7443"
                  (FormatPublicKeyBase64RawURL (string_of (replicate 32 "P"%char))))) as E by (vm_compute; reflexivity).
  rewrite E in Hl. injection Hl as <-. reflexivity.
Defined.

Lemma enrolled_once_witness :
  (outcome (whim "3" (Ok demo_reply)) (Enroll demo_options) demo_host2).1 = Ok demo_agent_id
  /\ (exists meta, disk (outcome (whim "3" (Ok demo_reply)) (Enroll demo_options) demo_host2).2 !! json_path demo_dir
                   = Some (File (json_Marshal meta) private_perm) /\ im_AgentID meta = demo_agent_id)
  /\ kept demo_dir demo_host3 (run_for (whim "5" (Ok demo_reply)) 7 (Enroll demo_options) demo_host3).
Proof.
  assert ((outcome (whim "3" (Ok demo_reply)) (Enroll demo_options) demo_host2).1 = Ok demo_agent_id) as E
    by (vm_compute; reflexivity).
  split; [exact E|]. split.
  - destruct (proj1 (enrolled_once demo_dir demo_clean demo_host2 (whim "3" (Ok demo_reply)) demo_options demo_attempts2
      eq_refl ltac:(vm_compute; reflexivity)) demo_agent_id E) as (meta & Hm & Hid & _).
    exists meta. split; [exact Hm|exact Hid].
  - refine (proj2 (proj2 (enrolled_once demo_dir demo_clean demo_host3 (whim "5" (Ok demo_reply)) demo_options demo_attempts3
      eq_refl ltac:(vm_compute; reflexivity)) _) 7%nat). vm_compute. discriminate.
Defined.

(** A key file that was cut off while it was written is not replaced: every
    later attempt ends with an error before anything is sent. *)
Definition short_write (i : nat) : Whim :=
  let w := whim "1" (Ok demo_reply) i in
  if (i =? 8)%nat then mkWhim (Some 5%nat) (wh_seed w) 0 0 "1" (wh_stdin w) None (wh_reply w) (Ok "") (Ok None) else w.

Example cut_off_key_blocks :
  let broken := run_for short_write 100 (Enroll demo_options) demo_host0 in
  disk broken !! key_path demo_dir = Some (File "PRIVA" private_perm)
  /\ (outcome (whim "2" (Ok demo_reply)) (Enroll demo_options) broken).1
     = Err (wrapError "failed to prepare agent identity" (wrapError "failed to parse existing identity key" ErrInvalidPrivateKey))
  /\ exchanges (outcome (whim "2" (Ok demo_reply)) (Enroll demo_options) broken).2 = [].
Proof. vm_compute. split_and!; reflexivity. Qed.

(** ** The daemon on that machine *)


Definition main_answer A (c : main_call A) (h : Host) : A * Host :=
  match c in main_call A return A * Host with
  | OnAgent c => answer (whim "6" (Err (errorString "none"))) _ c h
  | OnDaemon c => ((daemon_answer _ c (mkMachine None)).1, h)
  | OnHelper c => ((machine_answer _ c (mkMachine None)).1, h)
  | PresenceLoop _ => (None, h)
  | Stdout _ => (tt, h)
  end.

Definition demo_daemon : option error * list (event main_call) :=
  (execute main_answer (run ["--state-dir"; demo_dir]) demo_host3).1.

Definition demo_presence : presence_data :=
  match last demo_daemon.2 with
  | Some e => match loop_of e with Some (d, _) => d | None => (mkIdentityMetadata 0 "" "" "", mkURL "" false "" "" "" "" "", None, "") end
  | None => (mkIdentityMetadata 0 "" "" "", mkURL "" false "" "" "" "" "", None, "")
  end.

Lemma daemon_loop_guarded_witness :
  im_AgentID demo_presence.1.1.1 = demo_agent_id
  /\ guarded ["--state-dir"; demo_dir] demo_daemon.2 demo_presence None /\ demo_daemon.1 = None.
Proof.
  split; [vm_compute; reflexivity|].
  apply (daemon_loop_guarded ["--state-dir"; demo_dir] demo_daemon.2 demo_daemon.1 demo_presence None (execute_runs main_answer _ demo_host3)).
  assert (demo_daemon.2 = take (length demo_daemon.2 - 1) demo_daemon.2 ++ [Event (PresenceLoop demo_presence) None]) as E
    by (vm_compute; reflexivity).
  rewrite E. apply elem_of_app. right. left.
Defined.
