(* ===== verification/Config.v ===== *)
(** * Configuration of the controller (src/internal/controller/config.go)

    The environment is a partial function; logging levels are the integers of
    log/slog. *)

From stdpp Require Import pretty.
From S2P Require Import Prelude GoStrings Network.

Definition LevelDebug : Z := -4.
Definition LevelInfo : Z := 0.
Definition LevelWarn : Z := 4.
Definition LevelError : Z := 8.

Definition defaultListenAddress : string := "127.0.0.1:7447".
Definition defaultLogLevel : Z := LevelInfo.

Record Config := mkConfig {
  ListenAddress : string;
  LogLevel : Z;
  DatabaseURL : string;
  AgentListenAddress : string;
  AgentTLSCertFile : string;
  AgentTLSKeyFile : string;
}.

Definition RemoteEnabled (cfg : Config) : bool := negb (String.eqb (AgentListenAddress cfg) "").

(** [Level.String] of the four levels. *)
Definition Level_String (l : Z) : string :=
  if l =? LevelDebug then "DEBUG" else if l =? LevelInfo then "INFO"
  else if l =? LevelWarn then "WARN" else "ERROR".

Inductive log_value := LogString (s : string) | LogBool (b : bool).

(** [LogValue]: the attributes a log record shows. *)
Definition LogValue (cfg : Config) : list (string * log_value) :=
  [("listen_address", LogString (ListenAddress cfg));
   ("agent_listen_address", LogString (AgentListenAddress cfg));
   ("agent_tls_enabled", LogBool (RemoteEnabled cfg));
   ("log_level", LogString (Level_String (LogLevel cfg)));
   ("database_url", LogString "[REDACTED]")].

Definition defaultConfig : Config := mkConfig defaultListenAddress defaultLogLevel "" "" "" "".

(** ** Validators *)

Definition port_refused (portStr : string) : bool :=
  match strconv_Atoi portStr with
  | inl port => (port <? 1) || (65535 <? port)
  | inr _ => true
  end.

Definition validateListenAddress (addr : string) : option error :=
  match SplitHostPort addr with
  | Err err => Some (wrapError "must be a valid host:port string" err)
  | Ok (host, portStr) =>
      fail_if port_refused portStr with errorString "port must be an integer between 1 and 65535";
      match netip_ParseAddr host with
      | Err err => Some (wrapError "host must be a literal IP address" err)
      | Ok ip => fail_if negb (IsLoopback ip) with errorString "address must use a loopback IP"; None
      end
  end.

Definition validateAgentListenAddress (addr : string) : option error :=
  match SplitHostPort addr with
  | Err err => Some (wrapError "must be a valid host:port string" err)
  | Ok (host, portStr) =>
      fail_if port_refused portStr with errorString "port must be an integer between 1 and 65535";
      match netip_ParseAddr host with
      | Err err => Some (wrapError "host must be a literal IP address" err)
      | Ok _ => None
      end
  end.

Definition validateLogLevel (level : Z) : option error :=
  if (level =? LevelDebug) || (level =? LevelInfo) || (level =? LevelWarn) || (level =? LevelError) then None
  else Some (errorString "unsupported log level (allowed: debug, info, warn, error)").

Definition parseLogLevel `{UnicodeTables} (val : string) : result Z :=
  let v := strings_ToLower val in
  if String.eqb v "debug" then Ok LevelDebug
  else if String.eqb v "info" then Ok LevelInfo
  else if String.eqb v "warn" then Ok LevelWarn
  else if String.eqb v "error" then Ok LevelError
  else Err (errorString "unsupported value (allowed: debug, info, warn, error)").

Section config.
Context `{UnicodeTables} `{NetURL}.

Definition validateDatabaseURL (rawURL : string) : option error :=
  match url_Parse rawURL with
  | Err _ => Some (errorString "invalid STACKPILOT_DATABASE_URL: invalid PostgreSQL connection URL")
  | Ok u =>
      fail_if negb (String.eqb (u_Scheme u) "postgres") && negb (String.eqb (u_Scheme u) "postgresql")
        with errorString "invalid STACKPILOT_DATABASE_URL: scheme must be postgres or postgresql";
      fail_if String.eqb (u_Hostname u) ""
        with errorString "invalid STACKPILOT_DATABASE_URL: host cannot be empty";
      let dbName := strings_TrimPrefix (u_Path u) "/" in
      fail_if String.eqb dbName ""
        with errorString "invalid STACKPILOT_DATABASE_URL: database name cannot be empty";
      None
  end.

Definition validate (cfg : Config) : option error :=
  fail_if String.eqb (ListenAddress cfg) "" with errorString "listen address cannot be empty";
  check validateListenAddress (ListenAddress cfg) as err with err;
  check validateLogLevel (LogLevel cfg) as err with err;
  fail_if String.eqb (DatabaseURL cfg) "" with errorString "invalid STACKPILOT_DATABASE_URL: cannot be empty";
  check validateDatabaseURL (DatabaseURL cfg) as err with err;
  if negb (String.eqb (AgentListenAddress cfg) "") then
    check validateAgentListenAddress (AgentListenAddress cfg) as err
      with wrapError "invalid STACKPILOT_AGENT_LISTEN_ADDRESS" err;
    fail_if String.eqb (AgentTLSCertFile cfg) ""
      with errorString "invalid STACKPILOT_AGENT_TLS_CERT_FILE: cannot be empty when STACKPILOT_AGENT_LISTEN_ADDRESS is configured";
    fail_if String.eqb (AgentTLSKeyFile cfg) ""
      with errorString "invalid STACKPILOT_AGENT_TLS_KEY_FILE: cannot be empty when STACKPILOT_AGENT_LISTEN_ADDRESS is configured";
    None
  else None.

(** [if val, ok := os.LookupEnv(name); ok] of a variable that must not be
    empty: its value through [parse], or the default. *)
Definition env_or {A} (val : option string) (name : string) (parse : string -> result A) (default : A) : result A :=
  match val with
  | None => Ok default
  | Some val =>
      fail_if String.eqb val "" with errorString ("invalid " +:+ name +:+ ": cannot be empty") else
      match parse val with
      | Err err => Err (wrapError ("invalid " +:+ name) err)
      | Ok a => Ok a
      end
  end.

(** A validated string. *)
Definition checked (f : string -> option error) (val : string) : result string :=
  match f val with Some err => Err err | None => Ok val end.

Definition LoadConfig (LookupEnv : string -> option string) : result Config :=
  let cfg := defaultConfig in
  match LookupEnv "STACKPILOT_DATABASE_URL" with
  | None => Err (errorString "missing required STACKPILOT_DATABASE_URL")
  | Some dbURL =>
      fail_if String.eqb dbURL "" with errorString "invalid STACKPILOT_DATABASE_URL: cannot be empty" else
      check validateDatabaseURL dbURL as err with err else
      listen ← env_or (LookupEnv "STACKPILOT_LISTEN_ADDRESS") "STACKPILOT_LISTEN_ADDRESS"
                 (checked validateListenAddress) (ListenAddress cfg);
      level ← env_or (LookupEnv "STACKPILOT_LOG_LEVEL") "STACKPILOT_LOG_LEVEL" parseLogLevel (LogLevel cfg);
      agent ← env_or (LookupEnv "STACKPILOT_AGENT_LISTEN_ADDRESS") "STACKPILOT_AGENT_LISTEN_ADDRESS"
                (checked validateAgentListenAddress) (AgentListenAddress cfg);
      let cert := default (AgentTLSCertFile cfg) (LookupEnv "STACKPILOT_AGENT_TLS_CERT_FILE") in
      let key := default (AgentTLSKeyFile cfg) (LookupEnv "STACKPILOT_AGENT_TLS_KEY_FILE") in
      let cfg := mkConfig listen level dbURL agent cert key in
      check validate cfg as err with wrapError "invalid controller configuration" err else
      Ok cfg
  end.

(** ** What is accepted *)

(** A value of a variable, or the default where it is not set. *)
Definition from_env {A} (val : option string) (parse : string -> result A) (default a : A) : Prop :=
  (val = None /\ a = default) \/ exists v, val = Some v /\ v <> "" /\ parse v = Ok a.

Lemma env_or_ok {A} val name (parse : string -> result A) default a :
  env_or val name parse default = Ok a <-> from_env val parse default a.
Proof.
  unfold env_or, from_env. destruct val as [v|].
  - destruct (String.eqb_spec v "") as [->|Hv]; [split; [done|by intros [[? _]|(? & [= <-] & ? & _)]]|].
    destruct (parse v) as [a'|err] eqn:E; (split; [intros [=]; right; exists v; by subst|]);
      intros [[? _]|(? & [= <-] & _ & Hp)]; congruence.
  - split; [intros [= ->]; by left|]. by intros [[_ ->]|(? & ? & _)].
Qed.

Lemma checked_ok f val a : checked f val = Ok a <-> a = val /\ f val = None.
Proof. unfold checked. destruct (f val); split; [done|by intros []|by intros [= <-]|by intros [-> _]]. Qed.

Lemma parsed_level_valid val l : parseLogLevel val = Ok l -> validateLogLevel l = None.
Proof.
  unfold parseLogLevel. cbv zeta. generalize (strings_ToLower val) as v. intros v.
  do 4 (destruct (String.eqb v _); [by intros [= <-]|]). done.
Qed.
End config.
