(* ===== verification/ConfigTheorems.v ===== *)
(** * What the controller's configuration accepts

    Exactly which environments are accepted, and which IPv4 listen addresses. *)

From stdpp Require Import pretty.
From S2P Require Import Prelude GoStrings Numerals Network Config.

(** ** Listen addresses *)

Definition dotted (a b c d : N) : string :=
  pretty a +:+ "." +:+ pretty b +:+ "." +:+ pretty c +:+ "." +:+ pretty d.

Lemma dotted_bytes a b c d :
  bytes_of (dotted a b c d) = decimal a ++ "."%char :: decimal b ++ "."%char :: decimal c ++ "."%char :: decimal d.
Proof. unfold dotted. by rewrite !bytes_of_app. Qed.

Definition octets_ok (a b c d : N) : bool := ((a <? 256) && (b <? 256) && (c <? 256) && (d <? 256))%N.

Lemma octet_decimal n : octet (decimal n) = if (n <? 256)%N then Some (Z.of_N n) else None.
Proof.
  destruct (decimal_spec n) as (b & l & -> & _ & Hv & Hz).
  assert ((v ← digits_val 10 0 (b :: l); if v <=? 255 then Some v else None) = if (n <? 256)%N then Some (Z.of_N n) else None) as E.
  { rewrite Hv. cbn. destruct (N.ltb_spec n 256); destruct (Z.leb_spec (Z.of_N n) 255); done || lia. }
  unfold octet. destruct l as [|x l]; [exact E|]. destruct (is_byte 48 b) eqn:Eb; [|exact E].
  destruct (Hz eq_refl) as [? _]. done.
Qed.

Lemma parse_dotted a b c d :
  parseIPv4 (bytes_of (dotted a b c d))
  = if octets_ok a b c d then Some (((Z.of_N a * 256 + Z.of_N b) * 256 + Z.of_N c) * 256 + Z.of_N d) else None.
Proof.
  unfold parseIPv4. rewrite dotted_bytes. rewrite !split_byte_cons by (by apply decimal_not).
  rewrite split_byte_none by (by apply decimal_not). cbn [rev app mapM].
  rewrite !octet_decimal. unfold octets_ok.
  by destruct (a <? 256)%N, (b <? 256)%N, (c <? 256)%N, (d <? 256)%N.
Qed.

Lemma parse_addr_digits ds l input :
  forallb is_digit ds = true -> parse_addr_as (ds ++ l) input = parse_addr_as l input.
Proof.
  induction ds as [|b ds IH]; [done|]. intros [Hb Hd]%andb_prop. rewrite <- (IH Hd).
  by destruct b as [[] [] [] [] [] [] [] []].
Qed.

Lemma ParseAddr_dotted a b c d :
  netip_ParseAddr (dotted a b c d)
  = if octets_ok a b c d then Ok (IPv4 (((Z.of_N a * 256 + Z.of_N b) * 256 + Z.of_N c) * 256 + Z.of_N d))
    else Err (errorString "unable to parse IP").
Proof.
  unfold netip_ParseAddr. rewrite dotted_bytes at 1. rewrite parse_addr_digits by apply decimal_digits.
  cbn [parse_addr_as]. rewrite parse_dotted. by destruct (octets_ok a b c d).
Qed.

Lemma last_index_app l1 l2 b : b ∉ l2 -> last_index (l1 ++ b :: l2) b = Some (length l1).
Proof.
  intros Hb. unfold last_index. rewrite rev_app_distr. simpl. rewrite <- app_assoc. cbn [app].
  rewrite index_of_byte_app by (by rewrite list_elem_of_In, <- in_rev, <- list_elem_of_In).
  cbn. rewrite length_rev, length_app. simpl. f_equal. lia.
Qed.

(** A numeric host without colons or brackets. *)
Lemma SplitHostPort_plain host port :
  (forall x, x ∈ [":"; "["; "]"]%char -> (x ∉ bytes_of host) /\ (x ∉ bytes_of port)) ->
  SplitHostPort (host +:+ ":" +:+ port) = Ok (host, port).
Proof.
  intros Hno. assert (forall x, x ∈ [":"; "["; "]"]%char -> x <> ":"%char -> x ∉ bytes_of (host +:+ ":" +:+ port)) as Hall.
  { intros x Hx Hc. rewrite !bytes_of_app. destruct (Hno x Hx). set_solver. }
  assert (bytes_of (host +:+ ":" +:+ port) = bytes_of host ++ (":"%char :: bytes_of port)) as El by (by rewrite !bytes_of_app).
  unfold SplitHostPort. rewrite El in *. rewrite last_index_app by (apply Hno; set_solver).
  rewrite bool_decide_eq_false_2.
  2:{ intros Hh. apply (Hall "["%char); [set_solver|done|]. by apply head_Some_elem_of. }
  cbv zeta. rewrite take_app_length. rewrite bool_decide_eq_false_2 by (apply Hno; set_solver).
  rewrite !drop_0. rewrite !bool_decide_eq_false_2 by (apply Hall; [set_solver|done]).
  rewrite string_of_bytes_of, (drop_app_ge _ _ (S _)) by lia.
  replace (S (length (bytes_of host)) - length (bytes_of host))%nat with 1%nat by lia.
  cbn [drop]. by rewrite drop_0, string_of_bytes_of.
Qed.

Lemma port_refused_decimal port : port_refused (pretty port) = negb ((1 <=? port) && (port <=? 65535))%N.
Proof.
  unfold port_refused. rewrite Atoi_decimal. unfold MaxInt64.
  destruct (N.leb_spec 1 port), (N.leb_spec port 65535); simpl;
    repeat match goal with |- context [?x <=? ?y] => destruct (Z.leb_spec x y); try lia end; cbn;
    repeat match goal with |- context [?x <? ?y] => destruct (Z.ltb_spec x y); try lia end; done.
Qed.

Lemma shifted_octet a b c d :
  (b < 256)%N -> (c < 256)%N -> (d < 256)%N ->
  Z.shiftr (((Z.of_N a * 256 + Z.of_N b) * 256 + Z.of_N c) * 256 + Z.of_N d) 24 = Z.of_N a.
Proof.
  intros. rewrite Z.shiftr_div_pow2 by lia. symmetry.
  apply (Z.div_unique _ _ _ ((Z.of_N b * 256 + Z.of_N c) * 256 + Z.of_N d)); lia.
Qed.

(** C34: the local endpoints are bound to the loopback network only: of the
    addresses a.b.c.d:port exactly those of 127.0.0.0/8 with a port from 1 to
    65535 are accepted, while the agents' listener accepts every address. *)
Theorem listen_addresses_exact a b c d port :
  let addr := dotted a b c d +:+ ":" +:+ pretty port in
  let good := octets_ok a b c d = true /\ (1 <= port <= 65535)%N in
  (validateListenAddress addr = None <-> good /\ a = 127%N) /\ (validateAgentListenAddress addr = None <-> good).
Proof.
  cbv zeta. unfold validateListenAddress, validateAgentListenAddress. rewrite SplitHostPort_plain.
  2:{ intros x Hx. assert (is_digit x = false /\ x <> "."%char) as [Hd Hdot] by (by (repeat (apply elem_of_cons in Hx as [-> | Hx])); try apply elem_of_nil in Hx).
      change (bytes_of (pretty port)) with (decimal port). rewrite dotted_bytes. pose proof (fun n => decimal_not x n Hd). set_solver. }
  rewrite port_refused_decimal, ParseAddr_dotted.
  assert (negb ((1 <=? port) && (port <=? 65535))%N = false <-> (1 <= port <= 65535)%N) as Hp.
  { rewrite negb_false_iff, andb_true_iff, !N.leb_le. done. }
  destruct (negb _); [split; split; [done| |done|]; intros; exfalso; intuition congruence|].
  destruct (octets_ok a b c d) eqn:Eo; [|split; split; [done| |done|]; intros; exfalso; intuition congruence].
  unfold IsLoopback. cbn [Unmap]. assert (octets_ok a b c d = true) as (((_ & Hb)%andb_prop & Hc)%andb_prop & Hd)%andb_prop by done.
  rewrite shifted_octet by (by apply N.ltb_lt). split; [|intuition].
  destruct (Z.eqb_spec (Z.of_N a) 127); simpl; split; try done; intros; [split; [intuition|lia]|intuition lia].
Qed.

(** ** The environment *)

Section environment.
Context `{UnicodeTables} `{NetURL}.

Definition remote_complete (cfg : Config) : Prop :=
  AgentListenAddress cfg <> "" -> AgentTLSCertFile cfg <> "" /\ AgentTLSKeyFile cfg <> "".

(** The environment gives this configuration, variable by variable. *)
Definition configures (env : string -> option string) (cfg : Config) : Prop :=
  (exists url, env "STACKPILOT_DATABASE_URL" = Some url /\ url <> "" /\ validateDatabaseURL url = None /\ DatabaseURL cfg = url)
  /\ from_env (env "STACKPILOT_LISTEN_ADDRESS") (checked validateListenAddress) defaultListenAddress (ListenAddress cfg)
  /\ from_env (env "STACKPILOT_LOG_LEVEL") parseLogLevel LevelInfo (LogLevel cfg)
  /\ from_env (env "STACKPILOT_AGENT_LISTEN_ADDRESS") (checked validateAgentListenAddress) "" (AgentListenAddress cfg)
  /\ AgentTLSCertFile cfg = default "" (env "STACKPILOT_AGENT_TLS_CERT_FILE")
  /\ AgentTLSKeyFile cfg = default "" (env "STACKPILOT_AGENT_TLS_KEY_FILE")
  /\ remote_complete cfg.

Lemma from_env_checked val f dflt a :
  from_env val (checked f) dflt a -> f dflt = None -> dflt <> "" -> a <> "" /\ f a = None.
Proof. intros [[_ ->]|(v & _ & Hv & [-> ?]%checked_ok)]; done. Qed.

Lemma from_env_optional val f a : from_env val (checked f) "" a -> a = "" \/ f a = None.
Proof. intros [[_ ->]|(v & _ & Hv & [-> ?]%checked_ok)]; [by left|by right]. Qed.

Lemma from_env_level val l : from_env val parseLogLevel LevelInfo l -> validateLogLevel l = None.
Proof. intros [[_ ->]|(v & _ & _ & Hl)]; [done|by eapply parsed_level_valid]. Qed.

Lemma default_address_valid : validateListenAddress defaultListenAddress = None.
Proof. by vm_compute. Qed.

Lemma validate_exact cfg :
  ListenAddress cfg <> "" -> validateListenAddress (ListenAddress cfg) = None -> validateLogLevel (LogLevel cfg) = None ->
  DatabaseURL cfg <> "" -> validateDatabaseURL (DatabaseURL cfg) = None ->
  AgentListenAddress cfg = "" \/ validateAgentListenAddress (AgentListenAddress cfg) = None ->
  validate cfg = None <-> remote_complete cfg.
Proof.
  intros Hl Hlv Hlev Hd Hdv Ha. unfold validate, remote_complete.
  rewrite (proj2 (String.eqb_neq _ _) Hl), Hlv, Hlev, (proj2 (String.eqb_neq _ _) Hd), Hdv.
  destruct (String.eqb_spec (AgentListenAddress cfg) "") as [E|E]; [by simpl|]. simpl. destruct Ha as [?| ->]; [done|].
  destruct (String.eqb_spec (AgentTLSCertFile cfg) ""), (String.eqb_spec (AgentTLSKeyFile cfg) ""); intuition congruence.
Qed.

(** C33: starting the controller: LoadConfig accepts exactly the environments
    that configure it variable by variable, with certificate and key where the
    agents' listener is enabled; its final validation refuses nothing else. *)
Theorem load_config_exact env cfg : LoadConfig env = Ok cfg <-> configures env cfg.
Proof.
  unfold LoadConfig, configures. destruct (env "STACKPILOT_DATABASE_URL") as [url|]; [|split; [done|by intros ((? & ? & _) & _)]].
  destruct (String.eqb_spec url "") as [->|Hu]; [split; [done|by intros ((? & [= <-] & ? & _) & _)]|].
  destruct (validateDatabaseURL url) eqn:Ed; [split; [done|intros ((? & [= <-] & _ & ? & _) & _); congruence]|].
  assert (forall A B (r : result A) (k : A -> result B) b, (r ≫= k) = Ok b <-> exists a, r = Ok a /\ k a = Ok b) as Hbind.
  { intros A B [a|e] k x; simpl; naive_solver. }
  rewrite Hbind. setoid_rewrite Hbind. setoid_rewrite Hbind. setoid_rewrite env_or_ok.
  assert (forall l lev ag, from_env (env "STACKPILOT_LISTEN_ADDRESS") (checked validateListenAddress) defaultListenAddress l ->
    from_env (env "STACKPILOT_LOG_LEVEL") parseLogLevel LevelInfo lev ->
    from_env (env "STACKPILOT_AGENT_LISTEN_ADDRESS") (checked validateAgentListenAddress) "" ag ->
    forall c k, validate (mkConfig l lev url ag c k) = None <-> remote_complete (mkConfig l lev url ag c k)) as Hv.
  { intros l lev ag Hl Hlev Hag c k. apply (from_env_checked _ _ _ _) in Hl as [? ?]; [|apply default_address_valid|done].
    apply validate_exact; try done; [exact (from_env_level _ _ Hlev)|exact (from_env_optional _ _ _ Hag)]. }
  split.
  - intros (l & Hl & lev & Hlev & ag & Hag & Hc). cbn [defaultConfig ListenAddress LogLevel AgentListenAddress] in *.
    specialize (Hv l lev ag Hl Hlev Hag). match type of Hc with context [validate ?c] => destruct (validate c) eqn:E; [done|] end.
    injection Hc as <-. apply Hv in E. split_and!; try done. by exists url.
  - intros ((? & [= <-] & _ & _ & Hdb) & Hl & Hlev & Hag & Hc & Hk & Hr). destruct cfg as [l lev db ag c k]. simpl in *. subst.
    exists l. split; [done|]. exists lev. split; [done|]. exists ag. split; [done|].
    by rewrite (proj2 (Hv l lev ag Hl Hlev Hag _ _) Hr).
Qed.
End environment.
