(* ===== verification/Serving.v ===== *)
(** * The controller's listeners (src/internal/controller/controller.go, serve to Run)

    The start and the end of the HTTP servers, as programs over the calls they
    make.  A server goroutine is started with [StartServe] and puts what
    [Serve] returned into the channel [errCh]; a receive of that channel is
    [ReceiveErr], or the first case of [Select].  What the servers serve is in
    ControllerOps.v. *)

From S2P Require Import Prelude GoStrings Network Syscalls Config.

Definition ErrServerClosed := sentinel "http.ErrServerClosed".

Inductive server := LocalServer | RemoteServer.

#[export] Instance server_eq_dec : EqDecision server.
Proof. solve_decision. Defined.

(** What a select of [errCh] and the context found. *)
Inductive selected := Received (err : option error) | ContextDone.

Definition VersionTLS13 : Z := 772.
Definition RequestClientCert : Z := 1.

(** The fields of a [tls.Config] the code sets; the certificate by its files. *)
Record TLSConfig := mkTLSConfig { MinVersion : Z; CertificateFiles : string * string; ClientAuth : Z }.

Inductive serving_call : Type -> Type :=
| LoadX509KeyPair (certFile keyFile : string) : serving_call (option error)
| ListenLocal (addr : string) : serving_call (option error)
| ListenRemote (addr : string) (cfg : TLSConfig) : serving_call (option error)
| CloseLocal : serving_call unit
| StartServe (s : server) : serving_call unit
| Select : serving_call selected
| Shutdown (s : server) : serving_call (option error)
| ReceiveErr : serving_call (option error).

(** [err != nil && !errors.Is(err, http.ErrServerClosed)] *)
Definition unexpected (err : option error) : bool :=
  match err with Some e => negb (errors_Is e ErrServerClosed) | None => false end.

(** One server: it stops by itself or is shut down. *)
Definition serve : prog serving_call (option error) :=
  body (
    ask (StartServe LocalServer) ;;
    sel ← ask Select;
    match sel with
    | Received err => mret (if unexpected err then err else None)
    | ContextDone =>
        shutdownErr ← ask (Shutdown LocalServer);
        serveErr ← ask ReceiveErr;
        mret (if unexpected serveErr then serveErr else shutdownErr)
    end).

Definition serveDual : prog serving_call (option error) :=
  body (
    ask (StartServe LocalServer) ;;
    ask (StartServe RemoteServer) ;;
    sel ← ask Select;
    match sel with
    | Received err =>
        ask (Shutdown LocalServer) ;;
        ask (Shutdown RemoteServer) ;;
        err2 ← ask ReceiveErr;
        mret (if unexpected err then err else if unexpected err2 then err2 else None)
    | ContextDone =>
        err1 ← ask (Shutdown LocalServer);
        err2 ← ask (Shutdown RemoteServer);
        sErr1 ← ask ReceiveErr;
        sErr2 ← ask ReceiveErr;
        mret (if unexpected sErr1 then sErr1 else if unexpected sErr2 then sErr2
              else match err1 with Some _ => err1 | None => err2 end)
    end).

Definition buildRemoteTLSConfig (certFile keyFile : string) : prog serving_call (result TLSConfig) :=
  body (
    must (LoadX509KeyPair certFile keyFile) (fun err => Err (wrapError "failed to load agent TLS certificate" err)) ;;
    mret (Ok (mkTLSConfig VersionTLS13 (certFile, keyFile) RequestClientCert))).

Section run.
Context `{UnicodeTables} `{NetURL}.

Definition Run (cfg : Config) : prog serving_call (option error) :=
  body (
    ensure (validate cfg) (fun err => Some (wrapError "invalid controller configuration" err)) ;;
    remoteTLSConfig ← (if RemoteEnabled cfg
                       then c ← must_run (buildRemoteTLSConfig (AgentTLSCertFile cfg) (AgentTLSKeyFile cfg)) Some; mret (Some c)
                       else mret None);
    must (ListenLocal (ListenAddress cfg)) (fun err => Some (wrapError "failed to listen" err)) ;;
    match remoteTLSConfig with
    | None => lift serve
    | Some tlsConfig =>
        opened ← ask (ListenRemote (AgentListenAddress cfg) tlsConfig);
        match opened with
        | Some err => ask CloseLocal ;; return_with (Some (wrapError "failed to listen on agent address" err))
        | None => lift serveDual
        end
    end).

(** ** How the servers are started and stopped *)

Definition started (l : list (event serving_call)) : list server :=
  omap (fun e => match e with Event (StartServe s) _ => Some s | _ => None end) l.
Definition shut_down (l : list (event serving_call)) : list server :=
  omap (fun e => match e with Event (Shutdown s) _ => Some s | _ => None end) l.

(** What came out of the channel, in order. *)
Definition received (l : list (event serving_call)) : list (option error) :=
  omap (fun e => match e with
                 | Event c a =>
                     match c in serving_call A return A -> option (option error) with
                     | Select => fun s => match s with Received err => Some err | ContextDone => None end
                     | ReceiveErr => fun err => Some err
                     | _ => fun _ => None
                     end a
                 end) l.

(** The addresses that were opened for the local endpoints. *)
Definition local_listeners (l : list (event serving_call)) : list string :=
  omap (fun e => match e with
                 | Event c a =>
                     match c in serving_call A return A -> option string with
                     | ListenLocal addr => fun err => match err with None => Some addr | Some _ => None end
                     | _ => fun _ => None
                     end a
                 end) l.

Definition listening (l : list (event serving_call)) (addr : string) : Prop := Event (ListenLocal addr) None ∈ l.

Definition serving_allowed (cfg : Config) (l : list (event serving_call)) (e : event serving_call) : Prop :=
  match e with
  | Event c _ =>
      match c with
      | ListenLocal addr => validate cfg = None /\ addr = ListenAddress cfg
      | ListenRemote addr tls => validate cfg = None /\ RemoteEnabled cfg = true /\ addr = AgentListenAddress cfg
          /\ tls = mkTLSConfig VersionTLS13 (AgentTLSCertFile cfg, AgentTLSKeyFile cfg) RequestClientCert
          /\ Event (LoadX509KeyPair (AgentTLSCertFile cfg) (AgentTLSKeyFile cfg)) None ∈ l
      | StartServe LocalServer => Event (ListenLocal (ListenAddress cfg)) None ∈ l
      | StartServe RemoteServer => exists tls, Event (ListenRemote (AgentListenAddress cfg) tls) None ∈ l
      | ReceiveErr => (length (received l) < length (started l))%nat /\ started l ⊆ shut_down l
      | CloseLocal => started l = []
      | _ => True
      end
  end.

(** At the end every server that was started has stopped, an error other than
    the regular one is returned if there was one, and without servers there is
    an error and no listener. *)
Definition all_collected (r : option error) (l : list (event serving_call)) : Prop :=
  length (received l) = length (started l)
  /\ (forall err, err ∈ received l -> unexpected err = true -> unexpected r = true /\ r ∈ received l)
  /\ (started l = [] -> is_Some r /\ (local_listeners l <> [] -> Event CloseLocal tt ∈ l)).
Lemma unexpected_choice e1 e2 (x : option error) :
  (forall err, err ∈ [e1; e2] -> unexpected err = true ->
     unexpected (if unexpected e1 then e1 else if unexpected e2 then e2 else x) = true
     /\ (if unexpected e1 then e1 else if unexpected e2 then e2 else x) ∈ [e1; e2]).
Proof.
  intros err Hin Hu. destruct (unexpected e1) eqn:E1; [split; [done|left]|].
  destruct (unexpected e2) eqn:E2; [split; [done|right; left]|].
  apply elem_of_cons in Hin as [-> | Hin]; [congruence|]. apply list_elem_of_singleton in Hin as ->. congruence.
Qed.

Lemma started_app l1 l2 : started (l1 ++ l2) = started l1 ++ started l2.
Proof. apply omap_app. Qed.
Lemma shut_down_app l1 l2 : shut_down (l1 ++ l2) = shut_down l1 ++ shut_down l2.
Proof. apply omap_app. Qed.
Lemma received_app l1 l2 : received (l1 ++ l2) = received l1 ++ received l2.
Proof. apply omap_app. Qed.

Definition no_servers (l : list (event serving_call)) : Prop := started l = [] /\ shut_down l = [] /\ received l = [].

Ltac servers := unfold all_collected; cbn [serving_allowed]; rewrite ?started_app, ?shut_down_app, ?received_app;
  match goal with H : no_servers _ |- _ => destruct H as (Hnone & Hshut & Hrecv); rewrite ?Hnone, ?Hshut, ?Hrecv end; cbn.

Lemma serve_safe cfg l :
  listening l (ListenAddress cfg) -> no_servers l -> safe serve (serving_allowed cfg) all_collected l.
Proof.
  intros Hl Hn. unfold serve. rstep. rstep. rstep; [done|]. rstep. rstep. destruct a0 as [err|].
  - rstep. servers. split_and!; [done| |done].
    intros e ->%list_elem_of_singleton Hu. rewrite Hu. split; [done|left].
  - rstep. rstep. rstep. rstep; [servers; split; [lia|set_solver]|]. rstep. servers. split_and!; [done| |done].
    intros e ->%list_elem_of_singleton Hu. rewrite Hu. split; [done|left].
Qed.

Lemma serveDual_safe cfg l tls :
  listening l (ListenAddress cfg) -> Event (ListenRemote (AgentListenAddress cfg) tls) None ∈ l -> no_servers l ->
  safe serveDual (serving_allowed cfg) all_collected l.
Proof.
  intros Hl Hr Hn. unfold serveDual. rstep. rstep. rstep; [done|]. rstep. rstep; [exists tls; seen|]. rstep. rstep.
  destruct a1 as [err|].
  - rstep. rstep. rstep. rstep. rstep. rstep; [servers; split; [lia|set_solver]|]. rstep. servers. split_and!; [done| |done].
    apply unexpected_choice.
  - rstep. rstep. rstep. rstep. rstep. rstep; [servers; split; [lia|set_solver]|]. rstep. rstep; [servers; split; [lia|set_solver]|].
    rstep. servers. split_and!; [done| |done]. apply unexpected_choice.
Qed.

(** C36: the controller opens its listeners only with a validated configuration,
    the agents' one only behind TLS 1.3 with its key pair loaded; it starts a
    server only on a listener that is open, waits for a server only after it
    told every one to stop, and ends when each one it started has stopped,
    reporting an unexpected error if any had one; no listener outlives it. *)
Theorem serving_collected cfg l r :
  runs (Run cfg) l r -> all_collected r l /\ forall l1 e l2, l = l1 ++ e :: l2 -> serving_allowed cfg l1 e.
Proof.
  intros Hr. apply (safe_runs (Run cfg) (serving_allowed cfg) all_collected [] l r); [|exact Hr].
  assert (no_servers []) as Hn0 by done.
  assert (forall l err, no_servers l -> (local_listeners l <> [] -> Event CloseLocal tt ∈ l) ->
            all_collected (Some err) l) as Hfail.
  { intros l' err Hn Hc. servers. split_and!; [done|by intros ? ?%elem_of_nil|done]. }
  unfold Run. rstep. rstep. rstep; [by apply Hfail|].
  rstep. destruct (RemoteEnabled cfg) eqn:Er.
  - unfold buildRemoteTLSConfig. rstep. rstep. rstep. rstep. rstep; cbv beta iota; [by apply Hfail|].
    rstep. rstep. rstep. rstep; [done|by apply Hfail|].
    rstep. rstep; [split_and!; [done|done|done|done|seen]|]. destruct a as [err0|].
    + rstep. apply rsafe_ask. intros []. split; [done|]. rstep. apply Hfail; [done|]. intros; seen.
    + rstep. eapply serveDual_safe; [seen|seen|done].
  - rstep. rstep. rstep; [done|by apply Hfail|]. rstep. apply serve_safe; [seen|done].
Qed.
End run.

(** ** Two servers, stopped by the context *)

#[local] Instance demo_serving_tables : UnicodeTables := {| lower_rune := fun r => r |}.
#[local] Instance demo_serving_url : NetURL :=
  {| url_Parse _ := Ok (mkURL "postgres" true "db.example" "5432" "/stackpilot" "" ""); url_Resolve _ p := p |}.

Definition demo_remote_config : Config :=
  mkConfig "127.0.0.1:7447" LevelInfo "postgres://sp@db.example:5432/stackpilot" "0.0.0.0:7448" "/etc/sp/cert.pem" "/etc/sp/key.pem".

Definition serving_answer A (c : serving_call A) (k : unit) : A * unit :=
  match c in serving_call A return A * unit with
  | LoadX509KeyPair _ _ | ListenLocal _ | ListenRemote _ _ | Shutdown _ => (None, k)
  | CloseLocal | StartServe _ => (tt, k)
  | Select => (ContextDone, k)
  | ReceiveErr => (Some ErrServerClosed, k)
  end.

Definition demo_serving : option error * list (event serving_call) := (execute serving_answer (Run demo_remote_config) tt).1.

Lemma serving_collected_witness :
  demo_serving.1 = None /\ started demo_serving.2 = [LocalServer; RemoteServer] /\ all_collected demo_serving.1 demo_serving.2.
Proof.
  split; [vm_compute; reflexivity|]. split; [vm_compute; reflexivity|].
  exact (proj1 (serving_collected demo_remote_config demo_serving.2 demo_serving.1 (execute_runs serving_answer (Run demo_remote_config) tt))).
Defined.
