(* ===== verification/HelperMain.v ===== *)
(** * The helper's command (src/cmd/agent-helper/main.go)

    The command line of the privileged helper and what it starts. *)

From stdpp Require Import pretty.
From S2P Require Import Prelude GoStrings Numerals Http Files Syscalls Flags Privilege.

(** The validated configuration, or the error before anything is done. *)
Definition helper_args (args : list string) : result ServerConfig :=
  values ← parse_args ["runtime-dir"; "allowed-uid"; "allowed-gid"] args "unexpected positional arguments";
  runtimeDir ← required values "runtime-dir";
  allowedUIDStr ← required values "allowed-uid";
  allowedGIDStr ← required values "allowed-gid";
  match strconv_ParseUint allowedUIDStr 10 32 with
  | inr _ => Err (errorString "invalid numeric --allowed-uid")
  | inl allowedUID =>
      fail_if allowedUID =? 0 with errorString "allowed UID must be non-root (non-zero)" else
      match strconv_ParseUint allowedGIDStr 10 32 with
      | inr _ => Err (errorString "invalid numeric --allowed-gid")
      | inl allowedGID =>
          let cfg := mkServerConfig runtimeDir allowedUID allowedGID 0 in
          check ValidateServerConfig cfg as err with err else
          Ok cfg
      end
  end.

Definition defaultServerRunner (cfg : ServerConfig) : prog os_call (list error) :=
  match newServerWithDeps cfg with
  | Err err => mret [err]
  | Ok srv => Serve srv
  end.

Definition run (args : list string) : prog os_call (list error) :=
  match helper_args args with
  | Err err => mret [err]
  | Ok cfg => defaultServerRunner cfg
  end.

(** The exit status. *)
Definition main (args : list string) : prog os_call Z :=
  errs ← run args; mret (match errs with [] => 0 | _ => 1 end).

(** The command line accepts exactly the identifiers of users other than root
    and of groups that fit 32 bits, with a directory the server accepts, and
    runs the server for just these. *)
Theorem helper_args_exact dir uid gid cfg :
  helper_args ["--runtime-dir"; dir; "--allowed-uid"; pretty uid; "--allowed-gid"; pretty gid] = Ok cfg <->
  cfg = mkServerConfig dir (Z.of_N uid) (Z.of_N gid) 0 /\ 0 < Z.of_N uid < 2 ^ 32 /\ Z.of_N gid < 2 ^ 32
  /\ ValidateServerConfig cfg = None.
Proof.
  assert (forall n : N, pretty n <> "") as Hne.
  { intros n E. destruct (decimal_spec n) as (b & l & Hd & _). unfold decimal in Hd. by rewrite E in Hd. }
  unfold helper_args.
  set (values := <["allowed-gid" := pretty gid]> (<["allowed-uid" := pretty uid]> (<["runtime-dir" := dir]> (∅ : gmap string string)))).
  change (parse_args _ _ _) with (Ok values). cbn [mbind result_bind]. unfold required.
  change (flag_value values "runtime-dir") with dir. change (flag_value values "allowed-uid") with (pretty uid).
  change (flag_value values "allowed-gid") with (pretty gid).
  rewrite (proj2 (String.eqb_neq _ _) (Hne uid)), (proj2 (String.eqb_neq _ _) (Hne gid)).
  destruct (String.eqb_spec dir "") as [->|Hd].
  { split; [done|]. intros (-> & _ & _ & Hv). discriminate Hv. }
  cbn [mbind result_bind].
  rewrite !ParseUint_decimal. destruct (Z.ltb_spec (Z.of_N uid) (2 ^ 32)); [|split; [done|lia]].
  destruct (Z.eqb_spec (Z.of_N uid) 0); [split; [done|lia]|].
  destruct (Z.ltb_spec (Z.of_N gid) (2 ^ 32)); [|split; [done|lia]]. cbv zeta.
  destruct (ValidateServerConfig _) eqn:Ev; (split; [intros [=]; subst; split_and!; done || lia|]).
  - intros (-> & _ & _ & Hv). congruence.
  - by intros (-> & _).
Qed.
