(* ===== verification/ControllerMain.v ===== *)
(** * The controller's command (src/cmd/controller/main.go)

    The server, the issue of enrollment tokens and the creation of operators,
    as programs over the calls they make: the database is opened and migrated,
    the store is called through the interfaces of the source.  The environment
    is an argument. *)

From S2P Require Import Prelude GoStrings Base64 Job Operator Enrollment Network Http Syscalls Config.

Inductive command_call : Type -> Type :=
| OpenDatabase (url : string) : command_call (option error)
| Migrate : command_call (option error)
| CloseDatabase : command_call unit
| RunController (cfg : Config) : command_call (option error)
| ReadStdin : command_call Body
| ReadEntropy (n : Z) : command_call (result bytes)
| TimeNow : command_call Z
| StoreToken (tokenHash : string) (expiresAt : Z) : command_call (result TokenRecord)
| StoreOperator (username passwordHash role : string) : command_call (result OperatorRecord)
| Print (s : string) : command_call (option error).

Definition newline : string := String "010" "".

(** ** The command line of operator create *)

Record operatorCreateOptions := mkCreateOptions {
  oc_username : string;
  oc_role : string;
  oc_passwordStdin : bool;
}.

(** The loop over the arguments, with the variables it sets. *)
Fixpoint operator_flags (args : list string) (username rawRole : string) (passwordStdin : bool) :
    result (string * string * bool) :=
  match args with
  | [] => Ok (username, rawRole, passwordStdin)
  | arg :: rest =>
      if String.eqb arg "--username" then
        match rest with
        | [] => Err (errorString "missing argument for --username")
        | v :: rest => operator_flags rest v rawRole passwordStdin
        end
      else if strings_HasPrefix arg "--username=" then
        operator_flags rest (strings_TrimPrefix arg "--username=") rawRole passwordStdin
      else if String.eqb arg "--role" then
        match rest with
        | [] => Err (errorString "missing argument for --role")
        | v :: rest => operator_flags rest username v passwordStdin
        end
      else if strings_HasPrefix arg "--role=" then
        operator_flags rest username (strings_TrimPrefix arg "--role=") passwordStdin
      else if String.eqb arg "--password-stdin" then operator_flags rest username rawRole true
      else if String.eqb arg "--password" || strings_HasPrefix arg "--password=" then
        Err (errorString "--password flag is not supported; use --password-stdin")
      else if String.eqb arg "--password-file" || strings_HasPrefix arg "--password-file=" then
        Err (errorString "--password-file flag is not supported; use --password-stdin")
      else Err (errorString "unknown flag")
  end.

Definition parseOperatorCreateFlags `{UnicodeTables} (args : list string) : result operatorCreateOptions :=
  '(username, rawRole, passwordStdin) ← operator_flags args "" "" false;
  fail_if String.eqb username "" with errorString "missing required flag: --username" else
  let username := NormalizeUsername username in
  check ValidateUsername username as err with wrapError "invalid username" err else
  fail_if String.eqb rawRole "" with errorString "missing required flag: --role" else
  match ParseRole rawRole with
  | Err err => Err (wrapError "invalid role" err)
  | Ok parsedRole =>
      fail_if negb passwordStdin with errorString "missing required flag: --password-stdin" else
      Ok (mkCreateOptions username parsedRole true)
  end.

(** ** The password on standard input *)

Definition readPasswordFromStdin (stdin : Body) : result string :=
  match ReadAllLimit 131 stdin with
  | Err err => Err (wrapError "failed to read password from stdin" err)
  | Ok raw =>
      fail_if len raw =? 0 with errorString "empty password input" else
      fail_if 130 <? len raw with errorString "password exceeds maximum length of 128 bytes" else
      stripped ← (if strings_HasSuffix raw (String "013" newline) then Ok (strings_TrimSuffix raw (String "013" newline))
                  else if strings_HasSuffix raw newline then Ok (strings_TrimSuffix raw newline)
                  else Err (errorString "password input must end with a newline terminator"));
      fail_if strings_Contains stripped newline || strings_Contains stripped (String "013" "")
        with errorString "multiple password lines are not allowed" else
      check ValidatePassword stripped as err with wrapError "invalid password" err else
      Ok stripped
  end.

Section commands.
Context `{Sha256} `{Argon2} `{UnicodeTables} `{NetURL}.

(** ** Issuing and creating *)

Definition IssueToken : prog command_call (result string) :=
  entropy ← call (ReadEntropy TokenEntropyBytes);
  now ← call TimeNow;
  issueTokenWithReader (fun hash expiresAt => call (StoreToken hash expiresAt)) entropy now.

Definition issueAndPrintEnrollmentToken : prog command_call (option error) :=
  body (
    token ← must_run IssueToken (fun err => Some (wrapError "failed to issue enrollment token" err));
    must (Print (token +:+ newline)) (fun err => Some (wrapError "failed to write enrollment token" err)) ;;
    mret None).

Definition operator_text (rec : OperatorRecord) : string :=
  "Operator created:" +:+ newline +:+ "ID: " +:+ OpID rec +:+ newline
  +:+ "Username: " +:+ OpUsername rec +:+ newline +:+ "Role: " +:+ OpRole rec +:+ newline.

Definition createAndPrintOperator (username password role : string) : prog command_call (option error) :=
  body (
    salt ← ask (ReadEntropy Argon2SaltLength);
    match HashPassword salt password with
    | Err err => return_with (Some (wrapError "failed to hash password" err))
    | Ok pwHash =>
        rec ← must_get (StoreOperator username pwHash role) (fun err =>
          Some (if errors_Is err ErrUsernameConflict then errorString "operator already exists"
                else wrapError "failed to create operator" err));
        ask (Print (operator_text rec)) ;;
        mret None
    end).

(** ** The commands *)

(** What the commands share: an open, migrated database, closed at the end. *)
Definition with_database (cfg : Config) (k : prog command_call (option error)) : or_return command_call (option error) (option error) :=
  must (OpenDatabase (DatabaseURL cfg)) (fun err => Some (wrapError "database connection failed" err)) ;;
  result ← lift (body (
    must Migrate (fun err => Some (wrapError "database migration failed" err)) ;;
    lift k));
  ask CloseDatabase ;;
  mret result.

Context (LookupEnv : string -> option string).

Definition runServer : prog command_call (option error) :=
  body (
    match LoadConfig LookupEnv with
    | Err err => return_with (Some err)
    | Ok cfg => with_database cfg (call (RunController cfg))
    end).

Definition runEnrollmentTokenCreate : prog command_call (option error) :=
  body (
    match LoadConfig LookupEnv with
    | Err err => return_with (Some err)
    | Ok cfg => with_database cfg issueAndPrintEnrollmentToken
    end).

Definition runOperatorCreate (args : list string) : prog command_call (option error) :=
  body (
    match parseOperatorCreateFlags args with
    | Err err => return_with (Some err)
    | Ok opts =>
        stdin ← ask ReadStdin;
        match readPasswordFromStdin stdin with
        | Err err => return_with (Some err)
        | Ok pw =>
            match LoadConfig LookupEnv with
            | Err err => return_with (Some err)
            | Ok cfg => with_database cfg (createAndPrintOperator (oc_username opts) pw (oc_role opts))
            end
        end
    end).

Definition run (args : list string) : prog command_call (option error) :=
  let bad msg := mret (Some (errorString msg)) in
  match args with
  | [] => runServer
  | cmd :: rest =>
      if String.eqb cmd "enrollment-token" then
        match rest with
        | [] => bad "missing subcommand for enrollment-token (supported: create)"
        | sub :: more =>
            if (length more =? 0)%nat && String.eqb sub "create" then runEnrollmentTokenCreate
            else bad "unknown enrollment-token subcommand (supported: create)"
        end
      else if String.eqb cmd "operator" then
        match rest with
        | [] => bad "missing subcommand for operator (supported: create)"
        | sub :: more =>
            if String.eqb sub "create" then runOperatorCreate more
            else bad "unknown operator subcommand (supported: create)"
        end
      else bad "unknown command (supported: enrollment-token create, operator create)"
  end.

(** The exit status. *)
Definition main (args : list string) : prog command_call Z :=
  err ← run args; mret (match err with Some _ => 1 | None => 0 end).
End commands.
