(* ===== verification/CommandTheorems.v ===== *)
(** * What the controller's commands store and print *)

From S2P Require Import Prelude GoStrings RuneFacts Base64 Job Operator Enrollment Network Http Syscalls Config ControllerMain.

(** ** The password on standard input *)

Definition crlf : string := String "013" newline.

Lemma password_byte_visible p b : ValidatePassword p = None -> b ∈ bytes_of p -> 32 <= byte_val b.
Proof.
  intros Hv Hb. pose proof (byte_val_range b). destruct (decide (byte_val b < 128)) as [Hs|]; [|lia].
  pose proof (ascii_byte_rune b _ Hb Hs) as Hin. unfold ValidatePassword in Hv.
  destruct (len p <? _); [done|]. destruct (_ <? len p); [done|]. destruct (negb _); [done|].
  destruct (existsb unicode_IsControl (range_runes p)) eqn:E; [done|].
  destruct (Z.le_gt_cases 32 (byte_val b)) as [|Hlt]; [done|]. exfalso.
  enough (existsb unicode_IsControl (range_runes p) = true) by congruence.
  apply existsb_exists. exists (byte_val b). split; [apply list_elem_of_In; unfold range_runes; by rewrite runes_bytes|].
  unfold unicode_IsControl. rewrite (proj2 (Z.leb_le 0 _)), (proj2 (Z.leb_le _ 31)) by lia. done.
Qed.

Lemma password_not_contained p b : ValidatePassword p = None -> byte_val b < 32 -> strings_Contains p (String b "") = false.
Proof. intros Hv Hb. apply strings_Contains_byte. intros Hin. pose proof (password_byte_visible p b Hv Hin). lia. Qed.

Lemma password_length p : ValidatePassword p = None -> 12 <= len p <= 128.
Proof.
  unfold ValidatePassword, MinPasswordBytes, MaxPasswordBytes. intros Hv.
  destruct (len p <? 12) eqn:E1; [done|]. destruct (128 <? len p) eqn:E2; [done|]. bsplit. lia.
Qed.

Lemma TrimSuffix_app s p : strings_TrimSuffix (s +:+ p) p = s.
Proof. unfold strings_TrimSuffix. rewrite HasSuffix_app. apply take_before. Qed.

(** An operator's password is taken exactly when the input is one valid
    password and a line end: nothing is cut off, trimmed or joined. *)
Theorem password_stdin_exact s p :
  readPasswordFromStdin (mkBody s None) = Ok p <->
  ValidatePassword p = None /\ (s = p +:+ newline \/ s = p +:+ crlf).
Proof.
  unfold readPasswordFromStdin. fold crlf. split.
  - unfold ReadAllLimit. cbn [body_bytes body_err]. destruct (131 <=? len s) eqn:El.
    { assert (len (bytes_take (Z.to_nat 131) s) = 131) as ->; [|done].
      unfold bytes_take, len in *. rewrite string_length_of, length_take, length_bytes_of. bsplit. lia. }
    destruct (len s =? 0); [done|]. destruct (130 <? len s); [done|].
    destruct (strings_HasSuffix s crlf) eqn:E1; [|destruct (strings_HasSuffix s newline) eqn:E2; [|done]];
      [apply HasSuffix_inv in E1 as [s' ->]|apply HasSuffix_inv in E2 as [s' ->]]; rewrite TrimSuffix_app; cbn [mbind result_bind];
      (destruct (_ || _); [done|]); (destruct (ValidatePassword s') eqn:Ev; [done|]); intros [= <-]; auto.
  - intros [Hv Hs]. pose proof (password_length p Hv) as Hl.
    assert (len newline = 1 /\ len crlf = 2) as [Hn Hc] by done.
    assert (13 <= len s <= 130) as Hls by (destruct Hs as [-> | ->]; rewrite len_app; lia).
    rewrite ReadAllLimit_whole by lia. rewrite (proj2 (Z.eqb_neq _ _)), (proj2 (Z.ltb_ge _ _)) by lia.
    assert ((if strings_HasSuffix s crlf then Ok (strings_TrimSuffix s crlf)
             else if strings_HasSuffix s newline then Ok (strings_TrimSuffix s newline)
             else Err (errorString "password input must end with a newline terminator")) = Ok p) as ->.
    { destruct Hs as [-> | ->]; rewrite HasSuffix_app, TrimSuffix_app; [|done].
      destruct (strings_HasSuffix (p +:+ newline) crlf) eqn:E; [|done]. apply HasSuffix_inv in E as [s' E].
      apply (f_equal bytes_of) in E. rewrite !bytes_of_app in E. change (bytes_of crlf) with (["013"%char] ++ bytes_of newline) in E.
      rewrite app_assoc in E. apply app_inj_tail in E as [E _].
      assert ("013"%char ∈ bytes_of p) as Hin by (rewrite E; apply elem_of_app; right; by apply list_elem_of_singleton).
      by pose proof (password_byte_visible p _ Hv Hin). }
    cbn [mbind result_bind]. unfold newline at 1. rewrite !password_not_contained by done. simpl orb. cbv iota. by rewrite Hv.
Qed.

(** ** Stored before printed *)

Section commands.
Context `{Sha256} `{Argon2} `{UnicodeTables} `{NetURL} (LookupEnv : string -> option string).

(** The database of the configuration is open and migrated. *)
Definition database_ready (l : list (event command_call)) : Prop :=
  exists cfg, LoadConfig LookupEnv = Ok cfg /\ Event (OpenDatabase (DatabaseURL cfg)) None ∈ l /\ Event Migrate None ∈ l.

(** Which calls may follow which. *)
Definition command_allowed (l : list (event command_call)) (e : event command_call) : Prop :=
  match e with
  | Event c _ =>
      match c with
      | RunController cfg => LoadConfig LookupEnv = Ok cfg /\ database_ready l
      | StoreToken tokenHash expiresAt => database_ready l /\ exists raw token now,
          Event (ReadEntropy TokenEntropyBytes) (Ok raw) ∈ l /\ Event TimeNow now ∈ l
          /\ generatePlaintextToken (Ok raw) = Ok token /\ tokenHash = HashToken token /\ expiresAt = now + TokenLifetime
      | StoreOperator username passwordHash role => database_ready l
          /\ ValidateUsername username = None /\ Role_Valid role = true /\ exists input pw salt,
          Event ReadStdin input ∈ l /\ Event (ReadEntropy Argon2SaltLength) (Ok salt) ∈ l
          /\ readPasswordFromStdin input = Ok pw /\ HashPassword (Ok salt) pw = Ok passwordHash
      | Print s =>
          (exists token expiresAt rec, Event (StoreToken (HashToken token) expiresAt) (Ok rec) ∈ l /\ s = token +:+ newline)
          \/ exists username passwordHash role rec, Event (StoreOperator username passwordHash role) (Ok rec) ∈ l /\ s = operator_text rec
      | _ => True
      end
  end.

Lemma ready_mono l e : database_ready l -> database_ready (l ++ [e]).
Proof. intros (cfg & Hc & Ho & Hm). exists cfg. split; [done|]. split; apply elem_of_app; by left. Qed.

Lemma with_database_safe cfg k l :
  LoadConfig LookupEnv = Ok cfg ->
  (forall l', (forall e, e ∈ l -> e ∈ l') -> database_ready l' -> safe k command_allowed (fun _ _ => True) l') ->
  rsafe (with_database cfg k) command_allowed (fun _ _ => True) (fun _ _ => True) l.
Proof.
  intros Hc Hk. unfold with_database. rstep. rstep; [done|]. rstep. rstep. rstep. rstep. rstep; [by repeat rstep|].
  rstep. eapply safe_mono; [|apply Hk].
  - intros r l' _. by repeat rstep.
  - intros e He. by seen.
  - exists cfg. split; [done|]. split; seen.
Qed.

Lemma ParseRole_valid_role s r : ParseRole s = Ok r -> Role_Valid r = true.
Proof. unfold ParseRole. intros Hr. repeat case_match; by simplify_eq. Qed.

Lemma issue_safe l : database_ready l -> safe issueAndPrintEnrollmentToken command_allowed (fun _ _ => True) l.
Proof.
  intros Hr. unfold issueAndPrintEnrollmentToken. rstep. rstep. rstep.
  unfold IssueToken, issueTokenWithReader. simpl. intros raw. split; [done|]. intros now. split; [done|].
  destruct raw as [raw|err]; [|done]. cbn -[HashToken]. intros rec. split.
  - split; [by do 2 apply ready_mono|]. exists raw, (TokenPrefix +:+ EncodeToString URLAlphabet raw), now.
    split_and!; [seen..|done|done|done].
  - destruct rec as [rec|]; [|done]. cbn -[HashToken]. intros printed. split; [|by destruct printed].
    left. eexists _, _, rec. split; [seen|done].
Qed.

Lemma create_safe l username pw role input :
  database_ready l -> ValidateUsername username = None -> Role_Valid role = true ->
  Event ReadStdin input ∈ l -> readPasswordFromStdin input = Ok pw ->
  safe (createAndPrintOperator username pw role) command_allowed (fun _ _ => True) l.
Proof.
  intros Hr Hu Hrole Hin Hpw. unfold createAndPrintOperator. rstep. rstep. rstep.
  destruct a as [salt|err]; [|by unfold HashPassword; destruct (ValidatePassword pw)].
  destruct (HashPassword (Ok salt) pw) as [h|] eqn:Eh; [|done]. rstep. rstep; [|done|].
  - intros r. split; [by apply ready_mono|]. split; [done|]. split; [done|]. exists input, pw, salt. split_and!; [seen..|done|done].
  - rstep. rstep; [|by repeat rstep]. right. eexists _, _, _, a. split; [seen|done].
Qed.

Lemma options_valid args opts : parseOperatorCreateFlags args = Ok opts ->
  ValidateUsername (oc_username opts) = None /\ Role_Valid (oc_role opts) = true.
Proof.
  unfold parseOperatorCreateFlags. destruct (operator_flags _ _ _ _) as [[[u rr] ps]|]; [|done]. cbn [mbind result_bind].
  destruct (String.eqb u ""); [done|]. destruct (ValidateUsername (NormalizeUsername u)) eqn:Eu; [done|].
  destruct (String.eqb rr ""); [done|]. destruct (ParseRole rr) as [role|] eqn:Er; [|done].
  destruct (negb ps); [done|]. intros [= <-]. split; [done|]. by eapply ParseRole_valid_role.
Qed.

Lemma commands_safe args : safe (run LookupEnv args) command_allowed (fun _ _ => True) [].
Proof.
  assert (forall msg, safe (mret (M := prog command_call) (Some (errorString msg))) command_allowed (fun _ _ => True) []) as Hbad by done.
  unfold run. destruct args as [|cmd rest].
  { unfold runServer. rstep. destruct (LoadConfig LookupEnv) as [cfg|] eqn:Ec; [|done].
    apply with_database_safe; [done|]. intros l' _ Hr. simpl. by intros r. }
  destruct (String.eqb cmd "enrollment-token").
  { destruct rest as [|sub more]; [done|]. destruct (_ && _); [|done]. unfold runEnrollmentTokenCreate. rstep.
    destruct (LoadConfig LookupEnv) as [cfg|] eqn:Ec; [|done]. apply with_database_safe; [done|]. intros l' _ Hr. by apply issue_safe. }
  destruct (String.eqb cmd "operator"); [|done]. destruct rest as [|sub more]; [done|]. destruct (String.eqb sub "create"); [|done].
  unfold runOperatorCreate. rstep. destruct (parseOperatorCreateFlags more) as [opts|] eqn:Eo; [|done].
  apply options_valid in Eo as [Hu Hrole]. rstep. rstep.
  destruct (readPasswordFromStdin a) as [pw|] eqn:Ep; [|done]. destruct (LoadConfig LookupEnv) as [cfg|] eqn:Ec; [|done].
  apply with_database_safe; [done|]. intros l' Hl Hr. apply (create_safe _ _ _ _ a); try done. apply Hl. seen.
Qed.

(** C35: whatever the database, the random source and the terminal answer, the
    commands store a token only as the digest of a fresh one with its lifetime,
    an operator only with a valid name and role and the salted hash of the
    password that was read, both in a migrated database; a token is printed
    only when its digest is stored; and the server runs only as configured. *)
Theorem commands_store_before_print args l r l1 e l2 :
  runs (run LookupEnv args) l r -> l = l1 ++ e :: l2 -> command_allowed l1 e.
Proof.
  intros Hr Hl. by apply (proj2 (safe_runs _ _ _ _ _ _ (commands_safe args) Hr) l1 e l2).
Qed.
End commands.

(** ** A run *)

#[local] Instance demo_command_sha256 : Sha256 := {| sha256_Sum256 s := s |}.
#[local] Instance demo_command_argon2 : Argon2 := argon2_demo.
#[local] Instance demo_command_tables : UnicodeTables := {| lower_rune := fun r => r |}.
#[local] Instance demo_command_url : NetURL :=
  {| url_Parse _ := Ok (mkURL "postgres" true "db.example" "5432" "/stackpilot" "" ""); url_Resolve _ p := p |}.

Definition demo_env (name : string) : option string :=
  if String.eqb name "STACKPILOT_DATABASE_URL" then Some "postgres://sp@db.example:5432/stackpilot" else None.

Definition demo_stdin : Body := mkBody ("correct horse battery" +:+ newline) None.

Definition command_answer A (c : command_call A) (k : unit) : A * unit :=
  match c in command_call A return A * unit with
  | OpenDatabase _ | Migrate | RunController _ | Print _ => (None, k)
  | CloseDatabase => (tt, k)
  | ReadStdin => (demo_stdin, k)
  | ReadEntropy n => (Ok (replicate (Z.to_nat n) "e"%char), k)
  | TimeNow => (0, k)
  | StoreToken _ expiresAt => (Ok (mkTokenRecord "t" 0 expiresAt), k)
  | StoreOperator username passwordHash role => (Ok (mkOperatorRecord "o" username passwordHash role None 0 0), k)
  end.

Definition demo_command : option error * list (event command_call) :=
  (execute command_answer (run demo_env ["operator"; "create"; "--username"; "Alice"; "--role=admin"; "--password-stdin"]) tt).1.

Lemma commands_store_before_print_witness :
  length demo_command.2 = 7%nat /\
  exists l1 l2, demo_command.2 = l1 ++ Event (Print (operator_text (mkOperatorRecord "o" "alice" "" "admin" None 0 0))) None :: l2
  /\ command_allowed demo_env l1 (Event (Print (operator_text (mkOperatorRecord "o" "alice" "" "admin" None 0 0))) None).
Proof.
  split; [vm_compute; reflexivity|].
  exists (take 5 demo_command.2), (drop 6 demo_command.2).
  assert (demo_command.2 = take 5 demo_command.2 ++ Event (Print (operator_text (mkOperatorRecord "o" "alice" "" "admin" None 0 0))) None
            :: drop 6 demo_command.2) as E by (vm_compute; reflexivity).
  split; [exact E|].
  exact (commands_store_before_print demo_env ["operator"; "create"; "--username"; "Alice"; "--role=admin"; "--password-stdin"]
           demo_command.2 demo_command.1 _ _ _ (execute_runs command_answer _ tt) E).
Defined.
