(* ===== verification/Demo.v ===== *)
(** * A concrete run of the store

    A server without faults and a short history from the empty schema: an
    operator, an enrolled agent, a job created, claimed, started and finished.
    The theorems of the development are instantiated at these tables. *)

From S2P Require Import Prelude GoStrings Job Operator Enrollment Protocol Postgres Schema JobStore JobSpec JobReconcile JobContracts JobProgress AccountStore AccountContracts System UuidHex.

(** Case mapping is only consulted outside ASCII: an identity suffices here. *)
#[export] Instance demo_unicode : UnicodeTables :=
  {| lower_rune := fun r => r |}.

(** Call number [k] runs at second [k] of the server's clock. *)
Definition demo_env (k : N) : Env :=
  {| env_pool := true;
     env_fault := fun _ => NoFault;
     env_now := fun i => Z.of_N k * 1000000 + Z.of_nat i;
     env_clock := fun i j => Z.of_N k * 1000000 + Z.of_nat (10 * i + j);
     env_row_clock := fun _ _ => Z.of_N k * 1000000;
     env_uuidv7 := fun i => (k * 1000 + N.of_nat i)%N;
     env_locked := fun _ _ => false |}.

(** The same server, with the fault [f] at statement [n]. *)
Definition faulty_env (k : N) (n : nat) (f : fault) : Env :=
  {| env_pool := true;
     env_fault := fun i => if (i =? n)%nat then f else NoFault;
     env_now := env_now (demo_env k);
     env_clock := env_clock (demo_env k);
     env_row_clock := env_row_clock (demo_env k);
     env_uuidv7 := env_uuidv7 (demo_env k);
     env_locked := env_locked (demo_env k) |}.

Definition digest (c : ascii) : string := string_of (replicate 32 c).
Definition demo_phc : string :=
  "$argon2id$v=19$m=65536,t=3,p=2$c2FsdHNhbHRzYWx0c2FsdA$aGFzaGhhc2hoYXNoaGFzaGhhc2hoYXNoaGFzaGhhc2g".

Definition db_operator : DB :=
  after_call (CallCreateOperator "Alice" demo_phc "operator") (demo_env 1) empty_db.
Definition alice : UUID := 1001%N.
Definition db_token : DB :=
  after_call (CallCreateEnrollmentToken (digest "t") 900000000000) (demo_env 2) db_operator.
Definition db_agent : DB :=
  after_call (CallRegisterAgent (digest "t") (digest "k")) (demo_env 3) db_token.
Definition agent1 : UUID := 3002%N.
Definition db_job : DB :=
  after_call (CallCreateJob alice agent1 ActionAgentPing (digest "i")) (demo_env 4) db_agent.
Definition job1 : UUID := 4005%N.
Definition db_claimed : DB := after_call (CallClaimNextAgentJob agent1) (demo_env 5) db_job.
Definition db_started : DB := after_call (CallStartAgentJob agent1 job1 1) (demo_env 6) db_claimed.
Definition db_done : DB :=
  after_call (CallCompleteAgentJob agent1 job1 1 "succeeded" "") (demo_env 7) db_started.

Lemma reach_operator : reachable db_operator.
Proof. apply reachable_call, reachable_empty. Qed.
Lemma reach_token : reachable db_token.
Proof. apply reachable_call, reach_operator. Qed.
Lemma reach_agent : reachable db_agent.
Proof. apply reachable_call, reach_token. Qed.
Lemma reach_job : reachable db_job.
Proof. apply reachable_call, reach_agent. Qed.
Lemma reach_claimed : reachable db_claimed.
Proof. apply reachable_call, reach_job. Qed.
Lemma reach_started : reachable db_started.
Proof. apply reachable_call, reach_claimed. Qed.
Lemma reach_done : reachable db_done.
Proof. apply reachable_call, reach_started. Qed.

Definition job_state_of (db : DB) (id : UUID) : option string := JobState <$> jobs db !! id.
Definition event_log (db : DB) : list string := EventType <$> job_events db.

(** Every step of the run is visible in the final tables. *)
Example demo_history :
  job_state_of db_done job1 = Some StateSucceeded
  /\ event_log db_done = [EventJobCreated; EventJobDispatched; EventJobStarted; EventJobSucceeded].
Proof. vm_compute. split; reflexivity. Qed.

(** The commit of the start is done but its reply is lost. *)
Example demo_lost_reply :
  let db' := after_call (CallStartAgentJob agent1 job1 1) (faulty_env 6 4 ReplyLost) db_claimed in
  job_state_of db' job1 = Some StateRunning.
Proof. vm_compute. reflexivity. Qed.

(** A claim whose event insert fails leaves the job queued. *)
Example demo_rolled_back :
  let db' := after_call (CallClaimNextAgentJob agent1) (faulty_env 5 7 FailBefore) db_job in
  job_state_of db' job1 = Some StateQueued /\ event_log db' = [EventJobCreated].
Proof. vm_compute. split; reflexivity. Qed.

Lemma demo_reliable k : reliable (demo_env k).
Proof. by split. Qed.

(** Freshness of the identifiers of call [k], for the short histories here. *)
Lemma demo_fresh k db :
  forallb (fun ev => (EventID ev <? k * 1000)%N) (job_events db) = true -> fresh_events (demo_env k) db.
Proof.
  intros Hall i. apply not_true_is_false. intros Hex.
  apply existsb_exists in Hex as (ev & Hin & E). rewrite forallb_forall in Hall.
  apply Hall, N.ltb_lt in Hin. apply N.eqb_eq in E. simpl in E. lia.
Qed.

(** A login and its session. *)
Definition alice_text : string := hex_String alice.
Definition db_login : DB :=
  after_call (CallCreateOperatorSession alice_text (digest "s")) (demo_env 8) db_done.
Definition session1 : UUID := 8004%N.

Lemma reach_login : reachable db_login.
Proof. apply reachable_call, reach_done. Qed.
