(* ===== verification/EndToEnd.v ===== *)
(** * Agent and controller together

    The daemon of Presence.v, whose requests travel over an unreliable network
    to the handlers of Controller.v and on to the store.  Requests and replies
    may be lost; between any two effects of the controller other requests,
    of anyone, may run ([Oracle]).  The rest of the agent's host is any
    implementation of [AgentWorld]. *)

From Stdlib Require Import Floats.SpecFloat.
From S2P Require Import Prelude GoStrings GoTime RuneFacts Base64 Job Operator Enrollment Protocol Postgres Schema JobStore JobSpec JobReconcile JobContracts AccountStore AccountContracts System Runs Http JsonText JsonFacts JsonCoder Messages Handlers Replies Controller ControllerOps ControllerSpec ControllerTheorems Backoff Presence Delivery PresenceSpec WireTheorems UuidHex Demo.

(** What the network does to one request. *)
Inductive delivery := Arrives | LostRequest | LostReply.

Record Site (Host : Type) := mkSite { site_host : Host; site_ctl : Ctl; site_requests : nat }.
Arguments mkSite {Host}. Arguments site_host {Host}. Arguments site_ctl {Host}. Arguments site_requests {Host}.

Section site.
Context `{UuidTextLaws} `{UnicodeTables} `{Location} `{Sha256} `{Argon2}.
Context {Host : Type} `{AgentWorld Host} (host_cfg : presenceConfig Host).
(** The controller's address, the agent's key, the network, and what runs
    beside the agent's requests. *)
Context (base agent_key : string) (net : nat -> delivery) (oracle : Oracle).

(** The client certificate of transport.go, from the end of its validity. *)
Definition client_certificate (notAfter : Z) : Certificate :=
  mkCertificate (notAfter - DefaultCertLifetime - 5 * Minute) notAfter [ExtKeyUsageClientAuth] (Some agent_key).

Definition incoming (rq : HttpRequest) : Request :=
  mkRequest (rq_Method rq) (strings_TrimPrefix (rq_URL rq) base) (Some [client_certificate (rq_NotAfter rq)])
    [("Content-Type", ["application/json"])] [] (mkBody (rq_Body rq) None).

Definition deliver (rq : HttpRequest) (s : Site Host) : result Response * Site Host :=
  let n := S (site_requests s) in
  match net (site_requests s) with
  | LostRequest => (Err (errorString "connection refused"), mkSite (site_host s) (site_ctl s) n)
  | d =>
      let '(rep, c) := serve oracle (newRemoteHandler (incoming rq)) (site_ctl s) in
      (match d with Arrives => Ok (response_of rep) | _ => Err (errorString "i/o timeout") end,
       mkSite (site_host s) c n)
  end.

Definition on_host {A} (f : Host -> A * Host) (s : Site Host) : A * Site Host :=
  let '(a, h) := f (site_host s) in (a, mkSite h (site_ctl s) (site_requests s)).

#[local] Instance site_world : AgentWorld (Site Host) := {|
  ctx_Err := on_host ctx_Err;
  time_Now := on_host time_Now;
  rand_draw := on_host rand_draw;
  cert_error := on_host cert_error;
  NewRequest_error := NewRequest_error;
  client_Do := deliver;
  timer_fired d := on_host (timer_fired d);
|}.

Definition site_config : presenceConfig (Site Host) := {|
  refreshMargin := refreshMargin host_cfg;
  baseInterval := baseInterval host_cfg;
  maxBackoff := maxBackoff host_cfg;
  inventoryInterval := inventoryInterval host_cfg;
  inventoryRetryInterval := inventoryRetryInterval host_cfg;
  jitterFunc := jitterFunc host_cfg;
  collector := on_host (collector host_cfg);
  sampler t := on_host (sampler host_cfg t);
  executor a := on_host (executor host_cfg a);
  resolve path := base +:+ path;
|}.

(** ** Counting *)

(** Starts of a job in the store's history. *)
Definition starts_recorded (jid : UUID) (db : DB) : nat :=
  length (events_typed EventJobStarted (events_of jid (job_events db))).

Definition executes (jid : UUID) (o : obs) : bool :=
  match o with ObsExecute ja _ => String.eqb (JA_JobID ja) (uuid_String jid) | _ => false end.

Definition start_body (jid : UUID) (attempt : Z) : string :=
  json_Marshal (mkJobStartRequest CurrentVersion (uuid_String jid) attempt).

Definition grants (jid : UUID) (o : obs) : bool :=
  match o with
  | ObsHttp rq r =>
      granted r && String.eqb (rq_URL rq) (base +:+ AgentJobStartEndpointPath)
      && existsb (fun attempt => String.eqb (rq_Body rq) (start_body jid attempt)) [1; 2; 3; 4; 5]
  | _ => false
  end.

Definition count {A} (p : A -> bool) (l : list A) : nat := length (List.filter p l).

Lemma count_snoc {A} (p : A -> bool) l x : count p (l ++ [x]) = (count p l + if p x then 1 else 0)%nat.
Proof. unfold count. rewrite List.filter_app, length_app. simpl. by destruct (p x). Qed.

(** On the agent, an execution uses up a grant of its own. *)
Definition in_hand (jid : UUID) (st : protocol_state) : nat :=
  match st with Granted ja => if String.eqb (JA_JobID ja) (uuid_String jid) then 1 else 0 | _ => 0 end.

Lemma start_request_grants jid ja rq r :
  start_request site_config ja rq -> ValidateJobAssignment (Some ja) = None -> granted r = true ->
  JA_JobID ja = uuid_String jid -> grants jid (ObsHttp rq r) = true.
Proof.
  intros (_ & Hu & Hb) Hv Hg Hj. apply ValidateJobAssignment_ok in Hv as (_ & Ha & _).
  unfold grants. rewrite Hg, Hu, Hb, Hj. cbn [resolve site_config]. rewrite String.eqb_refl. cbn [andb].
  apply (proj2 (existsb_exists _ _)). exists (JA_Attempt ja).
  split; [|apply String.eqb_refl]. unfold MaxDispatchAttempts in Ha. simpl. lia.
Qed.

Lemma executions_within_grants jid l st :
  protocol_trace site_config l st -> (count (executes jid) l + in_hand jid st <= count (grants jid) l)%nat.
Proof.
  induction 1 as [|l o st st' _ IH Hs]; [done|]. rewrite !count_snoc.
  destruct Hs as [ja rq r Hr Hv|ja err|req rq r Hr|st rq r Hn Hu|st d Hn]; cbn [executes]; try lia.
  - destruct (granted r) eqn:Eg; simpl in *; [|lia].
    destruct (String.eqb (JA_JobID ja) (uuid_String jid)) eqn:Ej; [|lia]. apply String.eqb_eq in Ej.
    pose proof (start_request_grants jid ja rq r Hr Hv Eg Ej) as Hgr. simpl in Hgr. rewrite Hgr. lia.
  - simpl in *. destruct (String.eqb _ _); lia.
  - simpl in *. destruct (settles r); simpl; lia.
Qed.

(** ** In the store, a grant is a recorded start *)

Lemma starts_monotone jid db db' :
  reachable db -> rtc called db db' -> (starts_recorded jid db <= starts_recorded jid db')%nat.
Proof.
  intros Hr Hc. destruct (called_history _ _ Hr Hc) as [evs E]. unfold starts_recorded.
  rewrite E, events_of_app, events_typed_app, length_app. lia.
Qed.

Lemma granted_start_recorded agentID jid attempt e db :
  result_of (StartAgentJob agentID jid attempt) e db = Ok tt ->
  starts_recorded jid (tables_after (StartAgentJob agentID jid attempt) e db) = S (starts_recorded jid db).
Proof.
  intros Hok. apply (result_ok _ _ _ _ _ (StartAgentJob_ok _ _ _ _ _ _)) in Hok.
  inversion Hok as [j ts eid t Hj Hs db1 Hl E1 E2|].
  exact (start_counts db db1 jid _ _ eq_refl eq_refl eq_refl).
Qed.

Lemma remote_start_handler rq :
  rq_URL rq = base +:+ AgentJobStartEndpointPath ->
  newRemoteHandler (incoming rq) = handleAgentJobStart (incoming rq).
Proof. intros Hu. unfold newRemoteHandler. cbn [Path incoming]. by rewrite Hu, trim_prefix_app. Qed.

Lemma start_body_decodes jid attempt :
  1 <= attempt <= 5 ->
  exists rest, json_Decode (start_body jid attempt) = Ok (mkJobStartRequest CurrentVersion (uuid_String jid) attempt, rest).
Proof.
  intros Ha. exists "". destruct messages_round_trip_all as (_ & _ & Hr & _).
  apply round_trips_whole; [exact Hr|]. split; [done|]. split; [apply uuid_text|]. unfold in_int64, MaxInt64. cbn. lia.
Qed.

Lemma deliver_called rq s : rtc called (ctl_db (site_ctl s)) (ctl_db (site_ctl (deliver rq s).2)).
Proof.
  unfold deliver. pose proof (serve_called oracle (newRemoteHandler (incoming rq)) (site_ctl s)) as Hc.
  destruct (net _); simpl; [|done|]; by destruct (serve _ _ _) as [rep c].
Qed.

(** A start request granted over the network was recorded. *)
Lemma deliver_grant jid rq s :
  reachable (ctl_db (site_ctl s)) ->
  grants jid (ObsHttp rq (deliver rq s).1) = true ->
  (S (starts_recorded jid (ctl_db (site_ctl s)))
   <= starts_recorded jid (ctl_db (site_ctl (deliver rq s).2)))%nat.
Proof.
  intros Hreach Hg. unfold grants in Hg. apply andb_prop in Hg as [[Hg Hu]%andb_prop Hb].
  apply String.eqb_eq in Hu. apply existsb_exists in Hb as (attempt & Hin & Hb). apply String.eqb_eq in Hb.
  assert (1 <= attempt <= 5) as Ha by (simpl in Hin; lia).
  unfold deliver in *. rewrite (remote_start_handler rq Hu) in *.
  destruct (net (site_requests s)); simpl in *; [|done|by destruct (serve _ _ _)].
  pose proof (start_reply oracle (incoming rq) (site_ctl s)) as Hs.
  destruct (serve oracle _ (site_ctl s)) as [rep c]. apply granted_204 in Hg as (resp & [= <-] & Hc). simpl in *.
  destruct (Hs Hc) as (pk & id & a & db0 & db1 & e & jobID & req & rest & _ & Hdb0 & _ & Hdb1 & Hd & Hj & Hr & ->).
  destruct (start_body_decodes jid attempt Ha) as [rest' Hd'].
  cbn [body_bytes ReqBody incoming] in Hd. rewrite Hb, Hd' in Hd. injection Hd as <- <-.
  unfold ValidateCanonicalUUID in Hj. simpl in Hj.
  rewrite uuid_parse_string, String.eqb_refl in Hj. injection Hj as <-. simpl in *.
  rewrite (granted_start_recorded _ _ _ _ _ Hr). apply le_n_S, starts_monotone; [done|by etrans].
Qed.

(** ** The whole system *)

Definition run_site (n : nat) (s : Site Host) : (unit + option error) * Daemon (Site Host) :=
  run site_config n (mkDaemon s [] initial_state).

Lemma on_host_ctl {A} (f : Host -> A * Host) s : site_ctl (on_host f s).2 = site_ctl s.
Proof. unfold on_host. by destruct (f _). Qed.

Lemma site_invariant jid n s :
  reachable (ctl_db (site_ctl s)) ->
  let d := (run_site n s).2 in
  reachable (ctl_db (site_ctl (world d)))
  /\ (starts_recorded jid (ctl_db (site_ctl s)) + count (grants jid) (log d)
      <= starts_recorded jid (ctl_db (site_ctl (world d))))%nat.
Proof.
  intros Hr. set (k := starts_recorded jid (ctl_db (site_ctl s))).
  apply (built_invariant site_config (fun w l => reachable (ctl_db (site_ctl w))
    /\ (k + count (grants jid) l <= starts_recorded jid (ctl_db (site_ctl w)))%nat)).
  - intros A f w l Hf [Hw Hk]. destruct Hf; simpl; rewrite ?on_host_ctl; done.
  - intros rq w l [Hw Hk]. simpl. split; [eapply called_reachable; [exact Hw|apply deliver_called]|].
    rewrite count_snoc. destruct (grants jid _) eqn:Eg.
    + pose proof (deliver_grant jid rq w Hw Eg). lia.
    + pose proof (starts_monotone jid _ _ Hw (deliver_called rq w)). lia.
  - intros ja err w l [Hw Hk]. split; [done|]. rewrite count_snoc. simpl. lia.
  - intros t w l [Hw Hk]. split; [done|]. rewrite count_snoc. simpl. lia.
  - apply run_built.
  - simpl. split; [done|]. unfold k, count. simpl. lia.
Qed.

(** C2: across the whole system - the daemon, a network that loses requests
    and replies, the controller, and anyone else using the store at the same
    time - a job is executed at most once, and not at all by a daemon that
    meets a job whose start is already recorded. *)
Theorem executed_at_most_once jid n s :
  reachable (ctl_db (site_ctl s)) -> endpoints_distinct site_config ->
  (starts_recorded jid (ctl_db (site_ctl s)) + count (executes jid) (log (run_site n s).2) <= 1)%nat.
Proof.
  intros Hr Hd.
  assert (exists st, protocol_trace site_config (log (run_site n s).2) st) as [st Ht].
  { pose proof (run_invariant site_config (in_protocol site_config) (left_protocol site_config) n
      (mkDaemon s [] initial_state) (iteration_follows site_config Hd) (trace_nil site_config)) as Hx.
    unfold dwp in Hx. unfold run_site. destruct (run site_config n _) as [[[]|r] s']; [by eexists|exact Hx]. }
  pose proof (executions_within_grants jid _ _ Ht). destruct (site_invariant jid n s Hr) as [Hreach Hk].
  pose proof (started_once _ jid Hreach) as Hone. unfold starts_recorded in *. lia.
Qed.
End site.

(** ** A run of the whole system

    One agent, one queued job, no faults: the heartbeat claims the job, the
    start is granted, the job is executed and reported, and the store holds it
    as succeeded. *)

#[local] Instance demo_zone : Location := {| utc_offset _ := 0 |}.
#[local] Instance demo_sha256 : Sha256 := {| sha256_Sum256 s := digest "s" |}.
#[local] Instance demo_argon2 : Argon2 := argon2_demo.

(** A host whose clock ticks once a second, with nothing to sample. *)
#[local] Instance demo_host : AgentWorld Z := {|
  ctx_Err t := (false, t);
  time_Now t := (t, t + Second);
  rand_draw t := (demo_draw, t);
  cert_error t := (None, t);
  NewRequest_error _ := None;
  client_Do _ t := (Err (errorString "not used"), t);
  timer_fired d t := (true, t + d);
|}.

Definition demo_host_config : presenceConfig Z :=
  defaultPresenceConfig (fun t => (Ok inventory_demo, t)) (fun _ t => (None, false, None, t)) (fun path => path).

Definition demo_oracle : Oracle := {|
  oracle_before _ := [];
  oracle_env i := demo_env (20 + N.of_nat i);
  oracle_now _ := 1700000001 * Second;
  oracle_entropy _ := Err (errorString "not used");
  oracle_ping _ := true;
|}.

Definition demo_site : Site Z := mkSite (1700000000 * Second) (mkCtl db_job (NewConcurrencyLimiter 2) 0) 0.

Definition demo_base : string := "https://controller".

(** The reply to the first completion is lost on the way. *)
Definition demo_net (i : nat) : delivery := if (i =? 2)%nat then LostReply else Arrives.

Definition demo_system (n : nat) : Daemon (Site Z) :=
  (run_site demo_host_config demo_base (digest "k") demo_net demo_oracle n demo_site).2.

Example demo_system_run :
  job_state_of (ctl_db (site_ctl (world (demo_system 2)))) job1 = Some StateSucceeded
  /\ count (executes job1) (log (demo_system 2)) = 1%nat
  /\ pendingCompletion (vars (demo_system 1)) <> None
  /\ pendingCompletion (vars (demo_system 2)) = None.
Proof. vm_compute. repeat split; done. Qed.

Lemma demo_site_distinct : endpoints_distinct (site_config demo_host_config demo_base).
Proof. apply (bool_decide_unpack (NoDup _)). vm_compute. exact I. Qed.

Lemma executed_at_most_once_witness :
  count (executes job1) (log (demo_system 2)) = 1%nat
  /\ (starts_recorded job1 db_job + count (executes job1) (log (demo_system 2)) <= 1)%nat.
Proof.
  split; [vm_compute; reflexivity|].
  exact (executed_at_most_once demo_host_config demo_base (digest "k") demo_net demo_oracle
           job1 2 demo_site reach_job demo_site_distinct).
Defined.

(** ** Single requests *)

Definition demo_start_request : Request :=
  mkRequest "POST" AgentJobStartEndpointPath (Some [client_certificate (digest "k") (1700003600 * Second)])
    [("Content-Type", ["application/json"])] [] (mkBody (start_body job1 1) None).

Definition claimed_ctl : Ctl := mkCtl db_claimed (NewConcurrencyLimiter 2) 0.

Lemma start_204_granted_witness :
  grant_of demo_oracle demo_start_request claimed_ctl (serve demo_oracle (handleAgentJobStart demo_start_request) claimed_ctl).2.
Proof.
  assert (rep_Status (serve demo_oracle (handleAgentJobStart demo_start_request) claimed_ctl).1 = StatusNoContent) as Hs
    by (vm_compute; reflexivity).
  exact (start_204_granted demo_oracle demo_start_request claimed_ctl Hs).
Defined.

(** The first heartbeat of the run. *)
Definition demo_heartbeat : Request :=
  mkRequest "POST" HeartbeatEndpointPath (Some [client_certificate (digest "k") (1700003600 * Second)])
    [("Content-Type", ["application/json"])] [] (mkBody (json_Marshal (mkHeartbeatRequest CurrentVersion)) None).

Definition queued_ctl : Ctl := mkCtl db_job (NewConcurrencyLimiter 2) 0.

Lemma assignment_delivered_witness :
  rep_Status (serve demo_oracle (handleHeartbeat demo_heartbeat) queued_ctl).1 = StatusOK
  /\ exists u attempt, heartbeat_reply (response_of (serve demo_oracle (handleHeartbeat demo_heartbeat) queued_ctl).1)
                       = Ok (Some (mkJobAssignment (uuid_String u) attempt ActionAgentPing)).
Proof.
  assert (rep_Status (serve demo_oracle (handleHeartbeat demo_heartbeat) queued_ctl).1 = StatusOK) as Hs by (vm_compute; reflexivity).
  split; [exact Hs|]. pose proof (assignment_delivered demo_oracle demo_heartbeat queued_ctl) as Hd.
  destruct (serve demo_oracle (handleHeartbeat demo_heartbeat) queued_ctl) as [rep c'] eqn:E.
  destruct (Hd reach_job Hs) as (pubKey & db0 & id & a & u & j & _ & _ & _ & Hj & _ & _ & Hread).
  exists u, (Attempt j). apply Hread.
  assert (map_Forall (fun u _ => len (uuid_String u) = 36) (jobs (ctl_db c'))) as Hall.
  { change c' with (rep, c').2. rewrite <- E. apply (bool_decide_unpack _). vm_compute. exact I. }
  exact (Hall u j Hj).
Defined.

Definition demo_token : string := SessionTokenPrefix +:+ EncodeToString URLAlphabet (replicate 32 "s"%char).

(** The audit log is for administrators: the operator of the run is refused,
    while the jobs may be listed. *)
Definition operator_request (path : string) : Request :=
  mkRequest "GET" path None [("Authorization", ["Bearer " +:+ demo_token])] [] (mkBody "" None).

Definition login_ctl : Ctl := mkCtl db_login (NewConcurrencyLimiter 2) 0.

Example demo_forbidden :
  rep_Status (serve demo_oracle (newHandler (operator_request "/api/v1/operator/audit")) login_ctl).1 = StatusForbidden
  /\ rep_Status (serve demo_oracle (newHandler (operator_request "/api/v1/operator/jobs")) login_ctl).1 = StatusOK.
Proof. vm_compute. split; reflexivity. Qed.

Lemma operator_success_authorised_witness :
  exists token sid s, bearer_token (operator_request "/api/v1/operator/jobs") = Some token
    /\ operator_sessions (interfere demo_oracle login_ctl) !! sid = Some s /\ se_token_hash s = HashSessionToken token
    /\ env_now (oracle_env demo_oracle (ctl_step login_ctl)) 0 < se_expires_at s.
Proof.
  assert (success (serve demo_oracle (newHandler (operator_request "/api/v1/operator/jobs")) login_ctl).1) as Hs
    by (vm_compute; split; [discriminate|reflexivity]).
  assert (required_permission (operator_request "/api/v1/operator/jobs") = Some (Some PermissionJobsRead)) as Hp
    by reflexivity.
  destruct (operator_success_authorised demo_oracle _ _ login_ctl reach_login Hp Hs)
    as (token & sid & s & u & Hb & _ & Hl & Hh & Hx & _).
  exists token, sid, s. split; [exact Hb|]. split; [exact Hl|]. split; [exact Hh|exact Hx].
Defined.

(** Reports of the enrolled agent, with as many cores and bytes as the wire
    admits, are stored; a hostname with a NUL is a report that is read and does
    not validate. *)
Definition inventory_text : string :=
  quoting "{'protocol_version':2,'hostname':'h','os_id':'debian','os_name':'Debian','os_version':'','kernel_release':'6.1','architecture':'amd64','cpu_logical_cores':1048576,'memory_total_bytes':9223372036854775807}".
Definition inventory_report (hostname : string) : InventoryRequest :=
  mkInventoryRequest 2 hostname "debian" "Debian" "" "6.1" "amd64" 1048576 9223372036854775807.
Definition telemetry_report : TelemetryRequest :=
  mkTelemetryRequest 2 10000 9223372036854775807 9223372036854775807 0 1 2 3 9223372036854775807 0 9223372036854775807 0 0 0 300000.

Example demo_hostname_refused :
  is_null (ValidateInventoryRequest (Some (inventory_report "h"))) = true
  /\ is_null (ValidateInventoryRequest (Some (inventory_report (String "h" (String "000" "x"))))) = false.
Proof. vm_compute. split; reflexivity. Qed.

(** What the statements of the witness read besides the tables. *)
Definition demo_cx : Ctx := stmt_ctx (demo_env 9) 0 9000000.

Lemma reports_fit_tables_witness :
  json_Decode inventory_text = Ok (inventory_report "h", "") /\ inventory_fits (inventory_report "h")
  /\ upsert_inventory (digest "k") (inventory_report "h") demo_cx db_agent
     = inr (uuid_String agent1, with_inventory (<[agent1 := mkInventoryRow (inventory_report "h") (cx_now demo_cx)]> (agent_inventory db_agent)) db_agent)
  /\ upsert_telemetry (digest "k") telemetry_report demo_cx db_agent
     = inr (uuid_String agent1, with_telemetry (<[agent1 := mkTelemetryRow telemetry_report (cx_now demo_cx)]> (agent_telemetry db_agent)) db_agent).
Proof.
  assert (json_Decode inventory_text = Ok (inventory_report "h", "")) as Hi by (vm_compute; reflexivity).
  assert (json_Decode (json_Marshal telemetry_report) = Ok (telemetry_report, "")) as Ht by (vm_compute; reflexivity).
  assert (find_agent (digest "k") db_agent <> None) as Ha by (vm_compute; discriminate).
  assert (fst <$> find_agent (digest "k") db_agent = Some agent1) as Hid by (vm_compute; reflexivity).
  destruct (proj1 (reports_fit_tables inventory_text "") _ Hi ltac:(vm_compute; reflexivity)) as [Hf Hu].
  destruct (proj2 (reports_fit_tables (json_Marshal telemetry_report) "") _ Ht ltac:(vm_compute; reflexivity)) as [_ Hv].
  specialize (Hu (digest "k") demo_cx db_agent). specialize (Hv (digest "k") demo_cx db_agent).
  destruct (find_agent (digest "k") db_agent) as [[id a]|]; [|done]. injection Hid as ->.
  exact (conj Hi (conj Hf (conj Hu Hv))).
Defined.
