(* ===== verification/JobTheorems.v ===== *)
(** * What holds of the job store

    The guarantees of src/internal/database/jobs.go over all tables that any
    sequence of requests and failures can reach: at-most-once start, one job
    in flight, frozen terminal states, idempotent creation and completion,
    FIFO claims, bounded reconciliation, and progress when nothing fails. *)

From S2P Require Import Prelude GoStrings Job Operator Enrollment Protocol Postgres Schema JobStore JobSpec JobReconcile JobContracts AccountStore AccountContracts JobProgress System Runs UuidHex Demo.

(** ** The life cycle over all reachable tables *)

Section properties.
Context `{UuidTextLaws} `{UnicodeTables}.

(** C1: whatever the server and the network do, a method of the store moves
    the jobs of reachable tables along the life cycle, or leaves jobs and
    their history alone. *)
Theorem store_refines_lifecycle c e db :
  reachable db ->
  (is_job_call c = true /\ rtc lifecycle_step db (after_call c e db))
  \/ (is_job_call c = false /\ jobs_equal db (after_call c e db)).
Proof.
  intros Hr%reachable_ok. destruct (is_job_call c) eqn:E.
  - left. split; [done|]. apply job_call_steps; [|done]. by apply wfs_jobs.
  - right. split; [done|]. by apply account_call_jobs.
Qed.

(** C3: in all reachable tables a job's history replays, event by event
    along the life cycle, to exactly the stored state, attempt and failure
    code; the job was dispatched [Attempt] times, at most five, and started
    at most once. *)
Theorem history_explains_job db id j :
  reachable db -> jobs db !! id = Some j ->
  replay (events_of id (job_events db)) = Some (JobState j, Attempt j, JobFailureCode j)
  /\ Z.of_nat (length (events_typed EventJobDispatched (events_of id (job_events db)))) = Attempt j
  /\ Attempt j <= MaxDispatchAttempts
  /\ (length (events_typed EventJobStarted (events_of id (job_events db))) <= 1)%nat.
Proof.
  intros Hr Hj. pose proof (wfs_jobs _ (reachable_ok _ Hr)) as Hwf.
  pose proof (wf_history _ Hwf _ _ Hj) as Hh. destruct (replay_counts _ _ Hh) as (Hd & Ha & _).
  split; [done|]. split; [done|]. split; [done|]. by apply started_once.
Qed.

(** C5: in all reachable tables an agent has at most one job dispatched or
    running and at most 64 jobs queued, dispatched or running. *)
Theorem one_job_in_flight db :
  reachable db ->
  (forall id1 id2 j1 j2, jobs db !! id1 = Some j1 -> jobs db !! id2 = Some j2 ->
     AgentID j1 = AgentID j2 -> is_inflight j1 = true -> is_inflight j2 = true -> id1 = id2)
  /\ (forall agentID, active_count db agentID <= 64).
Proof.
  intros Hr%reachable_ok. destruct Hr as [Hwf _ _]. split; [apply (wf_inflight _ Hwf)|].
  intros a. apply (wf_queue _ Hwf).
Qed.

(** A job that succeeded, failed or is unknown is never changed again by
    any sequence of calls. *)
Theorem terminal_job_frozen db db' id j :
  reachable db -> rtc called db db' -> jobs db !! id = Some j ->
  State_IsTerminal (JobState j) = true -> jobs db' !! id = Some j.
Proof.
  intros Hr Hc Hj Ht. destruct (called_lookup _ _ _ _ Hr Hc Hj) as (j' & Hj' & _ & Hf).
  rewrite Hf in Hj'; [done|]. unfold is_active, one_of. unfold State_IsTerminal in Ht.
  repeat (apply orb_prop in Ht as [Ht|Ht]); apply String.eqb_eq in Ht as ->; done.
Qed.

(** ** Start *)

(** C4: once a start was granted, no start of the same job is ever granted
    again, by any agent and under any attempt number: the job is executed at
    most once. *)
Theorem start_granted_once agentID jobID attempt e db db' :
  reachable db -> result_of (StartAgentJob agentID jobID attempt) e db = Ok tt ->
  rtc called (tables_after (StartAgentJob agentID jobID attempt) e db) db' ->
  forall agentID' attempt' e', result_of (StartAgentJob agentID' jobID attempt') e' db' <> Ok tt.
Proof.
  intros Hr Hok Hc agentID' attempt' e' Hok'.
  assert (reachable (tables_after (StartAgentJob agentID jobID attempt) e db)) as Hr1
    by apply (reachable_call (CallStartAgentJob agentID jobID attempt)), Hr.
  pose proof (called_reachable _ _ Hr1 Hc) as Hr2.
  assert (reachable (tables_after (StartAgentJob agentID' jobID attempt') e' db')) as Hr3
    by apply (reachable_call (CallStartAgentJob agentID' jobID attempt')), Hr2.
  destruct (called_history _ _ Hr1 Hc) as [evs Hevs].
  apply (result_ok _ _ _ _ _ (StartAgentJob_ok _ _ _ _ _ _)) in Hok, Hok'.
  inversion Hok as [j ts eid t Hj Hs db1 Hl E1 E2|]. inversion Hok' as [j' ts' eid' t' Hj' Hs' db2 Hl' E1' E2'|].
  pose proof (start_counts _ _ jobID _ _ (eq_sym E2) eq_refl eq_refl) as Hn1.
  pose proof (start_counts _ _ jobID _ _ (eq_sym E2') eq_refl eq_refl) as Hn2.
  pose proof (started_once _ jobID Hr3) as Hb.
  rewrite Hevs, events_of_app, events_typed_app, length_app in Hn2. lia.
Qed.

(** C6: when no statement fails, a start is granted exactly when the job is
    dispatched to this agent under this attempt and its lease has not run out
    on the clock read after the row was locked; the granted job runs with a
    60 second deadline, and a refused start changes nothing. *)
Theorem start_exact agentID jobID attempt e db :
  reachable db -> reliable e -> fresh_events e db ->
  canonical_uuid_text (uuid_String agentID) = true ->
  let ts := env_clock e 2 0%nat in
  let m := StartAgentJob agentID jobID attempt in
  match jobs db !! jobID with
  | Some j =>
      if startable agentID attempt ts j
      then result_of m e db = Ok tt
           /\ jobs (tables_after m e db) = <[jobID := start_set ts j]> (jobs db)
           /\ ExecutionDeadlineAt (start_set ts j) = Some (ts + 60000000)
      else result_of m e db = Err ErrJobConflict /\ tables_after m e db = db
  | None => result_of m e db = Err ErrJobConflict /\ tables_after m e db = db
  end.
Proof.
  intros Hr He Hf Ht ts m. pose proof (wfs_jobs _ (reachable_ok _ Hr)) as Hwf.
  pose proof (start_reliable agentID jobID attempt e db He Hwf Hf Ht) as Hs. cbv zeta in Hs. fold ts m in Hs.
  destruct (jobs db !! jobID) as [j|]; [|by apply wp_run in Hs].
  destruct (startable agentID attempt ts j); [|by apply wp_run in Hs].
  destruct Hs as (eid & t & [Hres Htab]%wp_run). unfold result_of, tables_after. rewrite Hres, Htab.
  repeat split.
Qed.

(** ** Completion *)

(** C7: when no statement fails, the completion of a running job by its
    agent decides it: before the deadline the reported outcome is stored and
    acknowledged, at or after it the job becomes unknown and the report is
    refused. *)
Theorem complete_decides agentID jobID attempt outcome failureCode e db j d :
  reachable db -> reliable e -> fresh_events e db ->
  canonical_uuid_text (uuid_String agentID) = true ->
  outcome_refused outcome failureCode = false ->
  jobs db !! jobID = Some j -> addressed agentID attempt j = true ->
  JobState j = StateRunning -> ExecutionDeadlineAt j = Some d ->
  let ts := env_clock e 2 0%nat in
  let m := CompleteAgentJob agentID jobID attempt outcome failureCode in
  if ts <? d
  then result_of m e db = Ok tt
       /\ jobs (tables_after m e db) = <[jobID := finish_set outcome ts j]> (jobs db)
       /\ JobState (finish_set outcome ts j) = outcome
  else result_of m e db = Err ErrJobConflict
       /\ jobs (tables_after m e db) = <[jobID := timeout_set ts ts j]> (jobs db).
Proof.
  intros Hr He Hf Ht Ho Hj Ha Hs Hd ts m. pose proof (wfs_jobs _ (reachable_ok _ Hr)) as Hwf.
  destruct (complete_reliable agentID jobID attempt outcome failureCode e db j d)
    as (eid & t & Hc); try done. cbv zeta in Hc. fold ts m in Hc.
  destruct (ts <? d); apply wp_run in Hc as [Hres Htab]; unfold result_of, tables_after;
    rewrite Hres, Htab; [|done].
  split; [done|]. split; [done|]. unfold finish_set, outcome_refused in *.
  destruct (String.eqb outcome "succeeded") eqn:E; [by apply String.eqb_eq in E|].
  simpl in Ho. destruct (String.eqb outcome "failed") eqn:E2; [by apply String.eqb_eq in E2|].
  by rewrite orb_true_r in Ho.
Qed.

(** What an acknowledged completion leaves: the reported terminal row. *)
Lemma completed_row agentID jobID attempt outcome failureCode db db' :
  complete_spec agentID jobID attempt outcome failureCode db (Ok tt) db' ->
  exists j, jobs db' !! jobID = Some j /\ addressed agentID attempt j = true /\ JobState j = outcome
    /\ replay_matches outcome failureCode (JobFailureCode j) = true
    /\ outcome_refused outcome failureCode = false.
Proof.
  intros Hs. inversion Hs as [|j d ts eid t Hr Hj Ha Hst Hd Hlt db1 Hl E1 E2| |j Hr Hj Ha Hst Hm|].
  - exists (finish_set outcome ts j). simpl. rewrite lookup_insert_eq.
    split; [done|]. revert Hr. unfold finish_set, outcome_refused, replay_matches, addressed in *.
    destruct (String.eqb outcome "succeeded") eqn:Eo; simpl.
    + apply String.eqb_eq in Eo as ->. destruct (String.eqb failureCode ""); done.
    + destruct (String.eqb outcome "failed") eqn:Eo2; simpl; [|done].
      apply String.eqb_eq in Eo2 as ->. destruct (String.eqb failureCode "executor_error"); done.
  - subst. by exists j.
Qed.

(** C8: a completion that was acknowledged can be replayed at any later time
    and is never refused; it changes nothing, and neither does a report that
    contradicts it, which is never acknowledged. *)
Theorem completion_idempotent agentID jobID attempt outcome failureCode e db db' :
  reachable db ->
  result_of (CompleteAgentJob agentID jobID attempt outcome failureCode) e db = Ok tt ->
  rtc called (tables_after (CompleteAgentJob agentID jobID attempt outcome failureCode) e db) db' ->
  forall outcome' failureCode' e',
    let m := CompleteAgentJob agentID jobID attempt outcome' failureCode' in
    tables_after m e' db' = db'
    /\ ((outcome' = outcome /\ failureCode' = failureCode ->
         result_of m e' db' = Ok tt \/ internal (result_of m e' db'))
        /\ (outcome' <> outcome -> result_of m e' db' <> Ok tt)).
Proof.
  intros Hr Hok Hc o' f' e' m.
  set (db1 := tables_after _ e db) in Hc.
  assert (reachable db1) as Hr1
    by apply (reachable_call (CallCompleteAgentJob agentID jobID attempt outcome failureCode)), Hr.
  apply (result_ok _ _ _ _ _ (CompleteAgentJob_ok _ _ _ _ _ _ _ _)) in Hok. fold db1 in Hok.
  apply completed_row in Hok as (j & Hj & Ha & Hs & Hm & Ho).
  assert (is_active j = false /\ outcome <> StateRunning) as [Hact Hnr].
  { unfold is_active, one_of. rewrite Hs. unfold outcome_refused in Ho.
    destruct (String.eqb outcome "succeeded") eqn:Eo; [by apply String.eqb_eq in Eo as ->|].
    destruct (String.eqb outcome "failed") eqn:Eo2; [by apply String.eqb_eq in Eo2 as ->|].
    by rewrite orb_true_r in Ho. }
  destruct (called_lookup _ _ _ _ Hr1 Hc Hj) as (j' & Hj' & _ & Hfr). rewrite (Hfr Hact) in Hj'.
  pose proof (wp_outcome _ _ _ _ (CompleteAgentJob_ok agentID jobID attempt o' f' e' db' 0)) as Hout.
  assert (forall r d, complete_spec agentID jobID attempt o' f' db' r d ->
    d = db' /\ (r = Ok tt /\ o' = outcome \/ r = Err ErrJobConflict
      /\ ~ (o' = outcome /\ f' = failureCode))) as Hsp.
  { intros r d [Hrf|j2 d2 ts eid t _ Hj2 _ Hst|j2 d2 ts eid t Hj2 _ Hst|j2 _ Hj2 _ Hst|Hcf];
      simplify_eq; try congruence.
    - split; [done|]. right. split; [done|]. intros [-> ->]. congruence.
    - split; [done|]. by left.
    - split; [done|]. right. split; [done|]. intros [-> ->].
      destruct (Hcf _ Hj' Ha) as [_ [Hne|Hne]]; [done|congruence]. }
  destruct Hout as [_ [[Hd Hi]|[[Hd Hrs]%Hsp|(r' & [Hd _]%Hsp & Hi)]]]; unfold tables_after, m.
  - split; [done|]. split; [by right|]. intros _ Hx. destruct Hi as (er & Hi & _). by rewrite Hx in Hi.
  - split; [done|]. destruct Hrs as [[Hrs ->]|[Hrs Hn]]; split; [by left|done| |by rewrite Hrs].
    intros Heq. by destruct Hn.
  - split; [done|]. split; [by right|]. intros _ Hx. destruct Hi as (er & Hi & _). by rewrite Hx in Hi.
Qed.

(** ** Creation *)

(** C9: whatever fails, a create request either leaves every table as it was
    or, together, adds one queued job, its creation event and its audit
    record, for an enabled operator whose role may execute operations, on an
    agent with fewer than 64 active jobs. *)
Theorem create_atomic operatorID agentID action hash e db :
  reachable db ->
  let db' := tables_after (CreateJob operatorID agentID action hash) e db in
  db' = db
  \/ exists u id now eid aid te ta,
      let j := new_job id operatorID agentID u action hash now in
      db' = create_tables j (created_event eid id u te) (created_audit aid operatorID id u ta) db
      /\ may_create db operatorID u /\ key_unused db operatorID hash
      /\ jobs db !! id = None /\ active_count db agentID < MaxActiveJobsPerAgent.
Proof.
  intros Hr db'. pose proof (wfs_jobs _ (reachable_ok _ Hr)) as Hwf.
  assert (forall r d, create_spec operatorID agentID action hash db r d ->
    d = db \/ exists u id now eid aid te ta,
      let j := new_job id operatorID agentID u action hash now in
      d = create_tables j (created_event eid id u te) (created_audit aid operatorID id u ta) db
      /\ may_create db operatorID u /\ key_unused db operatorID hash
      /\ jobs db !! id = None /\ active_count db agentID < MaxActiveJobsPerAgent) as Hsp.
  { intros r d [| | | | | |u id now eid aid te ta Hu Hk Ha j d' Hn Hl]; try (by left).
    right. exists u, id, now, eid, aid, te, ta. repeat split; try done.
    pose proof (wf_queue _ (step_wf _ _ Hwf Hl) agentID) as Hq. unfold d', create_tables in Hq.
    rewrite active_count_rows in Hq |- *. simpl in Hq. rewrite count_rows_insert in Hq by done.
    simpl in Hq. rewrite N.eqb_refl in Hq. simpl in Hq. lia. }
  exact (outcome_inv _ _ _ _ _ (or_introl eq_refl) Hsp
           (wp_outcome _ _ _ _ (CreateJob_ok operatorID agentID action hash e db 0 Hwf))).
Qed.

(** Repeating a create request that succeeded, with the same key, agent
    and action, returns the job created first and changes nothing. *)
Theorem create_idempotent operatorID agentID action hash e db j b :
  reachable db -> result_of (CreateJob operatorID agentID action hash) e db = Ok (j, b) ->
  let db' := tables_after (CreateJob operatorID agentID action hash) e db in
  forall e', tables_after (CreateJob operatorID agentID action hash) e' db' = db'
    /\ (result_of (CreateJob operatorID agentID action hash) e' db' = Ok (j, false)
        \/ internal (result_of (CreateJob operatorID agentID action hash) e' db')).
Proof.
  intros Hr Hok db' e'. pose proof (wfs_jobs _ (reachable_ok _ Hr)) as Hwf.
  assert (reachable db') as Hr'
    by apply (reachable_call (CallCreateJob operatorID agentID action hash)), Hr.
  pose proof (wfs_jobs _ (reachable_ok _ Hr')) as Hwf'.
  apply (result_ok _ _ _ _ _ (CreateJob_ok _ _ _ _ _ _ _ Hwf)) in Hok. fold db' in Hok.
  assert (exists u, may_create db' operatorID u /\ jobs db' !! ID j = Some j
    /\ same_key operatorID hash j = true /\ AgentID j = agentID /\ ActionType j = action)
    as (u & Hu & Hj & Hk & Ha & Hact).
  { inversion Hok as [| |u j' Hu Hj Hk Ha Hact E1 E2| | | |u id now eid aid te ta Hu Hk Ha j' d' Hn Hl E1 E2].
    - by exists u.
    - exists u. split; [exact Hu|]. unfold d', j', same_key. cbn.
      by rewrite N.eqb_refl, String.eqb_refl, lookup_insert_eq. }
  assert (forall r d, create_spec operatorID agentID action hash db' r d -> d = db' /\ r = Ok (j, false)) as Hsp.
  { destruct Hu as (row & role & Ho & Hd & Hp & Hperm & Hname).
    intros r d [Hno|row' role' Ho' Hp' Hn'|u' j2 _ Hj2 Hk2 _ _|u' j2 _ Hj2 Hk2 Hne|u' _ Hun|u' _ Hun
               |u' id now eid aid te ta _ Hun].
    - by destruct (Hno _ Ho).
    - simplify_eq. congruence.
    - split; [done|]. assert (ID j2 = ID j) as E by
        (eapply (wf_idempotency _ Hwf' _ _ _ _ Hj2 Hj); unfold same_key in *; bsplit;
         [apply N.eqb_eq in H2, H4; congruence|congruence]).
      rewrite E in Hj2. by simplify_eq.
    - assert (ID j2 = ID j) as E by
        (eapply (wf_idempotency _ Hwf' _ _ _ _ Hj2 Hj); unfold same_key in *; bsplit;
         [apply N.eqb_eq in H2, H4; congruence|congruence]).
      rewrite E in Hj2. simplify_eq. by destruct Hne.
    - by rewrite (Hun _ _ Hj) in Hk.
    - by rewrite (Hun _ _ Hj) in Hk.
    - by rewrite (Hun _ _ Hj) in Hk. }
  pose proof (wp_outcome _ _ _ _ (CreateJob_ok operatorID agentID action hash e' db' 0 Hwf')) as Hout.
  destruct Hout as [_ [[Hd Hi]|[[Hd Hrs]%Hsp|(r' & [Hd _]%Hsp & Hi)]]]; (split; [exact Hd|]);
    [by right|by left|by right].
Qed.

(** ** Claims *)

(** C10: a claim hands out the oldest queued job of the agent, and only when
    nothing of the agent is in flight; after it the handed-out job is the
    agent's only one in flight, under the next attempt number. *)
Theorem claim_hands_out_oldest agentID e db a :
  reachable db -> result_of (ClaimNextAgentJob agentID) e db = Ok (Some a) ->
  let db' := tables_after (ClaimNextAgentJob agentID) e db in
  exists db1 j ts,
    rtc lifecycle_step db db1 /\ ~ busy agentID db1
    /\ jobs db1 !! ID j = Some j /\ AgentID j = agentID /\ JobState j = StateQueued
    /\ (forall id j', jobs db1 !! id = Some j' -> AgentID j' = agentID -> JobState j' = StateQueued ->
          by_age j j')
    /\ jobs db' = <[ID j := dispatch_set (Attempt j + 1) ts j]> (jobs db1)
    /\ a = mkJobAssignment (uuid_String (ID j)) (Attempt j + 1) ActionAgentPing
    /\ 1 <= Attempt j + 1 <= MaxDispatchAttempts.
Proof.
  intros Hr Hok db'. pose proof (wfs_jobs _ (reachable_ok _ Hr)) as Hwf.
  apply (result_ok _ _ _ _ _ (ClaimNextAgentJob_ok _ _ _ _ Hwf)) in Hok. fold db' in Hok.
  inversion Hok as [| | |db1 j ts eid t Hrec Hb (Hj & Hc & Hmin) Hatt d' Hl E1 E2].
  pose proof (reconciled_wf _ _ _ _ Hwf Hrec) as Hwf1.
  pose proof (job_checks_states _ (wf_checks _ Hwf1 _ _ Hj)) as (_ & Ha & Hact & _).
  exists db1, j, ts. unfold claimable in Hc. apply andb_prop in Hc as [Hag Hst].
  apply N.eqb_eq in Hag. apply String.eqb_eq in Hst.
  split; [by eapply reconciled_rtc|]. split; [done|]. split; [done|]. split; [done|]. split; [done|].
  split; [|split; [done|split; [unfold assignment; by rewrite Hact|lia]]].
  intros id j' Hj' Ha' Hs'. apply (Hmin id j' Hj'). unfold claimable. by rewrite Ha', Hs', N.eqb_refl.
Qed.

(** C11: when no statement fails, an enrolled agent with a queued job and
    nothing in flight is handed its oldest job. *)
Theorem claim_progress agentID e db id0 j0 :
  reachable db -> reliable e -> fresh_events e db ->
  agents db !! agentID <> None -> ~ busy agentID db ->
  jobs db !! id0 = Some j0 -> AgentID j0 = agentID -> JobState j0 = StateQueued ->
  exists j, oldest_queued agentID db j
    /\ result_of (ClaimNextAgentJob agentID) e db = Ok (Some (assignment j)).
Proof.
  intros Hr He Hf Hag Hb Hj Ha Hs. pose proof (wfs_jobs _ (reachable_ok _ Hr)) as Hwf.
  destruct (claim_reliable agentID e db id0 j0) as (j & ts & eid & t & Hold & Hrun); try done.
  { unfold claimable. by rewrite Ha, Hs, N.eqb_refl. }
  exists j. split; [done|]. apply wp_run in Hrun. by destruct Hrun.
Qed.

(** ** Reconciliation and reads *)

Lemma expire_dispatched_not_running fin ts j :
  JobState j = StateDispatched -> JobState (expire_job fin ts j) <> StateRunning.
Proof. intros E. unfold expire_job. rewrite E. simpl. by destruct (Attempt j <? _). Qed.

(** Reconciling an agent expires exactly the agent's dispatched jobs
    whose lease and running jobs whose deadline had passed on the clock each
    row was tested with, each becoming queued, failed or unknown by the rule;
    every other job is untouched. *)
Theorem reconcile_agent_exact agentID limit e db v t n w :
  wf_jobs v ->
  reconcileExpiredJobsInTx (Some agentID) limit e (mkWorld db (TxOpen v t) n) = (Ok tt, w) ->
  exists v' n' c1 c2, w = mkWorld db (TxOpen v' t) n' /\ rtc lifecycle_step v v'
    /\ forall id j, jobs v !! id = Some j ->
        let hit := N.eqb (AgentID j) agentID
                   && (expired StateDispatched DispatchExpiresAt c1 j
                       || expired StateRunning ExecutionDeadlineAt c2 j) in
        if hit then exists fin ts, jobs v' !! id = Some (expire_job fin ts j)
        else jobs v' !! id = Some j.
Proof.
  intros Hwf Hrun.
  pose proof (reconcileExpiredJobsInTx_ok (Some agentID) limit e db v t n Hwf) as Hp.
  unfold wp in Hp. rewrite Hrun in Hp. destruct Hp as (v' & n' & -> & Hrec).
  pose proof (reconciled_rtc _ _ _ _ Hrec) as Hrtc.
  destruct Hrec as (l1 & l2 & c1 & c2 & v1 & S1 & X1 & [S2|[_ ?]] & X2); [|done].
  exists v', n', c1, c2. split; [done|]. split; [done|].
  intros id j Hj hit. destruct S1 as [N1 A1 B1 _], S2 as [N2 A2 B2 _].
  destruct (expire_all_case _ _ _ _ _ X1 N1 Hj) as [[Hin (fin & ts & Hj1)]|[Hout Hj1]].
  - apply list_elem_of_fmap in Hin as ([id' att] & -> & Hin).
    destruct (A1 _ _ Hin) as (j' & Hj' & _ & He). simpl in Hj, Hj1. simplify_eq.
    unfold expires_in in He. apply andb_prop in He as [Hs He].
    assert (hit = true) as -> by (unfold hit; unfold in_scope in Hs; by rewrite Hs, He).
    exists fin, ts. destruct (expire_all_case _ _ _ _ _ X2 N2 Hj1) as [[Hin2 _]|[_ Hj2]]; [|done].
    exfalso. apply list_elem_of_fmap in Hin2 as ([id2 att2] & -> & Hin2).
    destruct (A2 _ _ Hin2) as (j2 & Hj2 & _ & He2). simpl in Hj1. simplify_eq.
    unfold expires_in, expired in He, He2. bsplit.
    by eapply expire_dispatched_not_running.
  - assert (N.eqb (AgentID j) agentID && expired StateDispatched DispatchExpiresAt c1 j = false) as Hn1.
    { apply not_true_is_false. intros E. apply Hout. by apply (B1 ltac:(done) id j). }
    assert (hit = N.eqb (AgentID j) agentID && expired StateRunning ExecutionDeadlineAt c2 j)%bool as ->.
    { unfold hit. destruct (N.eqb _ _); [|done]. simpl in *. by rewrite Hn1. }
    destruct (expire_all_case _ _ _ _ _ X2 N2 Hj1) as [[Hin2 (fin & ts & Hj2)]|[Hout2 Hj2]].
    + apply list_elem_of_fmap in Hin2 as ([id2 att2] & -> & Hin2).
      destruct (A2 _ _ Hin2) as (j2 & Hj2' & _ & He2). simpl in Hj1, Hj2. simplify_eq.
      unfold expires_in, in_scope in He2. rewrite He2. eauto.
    + assert (N.eqb (AgentID j) agentID && expired StateRunning ExecutionDeadlineAt c2 j = false) as ->; [|done].
      apply not_true_is_false. intros E. apply Hout2. by apply (B2 ltac:(done) id j).
Qed.

(** A listing returns the newest jobs that match its filters, newest
    first, at most [limit] of them (100 when the limit is not in 1..200),
    as they are after reconciliation; without an agent filter at most 100
    jobs are moved by it. *)
Theorem list_jobs_page limit agentID state e db rows :
  reachable db -> result_of (ListJobs limit agentID state) e db = Ok rows ->
  let db' := tables_after (ListJobs limit agentID state) e db in
  page (page_limit limit) agentID state db' rows
  /\ 1 <= page_limit limit <= 200 /\ Z.of_nat (length rows) <= page_limit limit
  /\ exists k, nsteps lifecycle_step k db db' /\ (agentID = None -> (k <= 100)%nat).
Proof.
  intros Hr Hok db'. pose proof (wfs_jobs _ (reachable_ok _ Hr)) as Hwf.
  apply (result_ok _ _ _ _ _ (ListJobs_ok _ _ _ _ _ _ Hwf)) in Hok. fold db' in Hok.
  assert (1 <= page_limit limit <= 200) as Hl.
  { unfold page_limit. destruct (_ || _) eqn:E; bsplit; lia. }
  inversion Hok as [rows' d Hrec Hp E1 E2]. split; [done|]. split; [done|]. split.
  - destruct Hp as (l & _ & _ & _ & ->). unfold limit_rows. rewrite length_fmap, length_take. lia.
  - destruct agentID as [a|].
    + destruct (rtc_nsteps_1 _ _ (reconciled_rtc _ _ _ _ Hrec)) as [k Hk]. by exists k.
    + destruct (reconciled_bound _ _ _ Hrec) as (k & Hk & Hb). by exists k.
Qed.

(** Reading a job never shows an overdue state: the job returned is the
    stored one, expired first if its lease or deadline had passed, and the
    tables hold exactly that. *)
Theorem get_job_fresh jobID e db j :
  reachable db -> result_of (GetJobByID jobID) e db = Ok j ->
  exists j0 c, jobs db !! jobID = Some j0 /\ j = scan_job (refreshed c j0)
    /\ jobs (tables_after (GetJobByID jobID) e db) !! jobID = Some (refreshed c j0)
    /\ overdue c (refreshed c j0) = false.
Proof.
  intros Hr Hok. pose proof (wfs_jobs _ (reachable_ok _ Hr)) as Hwf.
  apply (result_ok _ _ _ _ _ (GetJobByID_ok _ _ _ _ Hwf)) in Hok.
  inversion Hok as [|j0 c d Hj Hs E1 E2]. exists j0, c.
  split; [done|]. split; [done|]. split; [by eapply single_spec_row|].
  unfold refreshed. destruct (overdue c j0) eqn:Ho; [|done].
  unfold overdue, expired, expire_job.
  by destruct (JobState j0 =? StateDispatched)%string; [destruct (Attempt j0 <? _)|].
Qed.
End properties.

(** ** Instances at the concrete run *)

Lemma store_refines_lifecycle_witness : rtc lifecycle_step db_claimed db_started.
Proof.
  destruct (store_refines_lifecycle (CallStartAgentJob agent1 job1 1) (demo_env 6) db_claimed reach_claimed)
    as [[_ Hs]|[Hc _]]; [exact Hs|discriminate Hc].
Defined.

Definition the_job (db : DB) : Job :=
  match jobs db !! job1 with Some j => j | None => new_job 0%N 0%N 0%N "" "" "" 0 end.

Lemma history_explains_job_witness :
  replay (events_of job1 (job_events db_done)) = Some (StateSucceeded, 1, None).
Proof.
  pose proof (history_explains_job db_done job1 (the_job db_done) reach_done
                ltac:(vm_compute; reflexivity)) as [Hr _].
  rewrite Hr. vm_compute. reflexivity.
Defined.

Lemma one_job_in_flight_witness : active_count db_started agent1 <= 64.
Proof. apply (one_job_in_flight db_started reach_started). Defined.

Lemma terminal_job_frozen_witness : jobs db_login !! job1 = Some (the_job db_done).
Proof.
  apply (terminal_job_frozen db_done db_login job1 (the_job db_done) reach_done).
  - apply rtc_once. exists (CallCreateOperatorSession alice_text (digest "s")), (demo_env 8). reflexivity.
  - vm_compute. reflexivity.
  - vm_compute. reflexivity.
Defined.

Lemma start_granted_once_witness :
  result_of (StartAgentJob agent1 job1 1) (demo_env 9) db_done <> Ok tt.
Proof.
  apply (start_granted_once agent1 job1 1 (demo_env 6) db_claimed db_done reach_claimed
           ltac:(vm_compute; reflexivity)).
  apply rtc_once. exists (CallCompleteAgentJob agent1 job1 1 "succeeded" ""), (demo_env 7). reflexivity.
Defined.

Lemma start_exact_witness : result_of (StartAgentJob agent1 job1 1) (demo_env 6) db_claimed = Ok tt.
Proof.
  pose proof (start_exact agent1 job1 1 (demo_env 6) db_claimed reach_claimed (demo_reliable 6)
                (demo_fresh 6 db_claimed ltac:(vm_compute; reflexivity)) ltac:(vm_compute; reflexivity)) as Hs.
  cbv zeta in Hs.
  replace (jobs db_claimed !! job1) with (Some (the_job db_claimed)) in Hs by (vm_compute; reflexivity).
  replace (startable agent1 1 (env_clock (demo_env 6) 2 0) (the_job db_claimed)) with true in Hs
    by (vm_compute; reflexivity).
  apply Hs.
Defined.

Lemma complete_decides_witness :
  result_of (CompleteAgentJob agent1 job1 1 "succeeded" "") (demo_env 90) db_started = Err ErrJobConflict.
Proof.
  pose proof (complete_decides agent1 job1 1 "succeeded" "" (demo_env 90) db_started (the_job db_started)
                (opt_Z (ExecutionDeadlineAt (the_job db_started)))
                reach_started (demo_reliable 90) (demo_fresh 90 db_started ltac:(vm_compute; reflexivity))
                ltac:(vm_compute; reflexivity) ltac:(vm_compute; reflexivity) ltac:(vm_compute; reflexivity)
                ltac:(vm_compute; reflexivity) ltac:(vm_compute; reflexivity) ltac:(vm_compute; reflexivity)) as Hc.
  cbv zeta in Hc.
  replace (env_clock (demo_env 90) 2 0 <? opt_Z (ExecutionDeadlineAt (the_job db_started)))
    with false in Hc by (vm_compute; reflexivity).
  apply Hc.
Defined.

Lemma completion_idempotent_witness :
  result_of (CompleteAgentJob agent1 job1 1 "failed" "executor_error") (demo_env 9) db_done <> Ok tt.
Proof.
  apply (completion_idempotent agent1 job1 1 "succeeded" "" (demo_env 7) db_started db_done reach_started
           ltac:(vm_compute; reflexivity) ltac:(apply rtc_refl) "failed" "executor_error" (demo_env 9)).
  discriminate.
Defined.

Lemma create_atomic_witness :
  exists u id, may_create db_agent alice u /\ jobs db_agent !! id = None
    /\ length (job_events (tables_after (CreateJob alice agent1 ActionAgentPing (digest "i")) (demo_env 4) db_agent))
       = 1%nat.
Proof.
  destruct (create_atomic alice agent1 ActionAgentPing (digest "i") (demo_env 4) db_agent reach_agent)
    as [Hd|(u & id & now & eid & aid & te & ta & Hd & Hu & _ & Hn & _)].
  - exfalso. apply (f_equal (fun d => length (job_events d))) in Hd. vm_compute in Hd. discriminate.
  - exists u, id. split; [exact Hu|split; [exact Hn|]]. vm_compute. reflexivity.
Defined.

Lemma create_idempotent_witness :
  tables_after (CreateJob alice agent1 ActionAgentPing (digest "i")) (demo_env 9) db_job = db_job.
Proof.
  apply (create_idempotent alice agent1 ActionAgentPing (digest "i") (demo_env 4) db_agent (the_job db_job) true
           reach_agent ltac:(vm_compute; reflexivity) (demo_env 9)).
Defined.

Definition first_assignment : JobAssignment := mkJobAssignment (hex_String job1) 1 ActionAgentPing.

Lemma claim_hands_out_oldest_witness :
  exists db1 j, rtc lifecycle_step db_job db1 /\ jobs db1 !! ID j = Some j /\ AgentID j = agent1.
Proof.
  destruct (claim_hands_out_oldest agent1 (demo_env 5) db_job first_assignment reach_job
              ltac:(vm_compute; reflexivity)) as (db1 & j & ts & Hr & _ & Hj & Ha & _).
  exists db1, j. split; [exact Hr|split; [exact Hj|exact Ha]].
Defined.

Lemma demo_not_busy : ~ busy agent1 db_job.
Proof.
  intros (id & j & Hj & _ & Hi).
  assert (map_Forall (fun _ j => is_inflight j = false) (jobs db_job)) as Hall.
  { apply (bool_decide_eq_true_1 (map_Forall (fun _ j => is_inflight j = false) (jobs db_job))). vm_compute. reflexivity. }
  rewrite (Hall _ _ Hj) in Hi. discriminate.
Qed.

Lemma claim_progress_witness :
  exists j, result_of (ClaimNextAgentJob agent1) (demo_env 5) db_job = Ok (Some (assignment j)).
Proof.
  destruct (claim_progress agent1 (demo_env 5) db_job job1 (the_job db_job) reach_job (demo_reliable 5)
              (demo_fresh 5 db_job ltac:(vm_compute; reflexivity)) ltac:(vm_compute; discriminate) demo_not_busy
              ltac:(vm_compute; reflexivity) ltac:(vm_compute; reflexivity) ltac:(vm_compute; reflexivity))
    as (j & _ & Hr).
  exists j. exact Hr.
Defined.

(** Ninety seconds later the lease of the claimed job has run out. *)
Definition reconciled_world : World DB :=
  (reconcileExpiredJobsInTx (Some agent1) 64 (demo_env 90) (mkWorld db_claimed (TxOpen db_claimed 0) 0)).2.

Lemma reconcile_agent_exact_witness :
  exists v' n', reconciled_world = mkWorld db_claimed (TxOpen v' 0) n' /\ rtc lifecycle_step db_claimed v'.
Proof.
  destruct (reconcile_agent_exact agent1 64 (demo_env 90) db_claimed db_claimed 0 0 reconciled_world
              (wfs_jobs _ (reachable_ok _ reach_claimed)) ltac:(vm_compute; reflexivity))
    as (v' & n' & c1 & c2 & Hw & Hr & _).
  exists v', n'. split; [exact Hw|exact Hr].
Defined.

Lemma list_jobs_page_witness :
  page (page_limit 0) None (Some StateSucceeded)
    (tables_after (ListJobs 0 None (Some StateSucceeded)) (demo_env 9) db_done) [scan_job (the_job db_done)].
Proof.
  destruct (list_jobs_page 0 None (Some StateSucceeded) (demo_env 9) db_done [scan_job (the_job db_done)] reach_done
              ltac:(vm_compute; reflexivity)) as [Hp _].
  exact Hp.
Defined.

Lemma get_job_fresh_witness :
  exists j0 c, jobs db_claimed !! job1 = Some j0 /\ overdue c (refreshed c j0) = false.
Proof.
  destruct (get_job_fresh job1 (demo_env 90) db_claimed
              (scan_job (requeue_set 90000020 (the_job db_claimed))) reach_claimed
              ltac:(vm_compute; reflexivity)) as (j0 & c & Hj & _ & _ & Ho).
  exists j0, c. split; [exact Hj|exact Ho].
Defined.
