(* ===== verification/AccountTheorems.v ===== *)
(** * What holds of enrollment, sessions and the agents' reports

    The guarantees of src/internal/database/database.go over all reachable
    tables. *)

From S2P Require Import Prelude GoStrings Job Operator Enrollment Protocol Postgres Schema JobStore JobSpec JobReconcile JobContracts AccountStore AccountContracts JobProgress System Runs UuidHex Demo JobTheorems.

Section properties.
Context `{UuidTextLaws} `{UnicodeTables}.

(** ** Enrollment *)

Lemma called_bound db db' h k rec :
  reachable db -> rtc called db db' -> bound_to db h k rec -> bound_to db' h k rec.
Proof.
  intros Hr Hc. induction Hc as [|db db1 db2 (c & e & ->) _ IH]; [done|]. intros Hb.
  pose proof (wfs_jobs _ (reachable_ok _ Hr)) as Hwf.
  apply IH; [by apply reachable_call|].
  destruct (call_enrollment_step c e db Hwf) as [Hs|id r _ Hi|h2 k2 r Hs].
  - by eapply bound_same.
  - by eapply bound_insert_token.
  - by eapply bound_register.
Qed.

(** C12: an enrollment token enrolls one key, once: after a registration
    succeeded, at any later time the same key is answered with the same
    agent and any other key is refused, and neither changes a table. *)
Theorem token_enrolls_one_key h k e db rec b db' :
  reachable db -> result_of (RegisterAgent h k) e db = Ok (rec, b) ->
  rtc called (tables_after (RegisterAgent h k) e db) db' ->
  forall k' e',
    tables_after (RegisterAgent h k') e' db' = db'
    /\ (internal (result_of (RegisterAgent h k') e' db')
        \/ (k' = k /\ exists rec', result_of (RegisterAgent h k') e' db' = Ok (rec', false)
             /\ AgID rec' = AgID rec /\ AgPublicKey rec' = k)
        \/ (k' <> k /\ result_of (RegisterAgent h k') e' db' = Err ErrEnrollmentRejected)).
Proof.
  intros Hr Hok Hc k' e'.
  assert (reachable (tables_after (RegisterAgent h k) e db)) as Hr1
    by apply (reachable_call (CallRegisterAgent h k)), Hr.
  pose proof (called_reachable _ _ Hr1 Hc) as Hr2.
  pose proof (wfs_enrollment _ (reachable_ok _ Hr2)) as Hwf.
  apply (result_ok _ _ _ _ _ (RegisterAgent_ok _ _ _ _ _)), register_binds in Hok.
  pose proof (called_bound _ _ _ _ _ Hr1 Hc Hok) as Hb.
  assert (AgPublicKey rec = k) as Hpk by (destruct Hok as (? & ? & ? & ? & ?); naive_solver).
  pose proof (wp_outcome _ _ _ _ (RegisterAgent_ok h k' e' db' 0)) as Hout.
  destruct Hout as [_ [[Hd Hi]|[Hs|(r' & Hs & Hi)]]].
  - split; [exact Hd|by left].
  - destruct (register_bound _ _ _ _ _ _ _ Hwf Hb Hs) as [Hd [(-> & rec' & E & E1 & E2)|[Hne E]]];
      (split; [exact Hd|right]).
    + left. split; [done|]. exists rec'. split; [exact E|]. split; [done|congruence].
    + by right.
  - destruct (register_bound _ _ _ _ _ _ _ Hwf Hb Hs) as [Hd _]. split; [exact Hd|by left].
Qed.

(** An agent is enrolled only by a token that exists, was not consumed
    and had not expired, and the token is consumed together with it. *)
Theorem enrollment_needs_live_token h k e db rec :
  result_of (RegisterAgent h k) e db = Ok (rec, true) ->
  let db' := tables_after (RegisterAgent h k) e db in
  exists id t aid now,
    enrollment_tokens db !! id = Some t /\ tok_hash t = h /\ tok_consumed_at t = None
    /\ now < tok_expires_at t /\ agents db !! aid = None
    /\ rec = mkAgentRecord (uuid_String aid) k now None None
    /\ agents db' = <[aid := mkAgentRow k id now None None]> (agents db)
    /\ enrollment_tokens db' = <[id := consume_set now t]> (enrollment_tokens db).
Proof.
  intros Hok db'. apply (result_ok _ _ _ _ _ (RegisterAgent_ok _ _ _ _ _)) in Hok.
  inversion Hok as [| | | | |id t aid now [Ht Hh] Hc Hx Hn Hu E1 E2].
  exists id, t, aid, now. repeat split; try done; unfold db'; by rewrite <- E2.
Qed.

(** ** Sessions *)

(** C13: no sequence of logins, logouts and failures leaves an operator with
    more than eight sessions, and no two sessions share a token digest. *)
Theorem sessions_bounded db :
  reachable db ->
  (forall op, (length (sessions_of op db) <= 8)%nat) /\ unique_session_hashes db.
Proof.
  intros Hr%reachable_ok. destruct (wfs_sessions _ Hr) as [Hb Hu]. split; [|done].
  intros op. specialize (Hb op). unfold MaxActiveSessionsPerOperator in Hb. lia.
Qed.

(** A login of an enabled operator adds one session that lasts twelve
    hours and records it in the audit trail; of the operator's older sessions
    it drops the expired ones and keeps the newest seven, other operators'
    sessions being untouched. *)
Theorem login_keeps_newest opID h e db s :
  result_of (CreateOperatorSession opID h) e db = Ok s ->
  let db' := tables_after (CreateOperatorSession opID h) e db in
  exists op r sid now mid,
    uuid_Parse opID = Some op /\ operators db !! op = Some r /\ op_disabled_at r = None
    /\ pruned op now 7 db mid
    /\ operator_sessions mid !! sid = None
    /\ operator_sessions db' = <[sid := mkSessionRow op h now (now + 12 * 3600 * 1000000)]>
                                (operator_sessions mid)
    /\ length (operator_audit_events db') = S (length (operator_audit_events db)).
Proof.
  intros Hok db'. apply (result_ok _ _ _ _ _ (CreateOperatorSession_ok _ _ _ _ _)) in Hok.
  inversion Hok as [|op r sid aid now mid Hp Ho Hd Hpr Hn Hu Hl row E1 E2].
  exists op, r, sid, now, mid. unfold db'. rewrite <- E2.
  repeat (split; [done|]). simpl. rewrite length_app. simpl. lia.
Qed.

(** A session token authenticates only while its session is stored and
    unexpired and its operator is enabled with a known role, and it
    identifies exactly that operator. *)
Theorem session_authenticates h e db p :
  reachable db -> result_of (FindOperatorSessionByTokenHash h) e db = Ok p ->
  exists sid s o, operator_sessions db !! sid = Some s /\ se_token_hash s = h
    /\ env_now e 0 < se_expires_at s /\ operators db !! se_operator_id s = Some o
    /\ op_disabled_at o = None /\ Role_Valid (op_role o) = true
    /\ p = mkPrincipal (uuid_String (se_operator_id s)) (op_username o) (op_role o)
             (uuid_String sid) (se_expires_at s).
Proof.
  intros Hr Hok. destruct (wfs_sessions _ (reachable_ok _ Hr)) as [_ Hu].
  apply (result_ok _ _ _ _ _ (FindOperatorSession_ok _ _ _ _ Hu)) in Hok.
  inversion Hok as [sid s o (Hl & Hh & Hx & Ho & Hd) Hrole E1 E2|].
  exists sid, s, o. rewrite <- E2 in *. by repeat (split; [done|]).
Qed.

(** A revoked session's token no longer authenticates anyone. *)
Theorem revoked_session_refused sessionID opID username e db sid s :
  reachable db -> result_of (RevokeOperatorSession sessionID opID username) e db = Ok tt ->
  uuid_Parse sessionID = Some sid -> operator_sessions db !! sid = Some s ->
  let db' := tables_after (RevokeOperatorSession sessionID opID username) e db in
  forall e' p, result_of (FindOperatorSessionByTokenHash (se_token_hash s)) e' db' <> Ok p.
Proof.
  intros Hr Hok Hsid Hs db' e' p Hf.
  assert (reachable db') as Hr' by apply (reachable_call (CallRevokeOperatorSession sessionID opID username)), Hr.
  destruct (wfs_sessions _ (reachable_ok _ Hr)) as [_ Hu].
  destruct (wfs_sessions _ (reachable_ok _ Hr')) as [_ Hu'].
  apply (result_ok _ _ _ _ _ (RevokeOperatorSession_ok _ _ _ _ _ _)) in Hok. fold db' in Hok.
  apply (result_ok _ _ _ _ _ (FindOperatorSession_ok _ _ _ _ Hu')) in Hf.
  assert (operator_sessions db' = delete sid (operator_sessions db)) as Hd.
  { inversion Hok as [|sid' op s' aid t Hp Ho Hl Hop E1 E2]. simplify_eq. done. }
  inversion Hf as [sid1 s1 o (Hl1 & Hh & _) _ E3 E4|].
  rewrite Hd in Hl1. apply lookup_delete_Some in Hl1 as [Hne Hl1].
  apply Hne. by apply (Hu _ _ _ _ Hs Hl1).
Qed.

(** Reading the audit trail is itself recorded before the trail is read:
    the result is the newest [limit] records, newest first, of a trail that
    ends with the read. *)
Theorem audit_read_recorded opID username limit e db evs :
  result_of (RecordAndListAuditEvents opID username limit) e db = Ok evs ->
  let db' := tables_after (RecordAndListAuditEvents opID username limit) e db in
  (exists r, operator_audit_events db' = operator_audit_events db ++ [r]
     /\ au_actor_operator_id r = uuid_Parse opID /\ au_actor_username r = username
     /\ au_action r = ActionOperatorAuditRead /\ au_outcome r = OutcomeSuccess)
  /\ (exists sorted, Sorted audit_newer sorted /\ sorted ≡ₚ operator_audit_events db'
      /\ evs = audit_record <$> take (Z.to_nat limit) sorted)
  /\ 1 <= limit <= 200.
Proof.
  intros Hok db'. apply (result_ok _ _ _ _ _ (RecordAndListAuditEvents_ok _ _ _ _ _ _)) in Hok.
  inversion Hok as [op aid t evs' Hp Hl d Hpage E1 E2]. unfold db'. rewrite <- E2. split; [|by split].
  eexists. split; [reflexivity|]. simpl. by rewrite Hp.
Qed.

(** ** Reports *)

(** When no statement fails, the telemetry report of an enrolled agent
    that passed the wire validation is stored as the agent's one current
    snapshot, and nothing else changes. *)
Theorem telemetry_stored k r e db id a :
  reliable e -> find_agent k db = Some (id, a) ->
  ValidateTelemetryRequest (Some r) = None ->
  in_int64 (MemoryTotalBytes r) -> in_int64 (RootFilesystemTotalBytes r) ->
  result_of (RecordAgentTelemetry k (Some r)) e db = Ok tt
  /\ tables_after (RecordAgentTelemetry k (Some r)) e db
     = with_telemetry (<[id := mkTelemetryRow r (env_now e 0)]> (agent_telemetry db)) db.
Proof.
  intros [Hp Hf] Ha Hv Hm Hr. unfold result_of, tables_after, RecordAgentTelemetry.
  unfold mbind, M_bind, require_pool. rewrite Hp. unfold PoolQueryRow, or_fail, pool_stmt, mbind, M_bind.
  simpl. rewrite Hf. unfold upsert_telemetry. rewrite Ha.
  rewrite (valid_telemetry_checks r Hv Hm Hr). done.
Qed.

(** A heartbeat of an enrolled agent stamps its row and tells whether the
    agent has work: the hint is set exactly when a job of the agent is
    queued, dispatched or running. *)
Theorem heartbeat_hint_exact k v e db rec hint :
  result_of (RecordAgentHeartbeat k v) e db = Ok (rec, hint) ->
  exists id a, find_agent k db = Some (id, a)
    /\ tables_after (RecordAgentHeartbeat k v) e db
       = with_agents (<[id := seen_set (env_now e 0) v a]> (agents db)) db
    /\ (hint = true <-> exists jid j, jobs db !! jid = Some j /\ AgentID j = id /\ is_active j = true).
Proof.
  unfold result_of, tables_after, RecordAgentHeartbeat.
  unfold mbind, M_bind, require_pool. destruct (env_pool e); [|done].
  unfold PoolQueryRow, or_fail, pool_stmt, mbind, M_bind. simpl.
  destruct (env_fault e 0) eqn:Ef; [|done|]; unfold heartbeat_stmt;
    (destruct (negb (int4_param v)); [done|];
     destruct (find_agent k db) as [[id a]|]; [|done];
     destruct (negb _); [done|]); simpl; [|done].
  intros [= <- <-]. exists id, a. split; [done|]. split; [done|].
  unfold has_active_jobs, active_count. rewrite negb_true_iff, Z.eqb_neq. split.
  - intros Hne. destruct (rows_where _ db) as [|j l] eqn:E; [done|].
    assert (j ∈ j :: l) as Hin by apply list_elem_of_here. rewrite <- E in Hin.
    apply elem_of_rows_where in Hin as (jid & Hj & Hp). bsplit. exists jid, j.
    split; [done|]. split; [by apply N.eqb_eq|done].
  - intros (jid & j & Hj & Ha & Hact) E0.
    assert (j ∈ rows_where (fun j => N.eqb (AgentID j) id && is_active j) db) as Hin.
    { apply elem_of_rows_where. exists jid. by rewrite Hact, (proj2 (N.eqb_eq _ _) Ha). }
    destruct (rows_where _ db); [by apply elem_of_nil in Hin|simpl in E0; lia].
Qed.
End properties.

(** ** Instances at the concrete run *)

Definition agent1_record : AgentRecord := mkAgentRecord (hex_String agent1) (digest "k") 3000000 None None.

Lemma token_enrolls_one_key_witness :
  let db' := tables_after (RegisterAgent (digest "t") (digest "k")) (demo_env 3) db_token in
  tables_after (RegisterAgent (digest "t") (digest "x")) (demo_env 9) db' = db'.
Proof.
  intros db'.
  assert (result_of (RegisterAgent (digest "t") (digest "k")) (demo_env 3) db_token = Ok (agent1_record, true))
    as Hr by (vm_compute; reflexivity).
  pose proof (token_enrolls_one_key (digest "t") (digest "k") (demo_env 3) db_token agent1_record true db'
                reach_token Hr) as Hone.
  destruct (Hone (rtc_refl called db') (digest "x") (demo_env 9)) as [Hd _].
  exact Hd.
Defined.

Lemma enrollment_needs_live_token_witness :
  exists id t, enrollment_tokens db_token !! id = Some t /\ tok_consumed_at t = None.
Proof.
  assert (result_of (RegisterAgent (digest "t") (digest "k")) (demo_env 3) db_token = Ok (agent1_record, true)) as Hrun by (vm_compute; reflexivity).
  destruct (enrollment_needs_live_token (digest "t") (digest "k") (demo_env 3) db_token agent1_record
              Hrun) as (id & t & aid & now & Ht & _ & Hc & _).
  exists id, t. split; [exact Ht|exact Hc].
Defined.

Lemma sessions_bounded_witness : (length (sessions_of alice db_login) <= 8)%nat.
Proof. apply (sessions_bounded db_login reach_login). Defined.

Definition alice_session : SessionRecord :=
  mkSessionRecord (hex_String session1) alice_text 8000000 43208000000.

Lemma login_keeps_newest_witness :
  exists op r, operators db_done !! op = Some r /\ op_disabled_at r = None.
Proof.
  assert (result_of (CreateOperatorSession alice_text (digest "s")) (demo_env 8) db_done = Ok alice_session) as Hrun by (vm_compute; reflexivity).
  destruct (login_keeps_newest alice_text (digest "s") (demo_env 8) db_done alice_session
              Hrun) as (op & r & sid & now & mid & _ & Ho & Hd & _).
  exists op, r. split; [exact Ho|exact Hd].
Defined.

Definition alice_principal : Principal :=
  mkPrincipal alice_text "alice" "operator" (hex_String session1) 43208000000.

Lemma session_authenticates_witness :
  exists sid s, operator_sessions db_login !! sid = Some s /\ se_token_hash s = digest "s".
Proof.
  destruct (session_authenticates (digest "s") (demo_env 9) db_login alice_principal reach_login
              ltac:(vm_compute; reflexivity)) as (sid & s & o & Hs & Hh & _).
  exists sid, s. split; [exact Hs|exact Hh].
Defined.

Definition alice_session_row : SessionRow := mkSessionRow alice (digest "s") 8000000 43208000000.

Lemma revoked_session_refused_witness :
  result_of (FindOperatorSessionByTokenHash (digest "s")) (demo_env 10)
    (tables_after (RevokeOperatorSession (hex_String session1) alice_text "alice") (demo_env 9) db_login)
  <> Ok alice_principal.
Proof.
  assert (result_of (RevokeOperatorSession (hex_String session1) alice_text "alice") (demo_env 9) db_login = Ok tt)
    as Hrun by (vm_compute; reflexivity).
  apply (revoked_session_refused (hex_String session1) alice_text "alice" (demo_env 9) db_login session1
           alice_session_row reach_login Hrun ltac:(vm_compute; reflexivity)
           ltac:(vm_compute; reflexivity) (demo_env 10) alice_principal).
Defined.

Definition audit_read_result : list AuditEventRecord :=
  match result_of (RecordAndListAuditEvents alice_text "alice" 2) (demo_env 9) db_login with
  | Ok evs => evs
  | Err _ => []
  end.

Lemma audit_read_recorded_witness :
  exists r, operator_audit_events
    (tables_after (RecordAndListAuditEvents alice_text "alice" 2) (demo_env 9) db_login)
    = operator_audit_events db_login ++ [r] /\ au_actor_username r = "alice".
Proof.
  assert (result_of (RecordAndListAuditEvents alice_text "alice" 2) (demo_env 9) db_login = Ok audit_read_result) as Hrun by (vm_compute; reflexivity).
  destruct (audit_read_recorded alice_text "alice" 2 (demo_env 9) db_login audit_read_result
              Hrun) as [(r & Hr & _ & Hu & _) _].
  exists r. split; [exact Hr|exact Hu].
Defined.

Definition agent1_row : AgentRow := mkAgentRow (digest "k") 2000%N 3000000 None None.

Lemma telemetry_stored_witness :
  result_of (RecordAgentTelemetry (digest "k") (Some telemetry_demo)) (demo_env 9) db_agent = Ok tt.
Proof.
  assert (find_agent (digest "k") db_agent = Some (agent1, agent1_row)) as Ha by (vm_compute; reflexivity).
  apply (telemetry_stored (digest "k") telemetry_demo (demo_env 9) db_agent agent1 agent1_row (demo_reliable 9) Ha
           ltac:(vm_compute; reflexivity));
    unfold in_int64, MaxInt64; simpl; lia.
Defined.

Lemma heartbeat_hint_exact_witness :
  exists jid j, jobs db_job !! jid = Some j /\ is_active j = true.
Proof.
  assert (result_of (RecordAgentHeartbeat (digest "k") 2) (demo_env 9) db_job
    = Ok (agent_record agent1 (seen_set 9000000 2 agent1_row), true)) as Hrun by (vm_compute; reflexivity).
  destruct (heartbeat_hint_exact (digest "k") 2 (demo_env 9) db_job
              (agent_record agent1 (seen_set 9000000 2 agent1_row)) true Hrun)
    as (id & a & _ & _ & Hh).
  destruct (proj1 Hh eq_refl) as (jid & j & Hj & _ & Hact). exists jid, j. split; [exact Hj|exact Hact].
Defined.
